(* ===== verification/_CoqProject ===== *)
-Q . S2P
Prelude.v
F64.v
Json.v
JsonPred.v
Fault.v
Models.v
Policy.v
Spec.v
Tables.v
Cond.v
Stops.v
Scheduler.v
Parks.v
Runs.v
Ops.v
Invariant.v
Preserve.v
PreserveRuns.v
Create.v
Reach.v
Safety.v
Progress.v
AgainFacts.v
Life.v
Claims.v
Sample.v
LifeWitnesses.v
RunFacts.v
SpecFacts.v
Gangs.v
Admission.v
Witnesses.v
CiExpr.v
CiEval.v
CiScript.v
CiHostFacts.v
CiScriptFacts.v
CiGrammar.v
CiParseFacts.v
CiGlob.v
CiGlobFacts.v
CiUses.v
CiMatrix.v
CiWitnesses.v
Expand.v
ExpandFacts.v
ExpandOrder.v
Fanout.v
FanoutFacts.v
History.v
FanoutWitnesses.v
State.v
StateMove.v
StateExplain.v
StateFacts.v
Plan.v
PlanFacts.v
Isolation.v
IsolationFacts.v
Workspace.v
WorkspaceFacts.v
Service.v
Graph.v
GraphFacts.v
GraphRuns.v
Envpolicy.v
EnvpolicyFacts.v
Confine.v
ConfineFacts.v
Protected.v
ProtectedFacts.v
GatesAccepted.v
ConfineWitnesses.v
Cron.v
CronFacts.v
Schedule.v
ScheduleFacts.v
CronWitnesses.v
Nodelist.v
Ratelimit.v
