(* ===== verification/Prelude.v ===== *)
(** * dagron: a verification development

    dagron is a workflow engine: a specification in YAML becomes a graph of tasks, a run of
    it is rows in a store, engines advance those rows and workers claim and report them.
    Everything that makes a run correct is decided by the store's operations, most of which
    are one database transaction each; they are what most of this development is about.  Around
    them stand pure parts, the specification's values, conditions and templates, fault
    classes and retry budgets, quota waits, predicates over status documents, and the
    expression language of CI workflows, each modelled and proved on its own.

    ** The parts, and the code they are

    The store ([src/crates/dagron-core/src/db/sqlite.rs], with [db.rs] and [models.rs]):
    - [Models]: the statuses, trigger rules and answers; [Tables]: the tables, as finite
      maps, and SQL statements, as updates of the rows a predicate selects; the type class
      [World] gathers what the store uses of code outside the repository.
    - [Stops]: cancels, deadlines, settlement of the tasks a cancel asks, teardown claims.
    - [Scheduler]: lease recovery, both paths of an advance, pooled and gang claims, and
      every report a worker makes under a claim.
    - [Parks]: approvals, sub-workflows, sensors and external jobs, parked and resolved.
    - [Runs]: [create_run_full], admission of waiting runs, the reaper.
    - [Ops]: the retry of a task, reruns of a run and the clear of a task with what depends
      on it, which put tasks back to run again.
    The pure parts of [dagron-core]: [Fault] ([fault.rs] and the retry rules of
    [models.rs]), [Policy] ([quota_wait.rs], [attempt_log.rs]), [Spec] ([dag.rs] and the
    specs it holds), [Cond] ([expand.rs]: [substitute], [eval_when]), [Expand]
    ([expand.rs]: the expansion of calls, fan-outs and guards into a flat workflow, and the
    instances of a fan-out at run time), [JsonPred] ([jsonpred.rs]); [F64] and [Json] are
    what they use of numbers and documents.
    What a run has to pass before it is made: [Graph] ([DagGraph::from_spec] of [dag.rs], its
    cycle test behind an interface), [Isolation] ([isolation.rs]), [Workspace]
    ([workspace.rs]), [Service] ([service.rs], [docker_daemon.rs], [oidc.rs],
    [forge_token.rs], [tokens.rs]), [Envpolicy] ([envpolicy.rs]), [Confine] ([confine.rs],
    [privileged.rs]) and [Protected] ([protected.rs], and [create_run_full] from the
    specification on).  [Fanout] is the sweep of parked fan-outs ([reconcile_fanouts] of
    [sqlite.rs]), its transactions each a definition.
    The expression language ([src/crates/dagron-ci-expr/src]): [CiExpr] (lexer and parser),
    [CiEval] (contexts, functions, evaluation), [CiScript] (texts with expressions, the
    script of a step), [CiGlob] (globs and pattern lists), [CiMatrix] (a job's matrix),
    [CiUses] (what [uses:] names).
    State plans ([src/crates/dagron-state/src]): [State] (the wire, and [compile]), [StateMove]
    ([moves.rs]), [StateExplain] ([explain.rs]).  The difference of two workflows
    ([src/crates/dagron-plan/src/lib.rs]): [Plan].
    The names of a hostlist ([src/crates/dagron-autopsy/src/nodelist.rs]): [Nodelist].
    The limit on logins ([src/crates/dagron-api/src/ratelimit.rs]): [Ratelimit], with its
    theorems.
    The schedules of a CI server ([src/crates/dagron-ci/src]): [Cron] ([cron.rs]), [Schedule]
    ([schedule.rs] and what it asks of [db.rs]).

    A name in brackets is a file's, or a Module's of the file it is proved beside: [CondFacts]
    is in [SpecFacts], [Bounds] in [Gangs], [Findings] in [LifeWitnesses], [CiFuel] in
    [CiHostFacts], [CronFieldFacts] in [CronFacts], [ScheduleSystem] in [ScheduleFacts], and
    the witnesses of [State], [Graph] and [Expand] in [StateFacts], [GraphRuns] and
    [ExpandOrder], those of [History] in [FanoutWitnesses], and [NodelistFacts] in [Nodelist].

    A definition has the name of the function, method or type it translates; where the code
    is one function with a loop or a statement worth a name, the parts are named after what
    they do, and the comment before each says where it is from.

    ** State, steps and concurrency

    A store operation is a function of the clock's reading and the store, and gives the
    store after it; one that is refused, or whose transaction rolls back, gives the store it
    was given.  SQLite's write transactions are serial, so that a history of the system is a
    sequence of them.  Most operations are one.  The sweeps (an advance, the reaper, the ends
    of stopped runs, expired approvals, the resolution of sensors and sub-workflows, the
    claims of polls) are a read and then a statement or a transaction of each row it gave,
    with those of others between: their definitions are what they do when nothing comes
    between, and [Reach] has their parts as steps of their own too, applied to what was read
    of an earlier store ([Reach.late_settle] puts an advance's reads and its write together).
    Three relations say what a history is:
    - [Reach]: every operation but those of [Ops] and of [Fanout] is a step, whole and in its
      parts, with arbitrary arguments, from any caller, in any order: an engine or a worker
      that dies is one that makes no more steps, and two engines are two callers.
    - [Life] adds the operations of [Ops] under the conditions of [Life.again], under which
      they do as their comments say: no task of the run is asked to stop; for a clear or a
      retry the run has its place; for a retry nothing of the run is pending, and the task is
      no fan-out's barrier and is owed no teardown.  The code asks for none of them.
    - [History] has all of it: the steps of [Reach], what a sweep writes of a row whatever it
      read of it, the transactions of [Fanout], and the operations of [Ops] in whatever state
      a run is.  The one thing asked of it is that new rows take ids never drawn before.
    An engine's tick and a worker's loop are such sequences; the asynchronous code
    that issues them ([dagron-engine], [dagron-runner]) is not modelled.  [Schedule] goes
    further for the replicas of a CI server: a replica's reads, its clock and its write are
    steps of their own, between which any other replica's may come.
    What the store uses of code outside the repository is [World]'s, and what it relies on
    of it two laws: [ScanLaw], a read meets each row once, and [WhenLaw], a task is written
    with its [when] under that name and reads back with it (of texts the store wrote, not of
    any text: that its rows have such texts is [History.reachable_written]).

    ** What the theorems show

    - [Invariant], [Preserve], [PreserveRuns], [Create]: an invariant of the store (the
      shape of a row, edges within a run, the count of open dependencies on each pending
      row, the tasks of a stopped run, trigger rules) and that every operation keeps it.
      [Again] in it names the runs that had tasks put back, where less is kept.
    - [History], of every history there is: a claim that is spent stays spent and its reports
      are refused, a task put back is nobody's, an outcome is final until the task is put
      back, a fan-out is expanded once a generation and ended once until it is put back; and
      the fast path of an advance does to a row what the general one would.  [Safety]: a
      report under a spent claim changes nothing; a gate is decided once.
    - [Life], of its histories: no task starts before its trigger rule lets it in a run of
      which nothing was put back, the counts are right, a run has a next move, a clear takes
      the cone, a rerun leaves its run with a next move and keeps its cap.  [Findings]
      evaluates histories outside its conditions, where the code does what its comments say
      it does not: a retry that skips what waits for it, goes round a gate, or leaves the
      poll of a remote job to end the next attempt.
    - [Progress], [AgainFacts]: an advance leaves nothing ready behind, and what the operations
      of [Ops] do to a store, on which [Life] and [History] rest.
    - [Claims], [Gangs], [RunFacts], [Admission], [Bounds]: what a claim takes and what of a
      pool it leaves, gangs whole or not at all, how a run is written, ended and cancelled,
      who is let in under a cap, how many attempts are kept.
    - [CondFacts], [SpecFacts], and the theorems of [Fault], [Policy] and [JsonPred]: what a
      condition and a template mean, what values read as, classification as its table says,
      bounded waits, parse and print.
    - [ExpandFacts]: an expansion is flat and within its ceiling; the instances of a fan-out
      are distinct.  [ExpandOrder]: where nothing is skipped and no list of tasks is empty,
      all a task becomes waits for all its dependencies became; [ExpandWitnesses] has what a
      skipped task, or an empty template, takes with it.
    - [CiGrammar], [CiParseFacts]: [parse] accepts exactly a grammar, its bounds on depth and
      height included.  [CiHostFacts], [CiScriptFacts]: what [pasted] accepts has one value
      whatever an outsider chooses, and the script a step is handed reads the rest from
      variables only.  [CiGlobFacts]: the matcher with its table computes what a pattern
      means.  [CiMatrix], [CiUses]: distinct labels, the combinations of a matrix, the
      directory of an action.
    - [FanoutFacts]: an expansion makes what was planned, where no task of the run has an
      instance's name, and its barrier ends when and as its instances do.
    - [GraphFacts], [GraphRuns]: what [from_spec] takes is well formed, stays accepted, and
      can be made into a run exactly where the names of its rows are distinct.
    - [IsolationFacts], [WorkspaceFacts]: a floor only raises, an envelope's text is read back,
      sizes are exact, directories stay where they are put.
    - [EnvpolicyFacts], [ConfineFacts], [ProtectedFacts], [GatesAccepted]: what a policy admits;
      what a run that is not trusted is held to; a task of a protected environment waits for
      its approval, while nothing of its run is put back, and the gate made for it never has
      the run refused.  [ConfineWitnesses] has a rejection that is not heeded, and a retry
      that goes round a gate.
    - [CronFacts], [CronFieldFacts]: the calendar, the search for the next fire, and what the
      text of a cron says.  [ScheduleFacts], [ScheduleSystem]: however replicas interleave, no
      schedule fires twice at a time, one that stays in the files fires five minutes apart,
      and one that is due when it is looked at fires.
    - [NodelistFacts]: a hostlist is the product of its ranges, under a budget of names.
    - [Ratelimit]: a client's answers are its own, the sweep is not seen, and no more than
      twice the limit is let in in any time as long as a window.
    - [StateFacts]: a plan compiles to a workflow in order and with distinct names, that
      waits for what its planner says; placeholders are filled in once; a move is chains of
      its own names and variables; the diagram's ids are free.  [PlanFacts]: no change is
      reported exactly where nothing compared differs.
    - The files named [...Witnesses]: each theorem that has a hypothesis, applied to a
      concrete input; [Sample] has the world and the runs they use.

    ** Fuel

    A loop that is not structural takes fuel, a bound on its rounds computed from its
    argument: the room left of [MAX_DEPTH] for [Expand.expand_call], whose running out is the
    code's own refusal; the length of the text for the loops of [Cond], [CiExpr], [CiScript] and
    [CiGlob], which take of it in every round ([CondFacts], [CiFuel], [CiGlobFacts] show that
    more fuel changes nothing, and [CiScriptFacts] and [CiParseFacts] that the result is the
    whole text's); the text and the tokens ahead for [CiGlob]'s matcher, where running out
    would be [None] and is shown not to happen; one place more than there are labels for
    [CiMatrix]'s; the number of edges for [Ops.cone], whose rounds each spend one
    ([AgainFacts] shows it is the whole cone); one more than there are runs for the reaper's
    slices, each of which passes one; one more than there are names taken for the search for a
    free task name, two more than there are tasks for a diagram's id, which [StateFacts] shows
    to be enough; the length of the template for [State.expand];
    the minutes of five years, and one, for the search of [Cron.next], each of whose rounds
    passes one ([CronFacts] shows it always ends within them).

    ** Numbers and text

    Text is its UTF-8 bytes ([Prelude]), and what the code does by characters is done over
    the encoding; [CiGlob] is over characters, as its code is.  Integers are [Z] or [N] with
    the width's bounds written where they matter (saturation, [try_from], parsing); floats
    are IEEE 754 binary64 ([F64]).  Times are nanoseconds, within chrono's range where the
    code can pass it.

    ** Not modelled, and why

    - The Postgres store ([db/postgres.rs]): its transactions interleave under row locks,
      which needs a model of them; the statements are otherwise those of SQLite.
    - The sweep of teardowns, and the metrics, events and log batches the operations of a
      store leave behind them.
    - Of [dagron-ci], what reads workflow files and forges, reports to them and serves them:
      a schedule's crons and a repository's head are answers a look is given.
    - Notifications, metrics, the archive, logs in object stores and the event relay are
      input and output around the operations.
    - The engine, executors, runners, the HTTP services and the CI server: asynchronous
      code and input and output around the parts above. *)

From Stdlib Require Export Ascii String ZArith Lia Bool.
From stdpp Require Export base tactics list gmap strings sets.

Set Default Proof Using "Type".

(** ** Text

    A Rust [String] or [&str] is its UTF-8 bytes.  Byte offsets, [len] and slices of the
    source are then [length], [take] and [drop] of the list. *)

Abbreviation str := (list ascii).

Declare Scope rust_scope.
Delimit Scope rust_scope with rust.
Open Scope rust_scope.

Definition lit (s : string) : str := String.list_ascii_of_string s.
Notation "$ s" := (lit s%string) (at level 1, s at level 0, format "$ s") : rust_scope.

(** ** Fallible code *)

Inductive result (E A : Type) : Type :=
| Ok (a : A)
| Err (e : E).
Arguments Ok {E A} a.
Arguments Err {E A} e.

Notation "'let?' x := r 'in' k" :=
  (match r with Ok x => k | Err e => Err e end)
  (at level 10, x pattern, r at level 100, k at level 200) : rust_scope.

Notation "'let*' x := o 'in' k" :=
  (match o with Some x => k | None => None end)
  (at level 10, x pattern, o at level 100, k at level 200) : rust_scope.

Definition is_ok {E A} (r : result E A) : bool :=
  match r with Ok _ => true | Err _ => false end.

Definition result_ok {E A} (r : result E A) : option A :=
  match r with Ok a => Some a | Err _ => None end.

Definition ok_or {E A} (e : E) (o : option A) : result E A :=
  match o with Some a => Ok a | None => Err e end.

Definition map_err {E F A} (f : E -> F) (r : result E A) : result F A :=
  match r with Ok a => Ok a | Err e => Err (f e) end.

(** Running a fallible check over a list, the [for ... { check?; }] of the source. *)
Fixpoint for_each {E A} (f : A -> result E unit) (l : list A) : result E unit :=
  match l with
  | [] => Ok tt
  | x :: l => let? _ := f x in for_each f l
  end.

(** ** Bytes *)

Definition code (c : ascii) : N := N_of_ascii c.
Definition in_range (lo hi : N) (c : ascii) : bool := (lo <=? code c)%N && (code c <=? hi)%N.
Definition ch (c d : ascii) : bool := Ascii.eqb c d.

Definition NL : ascii := "010"%char.
Definition CR : ascii := "013"%char.
Definition QUOTE : ascii := "034"%char.
Definition APOS : ascii := "039"%char.

Definition is_lower (c : ascii) : bool := in_range 97 122 c.
Definition is_upper (c : ascii) : bool := in_range 65 90 c.
Definition is_digit (c : ascii) : bool := in_range 48 57 c.
Definition is_alpha (c : ascii) : bool := is_lower c || is_upper c.
Definition is_alnum (c : ascii) : bool := is_alpha c || is_digit c.
Definition is_hexdigit (c : ascii) : bool := is_digit c || in_range 65 70 c || in_range 97 102 c.
(** [u8::is_ascii_whitespace]: no vertical tab. *)
Definition is_ascii_ws (c : ascii) : bool :=
  in_range 9 10 c || in_range 12 13 c || (code c =? 32)%N.
Definition is_cont (c : ascii) : bool := in_range 128 191 c.

Definition lower (c : ascii) : ascii := if is_upper c then ascii_of_N (code c + 32) else c.
Definition upper (c : ascii) : ascii := if is_lower c then ascii_of_N (code c - 32) else c.
(** [str::to_ascii_lowercase] and [to_ascii_uppercase]. *)
Definition to_lower (s : str) : str := map lower s.
Definition to_upper (s : str) : str := map upper s.
Definition eq_ignore_case (a b : str) : bool := bool_decide (to_lower a = to_lower b).

(** [char::is_whitespace] on the UTF-8 encoding: the code points of one, two and three
    bytes that are white space.  In UTF-8 text a lead byte begins a character wherever it
    stands, so matching the encodings at every offset matches whole characters. *)
Definition ws1 (a : ascii) : bool := in_range 9 13 a || (code a =? 32)%N.
Definition ws2 (a b : ascii) : bool :=
  (code a =? 194)%N && ((code b =? 133)%N || (code b =? 160)%N).
Definition ws3 (a b c : ascii) : bool :=
  ((code a =? 225)%N && (code b =? 154)%N && (code c =? 128)%N)
  || ((code a =? 226)%N && (code b =? 128)%N
      && (in_range 128 138 c || in_range 168 169 c || (code c =? 175)%N))
  || ((code a =? 226)%N && (code b =? 129)%N && (code c =? 159)%N)
  || ((code a =? 227)%N && (code b =? 128)%N && (code c =? 128)%N).

(** [char::is_control]: U+0000..1F, U+007F..9F. *)
Definition ctl1 (a : ascii) : bool := (code a <=? 31)%N || (code a =? 127)%N.
Definition ctl2 (a b : ascii) : bool := (code a =? 194)%N && in_range 128 159 b.

(** [s.chars().any(char::is_whitespace)] and the same for [char::is_control]. *)
Fixpoint any_ws (s : str) : bool :=
  match s with
  | [] => false
  | a :: s' =>
      ws1 a
      || match s' with
         | b :: s'' => ws2 a b || match s'' with c :: _ => ws3 a b c | [] => false end
         | [] => false
         end
      || any_ws s'
  end.

Fixpoint any_ctl (s : str) : bool :=
  match s with
  | [] => false
  | a :: s' => ctl1 a || match s' with b :: _ => ctl2 a b | [] => false end || any_ctl s'
  end.

(** [s.chars().count()]: the bytes that begin a character. *)
Definition char_count (s : str) : nat := length (filter (fun c => is_cont c = false) s).

(** The first [n] characters, [s.chars().take(n).collect()]. *)
Fixpoint take_chars (n : nat) (s : str) : str :=
  match s with
  | [] => []
  | c :: s => if is_cont c then c :: take_chars n s
              else match n with O => [] | S n => c :: take_chars n s end
  end.

(** [trim_start] and [trim_end], by the same walk: forwards with the encodings as they
    stand, backwards over the reversed text with them reversed. *)
Fixpoint trim_with (w2 : ascii -> ascii -> bool) (w3 : ascii -> ascii -> ascii -> bool)
    (s : str) : str :=
  match s with
  | [] => []
  | a :: s1 =>
      if ws1 a then trim_with w2 w3 s1
      else match s1 with
           | [] => s
           | b :: s2 =>
               if w2 a b then trim_with w2 w3 s2
               else match s2 with
                    | [] => s
                    | c :: s3 => if w3 a b c then trim_with w2 w3 s3 else s
                    end
           end
  end.

Definition trim_start (s : str) : str := trim_with ws2 ws3 s.
Definition trim_end (s : str) : str :=
  rev (trim_with (fun b a => ws2 a b) (fun c b a => ws3 a b c) (rev s)).
Definition trim (s : str) : str := trim_end (trim_start s).

(** [s.trim_end_matches(c)], [s.trim_matches(c)]. *)
Fixpoint trim_start_char (p : ascii) (s : str) : str :=
  match s with c :: s' => if ch c p then trim_start_char p s' else s | [] => [] end.
Definition trim_end_char (p : ascii) (s : str) : str := rev (trim_start_char p (rev s)).
Definition trim_char (p : ascii) (s : str) : str := trim_end_char p (trim_start_char p s).

(** ** Searching and splitting *)

Fixpoint strip_prefix (p s : str) : option str :=
  match p, s with
  | [], _ => Some s
  | a :: p, b :: s => if ch a b then strip_prefix p s else None
  | _ :: _, [] => None
  end.
Definition starts_with (p s : str) : bool :=
  match strip_prefix p s with Some _ => true | None => false end.
Definition strip_suffix (p s : str) : option str :=
  option_map (@rev ascii) (strip_prefix (rev p) (rev s)).
Definition ends_with (p s : str) : bool :=
  match strip_suffix p s with Some _ => true | None => false end.

(** [s.find(p)]: the offset of the first occurrence. *)
Fixpoint find (p s : str) : option nat :=
  if starts_with p s then Some 0
  else match s with [] => None | _ :: s => option_map S (find p s) end.
Definition contains (p s : str) : bool :=
  match find p s with Some _ => true | None => false end.

Fixpoint find_char (c : ascii) (s : str) : option nat :=
  match s with
  | [] => None
  | d :: s => if ch c d then Some 0 else option_map S (find_char c s)
  end.
Definition contains_char (c : ascii) (s : str) : bool := existsb (ch c) s.

(** [s.split_once(p)]. *)
Definition split_once (p s : str) : option (str * str) :=
  option_map (fun i => (take i s, drop (i + length p) s)) (find p s).

(** [s.split(c)]: at least one piece. *)
Fixpoint split_char (c : ascii) (s : str) : list str :=
  match s with
  | [] => [[]]
  | d :: s =>
      let rest := split_char c s in
      if ch c d then [] :: rest
      else match rest with p :: ps => (d :: p) :: ps | [] => [[d]] end
  end.

(** One text before another, by bytes. *)
Fixpoint str_leb (a b : str) : bool :=
  match a, b with
  | [], _ => true
  | _ :: _, [] => false
  | x :: a, y :: b => (code x <? code y)%N || ((code x =? code y)%N && str_leb a b)
  end.

Definition str_le (a b : str) : Prop := str_leb a b = true.
#[export] Instance str_le_dec : RelDecision str_le := fun a b => decide (str_leb a b = true).

(** [v.join(sep)]. *)
Fixpoint join (sep : str) (l : list str) : str :=
  match l with
  | [] => []
  | [x] => x
  | x :: l => x ++ sep ++ join sep l
  end.

(** [s.split_whitespace()]. *)
Fixpoint split_ws (fuel : nat) (s : str) : list str :=
  match fuel with
  | O => []
  | S fuel =>
      let s := trim_start s in
      match s with
      | [] => []
      | _ =>
          let fix word (t : str) : str * str :=
            match t with
            | [] => ([], [])
            | a :: t' =>
                if bool_decide (trim_start t = t) then
                  let '(w, r) := word t' in (a :: w, r)
                else ([], t)
            end in
          let '(w, r) := word s in w :: split_ws fuel r
      end
  end.
Definition split_whitespace (s : str) : list str := split_ws (S (length s)) s.

(** [s.replace(c, r)] for a one-byte [c]. *)
Definition replace_char (c : ascii) (r s : str) : str :=
  flat_map (fun d => if ch c d then r else [d]) s.

(** [s.lines()]: pieces ended by a line feed, that and a carriage return before it taken
    off; a last piece without one is a line too, unless it is empty. *)
Definition strip_cr (l : str) : str :=
  match strip_suffix [CR] l with Some l => l | None => l end.
Fixpoint lines_go (pieces : list str) : list str :=
  match pieces with
  | [] => []
  | [last] => match last with [] => [] | _ => [last] end
  | l :: ls => strip_cr l :: lines_go ls
  end.
Definition lines (s : str) : list str := lines_go (split_char NL s).

(** ** Integers as text *)

Definition digit_of (n : N) : ascii := ascii_of_N (48 + n).
Definition digit_val (c : ascii) : N := code c - 48.

Fixpoint show_fuel (fuel : nat) (n : N) : str :=
  match fuel with
  | O => []
  | S fuel => if (n <? 10)%N then [digit_of n]
              else show_fuel fuel (n / 10)%N ++ [digit_of (n mod 10)%N]
  end.
(** [n.to_string()]. *)
Definition show_N (n : N) : str := show_fuel (S (N.size_nat n)) n.
Definition show_nat (n : nat) : str := show_N (N.of_nat n).
Definition show_Z (z : Z) : str :=
  if (z <? 0)%Z then $"-" ++ show_N (Z.to_N (- z)) else show_N (Z.to_N z).

Definition digits_val (acc : N) (s : str) : N :=
  fold_left (fun a c => (a * 10 + digit_val c)%N) s acc.
Definition parse_digits (s : str) : option N :=
  match s with
  | [] => None
  | _ => if forallb is_digit s then Some (digits_val 0 s) else None
  end.

(** [s.parse::<uN>()] for an unsigned type whose largest value is [max]: a leading [+]
    is allowed, a leading [-] is not. *)
Definition parse_unsigned (max : N) (s : str) : option N :=
  let s := match s with c :: s' => if ch c "+" then s' else s | [] => s end in
  let* n := parse_digits s in
  if (n <=? max)%N then Some n else None.

(** [s.parse::<iN>()] for a signed type of the range [lo..hi]. *)
Definition parse_signed (lo hi : Z) (s : str) : option Z :=
  let* z := match s with
            | c :: s' => if ch c "-" then option_map (fun n => (- Z.of_N n)%Z) (parse_digits s')
                         else if ch c "+" then option_map Z.of_N (parse_digits s')
                         else option_map Z.of_N (parse_digits s)
            | [] => None
            end in
  if (lo <=? z)%Z && (z <=? hi)%Z then Some z else None.

Definition U32_MAX : N := 4294967295.
Definition U64_MAX : N := 18446744073709551615.
Definition I64_MIN : Z := -9223372036854775808.
Definition I64_MAX : Z := 9223372036854775807.
Definition parse_u32 := parse_unsigned U32_MAX.
Definition parse_u64 := parse_unsigned U64_MAX.
Definition parse_i64 := parse_signed I64_MIN I64_MAX.

(** ** Lemmas *)

Create HintDb rust.
Create Rewrite HintDb rust.

Lemma ch_eq a b : ch a b = true <-> a = b.
Proof. apply Ascii.eqb_eq. Qed.

Lemma ch_refl a : ch a a = true.
Proof. by apply ch_eq. Qed.

Lemma strip_prefix_Some p s r : strip_prefix p s = Some r <-> s = p ++ r.
Proof.
  revert s; induction p as [|a p IH]; intros s; simpl.
  - split; [by intros [= ->]|by intros ->].
  - destruct s as [|b s]; [done|]. destruct (ch a b) eqn:E.
    + apply ch_eq in E as ->. rewrite IH. split; [by intros ->|by intros [= ->]].
    + split; [done|]. intros [= -> ->]. by rewrite ch_refl in E.
Qed.

Lemma starts_with_spec p s : starts_with p s = true <-> exists r, s = p ++ r.
Proof.
  unfold starts_with. destruct (strip_prefix p s) eqn:E.
  - apply strip_prefix_Some in E. split; eauto.
  - split; [done|]. intros [r Hr%strip_prefix_Some]. congruence.
Qed.

Lemma strip_suffix_Some p s r : strip_suffix p s = Some r <-> s = r ++ p.
Proof.
  unfold strip_suffix. split.
  - destruct (strip_prefix (rev p) (rev s)) as [t|] eqn:E; [|done].
    intros [= <-]. apply strip_prefix_Some in E.
    rewrite <- (rev_involutive s), E, rev_app_distr, rev_involutive. done.
  - intros ->. rewrite rev_app_distr.
    replace (strip_prefix (rev p) (rev p ++ rev r)) with (Some (rev r))
      by (symmetry; by apply strip_prefix_Some).
    simpl. by rewrite rev_involutive.
Qed.

Lemma find_Some p s i :
  find p s = Some i -> exists r, s = take i s ++ p ++ r /\ i <= length s.
Proof.
  revert i; induction s as [|a s IH]; intros i; simpl.
  - destruct (starts_with p []) eqn:E; [|done]. intros [= <-].
    apply starts_with_spec in E as [r Hr]. exists r. simpl. split; [done|lia].
  - destruct (starts_with p (a :: s)) eqn:E.
    + intros [= <-]. apply starts_with_spec in E as [r Hr]. exists r. split; [done|lia].
    + destruct (find p s) as [j|] eqn:Ef; [|done]. intros [= <-].
      destruct (IH j eq_refl) as (r & Hr & Hj). exists r. simpl. split; [|lia]. by rewrite <- Hr.
Qed.

Lemma find_first p s i a r :
  find p s = Some i -> s = a ++ p ++ r -> i <= length a.
Proof.
  revert i a; induction s as [|c s IH]; intros i a; simpl.
  - destruct (starts_with p []); [|done]. intros [= <-]. lia.
  - destruct (starts_with p (c :: s)) eqn:E; [intros [= <-]; lia|].
    destruct (find p s) as [j|] eqn:Ef; [|done]. intros [= <-] Hs.
    destruct a as [|x a]; simpl in *.
    + exfalso. assert (starts_with p (c :: s) = true) by (apply starts_with_spec; eauto). congruence.
    + injection Hs as -> ->. specialize (IH j a eq_refl eq_refl). lia.
Qed.

Lemma find_None p s : find p s = None -> forall a r, s <> a ++ p ++ r.
Proof.
  induction s as [|c s IH]; simpl; intros H a r Hs.
  - destruct (starts_with p []) eqn:E; [done|].
    assert (starts_with p [] = true); [|congruence].
    apply starts_with_spec. by destruct a, p.
  - destruct (starts_with p (c :: s)) eqn:E; [done|].
    destruct (find p s) as [j|] eqn:Ef; [done|].
    destruct a as [|x a]; simpl in *.
    + assert (starts_with p (c :: s) = true) by (apply starts_with_spec; eauto). congruence.
    + injection Hs as -> ->. by eapply IH.
Qed.

Lemma contains_spec p s : contains p s = true <-> exists a r, s = a ++ p ++ r.
Proof.
  unfold contains. destruct (find p s) as [i|] eqn:E.
  - apply find_Some in E as (r & Hr & _). split; eauto.
  - split; [done|]. intros (a & r & Hs). by apply (find_None _ _ E a r) in Hs.
Qed.

Lemma split_once_Some p s a b :
  split_once p s = Some (a, b) -> s = a ++ p ++ b /\ forall c d, s = c ++ p ++ d -> length a <= length c.
Proof.
  unfold split_once. destruct (find p s) as [i|] eqn:E; [|done]. intros [= <- <-].
  pose proof (find_Some _ _ _ E) as (r & Hr & Hi).
  assert (length (take i s) = i) as Hl by (rewrite length_take; lia).
  split.
  - rewrite Hr at 1. f_equal. f_equal. rewrite Hr at 1.
    rewrite app_assoc, drop_app_ge; rewrite length_app, Hl; [|done].
    by rewrite Nat.sub_diag, drop_0.
  - intros c d Hs. rewrite Hl. by eapply find_first.
Qed.

(** Splitting on a character and joining with it are inverse. *)

Lemma split_char_nonempty c s : split_char c s <> [].
Proof. destruct s as [|d s]; simpl; [done|]. destruct (ch c d), (split_char c s); done. Qed.

Lemma join_split_char c s : join [c] (split_char c s) = s.
Proof.
  induction s as [|d s IH]; [done|]. simpl.
  destruct (ch c d) eqn:E.
  - apply ch_eq in E as <-. rewrite <- IH at 2.
    destruct (split_char c s) eqn:Es; [by apply split_char_nonempty in Es|done].
  - destruct (split_char c s) as [|p ps] eqn:Es; [by apply split_char_nonempty in Es|].
    rewrite <- IH. destruct ps; done.
Qed.

Lemma split_char_plain c s : contains_char c s = false -> split_char c s = [s].
Proof.
  induction s as [|d s IH]; simpl; [done|]. destruct (ch c d); [done|]. simpl. intros H.
  by rewrite IH.
Qed.

Lemma split_char_cons c p s :
  contains_char c p = false -> split_char c (p ++ c :: s) = p :: split_char c s.
Proof.
  induction p as [|d p IH]; simpl.
  - intros _. by rewrite ch_refl.
  - destruct (ch c d); [done|]. simpl. intros H. by rewrite IH.
Qed.

Lemma split_char_join c l :
  l <> [] -> Forall (fun p => contains_char c p = false) l -> split_char c (join [c] l) = l.
Proof.
  induction l as [|p l IH]; [done|]. intros _ [Hp Hl]%Forall_cons.
  destruct l as [|q l]; simpl; [by apply split_char_plain|].
  rewrite split_char_cons by done. f_equal. apply IH; done.
Qed.

Lemma split_char_pieces c s : Forall (fun p => contains_char c p = false) (split_char c s).
Proof.
  induction s as [|d s IH]; simpl; [by repeat constructor|].
  destruct (ch c d) eqn:E; [by constructor|].
  destruct (split_char c s) as [|p ps] eqn:Es; [by apply split_char_nonempty in Es|].
  inversion IH; subst. constructor; [|done]. simpl. by rewrite E.
Qed.

(** Trimming. *)

Definition head_ws (w2 : ascii -> ascii -> bool) (w3 : ascii -> ascii -> ascii -> bool)
    (s : str) : bool :=
  match s with
  | [] => false
  | a :: s1 =>
      ws1 a || match s1 with
               | [] => false
               | b :: s2 => w2 a b || match s2 with [] => false | c :: _ => w3 a b c end
               end
  end.

Section trim.
Context (w2 : ascii -> ascii -> bool) (w3 : ascii -> ascii -> ascii -> bool).

Lemma trim_with_spec s :
  (exists a, s = a ++ trim_with w2 w3 s) /\ head_ws w2 w3 (trim_with w2 w3 s) = false.
Proof.
  assert (forall n s, length s <= n ->
    (exists a, s = a ++ trim_with w2 w3 s) /\ head_ws w2 w3 (trim_with w2 w3 s) = false) as H;
    [|by apply (H (length s))].
  clear s. induction n as [|n IH]; intros s Hn.
  { destruct s; simpl in *; [split; [by exists []|done]|lia]. }
  destruct s as [|a [|b [|c s]]]; simpl in *.
  - split; [by exists []|done].
  - destruct (ws1 a) eqn:E1; simpl; [split; [by exists [a]|done]|].
    split; [by exists []|by rewrite E1].
  - destruct (ws1 a) eqn:E1; simpl.
    { destruct (IH [b]) as [[x Hx] Hh]; [simpl; lia|]. simpl in *.
      split; [exists (a :: x); simpl; by f_equal|done]. }
    destruct (w2 a b) eqn:E2; simpl; [split; [by exists [a; b]|done]|].
    split; [by exists []|]. by rewrite E1, E2.
  - destruct (ws1 a) eqn:E1; simpl.
    { destruct (IH (b :: c :: s)) as [[x Hx] Hh]; [simpl; lia|]. simpl in *.
      split; [exists (a :: x); simpl; by f_equal|done]. }
    destruct (w2 a b) eqn:E2; simpl.
    { destruct (IH (c :: s)) as [[x Hx] Hh]; [simpl; lia|]. simpl in *.
      split; [exists (a :: b :: x); simpl; by do 2 f_equal|done]. }
    destruct (w3 a b c) eqn:E3; simpl.
    { destruct (IH s) as [[x Hx] Hh]; [simpl; lia|]. simpl in *.
      split; [exists (a :: b :: c :: x); simpl; by do 3 f_equal|done]. }
    split; [by exists []|]. by rewrite E1, E2, E3.
Qed.

Lemma trim_with_id s : head_ws w2 w3 s = false -> trim_with w2 w3 s = s.
Proof.
  destruct s as [|a [|b [|c s]]]; simpl; [done|..];
    intros H; repeat (apply orb_false_iff in H as [? H]);
    repeat match goal with E : _ = false |- _ => rewrite E; clear E end; done.
Qed.

Lemma head_ws_prefix s t : head_ws w2 w3 (s ++ t) = false -> head_ws w2 w3 s = false.
Proof.
  destruct s as [|a [|b [|c s]]]; simpl; [done|..]; intros H;
    repeat match goal with
           | E : _ || _ = false |- _ => apply orb_false_iff in E as [? ?]
           | E : _ = false |- _ => rewrite E; clear E
           end; done.
Qed.
End trim.

Lemma trim_start_id s : trim_start s = s <-> head_ws ws2 ws3 s = false.
Proof.
  split; [|apply trim_with_id]. intros <-. apply trim_with_spec.
Qed.

Lemma trim_end_prefix s : exists t, s = trim_end s ++ t.
Proof.
  unfold trim_end. set (w2 := fun b a => ws2 a b). set (w3 := fun c b a => ws3 a b c).
  destruct (trim_with_spec w2 w3 (rev s)) as [[a Ha] _].
  exists (rev a). rewrite <- (rev_involutive s) at 1. rewrite Ha at 1. by rewrite rev_app_distr.
Qed.

Lemma trim_end_idem s : trim_end (trim_end s) = trim_end s.
Proof.
  unfold trim_end. rewrite rev_involutive.
  by rewrite (trim_with_id _ _ (trim_with _ _ (rev s))) by apply trim_with_spec.
Qed.

(** Trimmed text is not changed by trimming it again, on either side. *)
Lemma trim_start_trim s : trim_start (trim s) = trim s.
Proof.
  apply trim_start_id. unfold trim. destruct (trim_end_prefix (trim_start s)) as [t Ht].
  apply (head_ws_prefix _ _ _ t). rewrite <- Ht. apply trim_with_spec.
Qed.

Lemma trim_end_trim s : trim_end (trim s) = trim s.
Proof. apply trim_end_idem. Qed.

Lemma trim_idem s : trim (trim s) = trim s.
Proof. unfold trim at 1. by rewrite trim_start_trim, trim_end_trim. Qed.

Lemma trim_infix s : exists a b, s = a ++ trim s ++ b.
Proof.
  destruct (trim_with_spec ws2 ws3 s) as [[a Ha] _].
  destruct (trim_end_prefix (trim_start s)) as [b Hb].
  exists a, b. rewrite Ha at 1. f_equal. exact Hb.
Qed.

#[export] Hint Rewrite trim_idem trim_start_trim trim_end_trim ch_refl : rust.
#[export] Hint Rewrite @length_take @length_drop @length_app : rust.

(** What holds of every byte of a text holds of the trimmed text. *)
Lemma trim_forall (P : ascii -> Prop) s : Forall P s -> Forall P (trim s).
Proof.
  destruct (trim_infix s) as (a & b & Hs). rewrite Hs at 1.
  rewrite !Forall_app. tauto.
Qed.

Lemma contains_char_false c s : contains_char c s = false <-> c ∉ s.
Proof.
  unfold contains_char. induction s as [|d s IH]; simpl.
  - split; [intros _; apply not_elem_of_nil|done].
  - rewrite orb_false_iff, IH, not_elem_of_cons. split.
    + intros [H1 H2]. split; [|done]. intros ->. by rewrite ch_refl in H1.
    + intros [H1 H2]. split; [|done]. destruct (ch c d) eqn:E; [|done]. by apply ch_eq in E.
Qed.

Lemma trim_contains_char c s : contains_char c s = false -> contains_char c (trim s) = false.
Proof.
  rewrite !contains_char_false. intros H Hin. apply H.
  destruct (trim_infix s) as (a & b & ->). set_solver.
Qed.

(** Printing an integer and reading it back. *)

Lemma digits_val_app acc s t : digits_val acc (s ++ t) = digits_val (digits_val acc s) t.
Proof. unfold digits_val. apply fold_left_app. Qed.

Lemma digit_of_spec n : (n < 10)%N -> is_digit (digit_of n) = true /\ digit_val (digit_of n) = n.
Proof.
  intros Hn. unfold is_digit, in_range, digit_val, digit_of, code.
  rewrite N_ascii_embedding by lia.
  split; [apply andb_true_iff; split; apply N.leb_le; lia|lia].
Qed.

Lemma show_fuel_spec fuel n :
  (n < 10 ^ N.of_nat fuel)%N -> fuel <> 0 ->
  show_fuel fuel n <> [] /\ forallb is_digit (show_fuel fuel n) = true
  /\ digits_val 0 (show_fuel fuel n) = n.
Proof.
  revert n; induction fuel as [|fuel IH]; [done|]. intros n Hn _.
  cbn [show_fuel]. destruct (N.ltb_spec n 10) as [Hlt|Hge].
  - destruct (digit_of_spec n) as [H1 H2]; [done|]. split; [done|].
    simpl. rewrite H1. split; [done|]. unfold digits_val. simpl. by rewrite H2.
  - assert (fuel <> 0) as Hf.
    { intros ->. change (10 ^ N.of_nat 1)%N with 10%N in Hn. lia. }
    destruct (IH (n / 10)%N) as (H1 & H2 & H3); [|done|].
    { apply N.Div0.div_lt_upper_bound. rewrite <- N.pow_succ_r', <- Nat2N.inj_succ. done. }
    destruct (digit_of_spec (n mod 10)) as [D1 D2]; [apply N.mod_lt; lia|].
    split; [by destruct (show_fuel fuel (n / 10))|].
    rewrite forallb_app, H2, digits_val_app, H3. simpl. rewrite D1. split; [done|].
    unfold digits_val. simpl. rewrite D2. pose proof (N.div_mod n 10). lia.
Qed.

Lemma size_nat_pow n : (n < 10 ^ N.of_nat (S (N.size_nat n)))%N.
Proof.
  destruct n as [|p]; [done|].
  assert (N.pos p < 2 ^ N.of_nat (N.size_nat (N.pos p)))%N as H2.
  { simpl. induction p as [p IH|p IH|]; simpl Pos.size_nat.
    - rewrite Nat2N.inj_succ, N.pow_succ_r'. lia.
    - rewrite Nat2N.inj_succ, N.pow_succ_r'. lia.
    - done. }
  eapply N.lt_le_trans; [exact H2|].
  transitivity (10 ^ N.of_nat (N.size_nat (N.pos p)))%N; [apply N.pow_le_mono_l; lia|].
  apply N.pow_le_mono_r; lia.
Qed.

Lemma show_N_spec n :
  show_N n <> [] /\ forallb is_digit (show_N n) = true /\ digits_val 0 (show_N n) = n.
Proof. apply show_fuel_spec; [apply size_nat_pow|done]. Qed.

Lemma parse_digits_show n : parse_digits (show_N n) = Some n.
Proof.
  destruct (show_N_spec n) as (H1 & H2 & H3). unfold parse_digits.
  destruct (show_N n) eqn:E; [done|]. by rewrite H2, H3.
Qed.

Lemma show_N_head n c s : show_N n = c :: s -> is_digit c = true.
Proof. destruct (show_N_spec n) as (_ & H & _). intros E. rewrite E in H. simpl in H. by apply andb_true_iff in H as [? _]. Qed.

Lemma parse_unsigned_show max n : (n <= max)%N -> parse_unsigned max (show_N n) = Some n.
Proof.
  intros Hn. unfold parse_unsigned.
  destruct (show_N n) as [|c s] eqn:E; [by destruct (show_N_spec n)|].
  pose proof (show_N_head _ _ _ E) as Hc.
  destruct (ch c "+") eqn:Ec; [apply ch_eq in Ec as ->; done|].
  rewrite <- E, parse_digits_show. by apply N.leb_le in Hn as ->.
Qed.

Lemma show_N_inj n m : show_N n = show_N m -> n = m.
Proof. intros H. pose proof (parse_digits_show n) as P. rewrite H, parse_digits_show in P. by injection P. Qed.
Lemma show_nat_inj n m : show_nat n = show_nat m -> n = m.
Proof. unfold show_nat. intros H%show_N_inj. lia. Qed.

Lemma for_each_ok {E A} (f : A -> result E unit) l :
  for_each f l = Ok tt <-> Forall (fun x => f x = Ok tt) l.
Proof.
  induction l as [|x l IH]; cbn [for_each]; [by split|]. rewrite Forall_cons.
  destruct (f x) as [[]|] eqn:E1; [by rewrite IH; split; [split|intros [_ ?]]|split; [done|by intros [? _]]].
Qed.

Lemma forallb_impl {A} (f g : A -> bool) l :
  (forall x, f x = true -> g x = true) -> forallb f l = true -> forallb g l = true.
Proof. rewrite !forallb_forall. auto. Qed.

(** Of one more different things than a list is long, one is not in it. *)
Lemma no_room {A} `{EqDecision A} (f : nat -> A) (l : list A) :
  Inj (=) (=) f -> ~ (forall k, k < S (length l) -> f k ∈ l).
Proof.
  intros Hf H. assert (NoDup (map f (seq 0 (S (length l))))) as Hd by (apply (NoDup_fmap_2 f), NoDup_seq).
  assert (map f (seq 0 (S (length l))) ⊆ l) as Hs.
  { intros x (k & -> & Hk%elem_of_seq)%list_elem_of_fmap. apply H. lia. }
  apply NoDup_submseteq in Hs; [|done].
  apply submseteq_length in Hs. rewrite length_map, length_seq in Hs. lia.
Qed.

(** ** The order of texts *)

Lemma str_leb_refl a : str_leb a a = true.
Proof. induction a as [|x a IH]; [done|]. cbn. by rewrite N.eqb_refl, IH, orb_true_r. Qed.

Lemma code_inj x y : code x = code y -> x = y.
Proof. intros H%(f_equal ascii_of_N). unfold code in H. by rewrite !ascii_N_embedding in H. Qed.

#[export] Instance str_le_total : Total str_le.
Proof.
  unfold str_le. intros a. induction a as [|x a IH]; intros [|y b]; cbn; [by left..|by right|].
  destruct (N.ltb_spec (code x) (code y)); [by left|].
  destruct (N.eqb_spec (code x) (code y)) as [->|Hne]; cbn.
  - rewrite N.ltb_irrefl, N.eqb_refl. cbn. apply IH.
  - right. apply orb_true_intro. left. apply N.ltb_lt. lia.
Qed.

#[export] Instance str_le_trans : Transitive str_le.
Proof.
  unfold str_le. intros a. induction a as [|x a IH]; intros [|y b] [|z c]; cbn; try done.
  intros [H1%N.ltb_lt|[H1%N.eqb_eq H2]%andb_prop]%orb_prop [H3%N.ltb_lt|[H3%N.eqb_eq H4]%andb_prop]%orb_prop;
    apply orb_true_intro; [left; apply N.ltb_lt; lia..|right]. rewrite H1, H3, N.eqb_refl. by apply (IH b).
Qed.

#[export] Instance str_le_antisym : AntiSymm (=) str_le.
Proof.
  unfold str_le. intros a. induction a as [|x a IH]; intros [|y b]; cbn; try done.
  intros [H1%N.ltb_lt|[H1%N.eqb_eq H2]%andb_prop]%orb_prop [H3%N.ltb_lt|[H3%N.eqb_eq H4]%andb_prop]%orb_prop;
    [lia..|]. f_equal; [by apply code_inj|by apply IH].
Qed.
