(* ===== verification/F64.v ===== *)
(** * Binary64 numbers as the Rust standard library reads, compares and prints them

    Conditions ([Cond]) compare and compute with [f64].  Numbers are the standard
    library's [spec_float], which computes without primitive floats or axioms; reading is
    correctly rounded, and printing gives the shortest digits that read back. *)

From Stdlib Require Import SpecFloat.
From S2P Require Import Prelude.

Abbreviation f64 := spec_float.

Module F64.

Definition prec : Z := 53.
Definition emax : Z := 1024.

Definition normalize (neg : bool) (m e : Z) : f64 :=
  if (m =? 0)%Z then S754_zero neg
  else binary_normalize prec emax (if neg then (- m)%Z else m) e neg.

(** ** Reading: [str::parse::<f64>] *)

(** [m * 10^e], rounded once.  Below the bounds the value is past the largest or under
    half the smallest number, whatever its digits.  With a negative exponent the quotient
    keeps at least 65 bits and a sticky bit below them, so the one rounding is exact. *)
Definition of_decimal (neg : bool) (m : N) (e : Z) : f64 :=
  if (m =? 0)%N then S754_zero neg
  else
    let nd := Z.of_nat (length (show_N m)) in
    let z := Z.of_N m in
    if (310 <? nd + e)%Z then S754_infinity neg
    else if (nd + e <? -330)%Z then S754_zero neg
    else if (0 <=? e)%Z then normalize neg (z * 10 ^ e) 0
    else
      let den := (10 ^ (- e))%Z in
      let k := Z.max 0 (Z.log2 den - Z.log2 z + 66) in
      let n := (z * 2 ^ k)%Z in
      normalize neg (2 * (n / den) + (if (n mod den =? 0)%Z then 0 else 1)) (- k - 1).

Fixpoint span_digits (s : str) : str * str :=
  match s with
  | c :: s' => if is_digit c then let '(d, r) := span_digits s' in (c :: d, r) else ([], s)
  | [] => ([], [])
  end.

Definition parse_exponent (s : str) : option Z :=
  match s with
  | [] => Some 0%Z
  | c :: s =>
      if ch c "e" || ch c "E" then
        let '(neg, s) := match s with
                         | d :: s' => if ch d "-" then (true, s')
                                      else if ch d "+" then (false, s') else (false, s)
                         | [] => (false, s)
                         end in
        let* n := parse_digits s in
        Some (if neg : bool then (- Z.of_N n)%Z else Z.of_N n)
      else None
  end.

Definition parse_number (neg : bool) (s : str) : option f64 :=
  let '(whole, s) := span_digits s in
  let '(frac, s) := match s with
                    | c :: s' => if ch c "." then span_digits s' else ([], s)
                    | [] => ([], s)
                    end in
  match whole ++ frac with
  | [] => None
  | ds => let* e := parse_exponent s in
          Some (of_decimal neg (digits_val 0 ds) (e - Z.of_nat (length frac)))
  end.

Definition parse (s : str) : option f64 :=
  match s with
  | [] => None
  | c :: s' =>
      let neg := ch c "-" in
      let t := if ch c "-" || ch c "+" then s' else s in
      let l := to_lower t in
      if bool_decide (l = $"inf") || bool_decide (l = $"infinity")
      then Some (S754_infinity neg)
      else if bool_decide (l = $"nan") then Some S754_nan
      else parse_number neg t
  end.

(** ** Arithmetic *)

Definition add : f64 -> f64 -> f64 := SFadd prec emax.
Definition sub : f64 -> f64 -> f64 := SFsub prec emax.
Definition mul : f64 -> f64 -> f64 := SFmul prec emax.
Definition div : f64 -> f64 -> f64 := SFdiv prec emax.

(** The remainder is exact and has the dividend's sign. *)
Definition rem (x y : f64) : f64 :=
  match x, y with
  | S754_nan, _ | _, S754_nan | S754_infinity _, _ | _, S754_zero _ => S754_nan
  | _, S754_infinity _ | S754_zero _, _ => x
  | S754_finite sx mx ex, S754_finite _ my ey =>
      let e := Z.min ex ey in
      normalize sx ((Z.pos mx * 2 ^ (ex - e)) mod (Z.pos my * 2 ^ (ey - e))) e
  end.

Definition eqb : f64 -> f64 -> bool := SFeqb.
Definition ltb : f64 -> f64 -> bool := SFltb.
Definition leb : f64 -> f64 -> bool := SFleb.
Definition zero : f64 := S754_zero false.

(** The number when it is whole, [None] when [fract() != 0] (or is not a number). *)
Definition to_whole (x : f64) : option Z :=
  match x with
  | S754_zero _ => Some 0%Z
  | S754_finite s m e =>
      let z := if (0 <=? e)%Z then Some (Z.pos m * 2 ^ e)%Z
               else if (Z.pos m mod 2 ^ (- e) =? 0)%Z then Some (Z.pos m / 2 ^ (- e))%Z
               else None in
      option_map (fun z => if s then (- z)%Z else z) z
  | _ => None
  end.

(** ** Printing: [f64::to_string] *)

Definition zeros (n : Z) : str := repeat ("0"%char) (Z.to_nat n).

Definition place_point (ds : str) (k : Z) : str :=
  let n := Z.of_nat (length ds) in
  if (0 <=? k)%Z then ds ++ zeros k
  else if (- k <? n)%Z then take (Z.to_nat (n + k)) ds ++ $"." ++ drop (Z.to_nat (n + k)) ds
  else $"0." ++ zeros (- k - n) ++ ds.

(** The digits of [num / den] cut to [n], and whether they, or the ones next above, read
    back as the number itself. *)
Definition candidate (m : positive) (e num den k : Z) : option Z :=
  let '(a, b) := if (0 <=? k)%Z then (num, den * 10 ^ k)%Z else (num * 10 ^ (- k), den)%Z in
  let d := (a / b)%Z in
  let reads z := SFeqb (of_decimal false (Z.to_N z) k) (S754_finite false m e) in
  let near_up := (b <? 2 * (a mod b))%Z in
  if near_up then
    if reads (d + 1)%Z then Some (d + 1)%Z else if reads d then Some d else None
  else
    if reads d then Some d else if reads (d + 1)%Z then Some (d + 1)%Z else None.

Fixpoint shortest (n : nat) (m : positive) (e num den p len : Z) : str :=
  match candidate m e num den (p - len), n with
  | Some d, _ => place_point (show_Z d) (p - len)
  | None, S n => shortest n m e num den p (len + 1)
  | None, O => []
  end.

Definition show (x : f64) : str :=
  match x with
  | S754_nan => $"NaN"
  | S754_infinity s => (if s then $"-" else []) ++ $"inf"
  | S754_zero s => (if s then $"-" else []) ++ $"0"
  | S754_finite s m e =>
      let num := if (0 <=? e)%Z then (Z.pos m * 2 ^ e)%Z else Z.pos m in
      let den := if (0 <=? e)%Z then 1%Z else (2 ^ (- e))%Z in
      let p := (Z.of_nat (length (show_Z (num * 10 ^ 400 / den))) - 400)%Z in
      (if s then $"-" else []) ++ shortest 17 m e num den p 1
  end.

(** ** Samples *)

Example parse_int : parse $"42" = Some (normalize false 42 0). Proof. vm_compute. done. Qed.
Example parse_not : map parse [$"."; $"1e"; $"--1"; $" 1"; $""; $"0x1"] = repeat None 6.
Proof. vm_compute. done. Qed.
Example tenths : option_map show (let* a := parse $"0.1" in let* b := parse $".2" in Some (add a b))
                 = Some ($"0.30000000000000004").
Proof. vm_compute. done. Qed.
Example third : show (div (normalize false 1 0) (normalize false 3 0)) = $"0.3333333333333333".
Proof. vm_compute. done. Qed.
Example small : option_map show (parse $"-1.5e-7") = Some ($"-0.00000015"). Proof. vm_compute. done. Qed.
Example huge : option_map show (parse $"1e400") = Some ($"inf"). Proof. vm_compute. done. Qed.
Example remainder : option_map to_whole (let* a := parse $"-7" in let* b := parse $"3" in Some (rem a b))
                    = Some (Some (-1)%Z).
Proof. vm_compute. done. Qed.

End F64.
