(* ===== verification/Json.v ===== *)
(** * JSON documents

    [serde_json] is not part of the repository: a document is its [Value] enum as the
    sources match on it, numbers are opaque, and reading and printing are the operations
    of a class.  Objects are the members in iteration order, each key once. *)

From S2P Require Import Prelude.

Set Warnings "-register-all".
Inductive value (Num : Type) : Type :=
| JNull
| JBool (b : bool)
| JNumber (n : Num)
| JString (s : str)
| JArray (items : list (value Num))
| JObject (members : list (str * value Num)).
Arguments JNull {Num}.
Arguments JBool {Num} b.
Arguments JNumber {Num} n.
Arguments JString {Num} s.
Arguments JArray {Num} items.
Arguments JObject {Num} members.

(** What the sources use of [serde_json]. *)
Class SerdeJson (Num : Type) := {
  num_to_string : Num -> str;
  json_from_str : str -> result str (value Num);
  json_to_string : value Num -> str;
}.

Definition bool_to_string (b : bool) : str := if b then $"true" else $"false".

(** [map.get(key)]. *)
Fixpoint member {Num} (k : str) (m : list (str * value Num)) : option (value Num) :=
  match m with
  | [] => None
  | (k', v) :: m => if bool_decide (k = k') then Some v else member k m
  end.

(** [items.get(i)]. *)
Definition item {Num} (i : N) (l : list (value Num)) : option (value Num) :=
  if (i <? N.of_nat (length l))%N then l !! N.to_nat i else None.
