(* ===== verification/JsonPred.v ===== *)
(** * Predicates over a status document ([dagron-core/src/jsonpred.rs])

    The dotted paths and the three comparisons a poller reads a verdict with: parsing,
    printing and evaluation.  The theorems: what [parse] prints it parses back; a missing
    path decides nothing; [==] and [!=] are exact opposites on a scalar; the keyword [in]
    is found exactly where it stands alone. *)

From S2P Require Import Prelude Json.

Module JsonPred.

Definition path : Type := list str.

Inductive predicate : Type :=
| Eq (p : path) (v : str)
| Ne (p : path) (v : str)
| In (p : path) (vs : list str).

Definition dquoted (s : str) : str := $"`" ++ s ++ $"`".

Fixpoint position_empty (i : nat) (l : list str) : option nat :=
  match l with
  | [] => None
  | s :: l => match s with [] => Some i | _ => position_empty (S i) l end
  end.

(** [Path::parse] *)
Definition path_parse (raw : str) : result str path :=
  let raw := trim raw in
  match raw with
  | [] => Err ($"path is empty")
  | _ =>
      let segs := map trim (split_char "." raw) in
      match position_empty 0 segs with
      | Some i =>
          Err ($"path '" ++ raw ++ $"' has an empty segment at position " ++ show_nat (i + 1)
               ++ $" — an empty segment is a typo (`a..b`, or a trailing dot), not a wildcard")
      | None => Ok segs
      end
  end.

(** [Path::get] *)
Fixpoint path_get {Num} (p : path) (doc : value Num) : option (value Num) :=
  match p with
  | [] => Some doc
  | seg :: p =>
      let* next := match doc with
                   | JObject m => member seg m
                   | JArray items => let* i := parse_u64 seg in item i items
                   | _ => None
                   end in
      path_get p next
  end.

(** [Display for Path] *)
Definition path_show (p : path) : str := join $"." p.

Definition byte_is (f : ascii -> bool) (s : str) (i : nat) : bool :=
  match s !! i with Some c => f c | None => false end.

(** [split_once_kw]: the loop, from offset [from]. *)
Fixpoint split_kw_from (fuel : nat) (raw kw : str) (from : nat) : option (str * str) :=
  match fuel with
  | O => None
  | S fuel =>
      let* rel := find kw (drop from raw) in
      let at_ := from + rel in
      let end_ := at_ + length kw in
      let before_ok := (0 <? at_)%nat && byte_is is_ascii_ws raw (at_ - 1) in
      let after_ok := (end_ <? length raw)%nat && byte_is is_ascii_ws raw end_ in
      if before_ok && after_ok then Some (take at_ raw, drop end_ raw)
      else split_kw_from fuel raw kw end_
  end.
Definition split_once_kw (raw kw : str) : option (str * str) :=
  split_kw_from (S (length raw)) raw kw 0.

(** [unquote] *)
Definition quoted_by (q : ascii) (s : str) : bool :=
  (2 <=? length s)%nat && starts_with [q] s && ends_with [q] s.
Definition unquote (s : str) : str :=
  let s := trim s in
  if quoted_by QUOTE s || quoted_by APOS s then take (length s - 2) (drop 1 s) else s.

Definition bracketed (s : str) : option str :=
  let* r := strip_prefix $"[" s in strip_suffix $"]" r.

Definition nonempty (s : str) : bool := match s with [] => false | _ => true end.

(** One turn of the loop over [==] and [!=]. *)
Definition parse_op (op : str) (build : path -> str -> predicate) (raw : str)
    : option (result str predicate) :=
  let* (lhs, rhs) := split_once op raw in
  Some (let value := unquote (trim rhs) in
        match value with
        | [] => Err (dquoted op ++ $" has no right-hand value in " ++ dquoted raw)
        | _ => let? p := path_parse lhs in Ok (build p value)
        end).

(** [Predicate::parse] *)
Definition parse (raw : str) : result str predicate :=
  let raw := trim raw in
  match raw with
  | [] => Err ($"predicate is empty")
  | _ =>
      match split_once_kw raw $"in" with
      | Some (lhs, rhs) =>
          let rhs := trim rhs in
          match bracketed rhs with
          | None => Err ($"`in` needs a bracketed list, e.g. `" ++ lhs ++ $" in [A, B]` — got "
                         ++ dquoted rhs)
          | Some inner =>
              let values := List.filter nonempty
                              (map (fun v => unquote (trim v)) (split_char "," inner)) in
              match values with
              | [] => Err ($"`in []` matches nothing, so the predicate can never hold — list at least one value (in "
                           ++ dquoted raw ++ $")")
              | _ => let? p := path_parse lhs in Ok (In p values)
              end
          end
      | None =>
          match parse_op $"==" Eq raw with
          | Some r => r
          | None =>
              match parse_op $"!=" Ne raw with
              | Some r => r
              | None =>
                  Err ($"cannot parse predicate " ++ dquoted raw
                       ++ $" — expected `path == VALUE`, `path != VALUE`, or `path in [A, B]` (paths are dotted, e.g. `status.applicationState.state`)")
              end
          end
      end
  end.

Definition path_of (p : predicate) : path :=
  match p with Eq p _ | Ne p _ | In p _ => p end.

Section eval.
Context {Num : Type} {J : SerdeJson Num}.

(** [scalar] *)
Definition scalar (v : value Num) : option str :=
  match v with
  | JString s => Some s
  | JNumber n => Some (num_to_string n)
  | JBool b => Some (bool_to_string b)
  | JNull => Some ($"null")
  | JObject _ | JArray _ => None
  end.

(** [Predicate::eval] *)
Definition eval (p : predicate) (doc : value Num) : bool :=
  match path_get (path_of p) doc with
  | None => false
  | Some found =>
      match scalar found with
      | None => false
      | Some actual =>
          match p with
          | Eq _ v => bool_decide (actual = v)
          | Ne _ v => negb (bool_decide (actual = v))
          | In _ vs => existsb (fun v => bool_decide (v = actual)) vs
          end
      end
  end.
End eval.

(** [Display for Predicate] *)
Definition show (p : predicate) : str :=
  match p with
  | Eq p v => path_show p ++ $" == " ++ v
  | Ne p v => path_show p ++ $" != " ++ v
  | In p vs => path_show p ++ $" in [" ++ join $", " vs ++ $"]"
  end.

(** ** The keyword scan *)

(** [kw] stands alone at [i]: it is there, between two white space bytes. *)
Record standalone (raw kw : str) (i : nat) : Prop := {
  sa_here : raw = take i raw ++ kw ++ drop (i + length kw) raw;
  sa_before : 0 < i;
  sa_ws_before : byte_is is_ascii_ws raw (i - 1) = true;
  sa_after : i + length kw < length raw;
  sa_ws_after : byte_is is_ascii_ws raw (i + length kw) = true;
}.

Lemma occurrence_at kw raw from rel :
  kw <> [] -> find kw (drop from raw) = Some rel ->
  raw = take (from + rel) raw ++ kw ++ drop (from + rel + length kw) raw
  /\ from + rel + length kw <= length raw.
Proof.
  intros Hk H. apply find_Some in H as (r & Hr & Hl).
  assert (length (drop from raw) = rel + length kw + length r) as Hlen.
  { rewrite Hr, !length_app, length_take. lia. }
  assert (length kw <> 0) by (by destruct kw).
  rewrite length_drop in *. split; [|lia].
  replace (take (from + rel) raw) with (take from raw ++ take rel (drop from raw)).
  - replace (from + rel + length kw) with (rel + length kw + from) by lia.
    rewrite <- (skipn_skipn (rel + length kw) from raw).
    assert (drop (rel + length kw) (drop from raw) = r) as ->.
    { rewrite Hr at 1. rewrite app_assoc. apply drop_app_length'.
      rewrite length_app, length_take, length_drop. lia. }
    rewrite <- app_assoc, <- Hr. by rewrite take_drop.
  - rewrite <- (take_drop from (take (from + rel) raw)), take_take, skipn_firstn_comm.
    replace (from + rel - from) with rel by lia. by rewrite Nat.min_l by lia.
Qed.

Lemma standalone_from kw raw from rel i :
  find kw (drop from raw) = Some rel -> standalone raw kw i -> from <= i -> from + rel <= i.
Proof.
  intros H [Hi _ _ Ha _] Hle.
  enough (rel <= i - from) by lia.
  eapply Nat.le_trans; [eapply (find_first _ _ _ (take (i - from) (drop from raw))
    (drop (i + length kw) raw) H)|rewrite length_take; lia].
  rewrite Hi at 1. rewrite drop_app_le by (rewrite length_take; lia).
  f_equal. rewrite skipn_firstn_comm. done.
Qed.

Section keyword.
Context (raw kw : str) (Hne : kw <> []) (Hplain : Forall (fun c => is_ascii_ws c = false) kw).

(** A byte inside an occurrence is not white space. *)
Lemma inside_not_ws i j :
  raw = take i raw ++ kw ++ drop (i + length kw) raw -> i <= length raw ->
  i <= j < i + length kw -> byte_is is_ascii_ws raw j = false.
Proof.
  intros Hi Hl Hj. unfold byte_is. rewrite Hi.
  rewrite lookup_app_r by (rewrite length_take; lia).
  rewrite length_take, Nat.min_l by lia. rewrite lookup_app_l by lia.
  destruct (kw !! (j - i)) eqn:E; [|done].
  rewrite Forall_lookup in Hplain. by eapply Hplain.
Qed.

Lemma split_kw_from_spec fuel from :
  length raw - from < fuel ->
  match split_kw_from fuel raw kw from with
  | Some (a, b) => exists i, from <= i /\ a = take i raw /\ b = drop (i + length kw) raw
      /\ standalone raw kw i /\ forall j, from <= j < i -> ~ standalone raw kw j
  | None => forall i, from <= i -> ~ standalone raw kw i
  end.
Proof using Hne Hplain.
  revert from; induction fuel as [|fuel IH]; intros from Hf; [lia|]. simpl.
  destruct (find kw (drop from raw)) as [rel|] eqn:Ef.
  - pose proof (occurrence_at _ _ _ _ Hne Ef) as [Ho Hrl].
    assert (length kw <> 0) as Hk by (by destruct kw).
    match goal with |- context [if ?c then _ else _] => destruct c eqn:Ec end.
    + repeat (apply andb_true_iff in Ec as [Ec ?]).
      rewrite !andb_true_iff in *. rewrite Nat.ltb_lt in *.
      destruct_and!. exists (from + rel). split; [lia|]. split; [done|]. split; [done|].
      split; [by constructor|]. intros j Hj Hs.
      pose proof (standalone_from _ _ _ _ j Ef Hs). lia.
    + assert (forall i, from <= i -> standalone raw kw i -> from + rel + length kw <= i) as Hskip.
      { intros i Hi Hs. pose proof (standalone_from _ _ _ _ i Ef Hs Hi).
        destruct (decide (i = from + rel)) as [->|].
        - destruct Hs as [_ H1 H2 H3 H4]. apply Nat.ltb_lt in H1, H3.
          by rewrite H1, H2, H3, H4 in Ec.
        - destruct (decide (from + rel + length kw <= i)); [done|].
          destruct Hs as [_ _ H2 _ _].
          rewrite (inside_not_ws (from + rel) (i - 1)) in H2; [done|done|lia|lia]. }
      specialize (IH (from + rel + length kw) ltac:(lia)).
      destruct (split_kw_from fuel raw kw (from + rel + length kw)) as [[a b]|].
      * destruct IH as (i & ? & ? & ? & Hs & Hmin). exists i.
        split; [lia|]. do 3 (split; [done|]).
        intros j Hj Hsj. destruct (decide (from + rel + length kw <= j)).
        -- apply (Hmin j); [lia|done].
        -- specialize (Hskip j ltac:(lia) Hsj). lia.
      * intros i Hi Hs. specialize (Hskip i Hi Hs). by eapply (IH i).
  - intros i Hi Hs. destruct Hs as [Hh _ _ Ha _].
    apply (find_None _ _ Ef (take (i - from) (drop from raw)) (drop (i + length kw) raw)).
    rewrite Hh at 1. rewrite drop_app_le by (rewrite length_take; lia).
    f_equal. by rewrite skipn_firstn_comm.
Qed.
End keyword.

Lemma split_once_kw_spec raw kw :
  kw <> [] -> Forall (fun c => is_ascii_ws c = false) kw ->
  match split_once_kw raw kw with
  | Some (a, b) => exists i, a = take i raw /\ b = drop (i + length kw) raw
      /\ standalone raw kw i /\ forall j, j < i -> ~ standalone raw kw j
  | None => forall i, ~ standalone raw kw i
  end.
Proof.
  intros Hne Hp. unfold split_once_kw.
  pose proof (split_kw_from_spec raw kw Hne Hp (S (length raw)) 0 ltac:(lia)) as H.
  destruct (split_kw_from _ _ _ _) as [[a b]|].
  - destruct H as (i & _ & ? & ? & ? & Hmin). exists i. split_and!; try done.
    intros j Hj. apply Hmin. lia.
  - intros i. apply H. lia.
Qed.

(** ** Round trip *)

(** Text of letters, digits, [_] and [-]: the keys and states vendors use. *)
Definition word_char (c : ascii) : bool := is_alnum c || ch c "_" || ch c "-".
Definition word (s : str) : Prop := s <> [] /\ Forall (fun c => word_char c = true) s.

(** A byte of a word is none of the bytes the grammar gives a meaning to. *)
Lemma word_char_plain c :
  word_char c = true ->
  ws1 c = false /\ is_ascii_ws c = false /\ (code c < 128)%N
  /\ Forall (fun d => ch d c = false) ["."; "="; "!"; ","; "["; "]"; QUOTE; APOS]%char.
Proof.
  destruct c as [[] [] [] [] [] [] [] []]; vm_compute; intros H; try discriminate H;
    (split; [reflexivity|]; split; [reflexivity|]; split; [reflexivity|]; repeat constructor).
Qed.

Lemma ascii_head_ws w2 w3 s :
  (forall a b, (code a < 128)%N -> w2 a b = false) ->
  (forall a b c, (code a < 128)%N -> w3 a b c = false) ->
  match s with [] => True | c :: _ => ws1 c = false /\ (code c < 128)%N end ->
  head_ws w2 w3 s = false.
Proof.
  intros H2 H3. destruct s as [|a [|b [|c s]]]; simpl; [done|intros [-> Ha]..];
    rewrite ?H2, ?H3 by done; done.
Qed.

Lemma ws2_ascii a b : (code a < 128)%N -> ws2 a b = false.
Proof. intros H. unfold ws2. by destruct (N.eqb_spec (code a) 194); [lia|]. Qed.
Lemma ws3_ascii a b c : (code a < 128)%N -> ws3 a b c = false.
Proof.
  intros H. unfold ws3.
  destruct (N.eqb_spec (code a) 225), (N.eqb_spec (code a) 226), (N.eqb_spec (code a) 227);
    (lia || done).
Qed.
Lemma ws2_ascii_r a b : (code b < 128)%N -> ws2 a b = false.
Proof.
  intros H. unfold ws2. destruct (N.eqb_spec (code b) 133), (N.eqb_spec (code b) 160);
    try lia; by rewrite andb_false_r.
Qed.
Lemma ws3_ascii_r a b c : (code c < 128)%N -> ws3 a b c = false.
Proof.
  intros H. unfold ws3, in_range.
  destruct (N.eqb_spec (code c) 128), (N.leb_spec 128 (code c)), (N.leb_spec 168 (code c)),
    (N.eqb_spec (code c) 175), (N.eqb_spec (code c) 159); try lia;
    by rewrite !andb_false_r.
Qed.

(** Text with a plain first and last byte is already trimmed. *)
Lemma trim_ends s :
  match s with [] => True | c :: _ => ws1 c = false /\ (code c < 128)%N end ->
  match rev s with [] => True | c :: _ => ws1 c = false /\ (code c < 128)%N end ->
  trim s = s.
Proof.
  intros Hh Ht. unfold trim.
  assert (trim_start s = s) as ->.
  { apply trim_with_id, ascii_head_ws; [apply ws2_ascii|apply ws3_ascii|done]. }
  unfold trim_end. rewrite trim_with_id; [by rewrite rev_involutive|].
  apply ascii_head_ws; [intros; by apply ws2_ascii_r|intros; by apply ws3_ascii_r|done].
Qed.

Lemma word_ends s : word s ->
  match s with [] => True | c :: _ => ws1 c = false /\ (code c < 128)%N end
  /\ match rev s with [] => True | c :: _ => ws1 c = false /\ (code c < 128)%N end.
Proof.
  intros [_ Hw]. split.
  - destruct s as [|c s]; [done|]. inversion Hw; subst.
    by destruct (word_char_plain c) as (? & _ & ? & _).
  - assert (Forall (fun c => word_char c = true) (rev s)) as Hr by (by apply Forall_rev).
    destruct (rev s) as [|c t]; [done|]. inversion Hr; subst.
    by destruct (word_char_plain c) as (? & _ & ? & _).
Qed.

Lemma word_trim s : word s -> trim s = s.
Proof. intros H. apply word_ends in H as [? ?]. by apply trim_ends. Qed.

Lemma trim_space s : trim (" "%char :: s) = trim s.
Proof. reflexivity. Qed.

Lemma word_unquote s : word s -> unquote s = s.
Proof.
  intros Hw. unfold unquote. rewrite (word_trim s Hw). destruct Hw as [Hne Hw].
  destruct s as [|c s]; [done|]. inversion Hw as [|? ? Hc _]; subst.
  destruct (word_char_plain c Hc) as (_ & _ & _ & Hp).
  rewrite !Forall_cons in Hp. destruct Hp as (_ & _ & _ & _ & _ & _ & Hq & Ha & _).
  unfold quoted_by, starts_with. cbn [strip_prefix]. rewrite Hq, Ha. by rewrite !andb_false_r.
Qed.

Definition word_path (p : path) : Prop := p <> [] /\ Forall word p.
Definition path_char (c : ascii) : bool := word_char c || ch c ".".

Lemma path_show_chars p : Forall word p -> Forall (fun c => path_char c = true) (path_show p).
Proof.
  unfold path_show. induction p as [|s p IH]; [constructor|].
  intros [[_ Hs] Hp]%Forall_cons.
  assert (Forall (fun c => path_char c = true) s) as Hs'.
  { eapply Forall_impl; [exact Hs|]. intros c Hc. unfold path_char. by rewrite Hc. }
  destruct p as [|t p]; [done|]. simpl in *. apply Forall_app. split; [done|].
  constructor; [done|]. by apply IH.
Qed.

Lemma path_char_plain c : path_char c = true ->
  ws1 c = false /\ is_ascii_ws c = false /\ (code c < 128)%N
  /\ Forall (fun d => ch d c = false) ["="; "!"; "["]%char.
Proof.
  unfold path_char. intros [Hc|Hc]%orb_true_iff.
  - destruct (word_char_plain c Hc) as (? & ? & ? & Hp). rewrite !Forall_cons in *. tauto.
  - apply ch_eq in Hc as ->. split_and!; try done. by repeat constructor.
Qed.

(** The ends of a shown path, whatever follows its first byte. *)
Lemma path_show_head p : word_path p ->
  exists c t, path_show p = c :: t /\ ws1 c = false /\ (code c < 128)%N.
Proof.
  intros [Hne Hp]. pose proof (path_show_chars p Hp) as Hc.
  destruct (path_show p) as [|c t] eqn:E.
  - exfalso. destruct p as [|s p]; [done|]. inversion Hp as [|? ? [Hs _] _]; subst.
    destruct s; [done|]. by destruct p.
  - inversion Hc; subst. destruct (path_char_plain c) as (? & _ & ? & _); eauto 10.
Qed.

Lemma path_parse_show p raw : word_path p -> trim raw = path_show p -> path_parse raw = Ok p.
Proof.
  intros Hw Ht. destruct (path_show_head p Hw) as (c & t & Hh & _).
  unfold path_parse. rewrite Ht. rewrite Hh at 1. destruct Hw as [Hne Hp].
  unfold path_show. rewrite split_char_join; [|done|].
  - assert (map trim p = p) as ->.
    { clear -Hp. induction Hp as [|s p Hs _ IH]; [done|]. simpl. by rewrite word_trim, IH. }
    assert (forall i, position_empty i p = None) as ->; [|done].
    clear -Hp. induction Hp as [|s p [Hs _] _ IH]; intros i; [done|]. by destruct s; simpl.
  - eapply Forall_impl; [exact Hp|]. intros s [_ Hs]. apply contains_char_false. intros Hin.
    rewrite Forall_forall in Hs. specialize (Hs _ Hin). done.
Qed.

(** Looking into a path, an operator between spaces, and what follows. *)
Section shape.
Context (P : str) (HP : Forall (fun c => path_char c = true) P).

Lemma lookup_P i c : P !! i = Some c -> path_char c = true.
Proof using HP. intros H. rewrite Forall_lookup in HP. eauto. Qed.

Lemma split_once_at c p a b :
  c ∉ a -> split_once (c :: p) (a ++ (c :: p) ++ b) = Some (a, b).
Proof.
  clear. intros Hc. unfold split_once.
  destruct (find (c :: p) (a ++ (c :: p) ++ b)) as [i|] eqn:E.
  - pose proof (find_first _ _ _ a b E eq_refl) as Hle.
    destruct (find_Some _ _ _ E) as (r & Hr & Hi).
    assert (i = length a) as ->.
    { destruct (decide (i = length a)) as [|Hn]; [done|]. exfalso. apply Hc.
      assert ((a ++ (c :: p) ++ b) !! i = Some c) as L.
      { rewrite Hr. rewrite lookup_app_r by (rewrite length_take; lia).
        rewrite length_take, Nat.min_l by lia. by rewrite Nat.sub_diag. }
      rewrite lookup_app_l in L by lia. by eapply list_elem_of_lookup_2. }
    simpl. f_equal. f_equal.
    + apply take_app_length.
    + change (a ++ c :: p ++ b) with (a ++ (c :: p) ++ b).
      rewrite app_assoc. apply drop_app_length'. by rewrite length_app.
  - exfalso. by apply (find_None _ _ E a b).
Qed.

Context (V : str) (HV : Forall (fun c => word_char c = true) V).
Context (o1 o2 : ascii) (Ho : (o1 = "="%char \/ o1 = "!"%char) /\ o2 = "="%char).
Let raw := P ++ [" "%char; o1; o2; " "%char] ++ V.

Lemma raw_lookup i c : raw !! i = Some c ->
  (i < length P /\ path_char c = true) \/ (i = length P /\ c = " "%char)
  \/ (i = length P + 1 /\ c = o1) \/ (i = length P + 2 /\ c = o2)
  \/ (i = length P + 3 /\ c = " "%char) \/ word_char c = true.
Proof using HP HV.
  unfold raw. intros H. apply lookup_app_Some in H as [H|[Hi H]].
  - left. split; [by eapply lookup_lt_Some|by eapply lookup_P].
  - right. destruct (i - length P) as [|[|[|[|n]]]] eqn:E; simpl in H.
    1-4: injection H as <-.
    + left. split; [lia|done].
    + right. left. split; [lia|done].
    + right. right. left. split; [lia|done].
    + do 3 right. left. split; [lia|done].
    + do 4 right. rewrite Forall_lookup in HV. eauto.
Qed.

Lemma no_in_keyword : split_once_kw raw $"in" = None.
Proof using HP HV Ho.
  pose proof (split_once_kw_spec raw $"in" ltac:(done) ltac:(by repeat constructor)) as H.
  destruct (split_once_kw raw $"in") as [[a b]|]; [|done]. exfalso.
  destruct H as (i & _ & _ & [Hh Hb Hwb Ha Hwa] & _).
  assert (forall j, byte_is is_ascii_ws raw j = true -> j = length P \/ j = length P + 3) as Hws.
  { intros j Hj. unfold byte_is in Hj. destruct (raw !! j) as [c|] eqn:E; [|done].
    destruct (raw_lookup _ _ E) as [[_ Hc]|[?|[[_ ->]|[[_ ->]|[?|Hc]]]]]; try tauto.
    - destruct (path_char_plain c Hc) as (_ & Hx & _). congruence.
    - by destruct Ho as [[-> | ->] _].
    - by destruct Ho as [_ ->].
    - destruct (word_char_plain c Hc) as (_ & Hx & _). congruence. }
  apply Hws in Hwb, Hwa. simpl length in *.
  assert (raw !! i = Some "i"%char) as Hi.
  { rewrite Hh. rewrite lookup_app_r by (rewrite length_take; lia).
    rewrite length_take, Nat.min_l by lia. by rewrite Nat.sub_diag. }
  assert (i = length P + 1) as -> by lia. unfold raw in Hi.
  rewrite lookup_app_r in Hi by lia. replace (length P + 1 - length P) with 1 in Hi by lia.
  simpl in Hi. injection Hi as Hi. destruct Ho as [[-> | ->] _]; discriminate.
Qed.

Lemma no_eq_op : o1 = "!"%char -> split_once $"==" raw = None.
Proof using HP HV Ho.
  intros Ho1. unfold split_once. destruct (find $"==" raw) as [i|] eqn:E; [|done]. exfalso.
  destruct (find_Some _ _ _ E) as (r & Hr & Hi).
  assert (forall k, k < 2 -> raw !! (i + k) = Some "="%char) as Hk.
  { intros k Hk. rewrite Hr. rewrite lookup_app_r by (rewrite length_take; lia).
    rewrite length_take, Nat.min_l by lia. replace (i + k - i) with k by lia.
    by destruct k as [|[|]]; [..|lia]. }
  assert (forall k, raw !! k = Some "="%char -> k = length P + 2) as Hu.
  { intros k L. destruct (raw_lookup _ _ L) as [[_ Hc]|[[_ Hc]|[[_ Hc]|[[? _]|[[_ Hc]|Hc]]]]];
      try done; congruence. }
  pose proof (Hu _ (Hk 0 ltac:(lia))). pose proof (Hu _ (Hk 1 ltac:(lia))). lia.
Qed.
End shape.

Lemma parse_op_at op c build P V p :
  op = [c; "="%char] -> (c = "="%char \/ c = "!"%char) ->
  Forall (fun c => path_char c = true) P -> word V -> path_parse (P ++ $" ") = Ok p ->
  parse_op op build (P ++ [" "; c; "="; " "]%char ++ V) = Some (Ok (build p V)).
Proof.
  intros -> Hc HP HV Hp. unfold parse_op.
  replace (P ++ [" "; c; "="; " "]%char ++ V)
    with ((P ++ $" ") ++ [c; "="%char] ++ ([" "%char] ++ V)) by (by rewrite <- !app_assoc).
  rewrite split_once_at.
  - change ([" "%char] ++ V) with (" "%char :: V).
    rewrite trim_space, (word_trim V), (word_unquote V) by done.
    destruct HV as [Hne _]. destruct V; [done|]. by rewrite Hp.
  - rewrite elem_of_app. intros [Hin|Hin].
    + rewrite Forall_forall in HP. specialize (HP _ Hin). destruct Hc as [-> | ->]; done.
    + apply list_elem_of_singleton in Hin. destruct Hc as [-> | ->]; done.
Qed.

(** The trimmed shape: a plain first byte and a plain last one. *)
Lemma trim_between P M V :
  (exists c t, P = c :: t /\ ws1 c = false /\ (code c < 128)%N) -> word V ->
  trim (P ++ M ++ V) = P ++ M ++ V.
Proof.
  intros (c & t & -> & Hc & Ha) HV. apply trim_ends; [done|].
  destruct (word_ends V HV) as [_ Hr]. rewrite app_assoc, rev_app_distr.
  destruct HV as [Hne _]. destruct (rev V) eqn:E; [|done].
  apply (f_equal (@length _)) in E. rewrite length_rev in E. by destruct V.
Qed.

Lemma path_show_space p : word_path p -> path_parse (path_show p ++ $" ") = Ok p.
Proof.
  intros Hp. apply path_parse_show; [done|].
  assert (Forall (fun c => path_char c = true) (path_show p)) as Hc by (by apply path_show_chars, Hp).
  unfold trim. destruct (path_show_head p Hp) as (c & t & E & Hw & Ha).
  assert (trim_start (path_show p ++ $" ") = path_show p ++ $" ") as ->.
  { rewrite E. apply trim_with_id, ascii_head_ws; [apply ws2_ascii|apply ws3_ascii|done]. }
  unfold trim_end. rewrite rev_app_distr. simpl.
  rewrite trim_with_id; [by rewrite rev_involutive|].
  apply ascii_head_ws; [intros; by apply ws2_ascii_r|intros; by apply ws3_ascii_r|].
  destruct (rev (path_show p)) as [|d u] eqn:Er; [done|].
  assert (d ∈ path_show p) as Hd by (apply elem_of_reverse; unfold reverse; rewrite rev_append_rev, app_nil_r, Er; by constructor).
  rewrite Forall_forall in Hc. by destruct (path_char_plain d (Hc _ Hd)) as (? & _ & ? & _).
Qed.

Lemma pieces_join vs :
  Forall word vs ->
  List.filter nonempty (map (fun v => unquote (trim v)) (split_char "," (join $", " vs))) = vs.
Proof.
  intros Hvs. destruct vs as [|v vs]; [reflexivity|].
  assert (forall w, word w -> contains_char "," w = false /\ unquote (trim w) = w
            /\ unquote (trim (" "%char :: w)) = w /\ nonempty w = true) as Hw.
  { intros w Hw. rewrite trim_space, word_trim, word_unquote by done. destruct Hw as [Hne Hw].
    split_and!; try done; [|by destruct w]. apply contains_char_false. intros Hin.
    rewrite Forall_forall in Hw. specialize (Hw _ Hin). done. }
  assert (forall x y l, contains_char "," x = false -> Forall word l ->
     split_char "," (join $", " ((x ++ y) :: l)) = split_char "," (x ++ join $", " (y :: l))) as Hx.
  { intros x y l _ _. destruct l; simpl; [done|]. by rewrite <- app_assoc. }
  assert (forall l w s, Forall word l -> word w -> (s = w \/ s = " "%char :: w) ->
     List.filter nonempty (map (fun v => unquote (trim v)) (split_char "," (join $", " (s :: l))))
     = w :: l) as Hgen; [|inversion Hvs; subst; apply Hgen; auto].
  clear -Hw. induction l as [|w' l IH]; intros w s Hl Hww Hs;
    destruct (Hw w Hww) as (Hc & H1 & H2 & H3);
    assert (contains_char "," s = false) as Hcs by (destruct Hs as [-> | ->]; [done|simpl; exact Hc]);
    assert (unquote (trim s) = w) as Hu by (destruct Hs as [-> | ->]; done).
  - simpl. rewrite split_char_plain by done. simpl. by rewrite Hu, H3.
  - apply Forall_cons in Hl as [Hw' Hl'].
    change (join $", " (s :: w' :: l)) with (s ++ ","%char :: " "%char :: join $", " (w' :: l)).
    rewrite split_char_cons by done. simpl map. rewrite Hu. simpl List.filter. rewrite H3. f_equal.
    specialize (IH w' (" "%char :: w') Hl' Hw' (or_intror eq_refl)).
    destruct l; exact IH.
Qed.

Definition printable (p : predicate) : Prop :=
  word_path (path_of p)
  /\ match p with Eq _ v | Ne _ v => word v | In _ vs => vs <> [] /\ Forall word vs end.

(** The keyword of a shown membership is the one after the path. *)
Lemma split_in_at P rest :
  Forall (fun c => path_char c = true) P ->
  split_once_kw ((P ++ $" ") ++ $"in" ++ " "%char :: rest) $"in" = Some (P ++ $" ", " "%char :: rest).
Proof.
  intros HP. set (raw := (P ++ $" ") ++ $"in" ++ " "%char :: rest).
  assert (take (length P + 1) raw = P ++ $" ") as Ht.
  { apply take_app_length'. by rewrite length_app. }
  assert (drop (length P + 1 + 2) raw = " "%char :: rest) as Hd.
  { unfold raw. rewrite app_assoc. apply drop_app_length'. rewrite !length_app. simpl. lia. }
  assert (standalone raw $"in" (length P + 1)) as Hs.
  { constructor; change (length $"in") with 2; [by rewrite Ht, Hd|..];
      unfold raw; rewrite ?length_app; simpl; try lia.
    - unfold byte_is. rewrite <- app_assoc, lookup_app_r by lia.
      by replace (length P + 1 - 1 - length P) with 0 by lia.
    - unfold byte_is. rewrite <- app_assoc, lookup_app_r by lia.
      by replace (length P + 1 + 2 - length P) with 3 by lia. }
  pose proof (split_once_kw_spec raw $"in" ltac:(done) ltac:(by repeat constructor)) as Hk.
  destruct (split_once_kw raw $"in") as [[a b]|]; [|by eapply Hk in Hs].
  destruct Hk as (i & -> & -> & Hi & Hmin).
  assert (i = length P + 1) as ->; [|by change (length $"in") with 2; rewrite Ht, Hd].
  destruct (decide (length P + 1 < i)); [by eapply Hmin in Hs|].
  destruct (decide (i = length P + 1)); [done|]. exfalso.
  destruct Hi as [_ Hb Hwb _ _]. unfold byte_is, raw in Hwb.
  rewrite <- app_assoc, lookup_app_l in Hwb by lia.
  destruct (P !! (i - 1)) as [d|] eqn:L; [|done].
  apply (lookup_P _ HP) in L. destruct (path_char_plain d L) as (_ & ? & _). congruence.
Qed.

Lemma parse_in_show p vs :
  word_path p -> vs <> [] -> Forall word vs -> parse (show (In p vs)) = Ok (In p vs).
Proof.
  intros Hp Hne Hvs. unfold parse. cbn [show].
  pose proof (path_show_chars p (proj2 Hp)) as HP.
  destruct (path_show_head p Hp) as (c & t & E & Hw & Ha).
  set (B := $"[" ++ join $", " vs ++ $"]").
  assert (trim B = B) as HB by (apply trim_ends; [done|]; unfold B; by rewrite !rev_app_distr).
  replace (path_show p ++ $" in [" ++ join $", " vs ++ $"]")
    with ((path_show p ++ $" ") ++ $"in" ++ (" "%char :: B)) by (by rewrite <- app_assoc).
  assert (trim ((path_show p ++ $" ") ++ $"in" ++ " "%char :: B)
          = (path_show p ++ $" ") ++ $"in" ++ " "%char :: B) as ->.
  { apply trim_ends; rewrite E; [done|]. unfold B.
    rewrite !rev_app_distr. simpl. by rewrite !rev_app_distr. }
  rewrite E at 1. simpl app at 1. rewrite split_in_at, trim_space, HB by done.
  assert (bracketed B = Some (join $", " vs)) as ->.
  { unfold bracketed, B. cbn [strip_prefix app lit String.list_ascii_of_string]. rewrite ch_refl.
    by apply strip_suffix_Some. }
  rewrite pieces_join, path_show_space by done. by destruct vs.
Qed.

(** A predicate reads back as it prints.  What a predicate prints,
    [Predicate::parse] reads as the same predicate: the path, the comparison and every
    value, for paths and values made of words. *)
Theorem parse_show p : printable p -> parse (show p) = Ok p.
Proof.
  intros [Hp Hv].
  pose proof (path_show_chars _ (proj2 Hp)) as HP.
  pose proof (path_show_head _ Hp) as Hh.
  destruct p as [p v|p v|p vs]; cbn [path_of] in *; [..|destruct Hv; by apply parse_in_show].
  all: unfold parse; cbn [show]; rewrite trim_between by done.
  all: destruct Hh as (c & t & E & _); rewrite E at 1; simpl app at 1.
  - change ($" == ") with [" "; "="; "="; " "]%char.
    rewrite no_in_keyword; [|done|apply Hv|by split; [left|]].
    rewrite (parse_op_at $"==" "=" Eq _ v p); auto using path_show_space.
  - change ($" != ") with [" "; "!"; "="; " "]%char.
    rewrite no_in_keyword; [|done|apply Hv|by split; [right|]].
    unfold parse_op at 1. rewrite no_eq_op; [|done|apply Hv|by split; [right|]|done].
    rewrite (parse_op_at $"!=" "!" Ne _ v p); auto using path_show_space.
Qed.

Definition phase : path := [$"status"; $"phase"].

Lemma phase_word : word_path phase.
Proof. split; [done|]. repeat constructor; done. Defined.

Lemma parse_show_witness :
  printable (In phase [$"COMPLETED"; $"FAILED"])
  /\ parse ($"status.phase in [COMPLETED, FAILED]") = Ok (In phase [$"COMPLETED"; $"FAILED"]).
Proof.
  assert (printable (In phase [$"COMPLETED"; $"FAILED"])) as H.
  { split; [apply phase_word|]. split; [done|]. repeat constructor; done. }
  split; [exact H|]. exact (parse_show _ H).
Defined.

Section verdicts.
Context {Num : Type} {J : SerdeJson Num}.
Implicit Types doc : value Num.

(** Whether the path leads to something a value can be compared with. *)
Definition decided (p : path) doc : Prop :=
  exists found actual, path_get p doc = Some found /\ scalar found = Some actual.

(** Nothing there decides nothing.  A predicate never holds of a document that has
    nothing comparable at its path, [!=] included; where there is something, [==] and [!=]
    are opposites and [in] is [==] with one of its values. *)
Theorem eval_spec p doc :
  (~ decided (path_of p) doc -> eval p doc = false)
  /\ (decided (path_of p) doc ->
      match p with
      | Eq q v => eval (Ne q v) doc = negb (eval p doc)
      | Ne q v => eval (Eq q v) doc = negb (eval p doc)
      | In q vs => eval p doc = existsb (fun v => eval (Eq q v) doc) vs
      end).
Proof.
  unfold eval, decided. split.
  - intros H. destruct (path_get (path_of p) doc) as [f|] eqn:E; [|done].
    destruct (scalar f) as [a|] eqn:Es; [|done]. exfalso. eauto.
  - intros (f & a & Hf & Ha).
    destruct p as [q v|q v|q vs]; cbn [path_of] in *; rewrite Hf, Ha.
    + done.
    + by rewrite negb_involutive.
    + induction vs as [|v vs IH]; [done|]. simpl. rewrite IH. f_equal.
      apply bool_decide_ext. split; congruence.
Qed.
End verdicts.

#[global] Instance nat_json : SerdeJson nat := {
  num_to_string := show_nat;
  json_from_str := fun _ => Err [];
  json_to_string := fun _ => [];
}.

Definition running_doc : value nat :=
  JObject [($"status", JObject [($"phase", JString ($"RUNNING")); ($"retries", JNumber 3)])].

Lemma eval_spec_witness :
  eval (Ne phase $"RUNNING") running_doc = negb (eval (Eq phase $"RUNNING") running_doc)
  /\ eval (Ne [$"status"; $"state"] $"RUNNING") running_doc = false.
Proof.
  split.
  - apply (proj2 (eval_spec (Eq phase $"RUNNING") running_doc)).
    exists (JString ($"RUNNING")), ($"RUNNING"). split; reflexivity.
  - apply (proj1 (eval_spec (Ne [$"status"; $"state"] $"RUNNING") running_doc)).
    intros (f & a & H & _). vm_compute in H. discriminate H.
Defined.

Lemma position_empty_spec i l :
  match position_empty i l with Some _ => [] ∈ l | None => Forall (fun s => s <> []) l end.
Proof.
  revert i; induction l as [|s l IH]; intros i; simpl; [constructor|].
  destruct s as [|c s]; [by left|]. specialize (IH (S i)).
  destruct (position_empty (S i) l); [by right|by constructor].
Qed.

(** A path is the one that was written.  [Path::parse] accepts exactly the texts
    none of whose dotted segments is blank, and the path it gives has every segment
    trimmed, not empty and free of dots. *)
Theorem path_parse_spec raw :
  match path_parse raw with
  | Ok p => p = map trim (split_char "." (trim raw)) /\ p <> []
            /\ Forall (fun s => s <> [] /\ trim s = s /\ contains_char "." s = false) p
  | Err _ => trim raw = [] \/ [] ∈ map trim (split_char "." (trim raw))
  end.
Proof.
  unfold path_parse. destruct (trim raw) as [|c t] eqn:E; [by left|]. rewrite <- E.
  pose proof (position_empty_spec 0 (map trim (split_char "." (trim raw)))) as H.
  destruct (position_empty 0 _); [by right|]. split; [done|]. split.
  - intros [=Hn]%map_eq_nil. by apply split_char_nonempty in Hn.
  - rewrite Forall_forall in *. intros s Hs. split; [by apply H|].
    apply list_elem_of_fmap in Hs as (q & -> & Hq). split; [apply trim_idem|].
    apply trim_contains_char. pose proof (split_char_pieces "." (trim raw)) as Hp.
    rewrite Forall_forall in Hp. by apply Hp.
Qed.

End JsonPred.
