(* ===== verification/Fault.v ===== *)
(** * Fault attribution ([dagron-core/src/fault.rs] and the retry rules of [models.rs])

    The classes a failure is recorded in, what another attempt of each is worth, the text
    and XID classifiers, and the attempt budget the engine retries under.  The theorems:
    the stored spelling is canonical; the classifier's answer is the first signature of its
    table that occurs anywhere in the text; its evidence is one trimmed line; and how many
    attempts a failing task is given. *)

From S2P Require Import Prelude.

Module Fault.

Inductive disposition_t := Infrastructure | Application | Platform | DUnknown.
Inductive precedence_t := Symptom | Ambiguous | RootCause.

Inductive fault_class :=
| GpuXid
| GpuEcc
| GpuFallenOffBus
| Nvlink
| GpuUnresponsive
| FabricIb
| NcclCommAbort
| NcclTimeout
| Deadlock
| StragglerRank
| DataloaderStall
| HostOom
| GpuOom
| NanLoss
| CheckpointCorrupt
| UserCode
| Config
| Storage
| Preemption
| NodeFail
| WalltimeExceeded
| Cancelled
| Unknown.

#[global] Instance fault_class_eq : EqDecision fault_class.
Proof. solve_decision. Defined.
#[global] Instance disposition_eq : EqDecision disposition_t.
Proof. solve_decision. Defined.
#[global] Instance precedence_eq : EqDecision precedence_t.
Proof. solve_decision. Defined.

(** [Disposition::default_budget] *)
Definition disposition_budget (d : disposition_t) : N :=
  match d with Infrastructure => 5 | Application => 1 | Platform => 3 | DUnknown => 0 end.

(** [FaultClass::as_str] *)
Definition as_str (c : fault_class) : str :=
  match c with
  | GpuXid => $"gpu-xid"
  | GpuEcc => $"gpu-ecc"
  | GpuFallenOffBus => $"gpu-fallen-off-bus"
  | Nvlink => $"nvlink"
  | GpuUnresponsive => $"gpu-unresponsive"
  | FabricIb => $"fabric-ib"
  | NcclCommAbort => $"nccl-comm-abort"
  | NcclTimeout => $"nccl-timeout"
  | Deadlock => $"deadlock"
  | StragglerRank => $"straggler-rank"
  | DataloaderStall => $"dataloader-stall"
  | HostOom => $"host-oom"
  | GpuOom => $"gpu-oom"
  | NanLoss => $"nan-loss"
  | CheckpointCorrupt => $"checkpoint-corrupt"
  | UserCode => $"user-code"
  | Config => $"config"
  | Storage => $"storage"
  | Preemption => $"preemption"
  | NodeFail => $"node-fail"
  | WalltimeExceeded => $"walltime-exceeded"
  | Cancelled => $"cancelled"
  | Unknown => $"unknown"
  end.

(** The table of [FaultClass::parse], whose last arm is [Unknown]. *)
Definition parse_table : list (string * fault_class) :=
  [("gpu-xid"%string, GpuXid);
   ("gpu-ecc"%string, GpuEcc);
   ("gpu-fallen-off-bus"%string, GpuFallenOffBus);
   ("nvlink"%string, Nvlink);
   ("gpu-unresponsive"%string, GpuUnresponsive);
   ("fabric-ib"%string, FabricIb);
   ("nccl-comm-abort"%string, NcclCommAbort);
   ("nccl-timeout"%string, NcclTimeout);
   ("deadlock"%string, Deadlock);
   ("straggler-rank"%string, StragglerRank);
   ("dataloader-stall"%string, DataloaderStall);
   ("host-oom"%string, HostOom);
   ("gpu-oom"%string, GpuOom);
   ("nan-loss"%string, NanLoss);
   ("checkpoint-corrupt"%string, CheckpointCorrupt);
   ("user-code"%string, UserCode);
   ("config"%string, Config);
   ("storage"%string, Storage);
   ("preemption"%string, Preemption);
   ("node-fail"%string, NodeFail);
   ("walltime-exceeded"%string, WalltimeExceeded);
   ("cancelled"%string, Cancelled);
   ("canceled"%string, Cancelled)].

Fixpoint assoc_str {A} (s : str) (t : list (string * A)) (default : A) : A :=
  match t with
  | [] => default
  | (k, v) :: t => if bool_decide (s = lit k) then v else assoc_str s t default
  end.

(** [FaultClass::parse] *)
Definition parse (s : str) : fault_class :=
  assoc_str (replace_char "_" $"-" (to_lower (trim s))) parse_table Unknown.

(** [FaultClass::disposition] *)
Definition disposition (c : fault_class) : disposition_t :=
  match c with
  | GpuXid | GpuEcc | GpuFallenOffBus | Nvlink | GpuUnresponsive
  | FabricIb | NcclCommAbort | Storage | NodeFail => Infrastructure
  | Deadlock | StragglerRank | DataloaderStall | HostOom | GpuOom
  | NanLoss | CheckpointCorrupt | UserCode | Config => Application
  | Preemption | WalltimeExceeded | Cancelled => Platform
  | NcclTimeout | Unknown => DUnknown
  end.

(** [FaultClass::precedence] *)
Definition precedence (c : fault_class) : precedence_t :=
  match c with
  | GpuXid | GpuEcc | GpuFallenOffBus | Nvlink | GpuUnresponsive
  | FabricIb | Storage | NodeFail | Preemption => RootCause
  | HostOom | GpuOom | NanLoss | CheckpointCorrupt | Config
  | WalltimeExceeded | Cancelled => RootCause
  | NcclCommAbort | Deadlock | StragglerRank | DataloaderStall | UserCode => Ambiguous
  | NcclTimeout | Unknown => Symptom
  end.

(** [FaultClass::should_drain_node] *)
Definition should_drain_node (c : fault_class) : bool :=
  match c with
  | GpuXid | GpuEcc | GpuFallenOffBus | Nvlink | GpuUnresponsive | FabricIb | NodeFail => true
  | _ => false
  end.

(** [FaultClass::default_budget] *)
Definition default_budget (c : fault_class) : N := disposition_budget (disposition c).

Definition FAULT_CLASS_NAMES : list str :=
  [$"gpu-xid";
   $"gpu-ecc";
   $"gpu-fallen-off-bus";
   $"nvlink";
   $"gpu-unresponsive";
   $"fabric-ib";
   $"nccl-comm-abort";
   $"nccl-timeout";
   $"deadlock";
   $"straggler-rank";
   $"dataloader-stall";
   $"host-oom";
   $"gpu-oom";
   $"nan-loss";
   $"checkpoint-corrupt";
   $"user-code";
   $"config";
   $"storage";
   $"preemption";
   $"node-fail";
   $"walltime-exceeded";
   $"cancelled";
   $"unknown"].

Definition ALL : list fault_class :=
  [GpuXid; GpuEcc; GpuFallenOffBus; Nvlink; GpuUnresponsive; FabricIb; NcclCommAbort; NcclTimeout; Deadlock; StragglerRank; DataloaderStall; HostOom; GpuOom; NanLoss; CheckpointCorrupt; UserCode; Config; Storage; Preemption; NodeFail; WalltimeExceeded; Cancelled; Unknown].

(** ** Classifying text *)

Inductive confidence := Low | Medium | High.

Record classification := Classification {
  class : fault_class;
  conf : confidence;
  evidence : str;
}.

Definition EVIDENCE_MAX : nat := 400.

(** [clip] *)
Definition clip (s : str) : str :=
  let t := trim s in
  if (char_count t <=? EVIDENCE_MAX)%nat then t else take_chars EVIDENCE_MAX t ++ $"…".

(** [Classification::new] *)
Definition classification_new (c : fault_class) (k : confidence) (e : str) : classification :=
  Classification c k (clip e).

(** [xid_class] *)
Definition xid_class (xid : N) : option fault_class :=
  match xid with
  | 13 | 31 | 43 | 45 => Some UserCode
  | 48 | 63 | 64 | 92 | 94 | 95 => Some GpuEcc
  | 74 | 80 | 81 => Some Nvlink
  | 79 => Some GpuFallenOffBus
  | 62 | 119 | 120 | 121 | 122 => Some GpuUnresponsive
  | 61 | 68 | 69 | 93 => Some GpuXid
  | _ => None
  end%N.

(** [xid_is_fatal] *)
Definition xid_is_fatal (xid : N) : bool :=
  match xid_class xid with Some c => should_drain_node c | None => false end.

Definition empty (s : str) : bool := match s with [] => true | _ => false end.

(** [parse_first_number] *)
Fixpoint first_number (digits s : str) : option N :=
  match s with
  | [] => parse_u32 digits
  | c :: s =>
      if ch c NL then parse_u32 digits
      else if is_digit c then first_number (digits ++ [c]) s
      else if negb (empty digits) then parse_u32 digits
      else first_number digits s
  end.
Definition parse_first_number (s : str) : option N := first_number [] s.

(** The loop of [parse_xid] over [rest], the text after the needle. *)
Fixpoint xid_scan (rest digits s : str) : option N :=
  match s with
  | [] => parse_u32 digits
  | c :: s =>
      if ch c NL then parse_u32 digits
      else if is_digit c then xid_scan rest (digits ++ [c]) s
      else if negb (empty digits) then parse_u32 digits
      else if ch c "(" then
        match find_char ")" rest with
        | Some close => parse_first_number (drop (close + 1) rest)
        | None => xid_scan rest digits s
        end
      else xid_scan rest digits s
  end.

(** [parse_xid] *)
Definition parse_xid (line : str) : option N :=
  let* at_ := find $"xid" (to_lower line) in
  let rest := drop (at_ + 3) line in
  xid_scan rest [] rest.

Definition sig : Type := string * fault_class * confidence.

(** [SIGNATURES] *)
Definition SIGNATURES : list sig :=
  [("cuda out of memory"%string, GpuOom, High);
   ("torch.cuda.outofmemoryerror"%string, GpuOom, High);
   ("out of memory (oom)"%string, HostOom, High);
   ("oomkilled"%string, HostOom, High);
   ("killed process"%string, HostOom, Medium);
   ("out of memory: killed"%string, HostOom, High);
   ("loss is nan"%string, NanLoss, High);
   ("loss became nan"%string, NanLoss, High);
   ("nan or inf found in input tensor"%string, NanLoss, High);
   ("found nan in loss"%string, NanLoss, High);
   ("gradient overflow detected"%string, NanLoss, Low);
   ("unexpected end of file while loading checkpoint"%string, CheckpointCorrupt, High);
   ("invalid load key"%string, CheckpointCorrupt, Medium);
   ("unpicklingerror"%string, CheckpointCorrupt, Medium);
   ("checkpoint file is corrupt"%string, CheckpointCorrupt, High);
   ("central directory not found"%string, CheckpointCorrupt, Medium);
   ("has fallen off the bus"%string, GpuFallenOffBus, High);
   ("gpu is lost"%string, GpuFallenOffBus, High);
   ("uncorrectable ecc error"%string, GpuEcc, High);
   ("double bit ecc"%string, GpuEcc, High);
   ("uncontained ecc"%string, GpuEcc, High);
   ("contained ecc error"%string, GpuEcc, High);
   ("row remap failure"%string, GpuEcc, High);
   ("ecc error"%string, GpuEcc, Medium);
   ("nvlink error"%string, Nvlink, High);
   ("nvlink is down"%string, Nvlink, High);
   ("nvswitch fatal"%string, Nvlink, High);
   ("gsp rpc timeout"%string, GpuUnresponsive, High);
   ("unable to determine the device handle"%string, GpuUnresponsive, Medium);
   ("cuda error: unspecified launch failure"%string, GpuUnresponsive, Medium);
   ("cuda error: ecc uncorrectable"%string, GpuEcc, High);
   ("device-side assert triggered"%string, UserCode, High);
   ("an illegal memory access was encountered"%string, UserCode, High);
   ("link_down"%string, FabricIb, High);
   ("port state change: down"%string, FabricIb, High);
   ("ib link flap"%string, FabricIb, High);
   ("ibv_"%string, FabricIb, Low);
   ("transport retry counter exceeded"%string, FabricIb, Medium);
   ("rdma_"%string, FabricIb, Low);
   ("ncclsystemerror"%string, NcclCommAbort, Medium);
   ("ncclinternalerror"%string, NcclCommAbort, Medium);
   ("ncclunhandledcudaerror"%string, NcclCommAbort, Medium);
   ("nccl warn bootstrap"%string, NcclCommAbort, Medium);
   ("unhandled system error"%string, NcclCommAbort, Low);
   ("watchdog caught collective operation timeout"%string, NcclTimeout, Low);
   ("nccl watchdog thread terminated"%string, NcclTimeout, Low);
   ("timeout(ms)="%string, NcclTimeout, Low);
   ("some nccl operations have failed or timed out"%string, NcclTimeout, Low);
   ("stale file handle"%string, Storage, High);
   ("no space left on device"%string, Storage, High);
   ("input/output error"%string, Storage, Medium);
   ("lustre"%string, Storage, Low);
   ("transport endpoint is not connected"%string, Storage, Medium);
   ("spot instance termination"%string, Preemption, High);
   ("preempted"%string, Preemption, High);
   ("instance is scheduled for termination"%string, Preemption, High);
   ("node_fail"%string, NodeFail, High);
   ("node failure"%string, NodeFail, High);
   ("due to time limit"%string, WalltimeExceeded, High);
   ("job cancelled"%string, Cancelled, High);
   ("dagron_local_command_allowlist"%string, Config, High);
   ("dagron_local_env_passthrough"%string, Config, High);
   ("imagepullbackoff"%string, Config, High);
   ("errimagepull"%string, Config, High);
   ("no such file or directory"%string, Config, Low);
   ("command not found"%string, Config, Medium);
   ("permission denied"%string, Config, Low)].

Definition rfind_char (c : ascii) (s : str) : option nat :=
  option_map (fun i => length s - 1 - i) (find_char c (rev s)).

(** [line_containing] *)
Definition line_containing (text lower needle : str) : option str :=
  let* at_ := find needle lower in
  let start := match rfind_char NL (take at_ text) with Some i => i + 1 | None => 0 end in
  let end_ := match find_char NL (drop at_ text) with Some i => at_ + i | None => length text end in
  Some (trim (drop start (take end_ text))).

Definition line_or (text lower needle : str) : str :=
  match line_containing text lower needle with Some l => l | None => text end.

(** The loop over the table. *)
Fixpoint scan_signatures (sigs : list sig) (text lower : str) : option classification :=
  match sigs with
  | [] => None
  | (needle, c, k) :: sigs =>
      match line_containing text lower (lit needle) with
      | Some line => Some (classification_new c k line)
      | None => scan_signatures sigs text lower
      end
  end.

(** [classify_text] *)
Definition classify_text (text : str) : option classification :=
  if empty (trim text) then None
  else
    let lower := to_lower text in
    let by_table := scan_signatures SIGNATURES text lower in
    if contains $"xid" lower then
      match parse_xid text with
      | Some code =>
          let line := line_or text lower $"xid" in
          match xid_class code with
          | Some c => Some (classification_new c High line)
          | None => Some (classification_new GpuXid Low line)
          end
      | None => by_table
      end
    else by_table.

(** ** Retry budgets ([models.rs]) *)

(** [should_retry_failed]: [attempt] is the attempt that just ran, counted from 1. *)
Definition should_retry_failed (attempt : Z) (max_attempts : N) (timed_out retry_on_timeout : bool)
    : bool :=
  if timed_out && negb retry_on_timeout then false else (attempt <? Z.of_N max_attempts)%Z.

(** [effective_budget] *)
Definition effective_budget (max_attempts : N) (c : option fault_class) (budget_override : option N)
    : N :=
  match budget_override with
  | Some n => n
  | None =>
      match c with
      | Some c => if (0 <? default_budget c)%N then default_budget c else max_attempts
      | None => max_attempts
      end
  end.

(** [should_retry_failed_with_class] *)
Definition should_retry_failed_with_class (attempt : Z) (max_attempts : N)
    (timed_out retry_on_timeout : bool) (c : option fault_class) (budget_override : option N)
    : bool :=
  if timed_out && negb retry_on_timeout then false
  else (attempt <? Z.of_N (effective_budget max_attempts c budget_override))%Z.

(** ** What classification promises *)

(** A needle of the table occurs in a text, whatever the text's case. *)
Definition occurs (needle text : str) : Prop := exists a b, to_lower text = a ++ needle ++ b.

(** The XID code a text reports, read off the characters after its first [xid]. *)
Definition reported_xid (text : str) : option N :=
  if contains $"xid" (to_lower text) then parse_xid text else None.

Definition xid_verdict (code : N) : fault_class * confidence :=
  match xid_class code with Some c => (c, High) | None => (GpuXid, Low) end.

(** The abstract answer: a blank text has none, a reported XID decides, and otherwise the
    first signature of the table that occurs anywhere in the text does. *)
Inductive verdict (text : str) : option (fault_class * confidence) -> Prop :=
| V_blank : trim text = [] -> verdict text None
| V_xid code : trim text <> [] -> reported_xid text = Some code ->
    verdict text (Some (xid_verdict code))
| V_sig pre n c k post : trim text <> [] -> reported_xid text = None ->
    SIGNATURES = pre ++ (n, c, k) :: post -> occurs (lit n) text ->
    Forall (fun g => ~ occurs (lit g.1.1) text) pre -> verdict text (Some (c, k))
| V_none : trim text <> [] -> reported_xid text = None ->
    Forall (fun g => ~ occurs (lit g.1.1) text) SIGNATURES -> verdict text None.

Definition answer (cl : classification) : fault_class * confidence := (class cl, conf cl).

Lemma occurs_contains n text : contains n (to_lower text) = true <-> occurs n text.
Proof. unfold occurs. apply contains_spec. Qed.

Lemma line_containing_occurs text n :
  is_Some (line_containing text (to_lower text) n) <-> occurs n text.
Proof.
  rewrite <- occurs_contains. unfold line_containing, contains.
  destruct (find n (to_lower text)); split; intros H; try done.
  all: by destruct H.
Qed.

Lemma scan_signatures_spec sigs text :
  match scan_signatures sigs text (to_lower text) with
  | Some cl => exists pre n c k post, sigs = pre ++ (n, c, k) :: post /\ answer cl = (c, k)
                 /\ occurs (lit n) text /\ Forall (fun g => ~ occurs (lit g.1.1) text) pre
                 /\ exists l, line_containing text (to_lower text) (lit n) = Some l
                      /\ evidence cl = clip l
  | None => Forall (fun g => ~ occurs (lit g.1.1) text) sigs
  end.
Proof.
  induction sigs as [|[[n c] k] sigs IH]; [constructor|]. cbn [scan_signatures].
  destruct (line_containing text (to_lower text) (lit n)) as [l|] eqn:E.
  - exists [], n, c, k, sigs. split; [done|]. split; [done|].
    split; [apply line_containing_occurs; eauto|]. split; [constructor|]. eauto.
  - assert (~ occurs (lit n) text) as Hn.
    { intros H%line_containing_occurs. rewrite E in H. by destruct H. }
    destruct (scan_signatures sigs text (to_lower text)) as [cl|].
    + destruct IH as (pre & n' & c' & k' & post & -> & Ha & Ho & Hf & Hl).
      exists ((n, c, k) :: pre), n', c', k', post.
      split; [done|]. split; [done|]. split; [done|]. split; [by constructor|done].
    + by constructor.
Qed.

Lemma trim_empty text : empty (trim text) = true <-> trim text = [].
Proof. by destruct (trim text). Qed.

(** Pieces of a line hold no line feed. *)
Lemma find_char_None c s : find_char c s = None -> c ∉ s.
Proof.
  induction s as [|d s IH]; cbn [find_char]; [intros _; apply not_elem_of_nil|].
  destruct (ch c d) eqn:E; [done|]. destruct (find_char c s); [done|]. intros _.
  apply not_elem_of_cons. split; [|by apply IH]. intros ->. by rewrite ch_refl in E.
Qed.

Lemma find_char_Some c s i : find_char c s = Some i -> c ∉ take i s /\ i < length s.
Proof.
  revert i; induction s as [|d s IH]; intros i; cbn [find_char]; [done|].
  destruct (ch c d) eqn:E; [intros [= <-]; split; [apply not_elem_of_nil|simpl; lia]|].
  destruct (find_char c s) as [j|] eqn:F; [|done]. intros [= <-].
  destruct (IH j eq_refl) as [H1 H2]. split; [|simpl; lia]. simpl. apply not_elem_of_cons.
  split; [|done]. intros ->. by rewrite ch_refl in E.
Qed.


Lemma find_char_end c s :
  c ∉ take (match find_char c s with Some i => i | None => length s end) s.
Proof.
  destruct (find_char c s) eqn:E; [by apply find_char_Some in E as [? _]|].
  rewrite firstn_all. by apply find_char_None.
Qed.

Lemma rfind_char_start c s :
  c ∉ drop (match rfind_char c s with Some i => i + 1 | None => 0 end) s.
Proof.
  unfold rfind_char. destruct (find_char c (rev s)) as [j|] eqn:E; cbn [option_map].
  - apply find_char_Some in E as [Hn Hj]. rewrite length_rev in Hj.
    replace (length s - 1 - j + 1) with (length s - j) by lia.
    rewrite firstn_rev in Hn. intros H. apply Hn. apply list_elem_of_In.
    rewrite <- in_rev. by apply list_elem_of_In.
  - apply find_char_None in E. rewrite drop_0. intros H. apply E.
    apply list_elem_of_In. by rewrite <- in_rev, <- list_elem_of_In.
Qed.

Lemma rfind_char_bound c s :
  match rfind_char c s with Some i => i + 1 | None => 0 end <= length s.
Proof.
  unfold rfind_char. destruct (find_char c (rev s)) as [j|] eqn:E; cbn [option_map]; [|lia].
  apply find_char_Some in E as [_ Hj]. rewrite length_rev in Hj. lia.
Qed.

Lemma line_containing_line text n l :
  line_containing text (to_lower text) n = Some l -> NL ∉ l /\ exists a b, text = a ++ l ++ b.
Proof.
  unfold line_containing. destruct (find n (to_lower text)) as [i|] eqn:E; [|done].
  apply find_Some in E as (r & _ & Hi). unfold to_lower in Hi. rewrite length_map in Hi.
  pose proof (rfind_char_start NL (take i text)) as Hs.
  pose proof (rfind_char_bound NL (take i text)) as Hb.
  pose proof (find_char_end NL (drop i text)) as He. revert Hs Hb.
  set (start := match rfind_char NL (take i text) with Some _ => _ | None => _ end).
  intros Hs Hb. rewrite length_take in Hb.
  assert (exists e, match find_char NL (drop i text) with Some j => i + j | None => length text end
                    = i + e /\ NL ∉ take e (drop i text)) as (e & -> & Hn).
  { exists (match find_char NL (drop i text) with Some j => j | None => (length (drop i text)) end).
    split; [|done]. destruct (find_char _ _); [done|]. rewrite length_drop. lia. }
  intros [= <-]. split.
  - intros H. assert (NL ∈ drop start (take (i + e) text)) as H'.
    { destruct (trim_infix (drop start (take (i + e) text))) as (a & b & ->). set_solver. }
    rewrite <- (take_drop i text) in H' at 1.
    rewrite take_app_ge, drop_app_le in H' by (rewrite length_take; lia).
    rewrite length_take in H'. replace (i + e - i `min` length text) with e in H' by lia.
    set_solver.
  - destruct (trim_infix (drop start (take (i + e) text))) as (a & b & H).
    exists (take start (take (i + e) text) ++ a), (b ++ drop (i + e) text).
    rewrite <- (take_drop (i + e) text) at 1.
    rewrite <- (take_drop start (take (i + e) text)) at 1. rewrite H at 1.
    by rewrite <- !app_assoc.
Qed.

Lemma take_chars_count n s : (char_count (take_chars n s) <= n)%nat.
Proof.
  unfold char_count. revert n; induction s as [|c s IH]; intros n; cbn [take_chars];
    [cbn; lia|].
  destruct (is_cont c) eqn:E.
  - rewrite filter_cons_False by congruence. apply IH.
  - destruct n as [|n]; [cbn; lia|]. rewrite filter_cons_True by done. cbn [length].
    specialize (IH n). lia.
Qed.

Lemma take_chars_incl n s : incl (take_chars n s) s.
Proof.
  revert n; induction s as [|c s IH]; intros n; cbn [take_chars]; [by intros x []|].
  destruct (is_cont c); [|destruct n]; intros x H; first [by destruct H|destruct H as [->|H]; [by left|right; by eapply IH]].
Qed.

Lemma char_count_app a b : char_count (a ++ b) = (char_count a + char_count b)%nat.
Proof. unfold char_count. by rewrite filter_app, length_app. Qed.

(** A clipped line stays a line, and stays short. *)
Lemma clip_line s : NL ∉ s -> NL ∉ clip s /\ (char_count (clip s) <= EVIDENCE_MAX + 1)%nat.
Proof.
  intros H. assert (NL ∉ trim s) as Ht.
  { destruct (trim_infix s) as (a & b & E). rewrite E in H. set_solver. }
  unfold clip. destruct (Nat.leb_spec (char_count (trim s)) EVIDENCE_MAX) as [Hl|Hl].
  - split; [done|lia].
  - split.
    + apply not_elem_of_app. split; [|by vm_compute; set_solver].
      intros Hin. apply Ht. apply list_elem_of_In, (take_chars_incl EVIDENCE_MAX).
      by apply list_elem_of_In.
    + rewrite char_count_app. pose proof (take_chars_count EVIDENCE_MAX (trim s)).
      change (char_count $"…") with 1. lia.
Qed.

Lemma classify_text_unfold text :
  classify_text text =
  if empty (trim text) then None
  else match reported_xid text with
       | Some code => Some (classification_new (xid_verdict code).1 (xid_verdict code).2
                              (line_or text (to_lower text) $"xid"))
       | None => scan_signatures SIGNATURES text (to_lower text)
       end.
Proof.
  unfold classify_text, reported_xid, xid_verdict.
  destruct (empty (trim text)), (contains $"xid" (to_lower text)); try done.
  destruct (parse_xid text) as [code|]; [|done]. by destruct (xid_class code).
Qed.

(** The classifier answers what its table says.  A blank text has no verdict, a
    reported XID decides, and otherwise the first signature of the table that occurs
    anywhere in the text, in either case, does. *)
Theorem classify_text_verdict (text : str) :
  verdict text (option_map answer (classify_text text)).
Proof.
  rewrite classify_text_unfold. destruct (empty (trim text)) eqn:Et.
  { apply V_blank. by apply trim_empty. }
  assert (trim text <> []) as Hne by (intros H%trim_empty; congruence).
  destruct (reported_xid text) as [code|] eqn:Ex; cbn [option_map].
  - replace (answer _) with (xid_verdict code) by (by destruct (xid_verdict code)).
    by apply V_xid.
  - pose proof (scan_signatures_spec SIGNATURES text) as H.
    destruct (scan_signatures SIGNATURES text (to_lower text)) as [cl|]; cbn [option_map].
    + destruct H as (pre & n & c & k & post & Hs & -> & Ho & Hf & _). by eapply V_sig.
    + by apply V_none.
Qed.

(** The evidence is a line of the text.  What a classification quotes is one line
    of the text it was made of, clipped to its bound of characters and one ellipsis. *)
Theorem classify_text_evidence (text : str) (cl : classification)
    (H : classify_text text = Some cl) :
  NL ∉ evidence cl /\ (char_count (evidence cl) <= EVIDENCE_MAX + 1)%nat
  /\ exists a l b, text = a ++ l ++ b /\ NL ∉ l /\ evidence cl = clip l.
Proof.
  assert (exists l n, line_containing text (to_lower text) n = Some l /\ evidence cl = clip l)
    as (l & n & Hl & ->).
  { rewrite classify_text_unfold in H. destruct (empty (trim text)); [done|].
    destruct (reported_xid text) as [code|] eqn:Ex.
    - apply (inj Some) in H as <-. cbn [classification_new evidence]. unfold line_or.
      destruct (line_containing text (to_lower text) $"xid") as [l|] eqn:E; [eauto|].
      unfold reported_xid in Ex. destruct (contains _ _) eqn:Ec; [|done].
      apply occurs_contains, line_containing_occurs in Ec. rewrite E in Ec. by destruct Ec.
    - pose proof (scan_signatures_spec SIGNATURES text) as Hs. rewrite H in Hs.
      destruct Hs as (_ & n & _ & _ & _ & _ & _ & _ & _ & l & Hl & Hc). eauto. }
  apply line_containing_line in Hl as (Hn & a & b & Ht).
  destruct (clip_line l Hn) as [H1 H2]. split; [done|]. split; [done|]. exists a, l, b. done.
Qed.

Definition sample_log : str :=
  $"step 1200" ++ [NL] ++ $"  RuntimeError: CUDA out of memory. Tried to allocate" ++ [NL].

Lemma classify_text_evidence_witness :
  classify_text sample_log
    = Some (Classification GpuOom High $"RuntimeError: CUDA out of memory. Tried to allocate")
  /\ NL ∉ evidence (Classification GpuOom High $"RuntimeError: CUDA out of memory. Tried to allocate").
Proof.
  split; [by vm_compute|].
  by apply (classify_text_evidence sample_log).
Defined.

(** ** The attempts a failing task is given *)

(** Attempt [n] of a task that always fails is made: the first always is, and a later one
    when the decision after the one before it was to retry. *)
Inductive attempted (retry : Z -> bool) : Z -> Prop :=
| attempted_first : attempted retry 1
| attempted_next n : attempted retry n -> retry n = true -> attempted retry (n + 1).

Lemma attempted_below retry b n :
  (forall a, (1 <= a)%Z -> retry a = (a <? b)%Z) ->
  attempted retry n <-> (1 <= n <= Z.max 1 b)%Z.
Proof.
  intros Hr. split.
  - induction 1 as [|n H IH Hn]; [lia|]. rewrite Hr in Hn by lia.
    apply Z.ltb_lt in Hn. lia.
  - intros [H1 H2]. revert H2. pattern n. apply Zlt_lower_bound_ind with (z := 1%Z); [|done].
    clear n H1. intros n IH H1 H2. destruct (decide (n = 1)%Z) as [->|Hn]; [constructor|].
    replace n with (n - 1 + 1)%Z by lia. constructor; [apply IH; lia|].
    rewrite Hr by lia. apply Z.ltb_lt. lia.
Qed.

(** A failing task is given the attempts its budget says.  A task that fails every
    time is attempted up to the effective budget of its fault class and no further, once at
    least; a timeout that is not to be retried has one attempt. *)
Theorem retry_attempts (max_attempts : N) (timed_out retry_on_timeout : bool)
    (c : option fault_class) (budget_override : option N) (n : Z) :
  attempted (fun a => should_retry_failed_with_class a max_attempts timed_out retry_on_timeout
                        c budget_override) n
  <-> (1 <= n <= if timed_out && negb retry_on_timeout then 1
                 else Z.max 1 (Z.of_N (effective_budget max_attempts c budget_override)))%Z.
Proof.
  unfold should_retry_failed_with_class. destruct (timed_out && negb retry_on_timeout).
  - rewrite (attempted_below _ 1); [lia|]. intros a Ha. symmetry. apply Z.ltb_ge. done.
  - by apply attempted_below.
Qed.

(** A fault class is spelled one way.  The stored spelling reads back, the public
    list of names is the spellings of all classes and each class is in it once; a node is
    drained for infrastructure faults alone; a symptom is what has no disposition of its
    own; and every signature of the table is classified as the table says. *)
Theorem fault_class_spelling :
  (forall c, parse (as_str c) = c)
  /\ (forall s, as_str (parse s) = s <-> s ∈ FAULT_CLASS_NAMES)
  /\ FAULT_CLASS_NAMES = map as_str ALL /\ NoDup ALL /\ (forall c, c ∈ ALL)
  /\ (forall c, should_drain_node c = true -> disposition c = Infrastructure)
  /\ (forall c, precedence c = Symptom <-> disposition c = DUnknown)
  /\ Forall (fun g => class <$> classify_text (lit g.1.1) = Some g.1.2) SIGNATURES.
Proof.
  assert (forall c, parse (as_str c) = c) as Hp by (by intros []).
  assert (forall c, c ∈ ALL) as Hall by (intros []; vm_compute; set_solver).
  assert (FAULT_CLASS_NAMES = map as_str ALL) as Hn by (by vm_compute).
  split; [done|]. split.
  { intros s. rewrite Hn. split.
    - intros <-. apply list_elem_of_fmap. eauto.
    - intros (c & -> & _)%list_elem_of_fmap. by rewrite Hp. }
  split; [done|]. split; [refine (bool_decide_unpack _ _); by vm_compute|]. split; [done|].
  split; [by intros []|]. split; [by intros []|].
  refine (bool_decide_unpack _ _). by vm_compute.
Qed.

End Fault.
