(* ===== verification/Models.v ===== *)
(** * Shared vocabulary of the store ([dagron-core/src/models.rs])

    The statuses of a task and of a run with their stored spelling, the confidence in the
    clock, the trigger rules and the values the store's operations answer with. *)

From S2P Require Import Prelude.

Module Models.

(** ** Task status *)

Inductive TaskStatus :=
| Pending
| Ready
| Running
| AwaitingApproval
| Succeeded
| Failed
| Skipped
| Cancelled.

#[global] Instance TaskStatus_eq : EqDecision TaskStatus.
Proof. solve_decision. Defined.

(** [impl Display for TaskStatus] *)
Definition task_status_str (s : TaskStatus) : str :=
  match s with
  | Pending => $"pending"
  | Ready => $"ready"
  | Running => $"running"
  | AwaitingApproval => $"awaiting_approval"
  | Succeeded => $"succeeded"
  | Failed => $"failed"
  | Skipped => $"skipped"
  | Cancelled => $"cancelled"
  end.

Definition is_str (s : str) (t : string) : bool := bool_decide (s = lit t).

(** [impl FromStr for TaskStatus]; the error is the text that is no status. *)
Definition task_status_from_str (s : str) : result str TaskStatus :=
  if is_str s "pending" then Ok Pending
  else if is_str s "ready" then Ok Ready
  else if is_str s "running" then Ok Running
  else if is_str s "awaiting_approval" then Ok AwaitingApproval
  else if is_str s "succeeded" then Ok Succeeded
  else if is_str s "failed" then Ok Failed
  else if is_str s "skipped" then Ok Skipped
  else if is_str s "cancelled" then Ok Cancelled
  else Err ($"unknown task status '" ++ s ++ $"'").

(** ** Run status *)

Inductive RunStatus := RPending | RRunning | RSucceeded | RFailed | RCancelled.

#[global] Instance RunStatus_eq : EqDecision RunStatus.
Proof. solve_decision. Defined.

(** [RunStatus::is_terminal] *)
Definition run_is_terminal (s : RunStatus) : bool :=
  match s with RSucceeded | RFailed | RCancelled => true | RPending | RRunning => false end.

(** [impl Display for RunStatus] *)
Definition run_status_str (s : RunStatus) : str :=
  match s with
  | RPending => $"pending"
  | RRunning => $"running"
  | RSucceeded => $"succeeded"
  | RFailed => $"failed"
  | RCancelled => $"cancelled"
  end.

(** [impl FromStr for RunStatus] *)
Definition run_status_from_str (s : str) : result str RunStatus :=
  if is_str s "pending" then Ok RPending
  else if is_str s "running" then Ok RRunning
  else if is_str s "succeeded" then Ok RSucceeded
  else if is_str s "failed" then Ok RFailed
  else if is_str s "cancelled" then Ok RCancelled
  else Err ($"unknown run status '" ++ s ++ $"'").

(** ** Clock confidence *)

Inductive ClockConfidence := Synced | Drifted | ClockUnknown.

(** [ClockConfidence::as_str], [gauge] and [from_str] *)
Definition clock_str (c : ClockConfidence) : str :=
  match c with Synced => $"synced" | Drifted => $"drifted" | ClockUnknown => $"unknown" end.

Definition clock_gauge (c : ClockConfidence) : N :=
  match c with Synced => 0 | Drifted => 1 | ClockUnknown => 2 end.

Definition clock_from_str (s : str) : result str ClockConfidence :=
  if is_str s "synced" then Ok Synced
  else if is_str s "drifted" then Ok Drifted
  else if is_str s "unknown" then Ok ClockUnknown
  else Err ($"unknown clock confidence '" ++ s ++ $"'").

(** ** Trigger rules *)

Definition TRIGGER_RULES : list str :=
  [$"all_success"; $"all_done"; $"one_failed"; $"all_failed"; $"none_failed"].

Definition DEFAULT_TRIGGER_RULE : str := $"all_success".

(** [trigger_rule_ready], over the stored spelling of the dependencies' statuses. *)
Definition trigger_rule_ready (rule : str) (dep_statuses : list str) : bool :=
  match dep_statuses with
  | [] => true
  | _ =>
      let is_failed s := is_str s "failed" || is_str s "cancelled" in
      let is_nonfailure s := is_str s "succeeded" || is_str s "skipped" in
      if is_str rule "all_done" then true
      else if is_str rule "one_failed" then existsb is_failed dep_statuses
      else if is_str rule "all_failed" then forallb is_failed dep_statuses
      else if is_str rule "none_failed" then forallb is_nonfailure dep_statuses
      else forallb (fun s => is_str s "succeeded") dep_statuses
  end.

(** ** Answers of the store *)

(** [Cancelled], what a cancel did to a run's tasks. *)
Record CancelCounts := { cc_cancelled : nat; cc_stopping : nat }.

(** [MaxActiveRunsReached] *)
Record MaxActiveRunsReached := {
  mar_name : str;
  mar_max : N;
  mar_active : Z;
  mar_waiting : Z;
  mar_key : option str;
}.

(** [FanoutOutcome] *)
Inductive FanoutOutcome :=
| Expanded (instances : nat)
| Joined (succeeded : bool) (instances : nat)
| FanoutFailed (reason : str).

(** [RunAgain], what put tasks of a run back, with [reason] and the type [event] has. *)
Inductive RunAgain := Rerun | RerunAll | Retry | Clear | AutoRerun.

Definition again_reason (by_ : RunAgain) : str :=
  match by_ with
  | Rerun | RerunAll | AutoRerun => $"rerun"
  | Retry => $"retry"
  | Clear => $"clear"
  end.

Definition again_event (by_ : RunAgain) : str :=
  match by_ with AutoRerun => $"run.auto_rerun" | _ => $"run.rerun" end.

(** [TeardownOwed] *)
Record TeardownOwed := { to_run_id : str; to_tasks : Z }.

(** [RunTrigger], what started a run. *)
Record RunTrigger := {
  kind : str;
  principal : str;
  actor : option str;
  trust : option str;
  source : option str;
  forge_host : option str;
  repo : option str;
  git_ref : option str;
  sha : option str;
  base_sha : option str;
  pr : option Z;
  event_id : option str;
}.

(** ** The stored spelling *)

Lemma is_str_true s t : is_str s t = true <-> s = lit t.
Proof. apply bool_decide_eq_true. Qed.

Ltac from_str_tac :=
  repeat match goal with
  | |- context [if is_str ?s ?t then _ else _] => destruct (is_str s t) eqn:?
  end;
  repeat match goal with
  | H : is_str _ _ = true |- _ => apply is_str_true in H as ->
  | H : Ok _ = Ok _ |- _ => injection H as <-
  end;
  try done.

(** A status is stored one way.  The spelling of a task's status, a run's and a
    clock's confidence reads back, and no other text is read as one. *)
Theorem status_text :
  (forall s t, task_status_from_str s = Ok t <-> s = task_status_str t)
  /\ (forall s t, run_status_from_str s = Ok t <-> s = run_status_str t)
  /\ (forall s c, clock_from_str s = Ok c <-> s = clock_str c).
Proof.
  split; [|split]; intros s t; (split; [|intros ->; by destruct t]).
  - unfold task_status_from_str. from_str_tac; by intros [= <-].
  - unfold run_status_from_str. from_str_tac; by intros [= <-].
  - unfold clock_from_str. from_str_tac; by intros [= <-].
Qed.

(** What each rule asks of the outcomes, once a task has a dependency. *)
Definition outcome_failed (s : TaskStatus) : Prop := s = Failed \/ s = Cancelled.
Definition outcome_fine (s : TaskStatus) : Prop := s = Succeeded \/ s = Skipped.

Definition rule_holds (rule : str) (deps : list TaskStatus) : Prop :=
  deps = [] \/
  (if is_str rule "all_done" then True
   else if is_str rule "one_failed" then Exists outcome_failed deps
   else if is_str rule "all_failed" then Forall outcome_failed deps
   else if is_str rule "none_failed" then Forall outcome_fine deps
   else Forall (fun s => s = Succeeded) deps).

Lemma trigger_rule_ready_spec rule deps :
  trigger_rule_ready rule (map task_status_str deps) = true <-> rule_holds rule deps.
Proof.
  unfold rule_holds. destruct deps as [|d deps]; [by split; [left|]|].
  set (l := d :: deps). assert (l <> []) as Hl by done. clearbody l.
  transitivity (if is_str rule "all_done" then True
   else if is_str rule "one_failed" then Exists outcome_failed l
   else if is_str rule "all_failed" then Forall outcome_failed l
   else if is_str rule "none_failed" then Forall outcome_fine l
   else Forall (fun s => s = Succeeded) l); [|by split; [right|intros [?|?]]].
  assert (forall s, is_str (task_status_str s) "failed" || is_str (task_status_str s) "cancelled"
            = true <-> outcome_failed s) as Hf.
  { unfold outcome_failed. intros []; vm_compute; intuition congruence. }
  assert (forall s, is_str (task_status_str s) "succeeded" || is_str (task_status_str s) "skipped"
            = true <-> outcome_fine s) as Hn.
  { unfold outcome_fine. intros []; vm_compute; intuition congruence. }
  assert (forall s, is_str (task_status_str s) "succeeded" = true <-> s = Succeeded) as Hs.
  { intros []; vm_compute; intuition congruence. }
  unfold trigger_rule_ready. destruct (map task_status_str l) eqn:E; [by destruct l|].
  rewrite <- E. clear d deps E Hl.
  repeat match goal with |- context [if is_str ?s ?t then _ else _] => destruct (is_str s t) end;
    [done|..];
    induction l as [|a l IH]; simpl;
    rewrite ?Forall_nil, ?Exists_nil, ?Forall_cons, ?Exists_cons, ?andb_true_iff, ?orb_true_iff, ?IH;
    rewrite <- ?orb_true_iff, ?Hf, ?Hn, ?Hs; try tauto; done.
Qed.

End Models.
