(* ===== verification/Policy.v ===== *)
(** * Waiting out a quota, and keeping the attempts a retry replaces
    ([dagron-core/src/quota_wait.rs], [attempt_log.rs])

    Both are pure: the store calls them inside its transactions.  Times are nanoseconds
    since the epoch, the resolution of chrono's [DateTime<Utc>]; the last representable
    instant is chrono's and is a parameter. *)

From S2P Require Import Prelude.

(** ** Time *)

Definition time := Z.
Definition NANOS : Z := 1000000000.
Definition secs (n : Z) : Z := n * NANOS.
Definition millis (n : Z) : Z := n * 1000000.
(** [TimeDelta::num_seconds]: whole seconds, towards zero. *)
Definition num_seconds (d : Z) : Z := Z.quot d NANOS.

Module Quota.

Definition RETRY_BASE_SECS : Z := 5.
Definition RETRY_MAX_SECS : Z := 60.
Definition DETAIL_MAX_CHARS : nat := 400.
Definition JITTER_MIN_PERMILLE : Z := 750.
Definition JITTER_MAX_PERMILLE : Z := 1250.

Inductive Step :=
| Wait (since : time) (waits : Z) (retry_at : time)
| GiveUp (waits waited_secs : Z).

Definition saturating_add (a b : Z) : Z := Z.min I64_MAX (Z.max I64_MIN (a + b)).
Definition clamp (lo hi x : Z) : Z := Z.max lo (Z.min hi x).

Section step.
(** chrono: [TimeDelta::try_seconds] refuses a number of seconds whose milliseconds
    are no [i64], and an addition past [DATE_MAX] gives nothing. *)
Variable DATE_MAX : time.

Definition try_seconds (n : Z) : option Z :=
  if (Z.abs n <=? I64_MAX / 1000)%Z then Some (secs n) else None.
Definition checked_add (t d : Z) : option time :=
  if (t + d <=? DATE_MAX)%Z then Some (t + d)%Z else None.

(** The delay before jitter: the base doubled for each refusal before, to the ceiling. *)
Definition base_delay (prior_waits : Z) : Z :=
  Z.min (Z.shiftl RETRY_BASE_SECS (Z.min prior_waits 6)) RETRY_MAX_SECS.

(** [step] *)
Definition step (now : time) (prior : option (time * Z)) (max_wait_secs jitter_permille : Z)
    : Step :=
  let '(since, prior_waits) := match prior with Some p => p | None => (now, 0%Z) end in
  let prior_waits := Z.max prior_waits 0 in
  let waits := saturating_add prior_waits 1 in
  let waited_secs := Z.max (num_seconds (now - since)) 0 in
  if (max_wait_secs <=? waited_secs)%Z then GiveUp waits waited_secs
  else
    let permille := clamp JITTER_MIN_PERMILLE JITTER_MAX_PERMILLE jitter_permille in
    let retry_at := (now + millis (base_delay prior_waits * permille))%Z in
    let deadline := let* d := try_seconds max_wait_secs in checked_add since d in
    Wait since waits (match deadline with Some d => Z.min retry_at d | None => retry_at end).
End step.

(** [jitter_permille]: FNV-1a over the id and the fence's eight bytes. *)
Definition OFFSET_BASIS : N := 0xcbf29ce484222325.
Definition PRIME : N := 0x00000100000001b3.
Definition TWO64 : N := 18446744073709551616.

Definition to_le_bytes (z : Z) : list N :=
  map (fun i => Z.to_N (Z.land (Z.shiftr (z mod Z.of_N TWO64) (8 * Z.of_nat i)) 255))
    (seq 0 8).

Definition fnv1a (bytes : list N) : N :=
  fold_left (fun hash byte => (N.lxor hash byte * PRIME) mod TWO64)%N bytes OFFSET_BASIS.

Definition jitter_permille (task_id : str) (fence : Z) : Z :=
  let hash := fnv1a (map code task_id ++ to_le_bytes fence) in
  let span := Z.to_N (JITTER_MAX_PERMILLE - JITTER_MIN_PERMILLE + 1) in
  (JITTER_MIN_PERMILLE + Z.of_N (hash mod span))%Z.

(** [clip_detail] *)
Definition clip_detail (detail : str) : str := take_chars DETAIL_MAX_CHARS (trim detail).

(** [QuotaRequeue] *)
Inductive QuotaRequeue :=
| Requeued (waits waited_secs retry_in_secs : Z)
| Expired (waits waited_secs : Z)
| Stale.

(** ** The episode *)

Lemma jitter_bounds task_id fence :
  (JITTER_MIN_PERMILLE <= jitter_permille task_id fence <= JITTER_MAX_PERMILLE)%Z.
Proof.
  unfold jitter_permille. set (h := fnv1a _). clearbody h.
  change (Z.to_N (JITTER_MAX_PERMILLE - JITTER_MIN_PERMILLE + 1)) with 501%N.
  pose proof (N.mod_lt h 501) as H.
  unfold JITTER_MIN_PERMILLE, JITTER_MAX_PERMILLE in *. specialize (H ltac:(done)).
  set (m := (h mod 501)%N) in *. lia.
Qed.

Lemma base_delay_bounds n : (0 <= n)%Z -> (RETRY_BASE_SECS <= base_delay n <= RETRY_MAX_SECS)%Z.
Proof.
  intros Hn. unfold base_delay, RETRY_BASE_SECS, RETRY_MAX_SECS.
  rewrite Z.shiftl_mul_pow2 by lia.
  assert (1 <= 2 ^ Z.min n 6)%Z; [|lia].
  pose proof (Z.pow_pos_nonneg 2 (Z.min n 6)). lia.
Qed.

(** The refusals of one episode, each probe made no earlier than it was asked for. *)
Inductive episode (DATE_MAX : time) (max_wait_secs : Z) : time -> list (time * Z) -> Prop :=
| ep_open now j since waits retry_at :
    step DATE_MAX now None max_wait_secs j = Wait since waits retry_at ->
    episode DATE_MAX max_wait_secs since [(retry_at, waits)]
| ep_next since retry_at waits probes now j waits' retry_at' :
    episode DATE_MAX max_wait_secs since ((retry_at, waits) :: probes) ->
    (retry_at <= now)%Z ->
    step DATE_MAX now (Some (since, waits)) max_wait_secs j = Wait since waits' retry_at' ->
    episode DATE_MAX max_wait_secs since ((retry_at', waits') :: (retry_at, waits) :: probes).

Lemma step_wait DATE_MAX now prior max_wait j since waits retry_at :
  step DATE_MAX now prior max_wait j = Wait since waits retry_at ->
  let '(s, w) := match prior with Some p => p | None => (now, 0%Z) end in
  since = s /\ waits = saturating_add (Z.max w 0) 1
  /\ (Z.max (num_seconds (now - s)) 0 < max_wait)%Z
  /\ let delay := millis (base_delay (Z.max w 0) * clamp JITTER_MIN_PERMILLE JITTER_MAX_PERMILLE j) in
     (secs 3 < delay /\ delay <= secs 75)%Z
     /\ (retry_at = now + delay
         \/ retry_at = Z.min (now + delay) (since + secs max_wait))%Z.
Proof.
  unfold step. destruct (match prior with Some p => p | None => (now, 0%Z) end) as [s w].
  destruct (Z.leb_spec max_wait (Z.max (num_seconds (now - s)) 0)) as [H|H]; [done|].
  intros [= <- <- <-]. split; [done|]. split; [done|]. split; [lia|]. split.
  - pose proof (base_delay_bounds (Z.max w 0)) as Hb. unfold clamp, millis, secs, NANOS,
      JITTER_MIN_PERMILLE, JITTER_MAX_PERMILLE, RETRY_BASE_SECS, RETRY_MAX_SECS in *. nia.
  - unfold try_seconds. destruct (_ <=? _)%Z; [|by left]. unfold checked_add.
    destruct (_ <=? _)%Z; [|by left]. by right.
Qed.

(** A quota wait is bounded.  A refused task keeps the start of its episode, counts
    one more refusal, and probes again within 75 seconds and no later than the episode's deadline, and after
    now unless the clock went back. *)
Theorem quota_wait_bounded (DATE_MAX : time) (now : time) (prior : option (time * Z))
    (max_wait j : Z) (since : time) (waits : Z) (retry_at : time)
    (Hprior : forall p, prior = Some p -> (0 <= p.2 < I64_MAX)%Z)
    (Hstep : step DATE_MAX now prior max_wait j = Wait since waits retry_at)
    (Hdate : (0 <= now /\ since + secs max_wait <= DATE_MAX /\ max_wait <= I64_MAX / 1000)%Z) :
  (waits = match prior with Some p => p.2 + 1 | None => 1 end)%Z
  /\ since = match prior with Some p => p.1 | None => now end
  /\ (retry_at <= since + secs max_wait)%Z
  /\ (retry_at <= now + secs 75)%Z
  /\ (since <= now -> now < retry_at)%Z.
Proof.
  pose proof (step_wait _ _ _ _ _ _ _ _ Hstep) as H.
  assert (exists s w, (match prior with Some p => p | None => (now, 0%Z) end) = (s, w)
            /\ (0 <= w < I64_MAX)%Z
            /\ (w + 1 = match prior with Some p => p.2 + 1 | None => 1 end)%Z
            /\ s = match prior with Some p => p.1 | None => now end) as (s & w & E & Hw & E1 & E2).
  { destruct prior as [[s w]|]; [exists s, w|exists now, 0%Z]; [|done].
    split; [done|]. split; [by apply (Hprior (s, w))|done]. }
  rewrite E in H. cbn zeta in H. destruct H as (-> & -> & Hlt & (H1 & H2) & H3).
  rewrite <- E1, <- E2. rewrite Z.max_l by lia.
  split; [unfold saturating_add, I64_MIN in *; lia|]. split; [done|].
  assert (retry_at = Z.min (now + millis (base_delay (Z.max w 0)
            * clamp JITTER_MIN_PERMILLE JITTER_MAX_PERMILLE j)) (s + secs max_wait))%Z as ->.
  { unfold step in Hstep. rewrite E in Hstep. destruct (_ <=? _)%Z eqn:Eg in Hstep; [done|].
    unfold try_seconds, checked_add in Hstep.
    rewrite (proj2 (Z.leb_le (Z.abs max_wait) _)) in Hstep by lia.
    rewrite (proj2 (Z.leb_le _ DATE_MAX)) in Hstep by lia. by injection Hstep. }
  split; [lia|]. split; [lia|]. intros Hs.
  assert (now < s + secs max_wait)%Z; [|unfold secs, NANOS in *; lia].
  unfold num_seconds, secs in *. rewrite Z.quot_div_nonneg in Hlt by (unfold NANOS; lia).
  pose proof (Z.div_mod (now - s) NANOS). pose proof (Z.mod_pos_bound (now - s) NANOS).
  unfold NANOS in *. nia.
Qed.

Lemma quota_wait_bounded_witness :
  step (secs 4000000000) (secs 100) (Some (secs 40, 3%Z)) 600 1000
    = Wait (secs 40) 4 (secs 140)
  /\ (secs 140 <= secs 40 + secs 600)%Z.
Proof.
  split; [by vm_compute|].
  apply (quota_wait_bounded (secs 4000000000) (secs 100) (Some (secs 40, 3%Z)) 600 1000
           (secs 40) 4 (secs 140)).
  - by intros p [= <-].
  - by vm_compute.
  - by vm_compute.
Defined.

(** An episode is over: however its probes fall, it holds at most as many refusals as
    three seconds fit into the bound, and two more. *)
Lemma episode_grows DATE_MAX max_wait since probes :
  episode DATE_MAX max_wait since probes ->
  exists retry_at waits rest, probes = (retry_at, waits) :: rest
    /\ (0 < max_wait)%Z
    /\ (since + secs 3 * (Z.of_nat (length probes)) <= retry_at
        \/ since + secs max_wait <= retry_at)%Z
    /\ (length rest = 0%nat \/ secs 3 * Z.of_nat (length rest) < secs (max_wait + 1))%Z.
Proof.
  induction 1 as [now j since waits retry_at H|since retry_at waits probes now j waits' retry_at' He IH Hn H].
  - apply step_wait in H as (-> & _ & Hlt & Hd & Hr). exists retry_at, waits, [].
    split; [done|]. split; [lia|]. split; [|by left]. cbn zeta in *. simpl. unfold secs, NANOS in *. lia.
  - destruct IH as (ra & w & rest & [= <- <- <-] & Hm & Hg & Hl).
    apply step_wait in H as (_ & _ & Hlt & Hd & Hr). exists retry_at', waits', ((retry_at, waits) :: probes).
    split; [done|]. split; [done|]. cbn zeta in *.
    assert (now < since + secs (max_wait))%Z as Hb.
    { destruct (Z.le_gt_cases since now) as [Hs|Hs]; [|unfold secs, NANOS in *; lia].
      unfold num_seconds in Hlt. rewrite Z.quot_div_nonneg in Hlt by (unfold NANOS; lia).
      pose proof (Z.div_mod (now - since) NANOS). pose proof (Z.mod_pos_bound (now - since) NANOS).
      unfold secs, NANOS in *. nia. }
    rewrite !length_cons in *. rewrite !Nat2Z.inj_succ in *. unfold secs, NANOS in *. lia.
Qed.

(** A quota episode ends.  With every probe made no earlier than it was asked for,
    an episode has at most a third of its bound in seconds of them, and one more. *)
Theorem quota_episode_ends (DATE_MAX : time) (max_wait : Z) (since : time)
    (probes : list (time * Z)) (H : episode DATE_MAX max_wait since probes) :
  (3 * Z.of_nat (length probes) <= max_wait + 4)%Z.
Proof.
  destruct (episode_grows _ _ _ _ H) as (ra & w & rest & -> & Hm & _ & Hl).
  rewrite length_cons, Nat2Z.inj_succ. destruct Hl as [Hl|Hl]; [simpl in Hl; lia|].
  unfold secs, NANOS in Hl. lia.
Qed.

Lemma quota_episode_ends_witness :
  episode (secs 4000000000) 12 0%Z [(secs 12, 2%Z); (secs 5, 1%Z)]
  /\ (3 * Z.of_nat (length [(secs 12, 2%Z); (secs 5, 1%Z)]) <= 12 + 4)%Z.
Proof.
  assert (episode (secs 4000000000) 12 0%Z [(secs 12, 2%Z); (secs 5, 1%Z)]) as H.
  { apply (ep_next _ _ 0%Z (secs 5) 1 [] (secs 5) 1000); [|done|by vm_compute].
    by apply (ep_open _ _ 0%Z 1000). }
  split; [exact H|]. by apply (quota_episode_ends (secs 4000000000) 12 0%Z).
Defined.

End Quota.

(** ** How much of a replaced attempt is kept ([attempt_log.rs]) *)
Module AttemptLog.

Definition DEFAULT_BYTES : N := 4096.
Definition DEFAULT_KEEP : N := 50.
Definition MAX_READ : N := 200.
Definition MAX_BYTES : N := 65536.

Inductive AttemptEnd := Iteration | AttemptFailed.

Definition end_str (e : AttemptEnd) : str :=
  match e with Iteration => $"iteration" | AttemptFailed => $"failed" end.

Record Policy := { bytes : N; keep : N }.

(** [read], and [Policy::from_env] over the process's environment. *)
Definition read (env : str -> option str) (key : str) : option N :=
  let* v := env key in parse_u64 (trim v).

Definition from_env (env : str -> option str) : Policy :=
  {| bytes := match read env $"DAGRON_ATTEMPT_LOG_BYTES" with
              | Some n => N.min n MAX_BYTES
              | None => DEFAULT_BYTES
              end;
     keep := match read env $"DAGRON_ATTEMPT_LOG_KEEP" with
             | Some n => n
             | None => DEFAULT_KEEP
             end |}.

Definition enabled (p : Policy) : bool := (0 <? bytes p)%N.

(** The loop that moves the cut on to a character boundary: the rest from there. *)
Fixpoint to_boundary (s : str) : str :=
  match s with
  | c :: s' => if is_cont c then to_boundary s' else s
  | [] => []
  end.

(** [Policy::tail] *)
Definition tail (p : Policy) (output : str) : str * bool :=
  if (N.of_nat (length output) <=? bytes p)%N then (output, false)
  else (to_boundary (drop (length output - N.to_nat (bytes p)) output), true).

(** [Policy::evict_below] *)
Definition evict_below (p : Policy) (attempt : Z) : option Z :=
  if (keep p =? 0)%N then None
  else
    let keep := Z.min (Z.of_N (keep p)) I64_MAX in
    let cutoff := Z.max I64_MIN (attempt - keep) in
    if (1 <=? cutoff)%Z then Some cutoff else None.

Lemma to_boundary_suffix s : exists a, s = a ++ to_boundary s /\ Forall (fun c => is_cont c = true) a.
Proof.
  induction s as [|c s (a & Ha & Hf)]; simpl; [by exists []|].
  destruct (is_cont c) eqn:E; [|by exists []].
  exists (c :: a). simpl. split; [by f_equal|by constructor].
Qed.

Lemma to_boundary_head s c r : to_boundary s = c :: r -> is_cont c = false.
Proof.
  induction s as [|d s IH]; simpl; [done|]. destruct (is_cont d) eqn:E; [done|]. by intros [= -> ->].
Qed.

(** An attempt keeps the end of its output.  What is kept is a suffix of the output,
    no longer than the cap, that does not begin in the middle of a character; it is the
    whole output when that fits, and says so. *)
Theorem tail_spec (p : Policy) (output : str) :
  (exists a, output = a ++ (tail p output).1)
  /\ (N.of_nat (length (tail p output).1) <= bytes p)%N
  /\ ((tail p output).2 = false <-> (N.of_nat (length output) <= bytes p)%N)
  /\ ((tail p output).2 = false -> (tail p output).1 = output)
  /\ ((tail p output).2 = true ->
        match (tail p output).1 with c :: _ => is_cont c = false | [] => True end).
Proof.
  unfold tail. destruct (N.leb_spec (N.of_nat (length output)) (bytes p)) as [H|H]; simpl.
  - split; [by exists []|]. done.
  - set (d := drop (length output - N.to_nat (bytes p)) output).
    destruct (to_boundary_suffix d) as (a & Ha & _).
    assert (length d = N.to_nat (bytes p)) as Hd by (unfold d; rewrite length_drop; lia).
    split.
    { exists (take (length output - N.to_nat (bytes p)) output ++ a).
      rewrite <- app_assoc, <- Ha. unfold d. by rewrite take_drop. }
    assert (length (to_boundary d) <= length d)%nat as Hle by (rewrite Ha at 2; rewrite length_app; lia).
    split; [lia|]. split; [split; [done|lia]|]. split; [done|]. intros _.
    destruct (to_boundary d) eqn:E; [done|]. by eapply to_boundary_head.
Qed.

End AttemptLog.
