(* ===== verification/Spec.v ===== *)
(** * The workflow specification ([dagron-core/src/dag.rs] and the specs it holds)

    The records a workflow is read into, with the types of the fields in the order of the
    source, the checks of single values, and what a task's output is read for.  A
    [BTreeMap] is a finite map. *)

From S2P Require Import Prelude Json.

Module Spec.

(** ** Parts of a task *)

Record GangSpec := { gang_size : N }.
Record GangMember := { gm_id : str; gm_rank : N; gm_size : N }.

Record RepeatSpec := { until : str; max_iterations : N; delay_secs : N }.

Inductive RepeatDecision :=
| Done
| Again (delay_secs : N)
| Fail (reason : str).

Record SecretRef := { secret : str; optional : bool }.
Record EnvVar := { ev_name : str; ev_value : str; value_from : option SecretRef }.

Record DeferHttpCancel := { dc_url : str; dc_method : option str; dc_body : option str }.
Record DeferHttpSpec := {
  dh_url : str;
  headers : list EnvVar;
  succeed_when : str;
  fail_when : option str;
  error_from : option str;
  cancel : option DeferHttpCancel;
}.
Record DeferSpec := {
  df_kind : str;
  poll_secs : N;
  cost : option N;
  max_wait_secs : option N;
  http : option DeferHttpSpec;
  connection : option str;
}.

Record WaitSpec := {
  wait_for : option str;
  wait_until : option str;
  wait_spec_url : option str;
  wait_spec_dataset : option str;
}.

Record CacheSpec := { cache_key : str; max_age_secs : option N }.

Inductive ImagePullPolicy := IfNotPresent | Always | Never.

Inductive Read := ReadStatus | LastLine.
Record EnvFrom := { ef_name : str; ef_task : str; ef_read : Read }.

Record GpuRequest := { gpu_count : N; gpu_resource : option str }.
Record ResourceRequirements := {
  requests : gmap str str;
  limits : gmap str str;
  gpu : option GpuRequest;
}.

(** [isolation.rs] *)
Inductive Seccomp := Unconfined | RuntimeDefault.
Inductive Network := NetDefault | NetAllow (name : str) | NetNone.
Record IsolationSpec := {
  runtime_class : option str;
  seccomp : option Seccomp;
  read_only_root_fs : option bool;
  no_new_privileges : option bool;
  drop_all_capabilities : option bool;
  run_as_non_root : option bool;
  run_as_user : option Z;
  service_account_token : option bool;
  network : option Network;
}.

(** [workspace.rs] *)
Record CheckoutSpec := {
  co_repository : str;
  commit : str;
  depth : option N;
  patched : bool;
}.
Record PathCacheSpec := {
  prefix : str;
  key_files : list str;
  paths : list str;
  restore_from : option str;
}.
Record ActionSpec := {
  ac_repository : str;
  ac_ref : str;
  ac_path : str;
  credential : bool;
}.
Record WorkspaceSpec := {
  ws_size : option str;
  checkout : option CheckoutSpec;
  ws_cache : list PathCacheSpec;
  actions : list ActionSpec;
  tools : list str;
}.

(** [service.rs] *)
Record ServiceResources := { sr_requests : gmap str str; sr_limits : gmap str str }.
Inductive ServiceReady := Shell (line : str) | Exec (argv : list str).
Record ServiceSpec := {
  sv_name : str;
  image : str;
  args : list str;
  sv_env : list EnvVar;
  sv_ready : option ServiceReady;
  ready_timeout_secs : option N;
  sv_resources : option ServiceResources;
  daemon : bool;
}.

(** [oidc.rs] and [forge_token.rs] *)
Record TaskIdentity := { audience : list str }.
Record ForgeTokenSpec := { permissions : gmap str str }.

(** ** A task, and a workflow *)

Section spec.
Context {Num : Type}.

Record TaskSpec := {
  name : str;
  command : list str;
  depends_on : list str;
  input : option (value Num);
  template : option str;
  arguments : gmap str str;
  with_items : option (list (value Num));
  with_param : option str;
  with_output_of : option str;
  when : option str;
  instance_key : option str;
  trigger_rule : option str;
  hook : option str;
  allow_failure : bool;
  task_type : option str;
  workflow : option str;
  wait : option WaitSpec;
  approval_timeout_secs : option N;
  approval_on_timeout : option str;
  approval_message : option str;
  approval_show : list str;
  binds : list str;
  approvers : list str;
  not_triggerer : bool;
  max_attempts : N;
  retry_delay_secs : N;
  retry_max_delay_secs : option N;
  retry_on_timeout : option bool;
  retry_budgets : gmap str N;
  timeout_secs : option N;
  docker_image : option str;
  image_pull_policy : option ImagePullPolicy;
  env : list EnvVar;
  environment : option str;
  resources : option ResourceRequirements;
  service_account : option str;
  runner_class : option str;
  priority : Z;
  pool : option str;
  cache : option CacheSpec;
  repeat : option RepeatSpec;
  defer : option DeferSpec;
  produces : list str;
  gang : option GangSpec;
  gang_member : option GangMember;
  isolation : option IsolationSpec;
  workspace : option WorkspaceSpec;
  services : list ServiceSpec;
  env_from : list EnvFrom;
  identity : option TaskIdentity;
  forge_token : option ForgeTokenSpec;
  docker_daemon : bool;
  privileged : bool;
  tokens : option N;
  artifact_api : bool;
}.

(** What a task that only names itself is read as, the serde defaults of the fields. *)
Definition task_named (n : str) : TaskSpec :=
  {| name := n; command := []; depends_on := []; input := None; template := None;
     arguments := ∅; with_items := None; with_param := None; with_output_of := None;
     when := None; instance_key := None; trigger_rule := None; hook := None;
     allow_failure := false; task_type := None; workflow := None; wait := None;
     approval_timeout_secs := None; approval_on_timeout := None; approval_message := None;
     approval_show := []; binds := []; approvers := []; not_triggerer := false;
     max_attempts := 1; retry_delay_secs := 0; retry_max_delay_secs := None;
     retry_on_timeout := None; retry_budgets := ∅; timeout_secs := None;
     docker_image := None; image_pull_policy := None; env := []; environment := None;
     resources := None; service_account := None; runner_class := None; priority := 0;
     pool := None; cache := None; repeat := None; defer := None; produces := []; gang := None;
     gang_member := None; isolation := None; workspace := None; services := [];
     env_from := []; identity := None; forge_token := None; docker_daemon := false;
     privileged := false; tokens := None; artifact_api := false |}.

Record TemplateSpec := {
  tm_name : str;
  tm_parameters : gmap str str;
  tm_tasks : list TaskSpec;
}.

Record RunBudget := {
  bg_tasks : option N;
  external_cost : option N;
  external_cost_attribution : bool;
  bg_tokens : option N;
}.

Record ParamRule := {
  required : bool;
  choices : list str;
  pattern : option str;
  pr_description : option str;
}.

Inductive WhenFull := Refuse | Queue | Supersede.

Record TaskDefaults := {
  td_max_attempts : option N;
  td_retry_delay_secs : option N;
  td_retry_max_delay_secs : option N;
  td_retry_on_timeout : option bool;
  td_retry_budgets : gmap str N;
  td_timeout_secs : option N;
  td_docker_image : option str;
  td_image_pull_policy : option ImagePullPolicy;
  td_runner_class : option str;
  td_priority : option Z;
  td_pool : option str;
  td_env : list EnvVar;
}.

Record WebhookNotify := { wn_url : str; wn_on : list str }.
Record SlackNotify := { webhook_url : str; sn_on : list str }.
Record GitNotify := {
  provider : str;
  gn_repo : str;
  gn_sha : str;
  gn_context : option str;
  target_url : option str;
  gn_description : option str;
}.
Record NotifySpec := {
  git : option GitNotify;
  webhook : option WebhookNotify;
  slack : option SlackNotify;
}.

(** [deadline:], its [in]. *)
Record DeadlineSpec := { within : str }.

Record DagSpec := {
  dg_name : str;
  parameters : gmap str str;
  param_schema : gmap str ParamRule;
  concurrency_key : option str;
  templates : list TemplateSpec;
  uses : list str;
  tags : list str;
  run_timeout_secs : option N;
  max_active_runs : option N;
  when_full : option WhenFull;
  budget : option RunBudget;
  deadline : option DeadlineSpec;
  notify : option NotifySpec;
  result_from : option str;
  dg_runner_class : option str;
  dg_environment : option str;
  task_defaults : option TaskDefaults;
  on_datasets : list str;
  datasets_mode : option str;
  tasks : list TaskSpec;
}.

(** [DagGraph]: the checked spec and the parameters it was expanded with.  Its graph is
    rebuilt from the spec's [depends_on] and holds nothing else. *)
Record DagGraph := { spec : DagSpec; graph_parameters : gmap str str }.

(** [DagGraph::task_spec] *)
Definition task_spec (g : DagGraph) (task_name : str) : option TaskSpec :=
  List.find (fun t => bool_decide (name t = task_name)) (tasks (spec g)).

(** [DagGraph::task_row_count] *)
Definition task_row_count (g : DagGraph) : Z :=
  fold_right Z.add 0%Z
    (map (fun t => match gang t with Some g => Z.of_N (gang_size g) | None => 1%Z end)
       (tasks (spec g))).

(** [TaskSpec::is_approval], [is_workflow], [is_wait] *)
Definition type_is (k : string) (t : TaskSpec) : bool :=
  bool_decide (task_type t = Some (lit k)).
Definition is_approval := type_is "approval".
Definition is_workflow := type_is "workflow".
Definition is_wait := type_is "wait".

End spec.
Arguments TaskSpec : clear implicits.
Arguments TemplateSpec : clear implicits.
Arguments DagSpec : clear implicits.
Arguments DagGraph : clear implicits.

(** [WhenFull::as_str] and [waits] *)
Definition when_full_str (w : WhenFull) : str :=
  match w with Refuse => $"refuse" | Queue => $"queue" | Supersede => $"supersede" end.
Definition waits (w : WhenFull) : bool := match w with Refuse => false | _ => true end.

(** [ImagePullPolicy::as_str] and [as_kubernetes] *)
Definition pull_policy_str (p : ImagePullPolicy) : str :=
  match p with
  | IfNotPresent => $"if_not_present"
  | Always => $"always"
  | Never => $"never"
  end.
Definition pull_policy_kubernetes (p : ImagePullPolicy) : str :=
  match p with
  | IfNotPresent => $"IfNotPresent"
  | Always => $"Always"
  | Never => $"Never"
  end.

(** [DeferHttpCancel::method] *)
Definition cancel_method (c : DeferHttpCancel) : str :=
  match dc_method c with Some m => to_upper (trim m) | None => $"DELETE" end.

(** [ResourceRequirements::effective_limits] *)
Definition DEFAULT_GPU_RESOURCE : str := $"nvidia.com/gpu".
Definition effective_limits (r : ResourceRequirements) : gmap str str :=
  match gpu r with
  | Some g =>
      let key := match gpu_resource g with Some k => k | None => DEFAULT_GPU_RESOURCE end in
      match limits r !! key with
      | Some _ => limits r
      | None => <[ key := show_N (gpu_count g) ]> (limits r)
      end
  | None => limits r
  end.

(** ** Reading a task's output *)

(** The first [Some] of a walk over a list, [Iterator::find_map]. *)
Fixpoint find_map {A B} (f : A -> option B) (l : list A) : option B :=
  match l with
  | [] => None
  | a :: l => match f a with Some b => Some b | None => find_map f l end
  end.

Definition HANDLE_PREFIX : str := $"dagron::handle=".

(** [parse_handle] *)
Definition parse_handle (output : str) : option str :=
  let* h := find_map (fun l => strip_prefix HANDLE_PREFIX (trim l)) (rev (lines output)) in
  match trim h with [] => None | h => Some h end.

(** [last_line] *)
Definition last_line (output : str) : str :=
  match List.find (fun l => match trim l with [] => false | _ => true end)
          (map (trim_end_char CR) (rev (lines output))) with
  | Some l => l
  | None => []
  end.

(** ** Checks of single values *)

Definition is_name_byte (c : ascii) : bool := is_lower c || is_digit c || ch c "-" || ch c "_".

(** [format!("'{}'", s)] *)
Definition quoted (s : str) : str := $"'" ++ s ++ $"'".

(** [validate_runner_class] *)
Definition validate_runner_class (n : str) : result str unit :=
  if ((length n =? 0) || (64 <? length n))%nat then
    Err ($"runner_class must be 1-64 characters, got " ++ show_nat (length n) ++ $" ("
         ++ quoted n ++ $")")
  else if negb (forallb is_name_byte n) then
    Err ($"runner_class " ++ quoted n ++ $" may only contain [a-z0-9_-]")
  else if bool_decide (n = $"other") then
    Err $"runner_class 'other' is reserved (it is the metrics tail bucket)"
  else Ok tt.

(** [validate_tag] *)
Definition validate_tag (tag : str) : result str unit :=
  if ((length tag =? 0) || (64 <? length tag))%nat then
    Err ($"tag must be 1-64 characters, got " ++ show_nat (length tag) ++ $" (" ++ quoted tag ++ $")")
  else if negb (forallb (fun c => is_alnum c || ch c "-" || ch c "_" || ch c ".") tag) then
    Err ($"tag " ++ quoted tag ++ $" may only contain [A-Za-z0-9_.-]")
  else Ok tt.

(** [validate_pool] *)
Definition validate_pool (n : str) : result str unit :=
  if ((length n =? 0) || (64 <? length n))%nat then
    Err ($"pool must be 1-64 characters, got " ++ show_nat (length n) ++ $" (" ++ quoted n ++ $")")
  else if negb (forallb is_name_byte n) then
    Err ($"pool " ++ quoted n ++ $" may only contain [a-z0-9_-]")
  else Ok tt.

(** [validate_dataset_uri] *)
Definition validate_dataset_uri (uri : str) : result str unit :=
  if ((length uri =? 0) || (512 <? length uri))%nat then
    Err ($"dataset URI must be 1-512 characters, got " ++ show_nat (length uri) ++ $" ("
         ++ quoted uri ++ $")")
  else if any_ws uri || any_ctl uri then
    Err ($"dataset URI " ++ quoted uri ++ $" must not contain whitespace or control characters")
  else Ok tt.

(** [parse_pools]: the body of its loop, then the loop. *)
Definition parse_pool_entry (m : gmap str Z) (entry : str) : result str (gmap str Z) :=
  match split_once $":" entry with
  | None => Err ($"invalid POOLS entry " ++ quoted entry ++ $": expected name:slots")
  | Some (n, slots) =>
      let n := trim n in
      let? _ := map_err (fun e => $"invalid POOLS entry: " ++ e) (validate_pool n) in
      match parse_i64 (trim slots) with
      | None => Err ($"invalid POOLS slots for " ++ quoted n ++ $": " ++ quoted slots)
      | Some k =>
          if (k <? 1)%Z then
            Err ($"POOLS slots for " ++ quoted n ++ $" must be >= 1, got " ++ show_Z k)
          else
            match m !! n with
            | Some prev =>
                Err ($"duplicate POOLS entry for " ++ quoted n ++ $" (slots " ++ show_Z prev
                     ++ $" then " ++ show_Z k ++ $") — declare each pool once")
            | None => Ok (<[ n := k ]> m)
            end
      end
  end.

Fixpoint parse_pool_entries (m : gmap str Z) (entries : list str) : result str (gmap str Z) :=
  match entries with
  | [] => Ok m
  | e :: es => let? m := parse_pool_entry m e in parse_pool_entries m es
  end.

Definition parse_pools (raw : str) : result str (gmap str Z) :=
  parse_pool_entries ∅
    (List.filter (fun e => match e with [] => false | _ => true end)
       (map trim (split_char "," raw))).

(** [parse_duration_secs].  The unit is the last character: a last byte that is one of
    the letters is that character, and any other is not a unit. *)
Definition duration_parts (s : str) : str * N :=
  match rev s with
  | c :: r => if ch c "s" then (rev r, 1%N)
              else if ch c "m" then (rev r, 60%N)
              else if ch c "h" then (rev r, 3600%N)
              else if ch c "d" then (rev r, 86400%N)
              else (s, 1%N)
  | [] => (s, 1%N)
  end.

Definition parse_duration_secs (s : str) : result str N :=
  let s := trim s in
  match s with
  | [] => Err $"empty duration"
  | _ =>
      let '(num, mult) := duration_parts s in
      match parse_u64 (trim num) with
      | None => Err ($"invalid duration " ++ quoted s ++ $" (use e.g. 45m, 2h, 90s, or seconds)")
      | Some n =>
          if (n =? 0)%N then Err ($"duration " ++ quoted s ++ $" must be greater than zero")
          else if (n * mult <=? U64_MAX)%N then Ok (n * mult)%N
          else Err ($"duration " ++ quoted s ++ $" is too large")
      end
  end.

(** ** Approval gates *)

(** [validate_approver] *)
Definition validate_approver (entry : str) : result str unit :=
  let n := match strip_prefix $"group:" entry with Some r => r | None => entry end in
  if match n with [] => true | _ => false end || (254 <? char_count entry)%nat
     || any_ws entry || any_ctl entry then
    Err ($"invalid approvers entry " ++ quoted entry
         ++ $"; expected an email/subject or 'group:<name>'")
  else Ok tt.

(** [approval_log] *)
Definition one_line (s : str) : str := replace_char NL $"\n" (replace_char CR $"\r" s).

Definition approval_log (approve : bool) (decided_by comment : option str) (at_ : str) : str :=
  let verb := if approve then $"approved" else $"rejected" in
  let s := verb ++ $" by " ++ one_line (match decided_by with Some d => d | None => $"unknown" end)
             ++ $" at " ++ at_ in
  match option_map trim comment with
  | Some ((_ :: _) as c) => s ++ [NL] ++ $"comment: " ++ one_line c
  | _ => s
  end.

(** [approver_permits] *)
Definition approver_permits (approvers : list str) (email sub : str) (groups : list str) : bool :=
  let given s := match s with [] => false | _ => true end in
  match approvers with
  | [] => true
  | _ =>
      existsb (fun a =>
        match strip_prefix $"group:" a with
        | Some g => existsb (fun x => eq_ignore_case x g) groups
        | None => (given email && eq_ignore_case a email) || (given sub && eq_ignore_case a sub)
        end) approvers
  end.

(** [validate_approval_show] *)
Definition validate_approval_show (entry : str) : result str unit :=
  let ok s :=
    match s with [] => false | _ => true end
    && negb (bool_decide (s = $".")) && negb (bool_decide (s = $".."))
    && negb (contains_char "\" s) && negb (any_ctl s) in
  match split_char "/" entry with
  | [t; n] =>
      if ok t && ok n then Ok tt
      else Err ($"invalid approval_show entry " ++ quoted entry
                ++ $"; expected '<task>/<name>' (e.g. 'plan/plan.txt')")
  | _ => Err ($"invalid approval_show entry " ++ quoted entry
              ++ $"; expected '<task>/<name>' (e.g. 'plan/plan.txt')")
  end.

End Spec.
