(* ===== verification/Tables.v ===== *)
(** * The store's tables ([dagron-core/migrations], [dagron-core/src/db/sqlite.rs])

    SQLite is not part of the repository; a table is a finite map from its key, an UPDATE
    changes the rows its WHERE selects (read before any of them changes) and answers with
    how many there were, and a transaction is a function on the store.  One [World] gathers
    what the store uses of code outside the repository: the environment, chrono's text of an
    instant, serde's JSON and YAML, and the order in which an unordered read meets rows. *)

From S2P Require Export Prelude Json Spec Models Policy.
From coqutil Require Export Datatypes.RecordSettersUsingExistingGetters.

(** ** Rows *)

(** A row of [task_runs]; its key is the id. *)
Module T.
Record task_run := {
  run_id : str;
  name : str;
  status : Models.TaskStatus;
  attempt : Z;
  attempt_base : Z;
  remaining_deps : Z;
  input : option str;
  output : option str;
  log : option str;
  log_fence : option Z;
  log_gen : option Z;
  claimed_by : option str;
  lease_expires_at : option time;
  version : Z;
  scheduled_at : option time;
  finished_at : option time;
  trigger_rule : str;
  allow_failure : bool;
  is_approval : bool;
  approval_timeout_secs : option Z;
  approval_on_timeout : option str;
  runner_class : str;
  gang_id : option str;
  gang_rank : option Z;
  gang_size : option Z;
  priority : Z;
  pool : option str;
  fanout_of : option str;
  fanout_parent : option str;
  fanout_epoch : Z;
  stop_requested_at : option time;
  session_id : option str;
  sub_run_id : option str;
  wake_at : option time;
  wait_url : option str;
  wait_dataset : option str;
  wait_dataset_cursor : option Z;
  next_poll_at : option time;
  external_kind : option str;
  external_handle : option str;
  external_endpoint : option str;
  external_epoch : Z;
  external_deadline_at : option time;
  cache_hit : bool;
  decided_by : option str;
  decision_comment : option str;
  fault_class : option str;
  fault_detail : option str;
  fault_confidence : option str;
  quota_wait_since : option time;
  quota_waits : Z;
  quota_wait_version : option Z;
  quota_wait_detail : option str;
  checkpoint_uri : option str;
  checkpoint_marker : option str;
  reset_by : option str;
}.
End T.

(** A row of [workflow_runs]. *)
Module R.
Record workflow_run := {
  definition_id : str;
  status : Models.RunStatus;
  created_at : time;
  finished_at : option time;
  deadline_at : option time;
  alert_deadline_at : option time;
  alert_fired_at : option time;
  result_from : option str;
  environment : option str;
  clock_confidence : str;
  clock_offset_ms : option Z;
  clock_source : option str;
  concurrency_key : option str;
  parameters : option str;
  start_pending_at : option time;
  completion_pending_at : option time;
  queued_at : option time;
  admitted_at : option time;
  triggered_by : option str;
  stopping_as : option Models.RunStatus;
  stop_requested_at : option time;
  output : option str;
  whole_reruns : Z;
}.
End R.

Record definition := { def_name : str; def_spec : str; def_created_at : time }.
Record attempt_row := {
  at_reason : str;
  at_status : option Models.TaskStatus;
  at_scheduled_at : option time;
  at_output : option str;
  at_truncated : bool;
  at_finished_at : time;
}.
(** An event's payload: the status a run ended with, or how many of its tasks were put
    back, by what, and the task that was asked for. *)
Inductive event_body :=
| Completed (status : Models.RunStatus)
| PutBack (by_ : Models.RunAgain) (tasks : nat) (task_id : option str).
Record event := { e_run : str; e_type : str; e_body : event_body; e_at : time }.
Record idempotency := { idem_run : option str; idem_created_at : time }.

Record store := {
  task_runs : gmap str T.task_run;
  task_dependencies : gset (str * str);
  workflow_runs : gmap str R.workflow_run;
  workflow_definitions : gmap str definition;
  run_triggers : gmap str Models.RunTrigger;
  task_attempts : gmap (str * Z) attempt_row;
  event_outbox : list event;
  dead_letters : gset str;
  source_offsets : gmap str (str * time);
  run_idempotency : gmap (str * str) idempotency;
  dataset_events : list (Z * str);
}.

Definition empty_store : store :=
  {| task_runs := ∅; task_dependencies := ∅; workflow_runs := ∅; workflow_definitions := ∅;
     run_triggers := ∅; task_attempts := ∅; event_outbox := []; dead_letters := ∅;
     source_offsets := ∅; run_idempotency := ∅; dataset_events := [] |}.

(** ** What the store relies on *)

Class World := {
  num : Type;
  env : str -> option str;
  rfc3339 : time -> str;
  DATE_MAX : time;
  clock_current : Models.ClockConfidence * option Z * option str;
  task_to_json : Spec.TaskSpec num -> str;
  task_from_json : str -> option (Spec.TaskSpec num);
  parameters_to_json : gmap str str -> str;
  (** [doc.get("max_active_runs")?.as_u64()] of a stored definition. *)
  yaml_max_active_runs : str -> option N;
  (** [doc.get("run_timeout_secs").as_u64()], and [doc.get("deadline").get("in").as_str()]. *)
  yaml_run_timeout_secs : str -> option N;
  yaml_deadline_in : str -> option str;
  (** Rows as an unordered read meets them. *)
  scan : gmap str T.task_run -> list (str * T.task_run);
}.

(** What that code documents.  A read meets each row once.  A derived [Serialize] writes a
    field under its own name, and the derived [Deserialize] reads it back: a task with a
    [when] is written with the key, in double quotes, and what reads back of a task's text
    has that task's [when].  (Of texts from elsewhere neither holds: a key may be escaped.) *)
Class ScanLaw (W : World) : Prop := {
  scan_perm : forall t, Permutation (scan t) (map_to_list t);
}.
Class WhenLaw (W : World) : Prop := {
  when_written : forall t, Spec.when t <> None ->
    contains (QUOTE :: $"when" ++ [QUOTE]) (to_lower (task_to_json t)) = true;
  when_read : forall t t', task_from_json (task_to_json t) = Some t' -> Spec.when t' = Spec.when t;
}.

(** ** Statements *)

Definition affected {A} (p : str -> A -> bool) (t : gmap str A) : gmap str A :=
  filter (fun kv => p kv.1 kv.2 = true) t.

Definition update_where {A} (p : str -> A -> bool) (f : A -> A) (t : gmap str A) : gmap str A :=
  map_imap (fun id r => Some (if p id r then f r else r)) t.

(** [UPDATE ... SET f WHERE p], and its [rows_affected]. *)
Definition update_tasks (p : str -> T.task_run -> bool) (f : T.task_run -> T.task_run) (s : store)
    : store * nat :=
  (s <| task_runs ::= update_where p f |>, size (affected p (task_runs s))).

Definition update_runs (p : str -> R.workflow_run -> bool) (f : R.workflow_run -> R.workflow_run)
    (s : store) : store * nat :=
  (s <| workflow_runs ::= update_where p f |>, size (affected p (workflow_runs s))).

(** The ids an UPDATE ... RETURNING id answers with. *)
Definition returning {A} (p : str -> A -> bool) (t : gmap str A) : list str :=
  map fst (map_to_list (affected p t)).

Definition is_status (x : Models.TaskStatus) (r : T.task_run) : bool := bool_decide (T.status r = x).
Definition run_is (x : Models.RunStatus) (r : R.workflow_run) : bool := bool_decide (R.status r = x).
Definition is_null {A} (o : option A) : bool := match o with None => true | Some _ => false end.
Definition not_null {A} (o : option A) : bool := negb (is_null o).
Definition coalesce {A} (o : option A) (d : A) : option A := match o with Some a => Some a | None => Some d end.
(** [col = ?] against a value, false for NULL; [col IS ?] compares NULL as a value. *)
Definition sql_eq `{EqDecision A} (o : option A) (a : A) : bool := bool_decide (o = Some a).
Definition sql_lt (o : option time) (t : time) : bool :=
  match o with Some a => (a <? t)%Z | None => false end.
Definition sql_le (o : option time) (t : time) : bool :=
  match o with Some a => (a <=? t)%Z | None => false end.

(** The edges of a task, with the rows on their far side. *)
Definition dependency_rows (s : store) (id : str) : list (str * T.task_run) :=
  omap (fun e => if bool_decide (e.1 = id) then pair e.2 <$> task_runs s !! e.2 else None)
    (elements (task_dependencies s)).

Definition dep_statuses (s : store) (id : str) : list Models.TaskStatus :=
  map (fun d => T.status d.2) (dependency_rows s id).

(** The statement every terminal transition shares: [UPDATE task_runs SET remaining_deps =
    remaining_deps - 1 WHERE id IN (SELECT dependent_id FROM task_dependencies WHERE
    dependency_id = ?) AND status = 'pending']. *)
Definition decrement_dependents (id : str) (s : store) : store :=
  (update_tasks (fun i r => bool_decide ((i, id) ∈ task_dependencies s) && is_status Models.Pending r)
     (fun r => r <| T.remaining_deps ::= Z.pred |>) s).1.

(** A DELETE of tasks: migration 044 has their attempts go with them. *)
Definition delete_tasks (gone : str -> bool) (s : store) : store :=
  s <| task_runs ::= filter (fun kv => gone kv.1 = false) |>
    <| task_attempts ::= filter (fun kv => gone kv.1.1 = false) |>.

(** ** Lemmas *)

Lemma update_where_lookup {A} (p : str -> A -> bool) (f : A -> A) (t : gmap str A) i :
  update_where p f t !! i = (fun r => if p i r then f r else r) <$> t !! i.
Proof. unfold update_where. rewrite map_lookup_imap. by destruct (t !! i). Qed.

Lemma affected_lookup {A} (p : str -> A -> bool) (t : gmap str A) i r :
  affected p t !! i = Some r <-> t !! i = Some r /\ p i r = true.
Proof. unfold affected. by rewrite map_lookup_filter_Some. Qed.

Lemma affected_none {A} (p : str -> A -> bool) (t : gmap str A) :
  size (affected p t) = 0 <-> forall i r, t !! i = Some r -> p i r = false.
Proof.
  rewrite map_size_empty_iff. unfold affected. rewrite map_empty_filter. split.
  - intros H i r Hi. specialize (H i r Hi). cbn in H. by destruct (p i r).
  - intros H i r Hi. cbn. by rewrite (H _ _ Hi).
Qed.

(** An UPDATE that affected no row changed nothing. *)
Lemma update_where_none {A} (p : str -> A -> bool) (f : A -> A) (t : gmap str A) :
  size (affected p t) = 0 -> update_where p f t = t.
Proof.
  rewrite affected_none. intros H. apply map_eq. intros i. rewrite update_where_lookup.
  destruct (t !! i) as [r|] eqn:E; [|done]. simpl. by rewrite (H _ _ E).
Qed.

(** An UPDATE of one id affects one row or none. *)
Lemma affected_one {A} (p : A -> bool) (t : gmap str A) id :
  affected (fun i r => bool_decide (i = id) && p r) t
  = match t !! id with
    | Some r => if p r then {[ id := r ]} else ∅
    | None => ∅
    end.
Proof.
  apply map_eq. intros i. unfold affected. apply option_eq. intros r.
  rewrite map_lookup_filter_Some. cbn. rewrite andb_true_iff, bool_decide_eq_true. split.
  - intros (Hi & -> & Hp). rewrite Hi, Hp. apply lookup_singleton_eq.
  - destruct (t !! id) as [x|] eqn:E; [|done]. destruct (p x) eqn:Ep; [|done].
    intros [<- <-]%lookup_singleton_Some. done.
Qed.

Lemma dependency_rows_spec s id d r :
  (d, r) ∈ dependency_rows s id <-> (id, d) ∈ task_dependencies s /\ task_runs s !! d = Some r.
Proof.
  unfold dependency_rows. rewrite list_elem_of_omap. split.
  - intros ([a b] & Hin%elem_of_elements & H). cbn in H. case_bool_decide as Ha; [|done].
    subst a. destruct (task_runs s !! b) eqn:E; [|done]. by injection H as <- <-.
  - intros [Hin Hr]. exists (id, d). split; [by apply elem_of_elements|]. cbn.
    rewrite bool_decide_true by done. by rewrite Hr.
Qed.

Lemma dep_statuses_spec s id x :
  x ∈ dep_statuses s id
  <-> exists d r, (id, d) ∈ task_dependencies s /\ task_runs s !! d = Some r /\ T.status r = x.
Proof.
  unfold dep_statuses. rewrite list_elem_of_fmap. split.
  - intros ([d r] & -> & [H1 H2]%dependency_rows_spec). eauto.
  - intros (d & r & H1 & H2 & <-). exists (d, r). split; [done|]. by apply dependency_rows_spec.
Qed.

Lemma decrement_lookup id s i :
  task_runs (decrement_dependents id s) !! i
  = (fun r => if bool_decide ((i, id) ∈ task_dependencies s) && is_status Models.Pending r
              then r <| T.remaining_deps ::= Z.pred |> else r) <$> task_runs s !! i.
Proof. unfold decrement_dependents, update_tasks. cbn. by rewrite update_where_lookup. Qed.

#[export] Hint Rewrite @update_where_lookup decrement_lookup : rust.
