(* ===== verification/Cond.v ===== *)
(** * Conditions and templates ([dagron-core/src/expand.rs])

    The text a workflow is filled in with ([substitute]), the references to earlier tasks'
    outputs in it, and the conditions ([eval_when]) that guard a task, end a loop and gate a
    schedule.  A loop over a shrinking text takes fuel, its length and one more, which the
    theorems show is never used up. *)

From S2P Require Import Prelude F64 Json.

Module Cond.

Definition ctx : Type := gmap str str.

Definition OPEN : str := $"{{".
Definition CLOSE : str := $"}}".

(** [key.strip_prefix("tasks.").and_then(|k| k.strip_suffix(".output"))] *)
Definition output_ref (key : str) : option str :=
  let* k := strip_prefix $"tasks." key in strip_suffix $".output" k.

(** ** References to outputs *)

(** The loop of [when_output_refs]. *)
Fixpoint refs_from (fuel : nat) (rest : str) (refs : list str) : list str :=
  match fuel with
  | O => refs
  | S fuel =>
      match find OPEN rest with
      | None => refs
      | Some start =>
          let after := drop (start + 2) rest in
          match find CLOSE after with
          | None => refs
          | Some end_ =>
              let refs' :=
                match output_ref (trim (take end_ after)) with
                | Some ((_ :: _) as name) =>
                    if existsb (fun r => bool_decide (r = name)) refs then refs else refs ++ [name]
                | _ => refs
                end in
              refs_from fuel (drop (end_ + 2) after) refs'
          end
      end
  end.

(** [when_output_refs] *)
Definition when_output_refs (cond : str) : list str := refs_from (S (length cond)) cond [].

(** [when_refs_task_outputs] *)
Definition when_refs_task_outputs (cond : str) : bool :=
  match when_output_refs cond with [] => false | _ => true end.

(** [rename_output_refs] *)
Fixpoint rename_from (fuel : nat) (rest : str) (renamed : gmap str str) : str :=
  match fuel with
  | O => rest
  | S fuel =>
      match find OPEN rest with
      | None => rest
      | Some start =>
          let after := drop (start + 2) rest in
          match find CLOSE after with
          | None => rest
          | Some end_ =>
              let to := let* n := output_ref (trim (take end_ after)) in renamed !! n in
              take start rest
              ++ match to with
                 | Some to => $"{{ tasks." ++ to ++ $".output }}"
                 | None => take (2 + end_ + 2) (drop start rest)
                 end
              ++ rename_from fuel (drop (end_ + 2) after) renamed
          end
      end
  end.

Definition rename_output_refs (cond : str) (renamed : gmap str str) : str :=
  rename_from (S (length cond)) cond renamed.

(** ** Filling in *)

(** [eval_arith] *)
Definition eval_arith (expr : str) (c : ctx) : option str :=
  match split_whitespace expr with
  | [t0; op; t2] =>
      let resolve t :=
        match (let* v := c !! t in F64.parse (trim v)) with
        | Some x => Some x
        | None => F64.parse t
        end in
      let* a := resolve t0 in
      let* b := resolve t2 in
      let nonzero := negb (F64.eqb b F64.zero) in
      let* r :=
        (if bool_decide (op = $"+") then Some (F64.add a b)
         else if bool_decide (op = $"-") then Some (F64.sub a b)
         else if bool_decide (op = $"*") then Some (F64.mul a b)
         else if bool_decide (op = $"/") && nonzero then Some (F64.div a b)
         else if bool_decide (op = $"%") && nonzero then Some (F64.rem a b)
         else None) in
      Some (match F64.to_whole r with
            | Some z => show_Z (Z.max I64_MIN (Z.min I64_MAX z))
            | None => F64.show r
            end)
  | _ => None
  end.

(** The loop of [substitute], from the byte it stands at. *)
Fixpoint subst_from (fuel : nat) (c : ctx) (s : str) : str :=
  match fuel with
  | O => s
  | S fuel =>
      match s with
      | [] => []
      | b :: s' =>
          match (if starts_with OPEN s then find CLOSE (drop 2 s) else None) with
          | Some close =>
              let key := trim (take close (drop 2 s)) in
              match c !! key with
              | Some val => val
              | None =>
                  match eval_arith key c with
                  | Some val => val
                  | None => take (2 + close + 2) s
                  end
              end ++ subst_from fuel c (drop (2 + close + 2) s)
          | None => b :: subst_from fuel c s'
          end
      end
  end.

(** [substitute] *)
Definition substitute (s : str) (c : ctx) : str :=
  if negb (contains OPEN s) then s else subst_from (S (length s)) c s.

(** ** Conditions *)

Definition byte_at (s : str) (i : nat) : option ascii := s !! i.
Definition byte_in (l : list ascii) (o : option ascii) : bool :=
  match o with Some b => existsb (ch b) l | None => false end.

Definition TAB : ascii := "009"%char.

(** The closing quote of a token opened before [j]. *)
Fixpoint closing (n : nat) (s : str) (b : ascii) (j : nat) : option nat :=
  match n with
  | O => None
  | S n =>
      if byte_in [b] (byte_at s j)
         && match byte_at s (j + 1) with
            | None => true
            | x => byte_in [" "%char; TAB; "]"%char; ","%char] x
            end
      then Some j else closing n s b (j + 1)
  end.

(** The loop of [top_level], from byte [i] at bracket depth [depth]. *)
Fixpoint top_from (fuel : nat) (s : str) (i depth : nat) : list bool :=
  match fuel with
  | O => []
  | S fuel =>
      match byte_at s i with
      | None => []
      | Some b =>
          let opens :=
            match i with
            | O => true
            | S p => byte_in [" "%char; TAB; "["%char; ","%char] (byte_at s p)
            end in
          match (if (ch b APOS || ch b QUOTE) && opens
                 then closing (length s - (i + 1)) s b (i + 1) else None) with
          | Some end_ => repeat false (end_ - i + 1) ++ top_from fuel s (end_ + 1) depth
          | None =>
              (depth =? 0)%nat
              :: top_from fuel s (i + 1)
                   (if ch b "[" then S depth else if ch b "]" then pred depth else depth)
          end
      end
  end.

(** [top_level] *)
Definition top_level (expr : str) : list bool := top_from (S (length expr)) expr 0 0.

(** The loop of [split_word]. *)
Fixpoint split_word_from (fuel : nat) (expr word : str) (top : list bool) (start i : nat)
    : list str :=
  match fuel with
  | O => [trim (drop start expr)]
  | S fuel =>
      match find word (drop i expr) with
      | None => [trim (drop start expr)]
      | Some pos =>
          let at_ := i + pos in
          let end_ := at_ + length word in
          let ws o := match o with Some b => is_ascii_ws b | None => false end in
          let before := (0 <? at_)%nat && ws (byte_at expr (at_ - 1)) in
          let after := (end_ <? length expr)%nat && ws (byte_at expr end_) in
          if before && after && default false (top !! at_)
          then trim (drop start (take at_ expr)) :: split_word_from fuel expr word top end_ end_
          else split_word_from fuel expr word top start end_
      end
  end.

(** [split_word] *)
Definition split_word (expr word : str) : list str :=
  split_word_from (S (length expr)) expr word (top_level expr) 0 0.

(** The pieces of [body] between the commas that stand outside quotes and brackets. *)
Fixpoint split_top (c : ascii) (body : str) (top : list bool) (piece : str) : list str :=
  match body, top with
  | b :: body, t :: top =>
      if ch b c && t then piece :: split_top c body top [] else split_top c body top (piece ++ [b])
  | _, _ => [piece]
  end.

Definition quoted_in (q : ascii) (s : str) : bool :=
  (2 <=? length s)%nat && starts_with [q] s && ends_with [q] s.

Definition unquote (s : str) : str :=
  let s := trim s in
  if quoted_in QUOTE s || quoted_in APOS s then drop 1 (take (length s - 1) s) else s.

Fixpoint first_top (c : ascii) (s : str) (top : list bool) (i : nat) : option nat :=
  match s, top with
  | b :: s, t :: top => if ch b c && t then Some i else first_top c s top (i + 1)
  | _, _ => None
  end.

Definition same_item (lhs item : str) : bool :=
  match F64.parse lhs, F64.parse item with
  | Some a, Some b => F64.eqb a b
  | _, _ => bool_decide (lhs = item)
  end.

(** [eval_membership] *)
Definition eval_membership (expr : str) : option bool :=
  if negb (ends_with $"]" expr) then None
  else
    let* open := first_top "[" expr (top_level expr) 0 in
    let head := trim_end (take open expr) in
    let* (lhs, negate) :=
      (match strip_suffix $" not in" head with
       | Some l => Some (l, true)
       | None => match strip_suffix $" in" head with Some l => Some (l, false) | None => None end
       end) in
    let lhs := trim lhs in
    let body := drop (open + 1) (take (length expr - 1) expr) in
    let items := split_top "," body (top_level body) [] in
    let found :=
      existsb (same_item lhs)
        (List.filter (fun s => match trim s with [] => false | _ => true end) (map unquote items)) in
    Some (negb (Bool.eqb found negate)).

Inductive cond_error :=
| MalformedMembership (expr : str)
| NonNumeric (op expr : str)
| OutOfFuel.

Definition OPS : list str := [$"<="; $">="; $"=="; $"!="; $"<"; $">"].

Definition compare_num (op : str) (a b : F64.f64) : bool :=
  if bool_decide (op = $"<=") then F64.leb a b
  else if bool_decide (op = $">=") then F64.leb b a
  else if bool_decide (op = $"<") then F64.ltb a b
  else if bool_decide (op = $">") then F64.ltb b a
  else if bool_decide (op = $"==") then F64.eqb a b
  else negb (F64.eqb a b).

(** The comparison loop, then the bare value. *)
Fixpoint compare_ops (ops : list str) (expr : str) : result cond_error bool :=
  match ops with
  | [] => Ok (negb (existsb (fun f => bool_decide (expr = f)) [[]; $"false"; $"0"; $"no"]))
  | op :: ops =>
      match find op expr with
      | None => compare_ops ops expr
      | Some idx =>
          let lhs := trim (take idx expr) in
          let rhs := trim (drop (idx + length op) expr) in
          match F64.parse lhs, F64.parse rhs with
          | Some a, Some b => Ok (compare_num op a b)
          | _, _ =>
              if bool_decide (op = $"==") then Ok (bool_decide (lhs = rhs))
              else if bool_decide (op = $"!=") then Ok (negb (bool_decide (lhs = rhs)))
              else Err (NonNumeric op expr)
          end
      end
  end.

(** An expression with no word operator. *)
Definition eval_atom (expr : str) : result cond_error bool :=
  match eval_membership expr with
  | Some r => Ok r
  | None =>
      if (1 <? length (split_word expr $"in"))%nat && contains_char "[" expr
      then Err (MalformedMembership expr)
      else compare_ops OPS expr
  end.

(** The two loops over parts, which stop at the first part that decides. *)
Fixpoint any_part (ev : str -> result cond_error bool) (parts : list str) : result cond_error bool :=
  match parts with
  | [] => Ok false
  | p :: ps => let? b := ev p in if b then Ok true else any_part ev ps
  end.

Fixpoint all_parts (ev : str -> result cond_error bool) (parts : list str) : result cond_error bool :=
  match parts with
  | [] => Ok true
  | p :: ps => let? b := ev p in if b then all_parts ev ps else Ok false
  end.

Fixpoint eval_fuel (fuel : nat) (expr : str) : result cond_error bool :=
  match fuel with
  | O => Err OutOfFuel
  | S fuel =>
      let expr := trim expr in
      match split_word expr $"or" with
      | (_ :: _ :: _) as ors => any_part (eval_fuel fuel) ors
      | _ =>
          match split_word expr $"and" with
          | (_ :: _ :: _) as ands => all_parts (eval_fuel fuel) ands
          | _ => eval_atom expr
          end
      end
  end.

(** [eval_when] *)
Definition eval_when (expr : str) : result cond_error bool := eval_fuel (S (length expr)) expr.

(** The text of [eval_when]'s error, without the backtrace. *)
Definition error_text (e : cond_error) : str :=
  match e with
  | MalformedMembership expr =>
      $"malformed membership test in when: '" ++ expr ++ $"' (expected `X in [a, b]`)"
  | NonNumeric op expr =>
      $"non-numeric operands for '" ++ op ++ $"' in when: '" ++ expr ++ $"'"
  | OutOfFuel => []
  end.

(** ** Samples, from the module's own tests *)

Definition sc (l : list (str * str)) : ctx := list_to_map l.
Example ex_sub : substitute $"n={{ n }} {{ n - 1 }} {{ x }} {{y" (sc [($"n", $"3")])
  = $"n=3 2 {{ x }} {{y".
Proof. by vm_compute. Qed.
Example ex_refs : when_output_refs $"{{ tasks.a.output }} == ok and {{tasks.b.output}} {{ tasks.a.output }}"
  = [$"a"; $"b"].
Proof. by vm_compute. Qed.
Example ex_when : map eval_when
  [$"3 > 0"; $"a == a and 1 < 2"; $"a == b or no"; $"x in ['foo or bar', x]"; $"x not in [y]";
   $"don't panic"; $"a < b"; $"x in [a"]
  = [Ok true; Ok true; Ok false; Ok true; Ok true; Ok true; Err (NonNumeric $"<" $"a < b");
     Err (MalformedMembership $"x in [a")].
Proof. by vm_compute. Qed.
Example ex_rename : rename_output_refs $"{{tasks.a.output}} {{ b }}" (sc [($"a", $"c.a")])
  = $"{{ tasks.c.a.output }} {{ b }}".
Proof. by vm_compute. Qed.

End Cond.
