(* ===== verification/Stops.v ===== *)
(** * Stopping runs and tasks ([dagron-core/src/db/sqlite.rs], [db.rs])

    A cancel asks: a task nothing runs for is cancelled at once, one a worker holds is asked
    and stays running until that worker's claim settles it, and the run ends with its last
    stopping task.  Each operation is a function of the clock's reading [now] and the store. *)

From S2P Require Import Tables.

Module Stops.

Import Models.

Section stops.
Context {W : World}.

(** [db::lease_secs] *)
Definition lease_secs : Z :=
  let read := let* v := env $"LEASE_SECS" in parse_i64 (trim v) in
  Z.max 3 (match read with Some n => n | None => 30%Z end).

(** [stop_lease] *)
Definition stop_lease (now : time) : time := (now + secs lease_secs)%Z.

(** [insert_run_completed] *)
Definition insert_run_completed (run_id : str) (status : RunStatus) (now : time) (s : store)
    : store :=
  s <| event_outbox ::= fun l => l ++ [{| e_run := run_id; e_type := $"run.completed";
                                          e_body := Completed status; e_at := now |}] |>.

(** ** A run that was asked to stop *)

(** A task of [run_id] is still stopping. *)
Definition still_stopping (run_id : str) (s : store) : bool :=
  negb (size (affected (fun _ r => bool_decide (T.run_id r = run_id) && is_status Running r
                                   && not_null (T.stop_requested_at r)) (task_runs s)) =? 0)%nat.

Definition finishes (run_id : str) (s : store) (id : str) (r : R.workflow_run) : bool :=
  bool_decide (id = run_id) && run_is RRunning r && not_null (R.stopping_as r)
  && negb (still_stopping run_id s).

Definition finished_run (now : time) (r : R.workflow_run) : R.workflow_run :=
  r <| R.status := match R.stopping_as r with Some x => x | None => R.status r end |>
    <| R.finished_at := Some now |>
    <| R.completion_pending_at := None |>
    <| R.start_pending_at := None |>
    <| R.stopping_as := None |>
    <| R.stop_requested_at := None |>.

(** [finish_stopped_run]: the status the run ended with, when it did. *)
Definition finish_stopped_run (run_id : str) (now : time) (s : store)
    : store * option RunStatus :=
  let '(s', rows) := update_runs (finishes run_id s) (finished_run now) s in
  if (rows =? 0)%nat then (s', None)
  else
    match R.status <$> workflow_runs s' !! run_id with
    | Some status => (insert_run_completed run_id status now s', Some status)
    | None => (s', None)
    end.

(** ** The tasks of a run *)

Definition unheld (r : T.task_run) : bool :=
  is_status Pending r || is_status Ready r || is_status AwaitingApproval r
  || (is_status Running r && is_null (T.claimed_by r)).

Definition cancelled_row (now : time) (r : T.task_run) : T.task_run :=
  r <| T.status := Cancelled |> <| T.finished_at := Some now |>
    <| T.claimed_by := None |> <| T.lease_expires_at := None |>.

Definition asked_row (now lease : time) (r : T.task_run) : T.task_run :=
  r <| T.lease_expires_at := if is_null (T.stop_requested_at r) then Some lease
                             else T.lease_expires_at r |>
    <| T.stop_requested_at := coalesce (T.stop_requested_at r) now |>.

(** [stop_run_tasks] *)
Definition stop_run_tasks (run_id : str) (now : time) (s : store) : store * CancelCounts :=
  let '(s, cancelled) :=
    update_tasks (fun _ r => bool_decide (T.run_id r = run_id) && unheld r) (cancelled_row now) s in
  let '(s, stopping) :=
    update_tasks (fun _ r => bool_decide (T.run_id r = run_id) && is_status Running r
                             && not_null (T.claimed_by r))
      (asked_row now (stop_lease now)) s in
  (s, {| cc_cancelled := cancelled; cc_stopping := stopping |}).

(** [cancel_run] *)
Definition cancel_run (run_id : str) (now : time) (s : store) : store * option CancelCounts :=
  let '(s, asked) :=
    update_runs (fun id r => bool_decide (id = run_id) && run_is RRunning r)
      (fun r => r <| R.stopping_as := coalesce (R.stopping_as r) RCancelled |>
                  <| R.stop_requested_at := coalesce (R.stop_requested_at r) now |>
                  <| R.start_pending_at := None |>) s in
  if (asked =? 0)%nat then (s, None)
  else
    let '(s, did) := stop_run_tasks run_id now s in
    (fst (finish_stopped_run run_id now s), Some did).

(** [OVERDUE_RUNS] *)
Definition overdue (now : time) (r : R.workflow_run) : bool :=
  run_is RRunning r && is_null (R.stopping_as r) && sql_lt (R.deadline_at r) now
  && (is_null (R.queued_at r) || not_null (R.admitted_at r)).

(** One run of the sweep's loop, and [cancel_overdue_runs]. *)
Definition stop_and_finish (now : time) (s : store) (run_id : str) : store :=
  fst (finish_stopped_run run_id now (fst (stop_run_tasks run_id now s))).

Definition cancel_overdue_runs (now : time) (s : store) : store * list str :=
  let p := fun (_ : str) r => overdue now r in
  let overdue := returning p (workflow_runs s) in
  let '(s, _) :=
    update_runs p
      (fun r => r <| R.stopping_as := Some RFailed |>
                  <| R.stop_requested_at := Some now |>
                  <| R.start_pending_at := None |>
                  <| R.output := Some $"run deadline exceeded (run_timeout_secs)" |>) s in
  (fold_left (stop_and_finish now) overdue s, overdue).

(** [STRANDED_STOPPED_RUNS] *)
Definition stranded (s : store) (id : str) (r : R.workflow_run) : bool :=
  not_null (R.stopping_as r) && run_is RRunning r && negb (still_stopping id s).

(** The body of [end_stopped_runs]' loop, with the runs it has ended. *)
Definition end_stopped_run (now : time) (acc : store * nat) (run_id : str) : store * nat :=
  let '(s, ended) := acc in
  let '(s, _) := stop_run_tasks run_id now s in
  let '(s, _) :=
    update_tasks (fun _ r => bool_decide (T.run_id r = run_id) && negb (is_status Running r)
                             && not_null (T.stop_requested_at r))
      (fun r => r <| T.stop_requested_at := None |>) s in
  match finish_stopped_run run_id now s with
  | (s, Some _) => (s, S ended)
  | (s, None) => (s, ended)
  end.

(** [end_stopped_runs] *)
Definition end_stopped_runs (now : time) (s : store) : store * nat :=
  fold_left (end_stopped_run now) (returning (stranded s) (workflow_runs s)) (s, 0%nat).

(** ** A task that was asked *)

(** The row of [task_id], held by [worker_id] under the claim [fence]. *)
Definition held_by (task_id worker_id : str) (fence : Z) (id : str) (r : T.task_run) : bool :=
  bool_decide (id = task_id) && sql_eq (T.claimed_by r) worker_id && (T.version r =? fence)%Z.

Definition asked (r : T.task_run) : bool :=
  is_status Running r && not_null (T.stop_requested_at r).

(** [settle_stopping] *)
Definition settle_stopping (task_id worker_id : str) (fence : Z) (now : time) (s : store)
    : store * bool :=
  let p := fun id r => held_by task_id worker_id fence id r && asked r in
  let '(s', rows) :=
    update_tasks p (fun r => cancelled_row now r <| T.stop_requested_at := None |>) s in
  if (rows =? 0)%nat then (s', false)
  else
    match T.run_id <$> task_runs s' !! task_id with
    | Some run_id => (fst (finish_stopped_run run_id now s'), true)
    | None => (s', true)
    end.

(** [settle_stopped_task] *)
Definition settle_stopped_task (task_id worker_id : str) (fence : Z) (now : time) (s : store)
    : store * bool :=
  settle_stopping task_id worker_id fence now s.

(** [release_stopping_task] *)
Definition release_stopping_task (task_id worker_id : str) (fence : Z) (retry_secs : Z)
    (now : time) (s : store) : store * bool :=
  let '(s, rows) :=
    update_tasks (fun id r => held_by task_id worker_id fence id r && asked r)
      (fun r => r <| T.lease_expires_at := Some (now + secs retry_secs)%Z |>) s in
  (s, (rows =? 1)%nat).

(** ** Teardowns *)

(** The engine's classes as the claim matches them: [,a,b,], or nothing for every class. *)
Definition class_set (classes : list str) : str :=
  match classes with [] => [] | _ => $"," ++ join $"," classes ++ $"," end.

(** [instr(set, ',' || x || ',') > 0] *)
Definition in_set (set x : str) : bool := contains ($"," ++ x ++ $",") set.

Definition class_served (set : str) (r : T.task_run) : bool :=
  match set with [] => true | _ => in_set set (T.runner_class r) end.

(** [ORDER BY lease_expires_at], rows with equal leases as the read meets them. *)
Fixpoint insert_by {A} (le : A -> A -> bool) (x : A) (l : list A) : list A :=
  match l with
  | [] => [x]
  | y :: l' => if le x y then x :: l else y :: insert_by le x l'
  end.
Definition sort_by {A} (le : A -> A -> bool) (l : list A) : list A :=
  fold_right (insert_by le) [] l.

(** NULL comes first in SQLite's ascending order. *)
Definition null_first (a b : option time) : bool :=
  match a, b with None, _ => true | Some _, None => false | Some a, Some b => (a <=? b)%Z end.

(** [DUE_TEARDOWNS] *)
Definition due_teardown (now : time) (set : str) (r : T.task_run) : bool :=
  asked r && sql_lt (T.lease_expires_at r) now && is_null (T.session_id r) && class_served set r.

Definition due_teardowns (now : time) (set : str) (s : store) : list (str * T.task_run) :=
  sort_by (fun a b => null_first (T.lease_expires_at a.2) (T.lease_expires_at b.2))
    (List.filter (fun kv => due_teardown now set kv.2) (scan (task_runs s))).

(** One candidate of [claim_teardowns]' loop. *)
Definition claim_teardown (worker_id : str) (lease_exp : time)
    (acc : store * list (str * T.task_run)) (task : str * T.task_run)
    : store * list (str * T.task_run) :=
  let '(s, claimed) := acc in
  let '(s, rows) :=
    update_tasks (fun id r => bool_decide (id = task.1) && (T.version r =? T.version task.2)%Z
                              && asked r)
      (fun r => r <| T.claimed_by := Some worker_id |>
                  <| T.lease_expires_at := Some lease_exp |>
                  <| T.version ::= Z.succ |>) s in
  (s, if (0 <? rows)%nat then claimed ++ [task] else claimed).

(** [claim_teardowns] *)
Definition claim_teardowns (worker_id : str) (limit : Z) (classes held : list str) (now : time)
    (s : store) : store * list (str * T.task_run) :=
  let candidates :=
    take (Z.to_nat limit)
      (List.filter (fun kv => negb (existsb (fun h => bool_decide (h = kv.1)) held))
         (due_teardowns now (class_set classes) s)) in
  fold_left (claim_teardown worker_id (now + secs lease_secs)%Z) candidates (s, []).

(** ** What an engine should stop *)

(** [db::not_held] over the row the store has for a task, and [tasks_to_stop]. *)
Definition holds (worker_id : str) (fence : Z) (row : option T.task_run) : bool :=
  match row with
  | Some r => is_status Running r && sql_eq (T.claimed_by r) worker_id
              && (T.version r =? fence)%Z && is_null (T.stop_requested_at r)
  | None => false
  end.

Definition tasks_to_stop (worker_id : str) (held : list (str * Z)) (s : store) : list str :=
  map fst (List.filter (fun h => negb (holds worker_id h.2 (task_runs s !! h.1))) held).

End stops.
End Stops.
