(* ===== verification/Scheduler.v ===== *)
(** * Advancing, claiming and settling tasks ([dagron-core/src/db/sqlite.rs])

    The transitions a reconcile tick and a worker's report make on [task_runs]: what
    becomes ready or is skipped, what is claimed and under which lease, and what a report
    under a claim does.  An operation's reads of the clock are one instant, [now]. *)

From S2P Require Import Tables Cond Stops.

Module Scheduler.

Import Models.

Section scheduler.
Context {W : World}.

(** ** Recovery *)

(** [EXPIRED_LEASES] *)
Definition lease_expired (now : time) (r : T.task_run) : bool :=
  is_status Running r && sql_lt (T.lease_expires_at r) now
  && is_null (T.stop_requested_at r) && is_null (T.session_id r).

(** [recover_expired_leases] *)
Definition recover_expired_leases (now : time) (s : store) : store * nat :=
  update_tasks (fun _ r => lease_expired now r)
    (fun r => r <| T.status := Ready |> <| T.claimed_by := None |> <| T.lease_expires_at := None |>)
    s.

(** ** Advancing *)

(** [input NOT LIKE '%"when"%']: SQLite's LIKE ignores the case of ASCII letters. *)
Definition like_when (input : str) : bool := contains (QUOTE :: $"when" ++ [QUOTE]) (to_lower input).

Definition no_when (r : T.task_run) : bool :=
  match T.input r with None => true | Some i => negb (like_when i) end.

(** Pending with nothing left to wait for: what every advance reads. *)
Definition unblocked (r : T.task_run) : bool :=
  is_status Pending r && (T.remaining_deps r =? 0)%Z.

(** The default shape, but for the fan-out barrier's own test. *)
Definition default_shaped (r : T.task_run) : bool :=
  bool_decide (T.trigger_rule r = $"all_success") && negb (T.is_approval r) && no_when r.

Definition dep_unsuccessful (s : store) (id : str) : bool :=
  existsb (fun x => negb (bool_decide (x = Succeeded))) (dep_statuses s id).

Definition ready_row (now : time) (r : T.task_run) : T.task_run :=
  r <| T.status := Ready |> <| T.scheduled_at := Some now |>.

Definition skipped_row (now : time) (r : T.task_run) : T.task_run :=
  r <| T.status := Skipped |> <| T.finished_at := Some now |>.

Definition fast_ready (s : store) (id : str) (r : T.task_run) : bool :=
  unblocked r && default_shaped r && is_null (T.fanout_of r) && negb (dep_unsuccessful s id).

Definition fast_skip (s : store) (id : str) (r : T.task_run) : bool :=
  unblocked r && default_shaped r && dep_unsuccessful s id.

(** The first statement of [advance_default_shaped], and the transaction after it. *)
Definition ready_default_shaped (now : time) (s : store) : store * nat :=
  update_tasks (fast_ready s) (ready_row now) s.

Definition skip_default_shaped (now : time) (s : store) : store * nat :=
  let skipped := returning (fast_skip s) (task_runs s) in
  let '(s, _) := update_tasks (fast_skip s) (skipped_row now) s in
  (fold_left (fun s id => decrement_dependents id s) skipped s, length skipped).

(** [advance_default_shaped] *)
Definition advance_default_shaped (now : time) (s : store) : store * nat :=
  let '(s, readied) := ready_default_shaped now s in
  let '(s, skipped) := skip_default_shaped now s in
  (s, (readied + skipped)%nat).

(** What the candidates' read gives of each row. *)
Definition advance_candidates (s : store) : list (str * T.task_run) :=
  Stops.sort_by (fun a b => str_leb a.1 b.1)
    (map_to_list (affected (fun _ r => unblocked r) (task_runs s))).

(** [SELECT output FROM task_runs WHERE run_id = ? AND name = ?], its first row (the pair
    is unique, migration 002). *)
Definition task_output (s : store) (run_id name : str) : option str :=
  match map_to_list (affected (fun _ r => bool_decide (T.run_id r = run_id)
                                          && bool_decide (T.name r = name)) (task_runs s)) with
  | (_, r) :: _ => T.output r
  | [] => None
  end.

(** The scope a runtime [when] is evaluated in. *)
Definition when_scope (s : store) (run_id cond : str) : Cond.ctx :=
  fold_left (fun c n => <[ $"tasks." ++ n ++ $".output" :=
                           trim (default [] (task_output s run_id n)) ]> c)
    (Cond.when_output_refs cond) ∅.

Definition row_when (r : T.task_run) : option str :=
  let* j := T.input r in let* t := task_from_json j in Spec.when t.

Definition eval_row_when (s : store) (r : T.task_run) : result str bool :=
  match row_when r with
  | None => Ok true
  | Some cond =>
      match Cond.eval_when (Cond.substitute cond (when_scope s (T.run_id r) cond)) with
      | Ok pass => Ok pass
      | Err e => Err ($"runtime when '" ++ cond ++ $"' failed to evaluate: " ++ Cond.error_text e)
      end
  end.

(** [WHERE id = ? AND status = 'pending'], then the dependents' decrement when the row was
    still there. *)
Definition pending_row (task_id id : str) (r : T.task_run) : bool :=
  bool_decide (id = task_id) && is_status Pending r.

Definition end_pending (task_id : str) (f : T.task_run -> T.task_run) (s : store) : store * nat :=
  let '(s, rows) := update_tasks (pending_row task_id) f s in
  (if (0 <? rows)%nat then decrement_dependents task_id s else s, rows).

(** The row a candidate that runs is given: a fan-out barrier parks, an approval gate waits
    for its decision, and any other task is ready. *)
Definition advanced_row (now : time) (cand r : T.task_run) : T.task_run :=
  if not_null (T.fanout_of cand) then
    r <| T.status := Running |> <| T.scheduled_at := Some now |>
      <| T.claimed_by := None |> <| T.lease_expires_at := None |>
  else if T.is_approval cand then
    r <| T.status := AwaitingApproval |> <| T.scheduled_at := Some now |>
  else ready_row now r.

(** What the reads say of a candidate: its [when] cannot be evaluated, it runs, or it does
    not. *)
Inductive Verdict := Unevaluable (msg : str) | Goes | Skips.

Definition decide_candidate (statuses : list TaskStatus) (pass : result str bool) (row : T.task_run)
    : Verdict :=
  match pass with
  | Err msg => Unevaluable msg
  | Ok pass =>
      if pass && trigger_rule_ready (T.trigger_rule row) (map task_status_str statuses)
      then Goes else Skips
  end.

(** What is then written of it, in one transaction. *)
Definition settle_candidate (now : time) (task_id : str) (row : T.task_run) (v : Verdict) (s : store)
    : store * nat :=
  match v with
  | Unevaluable msg =>
      end_pending task_id
        (fun r => r <| T.status := Failed |> <| T.output := Some msg |>
                    <| T.finished_at := Some now |>) s
  | Goes => update_tasks (pending_row task_id) (advanced_row now row) s
  | Skips => end_pending task_id (skipped_row now) s
  end.

(** One candidate of [advance_exotic_once]. *)
Definition advance_candidate (now : time) (acc : store * nat) (cand : str * T.task_run)
    : store * nat :=
  let '(s, transitioned) := acc in
  let '(task_id, row) := cand in
  let v := decide_candidate (dep_statuses s task_id) (eval_row_when s row) row in
  let '(s, rows) := settle_candidate now task_id row v s in
  (s, (transitioned + rows)%nat).

(** [advance_exotic_once] *)
Definition advance_exotic_once (now : time) (s : store) : store * nat :=
  fold_left (advance_candidate now) (advance_candidates s) (s, 0%nat).

(** [advance_ready_tasks]: at most 64 rounds, as it goes when no other caller's statement
    comes between its own.  One by one they are steps of [Reach] and of [History]:
    [ready_default_shaped], [skip_default_shaped], and [settle_candidate] of what was read
    before. *)
Fixpoint advance_rounds (rounds : nat) (now : time) (s : store) (transitioned : nat)
    : store * nat :=
  match rounds with
  | O => (s, transitioned)
  | S rounds =>
      if (size (affected (fun _ r => unblocked r) (task_runs s)) =? 0)%nat then (s, transitioned)
      else
        let '(s, fast) := advance_default_shaped now s in
        let '(s, slow) := advance_exotic_once now s in
        if (fast + slow =? 0)%nat then (s, transitioned)
        else advance_rounds rounds now s (transitioned + (fast + slow))
  end.

Definition advance_ready_tasks (now : time) (s : store) : store * nat :=
  advance_rounds 64 now s 0.

(** ** Claiming *)

(** [POOL_RUNNING_COUNT] *)
Definition occupies (p : str) (r : T.task_run) : bool :=
  is_status Running r && sql_eq (T.pool r) p
  && is_null (T.wake_at r) && is_null (T.wait_url r) && is_null (T.wait_dataset r)
  && is_null (T.sub_run_id r) && is_null (T.fanout_of r).

Definition pool_running (p : str) (s : store) : Z :=
  Z.of_nat (size (affected (fun _ r => occupies p r) (task_runs s))).

(** The budgets [claim_ready_filtered] computes, and the pools it leaves out. *)
Definition pool_avail (pool_caps : gmap str Z) (s : store) : gmap str Z :=
  map_imap (fun p cap => Some (Z.max (cap - pool_running p s) 0)) pool_caps.

Definition exhausted_set (avail : gmap str Z) : str :=
  match List.filter (fun kv => (kv.2 =? 0)%Z) (map_to_list avail) with
  | [] => []
  | full => $"," ++ join $"," (map fst full) ++ $","
  end.

(** [READY_CANDIDATES]' WHERE and ORDER BY. *)
Definition claimable (now : time) (classes exhausted : str) (exclude_gangs : bool)
    (r : T.task_run) : bool :=
  is_status Ready r
  && (is_null (T.scheduled_at r) || sql_le (T.scheduled_at r) now)
  && Stops.class_served classes r
  && match exhausted, T.pool r with
     | [], _ | _, None => true
     | set, Some p => negb (Stops.in_set set p)
     end
  && (negb exclude_gangs || is_null (T.gang_id r)).

Definition claim_order (a b : str * T.task_run) : bool :=
  (T.priority b.2 <? T.priority a.2)%Z
  || ((T.priority a.2 =? T.priority b.2)%Z && Stops.null_first (T.scheduled_at a.2) (T.scheduled_at b.2)).

(** [LIMIT ?]: a negative limit is none. *)
Definition limited {A} (limit : Z) (l : list A) : list A :=
  if (limit <? 0)%Z then l else take (Z.to_nat limit) l.

Definition ready_candidates (now : time) (classes exhausted : str) (exclude_gangs : bool)
    (limit : Z) (s : store) : list (str * T.task_run) :=
  limited limit
    (Stops.sort_by claim_order
       (List.filter (fun kv => claimable now classes exhausted exclude_gangs kv.2)
          (scan (task_runs s)))).

Definition claimed_row (worker_id : str) (lease_exp : time) (r : T.task_run) : T.task_run :=
  r <| T.status := Running |>
    <| T.claimed_by := Some worker_id |>
    <| T.lease_expires_at := Some lease_exp |>
    <| T.attempt ::= Z.succ |>
    <| T.log := None |> <| T.log_fence := None |> <| T.log_gen := None |>
    <| T.version ::= Z.succ |>
    <| T.session_id := None |>.

(** The pool's slot a candidate has no claim to, when the pool is drained. *)
Definition drained (avail : gmap str Z) (r : T.task_run) : bool :=
  match T.pool r with
  | Some p => match avail !! p with Some n => (n <=? 0)%Z | None => false end
  | None => false
  end.

Definition take_slot (avail : gmap str Z) (r : T.task_run) : gmap str Z :=
  match T.pool r with Some p => alter Z.pred p avail | None => avail end.

(** One candidate of the claim's loop. *)
Definition claim_candidate (worker_id : str) (lease_exp : time)
    (acc : store * gmap str Z * list (str * T.task_run)) (task : str * T.task_run)
    : store * gmap str Z * list (str * T.task_run) :=
  let '(s, avail, claimed) := acc in
  if drained avail task.2 then acc
  else
    let '(s, rows) :=
      update_tasks (fun id r => bool_decide (id = task.1) && is_status Ready r
                                && (T.version r =? T.version task.2)%Z)
        (claimed_row worker_id lease_exp) s in
    if (0 <? rows)%nat then (s, take_slot avail task.2, claimed ++ [task])
    else (s, avail, claimed).

(** [claim_ready_filtered] *)
Definition claim_ready_filtered (worker_id : str) (limit : Z) (classes : list str)
    (pool_caps : gmap str Z) (exclude_gangs : bool) (now : time) (s : store)
    : store * list (str * T.task_run) :=
  let avail := pool_avail pool_caps s in
  let candidates :=
    ready_candidates now (Stops.class_set classes) (exhausted_set avail) exclude_gangs limit s in
  let '(s, _, claimed) :=
    fold_left (claim_candidate worker_id (now + secs Stops.lease_secs)%Z) candidates (s, avail, []) in
  (s, claimed).

(** [claim_ready_classes], [claim_ready], [claim_ready_classes_nongang] *)
Definition claim_ready_classes (worker_id : str) (limit : Z) (classes : list str)
    (pool_caps : gmap str Z) (now : time) (s : store) :=
  claim_ready_filtered worker_id limit classes pool_caps false now s.
Definition claim_ready (worker_id : str) (limit : Z) (now : time) (s : store) :=
  claim_ready_classes worker_id limit [] ∅ now s.
Definition claim_ready_classes_nongang (worker_id : str) (limit : Z) (classes : list str)
    (pool_caps : gmap str Z) (now : time) (s : store) :=
  claim_ready_filtered worker_id limit classes pool_caps true now s.

(** ** Gangs *)

Definition gang_key (r : T.task_run) : option (str * option Z * option str) :=
  let* g := T.gang_id r in Some (g, T.gang_size r, T.pool r).

Definition gang_member_ready (now : time) (set : str) (r : T.task_run) : bool :=
  is_status Ready r && not_null (T.gang_id r)
  && (is_null (T.scheduled_at r) || sql_le (T.scheduled_at r) now)
  && Stops.class_served set r.

(** A group of the candidates' [GROUP BY gang_id, gang_size, pool], with its rows. *)
Definition gang_groups (now : time) (set : str) (s : store)
    : list (str * option Z * option str * list T.task_run) :=
  let rows := map snd (List.filter (fun kv => gang_member_ready now set kv.2) (scan (task_runs s))) in
  map (fun k => (k, List.filter (fun r => bool_decide (gang_key r = Some k)) rows))
    (remove_dups (omap gang_key rows)).

Definition max_priority (rows : list T.task_run) : Z :=
  match map T.priority rows with [] => 0%Z | p :: ps => fold_right Z.max p ps end.
(** [MIN(scheduled_at)] leaves NULLs out. *)
Definition min_scheduled (rows : list T.task_run) : option time :=
  match omap T.scheduled_at rows with [] => None | t :: ts => Some (fold_right Z.min t ts) end.

Definition gang_order (a b : str * option Z * option str * list T.task_run) : bool :=
  (max_priority b.2 <? max_priority a.2)%Z
  || ((max_priority a.2 =? max_priority b.2)%Z
      && Stops.null_first (min_scheduled a.2) (min_scheduled b.2)).

(** [HAVING COUNT( * ) = gang_size AND gang_size <= ?3] *)
Definition gang_whole (capacity : Z) (g : str * option Z * option str * list T.task_run) : bool :=
  match g.1.1.2 with
  | Some size => (Z.of_nat (length g.2) =? size)%Z && (size <=? capacity)%Z
  | None => false
  end.

(** The pool can seat the whole gang. *)
Definition gang_seated (pool_caps : gmap str Z) (s : store)
    (g : str * option Z * option str * list T.task_run) : bool :=
  match g.1.2 with
  | Some p =>
      match pool_caps !! p with
      | Some cap => negb (Z.max (cap - pool_running p s) 0 <? default 0 g.1.1.2)%Z
      | None => true
      end
  | None => true
  end.

(** [claim_ready_gang] *)
Definition claim_ready_gang (worker_id : str) (capacity : Z) (classes : list str)
    (pool_caps : gmap str Z) (now : time) (s : store) : store * list (str * T.task_run) :=
  if (capacity <? 2)%Z then (s, [])
  else
    let candidates :=
      Stops.sort_by gang_order
        (List.filter (gang_whole capacity) (gang_groups now (Stops.class_set classes) s)) in
    match List.find (gang_seated pool_caps s) candidates with
    | None => (s, [])
    | Some g =>
        let p := fun (_ : str) r => sql_eq (T.gang_id r) g.1.1.1 && is_status Ready r in
        let claimed := map_to_list (affected p (task_runs s)) in
        (fst (update_tasks p (claimed_row worker_id (now + secs Stops.lease_secs)%Z) s), claimed)
    end.

(** [oversized_ready_gangs] *)
Definition oversized_ready_gangs (max_size : Z) (s : store) : list (str * option Z) :=
  remove_dups
    (omap (fun kv => let* g := T.gang_id kv.2 in Some (g, T.gang_size kv.2))
       (map_to_list (affected (fun _ r => is_status Ready r && not_null (T.gang_id r)
                                          && match T.gang_size r with
                                             | Some n => (max_size <? n)%Z
                                             | None => false
                                             end) (task_runs s)))).

Definition GANG_FAILED : str := $"cancelled: gang member failed".

(** A row of the gang of [member_id], that row apart. *)
Definition sibling (member_id : str) (s : store) (id : str) (r : T.task_run) : bool :=
  match T.gang_id r, task_runs s !! member_id ≫= T.gang_id with
  | Some g, Some g' => bool_decide (g = g') && negb (bool_decide (id = member_id))
  | _, _ => false
  end.

(** [cancel_gang_siblings] *)
Definition cancel_gang_siblings (member_id : str) (now : time) (s : store) : store * nat :=
  let '(s, asked) :=
    update_tasks (fun id r => sibling member_id s id r && is_status Running r
                              && not_null (T.claimed_by r))
      (fun r => Stops.asked_row now (Stops.stop_lease now) r
                  <| T.output := coalesce (T.output r) GANG_FAILED |>) s in
  let '(s, cancelled) :=
    update_tasks (fun id r => sibling member_id s id r
                              && (is_status Pending r || is_status Ready r
                                  || (is_status Running r && is_null (T.claimed_by r))))
      (fun r => Stops.cancelled_row now r
                  <| T.version ::= Z.succ |>
                  <| T.output := coalesce (T.output r) GANG_FAILED |>) s in
  (s, (asked + cancelled)%nat).

(** ** A worker's report *)

(** The guard every report is written under. *)
Definition fenced (task_id worker_id : str) (fence : Z) (id : str) (r : T.task_run) : bool :=
  Stops.held_by task_id worker_id fence id r && is_null (T.stop_requested_at r).

(** The fast path of a success: the dependents that just became ready. *)
Definition promoted (task_id : str) (s : store) (id : str) (r : T.task_run) : bool :=
  fast_ready s id r && bool_decide ((id, task_id) ∈ task_dependencies s).

(** [mark_task_succeeded_inner] *)
Definition mark_task_succeeded_inner (task_id worker_id : str) (fence : Z) (output : option str)
    (cache_hit : bool) (now : time) (s : store) : store * bool :=
  let '(s', rows) :=
    update_tasks (fenced task_id worker_id fence)
      (fun r => r <| T.status := Succeeded |> <| T.finished_at := Some now |>
                  <| T.output := output |> <| T.claimed_by := None |>
                  <| T.cache_hit := cache_hit |>) s in
  if (rows =? 0)%nat then (fst (Stops.settle_stopping task_id worker_id fence now s'), false)
  else
    let s' := decrement_dependents task_id s' in
    (fst (update_tasks (promoted task_id s') (ready_row now) s'), true).

Definition mark_task_succeeded (task_id worker_id : str) (fence : Z) (output : option str)
    (now : time) (s : store) :=
  mark_task_succeeded_inner task_id worker_id fence output false now s.
Definition mark_task_succeeded_cached (task_id worker_id : str) (fence : Z) (output : option str)
    (now : time) (s : store) :=
  mark_task_succeeded_inner task_id worker_id fence output true now s.

(** [mark_task_failed] *)
Definition mark_task_failed (task_id worker_id : str) (fence : Z) (error : option str) (now : time)
    (s : store) : store * bool :=
  let '(s', rows) :=
    update_tasks (fenced task_id worker_id fence)
      (fun r => r <| T.status := Failed |> <| T.finished_at := Some now |>
                  <| T.output := error |> <| T.claimed_by := None |>) s in
  if (rows =? 0)%nat then (fst (Stops.settle_stopping task_id worker_id fence now s'), false)
  else (decrement_dependents task_id s', true).

(** [record_attempt] *)
Definition record_attempt (task_id : str) (attempt : Z) (end_ : AttemptLog.AttemptEnd)
    (output : option str) (policy : AttemptLog.Policy) (now : time) (s : store) : store :=
  if negb (AttemptLog.enabled policy) then s
  else
    let tail := option_map (AttemptLog.tail policy) output in
    let s := s <| task_attempts ::= <[ (task_id, attempt) :=
                   {| at_reason := AttemptLog.end_str end_;
                      at_status := None; at_scheduled_at := None;
                      at_output := option_map fst tail;
                      at_truncated := match tail with Some t => t.2 | None => false end;
                      at_finished_at := now |} ]> |> in
    match AttemptLog.evict_below policy attempt with
    | Some cutoff =>
        s <| task_attempts ::= filter (fun kv => ~ (kv.1.1 = task_id /\ (kv.1.2 <= cutoff)%Z)) |>
    | None => s
    end.

(** [retry_task] *)
Definition retry_task (task_id worker_id : str) (fence : Z) (error : option str) (retry_at : time)
    (end_ : AttemptLog.AttemptEnd) (now : time) (s : store) : store * bool :=
  let policy := AttemptLog.from_env env in
  let '(s', rows) :=
    update_tasks (fenced task_id worker_id fence)
      (fun r => r <| T.status := Ready |> <| T.scheduled_at := Some retry_at |>
                  <| T.claimed_by := None |> <| T.lease_expires_at := None |>
                  <| T.output := error |> <| T.fault_class := None |>
                  <| T.fault_detail := None |> <| T.fault_confidence := None |>) s in
  if (rows =? 0)%nat then (fst (Stops.settle_stopping task_id worker_id fence now s'), false)
  else
    match task_runs s' !! task_id with
    | Some r => (record_attempt task_id (T.attempt_base r + T.attempt r) end_ error policy now s', true)
    | None => (s', true)
    end.

(** [note_task_log] *)
Definition note_task_log (task_id : str) (fence : Z) (note : str) (s : store) : store :=
  fst (update_tasks
         (fun id r => bool_decide (id = task_id) && (T.version r =? fence)%Z && is_status Running r
                      && not_null (T.log r))
         (fun r => r <| T.log ::= option_map (fun l => l ++ trim_end note ++ [NL]) |>) s).

(** [append_task_output] *)
Definition append_task_output (task_id : str) (fence : Z) (chunk : str) (reset : bool) (s : store)
    : store :=
  fst (update_tasks
         (fun id r => bool_decide (id = task_id) && (T.version r =? fence)%Z && is_status Running r)
         (fun r =>
            if reset then
              r <| T.log := Some chunk |> <| T.log_fence := Some fence |>
                <| T.log_gen := Some (default 0 (T.log_gen r) + 1)%Z |>
            else
              r <| T.log := Some (default [] (T.log r) ++ chunk) |>
                <| T.log_fence := Some fence |>) s).

(** [renew_task_lease] *)
Definition renew_task_lease (task_id worker_id : str) (fence extend_secs : Z) (now : time)
    (s : store) : store * bool :=
  let '(s, rows) :=
    update_tasks (fun id r => Stops.held_by task_id worker_id fence id r && is_status Running r)
      (fun r => r <| T.lease_expires_at := Some (now + secs extend_secs)%Z |>) s in
  (s, (rows =? 1)%nat).

(** [record_task_checkpoint] *)
Definition record_task_checkpoint (run_id task_id uri : str) (marker : option str) (s : store)
    : store * bool :=
  let '(s, rows) :=
    update_tasks (fun id r => bool_decide (id = task_id) && bool_decide (T.run_id r = run_id)
                              && is_status Running r)
      (fun r => r <| T.checkpoint_uri := Some uri |> <| T.checkpoint_marker := marker |>) s in
  (s, (rows =? 1)%nat).

(** [reclass_ready_tasks] *)
Definition reclass_ready_tasks (from_class to_class : str) (min_ready_age_secs min_attempt : Z)
    (now : time) (s : store) : store * nat :=
  let aged_before := (now - secs min_ready_age_secs)%Z in
  update_tasks (fun _ r => is_status Ready r && bool_decide (T.runner_class r = from_class)
                           && is_null (T.gang_id r)
                           && (sql_le (T.scheduled_at r) aged_before || (min_attempt <=? T.attempt r)%Z))
    (fun r => r <| T.runner_class := to_class |>) s.

(** ** Handing a claim back to a full quota *)

Definition quota_held (task_id worker_id : str) (fence : Z) (id : str) (r : T.task_run) : bool :=
  Stops.held_by task_id worker_id fence id r && is_status Running r
  && is_null (T.stop_requested_at r).

(** The episode a refusal under [fence] continues. *)
Definition quota_prior (fence : Z) (r : T.task_run) : option (time * Z) :=
  if sql_eq (T.quota_wait_version r) (fence - 1)%Z
  then option_map (fun t => (t, T.quota_waits r)) (T.quota_wait_since r)
  else None.

(** [requeue_quota_wait] *)
Definition requeue_quota_wait (task_id worker_id : str) (fence : Z) (detail : str)
    (max_wait_secs : Z) (now : time) (s : store) : store * Quota.QuotaRequeue :=
  match affected (quota_held task_id worker_id fence) (task_runs s) !! task_id with
  | None => (fst (Stops.settle_stopping task_id worker_id fence now s), Quota.Stale)
  | Some held =>
      match Quota.step DATE_MAX now (quota_prior fence held) max_wait_secs
              (Quota.jitter_permille task_id fence) with
      | Quota.GiveUp waits waited_secs => (s, Quota.Expired waits waited_secs)
      | Quota.Wait since waits retry_at =>
          let '(s, rows) :=
            update_tasks (quota_held task_id worker_id fence)
              (fun r => r <| T.status := Ready |> <| T.scheduled_at := Some retry_at |>
                          <| T.claimed_by := None |> <| T.lease_expires_at := None |>
                          <| T.attempt := Z.max (T.attempt r - 1) 0 |>
                          <| T.quota_wait_since := Some since |>
                          <| T.quota_waits := waits |>
                          <| T.quota_wait_version := Some (T.version r) |>
                          <| T.quota_wait_detail := Some (Quota.clip_detail detail) |>) s in
          if (rows =? 0)%nat then (s, Quota.Stale)
          else (s, Quota.Requeued waits (Z.max (num_seconds (now - since)) 0)
                     (Z.max (num_seconds (retry_at - now)) 0))
      end
  end.

End scheduler.
End Scheduler.
