(* ===== verification/Parks.v ===== *)
(** * Tasks that wait without a worker ([dagron-core/src/db/sqlite.rs])

    Approval gates, sub-workflow triggers, time, URL and dataset sensors and deferred
    external jobs: each is parked ([running] with no claim and no lease, or
    [awaiting_approval]), and resolved by a statement guarded on the parked shape, in one
    transaction with its dependents' decrement. *)

From S2P Require Import Tables Cond Stops.

Module Parks.

Import Models.

Section parks.
Context {W : World}.

(** Every resolution: the guarded UPDATE, and the dependents' decrement when it found the
    row ([if rows == 0 { commit; return Ok(false) }]). *)
Definition resolve (task_id : str) (p : T.task_run -> bool) (f : T.task_run -> T.task_run)
    (s : store) : store * bool :=
  let '(s, rows) := update_tasks (fun id r => bool_decide (id = task_id) && p r) f s in
  if (rows =? 0)%nat then (s, false) else (decrement_dependents task_id s, true).

Definition finished (status : TaskStatus) (now : time) (output : option str) (r : T.task_run)
    : T.task_run :=
  r <| T.status := status |> <| T.finished_at := Some now |> <| T.output := output |>.

(** ** Approval gates *)

(** [resolve_approval] *)
Definition resolve_approval (run_id task_id : str) (approve : bool) (decided_by comment : option str)
    (now : time) (s : store) : store * bool :=
  resolve task_id
    (fun r => bool_decide (T.run_id r = run_id) && is_status AwaitingApproval r)
    (fun r => finished (if approve then Succeeded else Failed) now
                (Some (if approve then $"approved" else $"rejected")) r
              <| T.decided_by := decided_by |>
              <| T.decision_comment := comment |>
              <| T.log := Some (Spec.approval_log approve decided_by comment (rfc3339 now)) |>)
    s.

(** One candidate of [resolve_expired_approvals]' loop. *)
Definition expire_approval (now : time) (acc : store * list (str * bool * time))
    (cand : str * T.task_run) : store * list (str * bool * time) :=
  let '(s, resolved) := acc in
  let '(id, r) := cand in
  match T.scheduled_at r, T.approval_timeout_secs r with
  | Some started, Some timeout =>
      let deadline := (started + secs timeout)%Z in
      if (now <? deadline)%Z then acc
      else
        let approve := sql_eq (T.approval_on_timeout r) $"approve" in
        let note := $"approval_timeout_secs (" ++ show_Z timeout ++ $"s) elapsed; defaulted to "
                    ++ (if approve then $"approve" else $"reject") in
        match resolve_approval (T.run_id r) id approve (Some $"timeout") (Some note) now s with
        | (s, true) => (s, resolved ++ [(id, approve, deadline)])
        | (s, false) => (s, resolved)
        end
  | _, _ => acc
  end.

(** [resolve_expired_approvals].  This sweep and those below are, in the code, a read and then
    a transaction of each row it gave: the definitions are the whole when nothing comes
    between, and [Reach] has each row's by itself, of whatever row was read. *)
Definition resolve_expired_approvals (now : time) (s : store) : store * list (str * bool * time) :=
  fold_left (expire_approval now)
    (map_to_list (affected (fun _ r => is_status AwaitingApproval r
                                       && not_null (T.approval_timeout_secs r)) (task_runs s)))
    (s, []).

(** ** Parking under a claim *)

(** [WHERE id = ? AND status = 'running' AND version = ? AND stop_requested_at IS NULL] *)
Definition parkable (task_id : str) (fence : Z) (id : str) (r : T.task_run) : bool :=
  bool_decide (id = task_id) && is_status Running r && (T.version r =? fence)%Z
  && is_null (T.stop_requested_at r).

Definition unclaimed (r : T.task_run) : T.task_run :=
  r <| T.claimed_by := None |> <| T.lease_expires_at := None |>.

Definition park (task_id : str) (fence : Z) (f : T.task_run -> T.task_run) (s : store)
    : store * bool :=
  let '(s, rows) := update_tasks (parkable task_id fence) (fun r => unclaimed (f r)) s in
  (s, (0 <? rows)%nat).

(** [park_subworkflow], [park_wait], [park_wait_url], [park_external], [park_wait_dataset] *)
Definition park_subworkflow (task_id : str) (fence : Z) (child_run_id : str) (s : store) :=
  park task_id fence (fun r => r <| T.sub_run_id := Some child_run_id |>) s.

Definition park_wait (task_id : str) (fence : Z) (wake_at : time) (s : store) :=
  park task_id fence (fun r => r <| T.wake_at := Some wake_at |>) s.

Definition park_wait_url (task_id : str) (fence : Z) (url : str) (next_poll_at : time) (s : store) :=
  park task_id fence
    (fun r => r <| T.wait_url := Some url |> <| T.next_poll_at := Some next_poll_at |>) s.

Definition park_external (task_id : str) (fence : Z) (kind handle : str) (endpoint : option str)
    (next_poll_at : time) (deadline_at : option time) (s : store) :=
  park task_id fence
    (fun r => r <| T.external_kind := Some kind |> <| T.external_handle := Some handle |>
                <| T.external_endpoint := endpoint |> <| T.next_poll_at := Some next_poll_at |>
                <| T.external_deadline_at := deadline_at |>) s.

(** [SELECT COALESCE(MAX(id), 0) FROM dataset_events WHERE uri = ?] *)
Definition high_water (uri : str) (s : store) : Z :=
  fold_right Z.max 0%Z
    (map fst (List.filter (fun e => bool_decide (e.2 = uri)) (dataset_events s))).

Definition park_wait_dataset (task_id : str) (fence : Z) (uri : str) (s : store) :=
  park task_id fence
    (fun r => r <| T.wait_dataset := Some uri |>
                <| T.wait_dataset_cursor := Some (high_water uri s) |>) s.

(** [release_subworkflow_task] *)
Definition release_subworkflow_task (task_id : str) (fence : Z) (s : store) : store * bool :=
  let '(s, rows) :=
    update_tasks (parkable task_id fence)
      (fun r => r <| T.status := Ready |> <| T.claimed_by := None |> <| T.lease_expires_at := None |>)
      s in
  (s, (0 <? rows)%nat).

(** ** Sub-workflow triggers *)

Definition parked_on (child_run_id : str) (r : T.task_run) : bool :=
  is_status Running r && sql_eq (T.sub_run_id r) child_run_id.

(** [resolve_subworkflow]: the child's own output, or the constant. *)
Definition resolve_subworkflow (task_id child_run_id : str) (succeeded : bool) (now : time)
    (s : store) : store * bool :=
  resolve task_id (parked_on child_run_id)
    (fun r =>
       let child := T.sub_run_id r ≫= fun c => workflow_runs s !! c ≫= R.output in
       finished (if succeeded then Succeeded else Failed) now
         (coalesce child (if succeeded then $"sub-workflow succeeded" else $"sub-workflow failed")) r)
    s.

(** [requeue_parked_subworkflow] *)
Definition requeue_parked_subworkflow (task_id child_run_id : str) (output : option str)
    (retry_at : time) (s : store) : store * bool :=
  let '(s, rows) :=
    update_tasks (fun id r => bool_decide (id = task_id) && parked_on child_run_id r)
      (fun r => r <| T.status := Ready |> <| T.scheduled_at := Some retry_at |>
                  <| T.sub_run_id := None |> <| T.claimed_by := None |>
                  <| T.lease_expires_at := None |> <| T.finished_at := None |>
                  <| T.output := output |> <| T.version ::= Z.succ |>) s in
  (s, (0 <? rows)%nat).

(** [fail_parked_subworkflow] *)
Definition fail_parked_subworkflow (task_id child_run_id reason : str) (now : time) (s : store)
    : store * bool :=
  resolve task_id (parked_on child_run_id)
    (fun r => finished Failed now (Some reason) r <| T.sub_run_id := None |>) s.

(** [RepeatSpec::decide] *)
Definition decide (rep : Spec.RepeatSpec) (output : str) (iteration : Z) : Spec.RepeatDecision :=
  let scope : Cond.ctx := <[ $"attempt" := show_Z iteration ]> {[ $"output" := trim output ]} in
  match Cond.eval_when (Cond.substitute (Spec.until rep) scope) with
  | Ok true => Spec.Done
  | Ok false =>
      if (iteration <? Z.of_N (Spec.max_iterations rep))%Z then Spec.Again (Spec.delay_secs rep)
      else Spec.Fail ($"repeat.until '" ++ Spec.until rep ++ $"' not satisfied after "
                      ++ show_Z iteration ++ $" iterations; last output:" ++ [NL] ++ output)
  | Err e => Spec.Fail ($"repeat.until '" ++ Spec.until rep ++ $"' failed to evaluate: "
                        ++ Cond.error_text e)
  end.

(** [delayed_retry_at] *)
Definition MAX_REPEAT_DELAY_SECS : Z := 365 * 24 * 60 * 60.
Definition delayed_retry_at (delay : N) (now : time) : time :=
  match Quota.checked_add DATE_MAX now (secs (Z.min (Z.of_N delay) MAX_REPEAT_DELAY_SECS)) with
  | Some t => t
  | None => now
  end.

(** [repeat_spec_of]: a row that is gone, has no input or whose input is no task has none. *)
Definition repeat_spec_of (task_id : str) (s : store) : option Spec.RepeatSpec :=
  let* r := task_runs s !! task_id in
  let* j := T.input r in
  let* t := task_from_json j in
  Spec.repeat t.

(** [PARKED_SUBWORKFLOWS]: a trigger with its child's id, status and output. *)
Definition parked_subworkflows (s : store) : list (str * str * RunStatus * option str) :=
  omap (fun kv =>
          let* child := T.sub_run_id kv.2 in
          let* c := workflow_runs s !! child in
          if is_status Running kv.2 && run_is_terminal (R.status c)
          then Some (kv.1, child, R.status c, R.output c) else None)
    (scan (task_runs s)).

(** One trigger of the sweep's loop. *)
Definition reconcile_subworkflow (now : time) (acc : store * list (str * bool))
    (p : str * str * RunStatus * option str) : store * list (str * bool) :=
  let '(s, resolved) := acc in
  let '(task_id, child_run_id, child_status, child_output) := p in
  let succeeded := bool_decide (child_status = RSucceeded) in
  let ordinary :=
    match resolve_subworkflow task_id child_run_id succeeded now s with
    | (s, true) => (s, resolved ++ [(task_id, succeeded)])
    | (s, false) => (s, resolved)
    end in
  if succeeded then
    match repeat_spec_of task_id s with
    | None => ordinary
    | Some rep =>
        let iteration := match task_runs s !! task_id with Some r => T.attempt r | None => 1%Z end in
        match decide rep (default [] child_output) iteration with
        | Spec.Done => ordinary
        | Spec.Again delay_secs =>
            (fst (requeue_parked_subworkflow task_id child_run_id child_output
                    (delayed_retry_at delay_secs now) s), resolved)
        | Spec.Fail reason =>
            match fail_parked_subworkflow task_id child_run_id reason now s with
            | (s, true) => (s, resolved ++ [(task_id, false)])
            | (s, false) => (s, resolved)
            end
        end
    end
  else ordinary.

Definition SWEEP_BATCH : nat := 256.

(** [reconcile_subworkflows]; the flag says a whole batch was read. *)
Definition reconcile_subworkflows (now : time) (s : store) : store * list (str * bool) * bool :=
  let parked := take SWEEP_BATCH (parked_subworkflows s) in
  (fold_left (reconcile_subworkflow now) parked (s, []), (SWEEP_BATCH <=? length parked)%nat).

(** [sub_workflow_depth], the walk up the triggers that hold a run. *)
Definition sub_run_parent (s : store) (run_id : str) : option str :=
  match List.filter (fun kv => sql_eq (T.sub_run_id kv.2) run_id) (scan (task_runs s)) with
  | (_, r) :: _ => Some (T.run_id r)
  | [] => None
  end.

Fixpoint depth_from (fuel : nat) (run_id : str) (s : store) : Z :=
  match fuel with
  | O => 0%Z
  | S fuel =>
      match sub_run_parent s run_id with
      | Some parent => Z.succ (depth_from fuel parent s)
      | None => 0%Z
      end
  end.
Definition sub_workflow_depth (run_id : str) (limit : Z) (s : store) : Z :=
  depth_from (Z.to_nat limit) run_id s.

(** ** Time sensors *)

Definition wait_due (now : time) (r : T.task_run) : bool :=
  is_status Running r && sql_le (T.wake_at r) now.

(** One sensor of [reconcile_waits]' loop, and the sweep. *)
Definition resolve_wait (now : time) (acc : store * list (str * time)) (due : str * T.task_run)
    : store * list (str * time) :=
  let '(s, resolved) := acc in
  match resolve due.1 (wait_due now) (finished Succeeded now (Some $"wait elapsed")) s with
  | (s, true) => (s, resolved ++ [(due.1, default now (T.wake_at due.2))])
  | (s, false) => (s, resolved)
  end.

Definition reconcile_waits (now : time) (s : store) : store * list (str * time) * bool :=
  let due :=
    take SWEEP_BATCH
      (Stops.sort_by (fun a b => Stops.null_first (T.wake_at a.2) (T.wake_at b.2))
         (List.filter (fun kv => wait_due now kv.2) (scan (task_runs s)))) in
  (fold_left (resolve_wait now) due (s, []), (SWEEP_BATCH <=? length due)%nat).

(** ** URL sensors *)

Definition waits_url (r : T.task_run) : bool := is_status Running r && not_null (T.wait_url r).

(** One sensor of [claim_due_url_waits]' loop: the claim is a compare-and-set on
    [next_poll_at]. *)
Definition claim_url_wait (until : time) (acc : store * list (str * T.task_run))
    (due : str * T.task_run) : store * list (str * T.task_run) :=
  let '(s, won) := acc in
  let '(s, rows) :=
    update_tasks (fun id r => bool_decide (id = due.1) && waits_url r
                              && match T.next_poll_at due.2 with
                                 | Some t => sql_eq (T.next_poll_at r) t
                                 | None => false
                                 end)
      (fun r => r <| T.next_poll_at := Some until |>) s in
  (s, if (0 <? rows)%nat then won ++ [due] else won).

Definition claim_due_url_waits (limit : Z) (claim_secs : N) (now : time) (s : store)
    : store * list (str * T.task_run) :=
  let rows :=
    (if (limit <? 0)%Z then (fun l => l) else take (Z.to_nat limit))
      (Stops.sort_by (fun a b => Stops.null_first (T.next_poll_at a.2) (T.next_poll_at b.2))
         (List.filter (fun kv => waits_url kv.2 && sql_le (T.next_poll_at kv.2) now)
            (scan (task_runs s)))) in
  fold_left (claim_url_wait (delayed_retry_at claim_secs now)) rows (s, []).

(** [repark_url_wait] and [resolve_url_wait] *)
Definition repark_url_wait (task_id : str) (next_poll_at : time) (s : store) : store * bool :=
  let '(s, rows) :=
    update_tasks (fun id r => bool_decide (id = task_id) && waits_url r)
      (fun r => r <| T.next_poll_at := Some next_poll_at |>) s in
  (s, (0 <? rows)%nat).

Definition resolve_url_wait (task_id : str) (now : time) (s : store) : store * bool :=
  resolve task_id waits_url (finished Succeeded now (Some $"wait url ready")) s.

(** ** Dataset sensors *)

Definition waits_dataset (r : T.task_run) : bool :=
  is_status Running r && not_null (T.wait_dataset r).

(** [PARKED_DATASET_WAITS]: the dataset has an event past the cursor. *)
Definition dataset_moved (s : store) (r : T.task_run) : bool :=
  match T.wait_dataset r with
  | Some uri =>
      existsb (fun e => bool_decide (e.2 = uri) && (default 0 (T.wait_dataset_cursor r) <? e.1)%Z)
        (dataset_events s)
  | None => false
  end.

Definition resolve_dataset_wait (now : time) (acc : store * list (str * str))
    (due : str * T.task_run) : store * list (str * str) :=
  let '(s, resolved) := acc in
  match resolve due.1 waits_dataset (finished Succeeded now (Some $"dataset updated")) s with
  | (s, true) => (s, resolved ++ [(due.1, default [] (T.wait_dataset due.2))])
  | (s, false) => (s, resolved)
  end.

(** [reconcile_dataset_waits] *)
Definition reconcile_dataset_waits (now : time) (s : store) : store * list (str * str) * bool :=
  let due :=
    take SWEEP_BATCH
      (List.filter (fun kv => waits_dataset kv.2 && dataset_moved s kv.2) (scan (task_runs s))) in
  (fold_left (resolve_dataset_wait now) due (s, []), (SWEEP_BATCH <=? length due)%nat).

(** ** Deferred external jobs *)

Definition parked_job (handle : str) (r : T.task_run) : bool :=
  is_status Running r && sql_eq (T.external_handle r) handle.

Definition settled_job (r : T.task_run) : T.task_run :=
  r <| T.next_poll_at := None |> <| T.external_deadline_at := None |>.

(** [repark_external] *)
Definition repark_external (task_id handle : str) (next_poll_at : time) (s : store) : store * bool :=
  let '(s, rows) :=
    update_tasks (fun id r => bool_decide (id = task_id) && parked_job handle r)
      (fun r => r <| T.next_poll_at := Some next_poll_at |>) s in
  (s, (0 <? rows)%nat).

(** [resolve_external] *)
Definition resolve_external (task_id handle : str) (output : option str) (now : time) (s : store)
    : store * bool :=
  resolve task_id (parked_job handle)
    (fun r => settled_job
                (finished Succeeded now
                   (match output with Some o => Some o | None => T.output r end) r
                 <| T.external_handle := None |>)) s.

(** [fail_external_impl], [fail_external], [fail_external_keep_handle] *)
Definition fail_external_impl (task_id handle reason : str) (keep_handle : bool) (now : time)
    (s : store) : store * bool :=
  resolve task_id (parked_job handle)
    (fun r => settled_job (finished Failed now (Some reason) r)
              <| T.external_handle := if keep_handle then T.external_handle r else None |>
              <| T.external_epoch ::= Z.succ |>) s.
Definition fail_external (task_id handle reason : str) (now : time) (s : store) :=
  fail_external_impl task_id handle reason false now s.
Definition fail_external_keep_handle (task_id handle reason : str) (now : time) (s : store) :=
  fail_external_impl task_id handle reason true now s.

(** One job of [claim_due_external_polls]' loop: the guard compares NULL as a value. *)
Definition claim_external_poll (until : time) (acc : store * list (str * T.task_run))
    (due : str * T.task_run) : store * list (str * T.task_run) :=
  let '(s, won) := acc in
  let '(s, rows) :=
    update_tasks (fun id r => bool_decide (id = due.1)
                              && parked_job (default [] (T.external_handle due.2)) r
                              && bool_decide (T.next_poll_at r = T.next_poll_at due.2))
      (fun r => r <| T.next_poll_at := Some until |>) s in
  (s, if (0 <? rows)%nat then won ++ [due] else won).

Definition claim_due_external_polls (limit : Z) (claim_secs : N) (now : time) (s : store)
    : store * list (str * T.task_run) :=
  let rows :=
    (if (limit <? 0)%Z then (fun l => l) else take (Z.to_nat limit))
      (Stops.sort_by (fun a b => Stops.null_first (T.next_poll_at a.2) (T.next_poll_at b.2))
         (List.filter (fun kv => is_status Running kv.2 && not_null (T.external_handle kv.2)
                                 && (is_null (T.next_poll_at kv.2) || sql_le (T.next_poll_at kv.2) now))
            (scan (task_runs s)))) in
  fold_left (claim_external_poll (delayed_retry_at claim_secs now)) rows (s, []).

(** [clear_external_handle] *)
Definition clear_external_handle (task_id handle : str) (s : store) : store * bool :=
  let '(s, rows) :=
    update_tasks (fun id r => bool_decide (id = task_id) && sql_eq (T.external_handle r) handle)
      (fun r => settled_job r <| T.external_handle := None |>) s in
  (s, (0 <? rows)%nat).

End parks.
End Parks.
