(* ===== verification/Runs.v ===== *)
(** * Making, admitting and finishing runs ([dagron-core/src/db/sqlite.rs], [db.rs])

    [create_run] writes a run, its task rows and their edges in one transaction; a run
    over its workflow's cap is refused, waits, or takes the place of the ones before it;
    [admit_waiting_runs] lets waiting runs in; the reaper ends a run whose tasks have all
    ended.  The graph is the one [confine] and [protected] have already looked at. *)

From S2P Require Import Tables Stops Scheduler.

Module Runs.

Import Models.

Section runs.
Context {W : World}.

(** ** What may refuse a run *)

Inductive create_error :=
| LowOnDisk (free floor : N)
| IdempotencyClaimLost
| DeadLetterGone
| AtCapacity (e : MaxActiveRunsReached)
| DuplicateTask (name : str)
| UnknownDependency (task dep : str)
| ConstraintViolated
| Panicked.

(** [check_disk_floor]: a probe that fails refuses nothing. *)
Definition check_disk_floor (floor : N) (free_bytes : option N) : result create_error unit :=
  if (floor =? 0)%N then Ok tt
  else match free_bytes with
       | Some free => if (free <? floor)%N then Err (LowOnDisk free floor) else Ok tt
       | None => Ok tt
       end.

(** [min_free_bytes] *)
Definition min_free_bytes : N :=
  default 0%N (let* v := env $"DAGRON_MIN_FREE_BYTES" in parse_u64 (trim v)).

(** [max_waiting_runs] *)
Definition max_waiting_runs : Z :=
  Z.max 1 (default 100%Z (let* v := env $"DAGRON_MAX_WAITING_RUNS" in parse_i64 (trim v))).

(** [created + TimeDelta::seconds(n.min(i64::MAX as u64) as i64)]: the constructor panics
    past [i64::MAX / 1000] and the addition past the last instant. *)
Definition add_seconds (created : time) (n : N) : result create_error time :=
  ok_or Panicked
    (let* d := Quota.try_seconds (Z.min (Z.of_N n) I64_MAX) in Quota.checked_add DATE_MAX created d).

Definition deadline_of (created : time) (n : option N) : result create_error (option time) :=
  match n with
  | None => Ok None
  | Some n => let? t := add_seconds created n in Ok (Some t)
  end.

Definition alert_secs (d : Spec.DagSpec num) : option N :=
  let* a := Spec.deadline d in result_ok (Spec.parse_duration_secs (Spec.within a)).

(** ** Caps *)

(** [DagGraph::stored_max_active_runs] *)
Definition stored_max_active_runs (spec : str) : option N :=
  let* max := yaml_max_active_runs spec in
  if (max <=? U32_MAX)%N && (0 <? max)%N then Some max else None.

Definition of_key (s : store) (name : str) (key : option str) (r : R.workflow_run) : bool :=
  match workflow_definitions s !! R.definition_id r with
  | Some d => bool_decide (def_name d = name) && bool_decide (R.concurrency_key r = key)
  | None => false
  end.

Definition waiting (r : R.workflow_run) : bool :=
  not_null (R.queued_at r) && is_null (R.admitted_at r).

(** [RUNS_IN_FLIGHT] and [runs_in_flight] *)
Definition runs_in_flight (name : str) (key except : option str) (s : store) : Z * Z :=
  let p := fun id r => run_is RRunning r && of_key s name key r
                       && negb (bool_decide (Some id = except)) in
  (Z.of_nat (size (affected p (workflow_runs s))),
   Z.of_nat (size (affected (fun id r => p id r && waiting r) (workflow_runs s)))).

(** [SUPERSEDED_RUNS]: of the new run's own source alone, where it is not trusted. *)
Definition own_source (own : option RunTrigger) (s : store) (id : str) : bool :=
  match own with
  | None => true
  | Some t =>
      match run_triggers s !! id with
      | Some t' => bool_decide (forge_host t' = forge_host t) && bool_decide (repo t' = repo t)
                   && bool_decide (pr t' = pr t) && bool_decide (git_ref t' = git_ref t)
      | None => false
      end
  end.

Definition run_order (a b : str * R.workflow_run) : bool :=
  (R.created_at a.2 <? R.created_at b.2)%Z
  || ((R.created_at a.2 =? R.created_at b.2)%Z && str_leb a.1 b.1).

Definition superseded (name : str) (key : option str) (own : option RunTrigger) (s : store)
    : list str :=
  map fst
    (Stops.sort_by run_order
       (map_to_list
          (affected (fun id r => run_is RRunning r && is_null (R.stopping_as r)
                                 && of_key s name key r && own_source own s id)
             (workflow_runs s)))).

(** One run of [supersede_runs]' loop. *)
Definition supersede_run (by_ : str) (now : time) (acc : store * nat) (run_id : str) : store * nat :=
  let '(s, asked) := acc in
  let '(s, ours) :=
    update_runs (fun id r => bool_decide (id = run_id) && run_is RRunning r
                             && is_null (R.stopping_as r))
      (fun r => r <| R.stopping_as := Some RCancelled |>
                  <| R.stop_requested_at := Some now |>
                  <| R.start_pending_at := None |>
                  <| R.output := Some ($"superseded by run " ++ by_) |>) s in
  if (ours =? 0)%nat then (s, asked) else (Stops.stop_and_finish now s run_id, S asked).

(** [supersede_runs] *)
Definition supersede_runs (name : str) (key : option str) (by_ : str) (own : option RunTrigger)
    (now : time) (s : store) : store * nat :=
  fold_left (supersede_run by_ now) (superseded name key own s) (s, 0%nat).

(** The cap's part of [create_run_full]: whether the run waits. *)
Definition take_place (dag : Spec.DagSpec num) (run_id : str) (own : option RunTrigger) (now : time)
    (s : store) : result create_error (store * bool) :=
  match Spec.max_active_runs dag with
  | None => Ok (s, false)
  | Some max =>
      if (max =? 0)%N then Ok (s, false)
      else
        let when_full := default Spec.Refuse (Spec.when_full dag) in
        let name := Spec.dg_name dag in
        let key := Spec.concurrency_key dag in
        let s := match when_full with
                 | Spec.Supersede => fst (supersede_runs name key run_id own now s)
                 | _ => s
                 end in
        let '(active, waiting) := runs_in_flight name key None s in
        if (Z.of_N max <=? active)%Z then
          if negb (Spec.waits when_full) || (max_waiting_runs <=? waiting)%Z then
            Err (AtCapacity {| mar_name := name; mar_max := max; mar_active := active;
                               mar_waiting := if Spec.waits when_full then waiting else 0;
                               mar_key := key |})
          else Ok (s, true)
        else Ok (s, false)
  end.

(** ** Rows *)

(** [n as i64] of a [u64]. *)
Definition as_i64 (n : N) : Z :=
  if (Z.of_N n <=? I64_MAX)%Z then Z.of_N n else (Z.of_N n - 18446744073709551616)%Z.

(** A dependency on a gang is one on every member. *)
Definition width (dag : Spec.DagGraph num) (dep : str) : Z :=
  match Spec.task_spec dag dep ≫= Spec.gang with
  | Some g => Z.of_N (Spec.gang_size g)
  | None => 1
  end.

Definition dep_count (dag : Spec.DagGraph num) (t : Spec.TaskSpec num) : Z :=
  fold_right Z.add 0%Z (map (width dag) (Spec.depends_on t)).

(** The row of one member of [t] ([rank] when it is a gang), as the multi-row INSERT of
    [create_run_full] writes it. *)
Definition new_row (dag : Spec.DagGraph num) (run_id : str) (now : time) (held_by : Z)
    (t : Spec.TaskSpec num) (gang : option (str * N)) (rank : N) : T.task_run :=
  let member :=
    match gang with
    | Some (gid, size) =>
        t <| Spec.name := Spec.name t ++ $"." ++ show_N rank |>
          <| Spec.gang_member := Some {| Spec.gm_id := gid; Spec.gm_rank := rank; Spec.gm_size := size |} |>
    | None => t
    end in
  {| T.run_id := run_id;
     T.name := Spec.name member;
     T.status := Pending;
     T.attempt := 0;
     T.attempt_base := 0;
     T.remaining_deps := (dep_count dag t + held_by)%Z;
     T.input := Some (task_to_json member);
     T.output := None;
     T.log := None;
     T.log_fence := None;
     T.log_gen := None;
     T.claimed_by := None;
     T.lease_expires_at := None;
     T.version := 0;
     T.scheduled_at := Some now;
     T.finished_at := None;
     T.trigger_rule := default DEFAULT_TRIGGER_RULE (Spec.trigger_rule t);
     T.allow_failure := Spec.allow_failure t;
     T.is_approval := Spec.is_approval t;
     T.approval_timeout_secs := option_map as_i64 (Spec.approval_timeout_secs t);
     T.approval_on_timeout := Spec.approval_on_timeout t;
     T.runner_class :=
       match Spec.runner_class t with
       | Some c => c
       | None => default $"default" (Spec.dg_runner_class (Spec.spec dag))
       end;
     T.gang_id := option_map fst gang;
     T.gang_rank := option_map (fun _ => Z.of_N rank) gang;
     T.gang_size := option_map (fun g => Z.of_N g.2) gang;
     T.priority := Spec.priority t;
     T.pool := Spec.pool t;
     T.fanout_of := Spec.with_output_of t;
     T.fanout_parent := None;
     T.fanout_epoch := 0;
     T.stop_requested_at := None;
     T.session_id := None;
     T.sub_run_id := None;
     T.wake_at := None;
     T.wait_url := None;
     T.wait_dataset := None;
     T.wait_dataset_cursor := None;
     T.next_poll_at := None;
     T.external_kind := None;
     T.external_handle := None;
     T.external_endpoint := None;
     T.external_epoch := 0;
     T.external_deadline_at := None;
     T.cache_hit := false;
     T.decided_by := None;
     T.decision_comment := None;
     T.fault_class := None;
     T.fault_detail := None;
     T.fault_confidence := None;
     T.quota_wait_since := None;
     T.quota_waits := 0;
     T.quota_wait_version := None;
     T.quota_wait_detail := None;
     T.checkpoint_uri := None;
     T.checkpoint_marker := None;
     T.reset_by := None |}.

(** What the build loop has: the store, the next fresh id, and the rows of each name. *)
Definition building : Type := store * nat * gmap str (list str).

(** One INSERT: the id is fresh, and migration 002 keeps [(run_id, name)] unique. *)
Definition insert_task (id : str) (r : T.task_run) (s : store) : result create_error store :=
  if not_null (task_runs s !! id)
     || negb (size (affected (fun _ x => bool_decide (T.run_id x = T.run_id r)
                                         && bool_decide (T.name x = T.name r))
                     (task_runs s)) =? 0)%nat
  then Err ConstraintViolated
  else Ok (s <| task_runs ::= <[ id := r ]> |>).

Fixpoint insert_members (uuid : nat -> str) (mk : N -> T.task_run) (members : nat) (rank : N)
    (s : store) (next : nat) : result create_error (store * nat * list str) :=
  match members with
  | O => Ok (s, next, [])
  | S members =>
      let? s := insert_task (uuid next) (mk rank) s in
      let? (s, next', ids) := insert_members uuid mk members (rank + 1) s (S next) in
      Ok (s, next', uuid next :: ids)
  end.

(** One task of the build loop. *)
Definition insert_task_spec (uuid : nat -> str) (dag : Spec.DagGraph num) (run_id : str) (now : time)
    (held_by : Z) (b : building) (t : Spec.TaskSpec num) : result create_error building :=
  let '(s, next, task_ids) := b in
  match task_ids !! Spec.name t with
  | Some _ => Err (DuplicateTask (Spec.name t))
  | None =>
      let '(gang, next) :=
        match Spec.gang t with
        | Some g => (Some (uuid next, Spec.gang_size g), S next)
        | None => (None, next)
        end in
      let members := match Spec.gang t with Some g => N.to_nat (Spec.gang_size g) | None => 1%nat end in
      let? (s, next, ids) :=
        insert_members uuid (new_row dag run_id now held_by t gang) members 0 s next in
      Ok (s, next, <[ Spec.name t := ids ]> task_ids)
  end.

Fixpoint insert_task_specs (uuid : nat -> str) (dag : Spec.DagGraph num) (run_id : str) (now : time)
    (held_by : Z) (ts : list (Spec.TaskSpec num)) (b : building) : result create_error building :=
  match ts with
  | [] => Ok b
  | t :: ts =>
      let? b := insert_task_spec uuid dag run_id now held_by b t in
      insert_task_specs uuid dag run_id now held_by ts b
  end.

(** ** Edges *)

(** One edge INSERT, under the table's primary key. *)
Definition insert_edge (s : store) (e : str * str) : result create_error store :=
  if bool_decide (e ∈ task_dependencies s) then Err ConstraintViolated
  else Ok (s <| task_dependencies ::= fun d => {[ e ]} ∪ d |>).

Fixpoint insert_edges (s : store) (es : list (str * str)) : result create_error store :=
  match es with
  | [] => Ok s
  | e :: es => let? s := insert_edge s e in insert_edges s es
  end.

(** The edges of one entry of [depends_on]: every row of the task on every row of the
    dependency. *)
Definition edges_of (dependents dependencies : list str) : list (str * str) :=
  flat_map (fun a => map (fun b => (a, b)) dependencies) dependents.

Fixpoint wire_deps (task_ids : gmap str (list str)) (t : Spec.TaskSpec num) (deps : list str)
    (s : store) : result create_error store :=
  match deps with
  | [] => Ok s
  | dep :: deps =>
      match task_ids !! dep with
      | None => Err (UnknownDependency (Spec.name t) dep)
      | Some dependencies =>
          let? s := insert_edges s (edges_of (default [] (task_ids !! Spec.name t)) dependencies) in
          wire_deps task_ids t deps s
      end
  end.

Fixpoint wire_tasks (task_ids : gmap str (list str)) (ts : list (Spec.TaskSpec num)) (s : store)
    : result create_error store :=
  match ts with
  | [] => Ok s
  | t :: ts =>
      let? s := wire_deps task_ids t (Spec.depends_on t) s in
      wire_tasks task_ids ts s
  end.

(** ** Making a run *)

(** What a run may be created with, besides its graph. *)
Record request := {
  yaml_spec : str;
  offset : option (str * str);
  dead_letter : option str;
  rq_triggered_by : option str;
  trigger : option RunTrigger;
  (** The claim on an idempotency key: principal, key, when it was claimed. *)
  claim : option (str * str * time);
  (** The trigger of a run that is not trusted ([confine]). *)
  own : option RunTrigger;
}.

(** The UPDATEs on [run_idempotency]: the caller's claim, still unresolved. *)
Definition claim_ours (c : str * str * time) (s : store) : bool :=
  match run_idempotency s !! (c.1.1, c.1.2) with
  | Some i => is_null (idem_run i) && (idem_created_at i =? c.2)%Z
  | None => false
  end.

Definition hold_claim (c : option (str * str * time)) (s : store) : result create_error unit :=
  match c with
  | Some c => if claim_ours c s then Ok tt else Err IdempotencyClaimLost
  | None => Ok tt
  end.

Definition resolve_claim (c : option (str * str * time)) (run_id : str) (s : store)
    : result create_error store :=
  match c with
  | Some c =>
      if claim_ours c s
      then Ok (s <| run_idempotency ::=
                 <[ (c.1.1, c.1.2) := {| idem_run := Some run_id; idem_created_at := c.2 |} ]> |>)
      else Err IdempotencyClaimLost
  | None => Ok s
  end.

(** The redrive's claim: the dead letter is gone with the run's creation. *)
Definition take_dead_letter (id : option str) (s : store) : result create_error store :=
  match id with
  | Some id =>
      if bool_decide (id ∈ dead_letters s) then Ok (s <| dead_letters ::= fun d => d ∖ {[ id ]} |>)
      else Err DeadLetterGone
  | None => Ok s
  end.

(** The [workflow_runs] row. *)
Definition run_row (dag : Spec.DagGraph num) (rq : request) (def_id : str) (now : time)
    (deadline_at alert_deadline_at : option time) (waits : bool) : R.workflow_run :=
  let sp := Spec.spec dag in
  let '(confidence, offset_ms, source) := clock_current in
  {| R.definition_id := def_id;
     R.status := RRunning;
     R.created_at := now;
     R.finished_at := None;
     R.deadline_at := deadline_at;
     R.alert_deadline_at := alert_deadline_at;
     R.alert_fired_at := None;
     R.result_from := Spec.result_from sp;
     R.environment := Spec.dg_environment sp;
     R.clock_confidence := clock_str confidence;
     R.clock_offset_ms := offset_ms;
     R.clock_source := source;
     R.concurrency_key := Spec.concurrency_key sp;
     R.parameters := Some (parameters_to_json (Spec.graph_parameters dag));
     R.start_pending_at :=
       match Spec.notify sp ≫= Spec.git with Some _ => Some now | None => None end;
     R.completion_pending_at := None;
     R.queued_at := if waits then Some now else None;
     R.admitted_at := None;
     R.triggered_by := rq_triggered_by rq;
     R.stopping_as := None;
     R.stop_requested_at := None;
     R.output := None;
     R.whole_reruns := 0 |}.

(** The definition, the run and its trigger. *)
Definition insert_run (dag : Spec.DagGraph num) (rq : request) (def_id run_id : str) (now : time)
    (deadline_at alert_deadline_at : option time) (waits : bool) (s : store) : store :=
  let s :=
    s <| workflow_definitions ::=
           <[ def_id := {| def_name := Spec.dg_name (Spec.spec dag); def_spec := yaml_spec rq;
                           def_created_at := now |} ]> |>
      <| workflow_runs ::=
           <[ run_id := run_row dag rq def_id now deadline_at alert_deadline_at waits ]> |> in
  match trigger rq with
  | Some t => s <| run_triggers ::= <[ run_id := t ]> |>
  | None => s
  end.

(** [upsert_source_offset] *)
Definition upsert_source_offset (offset : option (str * str)) (now : time) (s : store) : store :=
  match offset with
  | Some (source, position) => s <| source_offsets ::= <[ source := (position, now) ]> |>
  | None => s
  end.

(** [create_run_full]: the transaction.  An error leaves the store as it was. *)
Definition create_run_full (uuid : nat -> str) (dag : Spec.DagGraph num) (rq : request) (floor : N)
    (free_bytes : option N) (now : time) (s : store) : result create_error (store * str) :=
  let? _ := check_disk_floor floor free_bytes in
  let def_id := uuid 0%nat in
  let run_id := uuid 1%nat in
  let? deadline_at := deadline_of now (Spec.run_timeout_secs (Spec.spec dag)) in
  let? alert_deadline_at := deadline_of now (alert_secs (Spec.spec dag)) in
  let? _ := hold_claim (claim rq) s in
  let? s := take_dead_letter (dead_letter rq) s in
  let? (s, waits) := take_place (Spec.spec dag) run_id (own rq) now s in
  let held_by := if waits then 1%Z else 0%Z in
  let s := insert_run dag rq def_id run_id now deadline_at alert_deadline_at waits s in
  let? (s, _, task_ids) :=
    insert_task_specs uuid dag run_id now held_by (Spec.tasks (Spec.spec dag)) (s, 2%nat, ∅) in
  let? s := wire_tasks task_ids (Spec.tasks (Spec.spec dag)) s in
  let s := upsert_source_offset (offset rq) now s in
  let? s := resolve_claim (claim rq) run_id s in
  Ok (s, run_id).

(** ** Letting waiting runs in *)

(** [db::deadline_after_wait] *)
Definition deadline_after_wait (deadline_at : option time) (queued_at now : time) : option time :=
  option_map
    (fun d => default d (Quota.checked_add DATE_MAX d (Z.max (now - queued_at) 0)))
    deadline_at.

Definition may_be_let_in (r : R.workflow_run) : bool :=
  waiting r && run_is RRunning r && is_null (R.stopping_as r).

(** [WAITING_RUN_KEYS] *)
Definition waiting_run_keys (s : store) : list (str * option str) :=
  remove_dups
    (omap (fun kv => (fun d => (def_name d, R.concurrency_key kv.2))
                     <$> workflow_definitions s !! R.definition_id kv.2)
       (map_to_list (affected (fun _ r => may_be_let_in r) (workflow_runs s)))).

Definition ADMIT_AT_ONCE : nat := 64.

Definition queued_order (a b : str * R.workflow_run) : bool :=
  match R.queued_at a.2, R.queued_at b.2 with
  | Some x, Some y => (x <? y)%Z || ((x =? y)%Z && str_leb a.1 b.1)
  | None, _ => true
  | _, None => false
  end.

(** [ADMISSION_NEXT] *)
Definition admission_next (name : str) (key : option str) (s : store)
    : list (str * R.workflow_run) :=
  take ADMIT_AT_ONCE
    (Stops.sort_by queued_order
       (map_to_list (affected (fun _ r => may_be_let_in r && of_key s name key r)
                       (workflow_runs s)))).

(** The two statements that let one run in. *)
Definition let_in (run_id : str) (deadline : option time) (now : time) (s : store) : store * bool :=
  let '(s, rows) :=
    update_runs (fun id r => bool_decide (id = run_id) && may_be_let_in r)
      (fun r => r <| R.admitted_at := Some now |> <| R.deadline_at := deadline |>) s in
  if (rows =? 0)%nat then (s, false)
  else
    (fst (update_tasks (fun _ r => bool_decide (T.run_id r = run_id) && is_status Pending r
                                   && (0 <? T.remaining_deps r)%Z)
            (fun r => r <| T.remaining_deps ::= Z.pred |> <| T.scheduled_at := Some now |>) s), true).

(** The loop over one key's runs: the first the cap has no room for ends it. *)
Fixpoint admit_next (next : list (str * R.workflow_run)) (running : Z) (now : time) (s : store)
    (admitted : list str) : store * list str :=
  match next with
  | [] => (s, admitted)
  | (run_id, r) :: next =>
      let spec := match workflow_definitions s !! R.definition_id r with
                  | Some d => def_spec d
                  | None => []
                  end in
      let cap := match stored_max_active_runs spec with Some c => Z.of_N c | None => I64_MAX end in
      if (cap <=? running)%Z then (s, admitted)
      else
        match let_in run_id (deadline_after_wait (R.deadline_at r) (default now (R.queued_at r)) now)
                now s with
        | (s, true) => admit_next next (running + 1) now s (admitted ++ [run_id])
        | (s, false) => admit_next next running now s admitted
        end
  end.

Definition admit_key (now : time) (acc : store * list str) (k : str * option str)
    : store * list str :=
  let '(s, admitted) := acc in
  let '(in_flight, waiting) := runs_in_flight k.1 k.2 None s in
  admit_next (admission_next k.1 k.2 s) (in_flight - waiting) now s admitted.

(** [admit_waiting_runs] *)
Definition admit_waiting_runs (now : time) (s : store) : store * list str :=
  fold_left (admit_key now) (waiting_run_keys s) (s, []).

(** ** Ending a run *)

Definition terminal (x : TaskStatus) : bool :=
  match x with Succeeded | Skipped | Cancelled | Failed => true | _ => false end.

(** [REAPABLE] *)
Definition reapable (r : R.workflow_run) : bool :=
  run_is RRunning r && is_null (R.stopping_as r)
  && (is_null (R.queued_at r) || not_null (R.admitted_at r)).

Definition tasks_of (run_id : str) (s : store) : list T.task_run :=
  map snd (map_to_list (affected (fun _ r => bool_decide (T.run_id r = run_id)) (task_runs s))).

(** What the aggregation of the named reap says of a run: whether it is over, and as what. *)
Definition run_outcome (tasks : list T.task_run) : option RunStatus :=
  if negb (forallb (fun r => terminal (T.status r)) tasks) then None
  else if existsb (fun r => is_status Failed r && negb (T.allow_failure r)) tasks
       then Some RFailed else Some RSucceeded.

(** The run's output: that of its [result_from] task. *)
Definition result_output (run_id : str) (s : store) (r : R.workflow_run) : option str :=
  match R.result_from r with
  | Some name =>
      match List.find (fun t => bool_decide (T.name t = name)) (tasks_of run_id s) with
      | Some t => T.output t
      | None => None
      end
  | None => R.output r
  end.

(** One run of the reap's second loop. *)
Definition finalize (now : time) (acc : store * list (str * RunStatus)) (run : str * RunStatus)
    : store * list (str * RunStatus) :=
  let '(s, finalized) := acc in
  let '(run_id, status) := run in
  let '(s, affected) :=
    update_runs (fun id r => bool_decide (id = run_id) && run_is RRunning r)
      (fun r => r <| R.status := status |> <| R.finished_at := Some now |>
                  <| R.completion_pending_at := None |> <| R.start_pending_at := None |>) s in
  if (affected =? 0)%nat then (s, finalized)
  else
    let '(s, _) :=
      update_runs (fun id r => bool_decide (id = run_id) && bool_decide (status = RSucceeded)
                               && not_null (R.result_from r))
        (fun r => r <| R.output := result_output run_id s r |>) s in
    (Stops.insert_run_completed run_id status now s, finalized ++ [run]).

(** [reap], the runs named once each.  The code ends each run in a transaction of its own
    ([finalize] here, a step by itself in [Reach]); this is the whole when nothing comes
    between. *)
Definition reap (runs : list str) (now : time) (s : store) : store * list (str * RunStatus) :=
  let complete :=
    omap (fun id =>
            let* r := workflow_runs s !! id in
            if reapable r then let* x := run_outcome (tasks_of id s) in Some (id, x) else None)
      (remove_dups runs) in
  fold_left (finalize now) complete (s, []).

(** [reap_slice] *)
Definition reap_slice (after : option str) (limit : nat) (now : time) (s : store)
    : store * list (str * RunStatus) * option str :=
  let from := default [] after in
  let runs :=
    take limit
      (Stops.sort_by str_leb
         (List.filter (fun id => str_leb from id && negb (bool_decide (id = from)))
            (returning (fun _ r => reapable r) (workflow_runs s)))) in
  let next := if (length runs <? limit)%nat then None else last runs in
  match runs with
  | [] => (s, [], None)
  | _ => let '(s, ended) := reap runs now s in (s, ended, next)
  end.

Definition REAP_ALL_SLICE : nat := 500.

(** [reap_woken] for [Woken::All]: every slice, from the start.  A slice that is not the
    last holds a run past the one before, so there are no more slices than runs. *)
Fixpoint reap_all (fuel : nat) (after : option str) (now : time) (s : store)
    (ended : list (str * RunStatus)) : store * list (str * RunStatus) :=
  match fuel with
  | O => (s, ended)
  | S fuel =>
      let '(s, swept, next) := reap_slice after REAP_ALL_SLICE now s in
      match next with
      | Some n => reap_all fuel (Some n) now s (ended ++ swept)
      | None => (s, ended ++ swept)
      end
  end.

Inductive Woken := All | WokenRuns (runs : list str).

Definition reap_woken (woken : Woken) (now : time) (s : store) : store * list (str * RunStatus) :=
  match woken with
  | All => reap_all (S (size (workflow_runs s))) None now s []
  | WokenRuns [] => (s, [])
  | WokenRuns runs => reap runs now s
  end.

(** [reap_completed_runs] *)
Definition reap_completed_runs (now : time) (s : store) := reap_woken All now s.

(** [is_run_complete]: here every failed task fails the run. *)
Definition is_run_complete (run_id : str) (now : time) (s : store) : store * option RunStatus :=
  let tasks := tasks_of run_id s in
  if (length tasks =? 0)%nat || negb (forallb (fun r => terminal (T.status r)) tasks)
  then (s, None)
  else
    let x := if existsb (is_status Failed) tasks then RFailed else RSucceeded in
    (fst (update_runs (fun id _ => bool_decide (id = run_id))
            (fun r => r <| R.status := x |> <| R.finished_at := Some now |>) s), Some x).

End runs.
End Runs.
