(* ===== verification/Ops.v ===== *)
(** * Putting tasks back to run again ([dagron-core/src/db/sqlite.rs], [db.rs], [dag.rs])

    A retry of one task, a rerun of a run from its failed tasks or whole, and a clear of a
    task with what depends on it.  Each is one transaction: it keeps the attempts it
    replaces, asks the workflow's cap when it sets an ended run running again, and writes
    one event; one that is refused leaves the store as it was. *)

From S2P Require Import Tables Stops Scheduler Runs.

Module Ops.

Import Models.

Section ops.
Context {W : World}.

Inductive again_error :=
| AtCapacity (e : MaxActiveRunsReached)
| Owed (e : TeardownOwed).

(** ** What is put back *)

(** [Reset] *)
Inductive Reset :=
| BrokenCone (run_id : str)
| Task (task_id : str)
| Cone (run_id task_id : str)
| Whole (run_id : str).

Definition broken (r : T.task_run) : bool :=
  is_status Failed r || is_status Cancelled r || is_status Skipped r.

Definition retryable (r : T.task_run) : bool := is_status Failed r || is_status Cancelled r.

Definition over (r : T.task_run) : bool := Runs.terminal (T.status r).

(** The recursive [cone]: the task, when it is of the run, and round by round what depends
    on a task of it.  A round that adds nothing is the last, and every other one spends an
    edge. *)
Definition cone_start (s : store) (run_id task_id : str) : gset str :=
  match task_runs s !! task_id with
  | Some r => if bool_decide (T.run_id r = run_id) then {[ task_id ]} else ∅
  | None => ∅
  end.

Definition dependents (s : store) (ids : gset str) : gset str :=
  set_map fst (filter (fun e : str * str => e.2 ∈ ids) (task_dependencies s)).

Fixpoint cone_rounds (fuel : nat) (s : store) (ids : gset str) : gset str :=
  match fuel with
  | O => ids
  | S fuel =>
      let next := ids ∪ dependents s ids in
      if bool_decide (next = ids) then ids else cone_rounds fuel s next
  end.

Definition cone (s : store) (run_id task_id : str) : gset str :=
  cone_rounds (size (task_dependencies s)) s (cone_start s run_id task_id).

(** [Reset::condition] *)
Definition condition (reset : Reset) (s : store) (id : str) (r : T.task_run) : bool :=
  match reset with
  | BrokenCone run_id => bool_decide (T.run_id r = run_id) && broken r
  | Whole run_id => bool_decide (T.run_id r = run_id) && is_null (T.fanout_parent r) && over r
  | Task task_id => bool_decide (id = task_id) && retryable r
  | Cone run_id task_id => bool_decide (id ∈ cone s run_id task_id) && over r
  end.

(** [DECIDED_GATE] *)
Definition decided_gate (r : T.task_run) : bool :=
  T.is_approval r && (is_status Succeeded r || is_status Failed r).

(** ** Keeping what is replaced *)

(** The last [n] characters, [substr(x, -n)]: over the text reversed, a character's first
    byte comes last. *)
Fixpoint back_chars (n : nat) (s : str) : str :=
  match n, s with
  | O, _ | _, [] => []
  | S m, c :: s => c :: back_chars (if is_cont c then n else m) s
  end.
Definition last_chars (n : nat) (s : str) : str := rev (back_chars n (rev s)).

(** [COALESCE(NULLIF(t.log, ''), t.output)] *)
Definition printed (r : T.task_run) : option str :=
  match T.log r with Some (c :: l) => Some (c :: l) | _ => T.output r end.

Definition ran (r : T.task_run) : bool := (0 <? T.attempt r)%Z || decided_gate r.

Definition life_attempt (r : T.task_run) : Z := (T.attempt_base r + Z.max (T.attempt r) 1)%Z.

Definition kept_attempt (reason : str) (bytes : nat) (now : time) (r : T.task_run) : attempt_row :=
  {| at_reason := reason;
     at_status := Some (T.status r);
     at_scheduled_at := T.scheduled_at r;
     at_output := option_map (last_chars bytes) (printed r);
     at_truncated := match printed r with Some o => (bytes <? char_count o)%nat | None => false end;
     at_finished_at := default now (T.finished_at r) |}.

(** A bound parameter that SQLite takes as a signed 64-bit number. *)
Definition as_limit (n : N) : Z := Z.min (Z.of_N n) I64_MAX.

Definition evicted (p : str -> T.task_run -> bool) (keep : N) (s : store) (k : str * Z) : bool :=
  match task_runs s !! k.1 with
  | Some r => ran r && (k.2 <=? life_attempt r - as_limit keep)%Z && p k.1 r
  | None => false
  end.

(** [keep_replaced] *)
Definition keep_replaced (reset : Reset) (reason : str) (now : time) (s : store) : store :=
  let policy := AttemptLog.from_env env in
  if negb (AttemptLog.enabled policy) then s
  else
    let bytes := Z.to_nat (as_limit (AttemptLog.bytes policy)) in
    let rows := map_to_list (affected (fun id r => ran r && condition reset s id r) (task_runs s)) in
    let s := s <| task_attempts ::= fun t =>
               fold_left (fun t kv => <[ (kv.1, life_attempt kv.2) :=
                                         kept_attempt reason bytes now kv.2 ]> t) rows t |> in
    if (0 <? AttemptLog.keep policy)%N then
      s <| task_attempts ::=
             filter (fun kv => evicted (condition reset s) (AttemptLog.keep policy) s kv.1 = false) |>
    else s.

(** ** The run *)

Record RunCap := { rc_name : str; rc_key : option str; rc_max : N }.

Definition run_definition (run_id : str) (s : store) : option (R.workflow_run * definition) :=
  let* r := workflow_runs s !! run_id in
  let* d := workflow_definitions s !! R.definition_id r in
  Some (r, d).

(** [run_cap] *)
Definition run_cap (run_id : str) (s : store) : option RunCap :=
  let* (r, d) := run_definition run_id s in
  let* max := Runs.stored_max_active_runs (def_spec d) in
  Some {| rc_name := def_name d; rc_key := R.concurrency_key r; rc_max := max |}.

(** [DagGraph::stored_deadlines] *)
Definition stored_deadlines (spec : str) : option N * option N :=
  (let* secs := yaml_run_timeout_secs spec in if (0 <? secs)%N then Some secs else None,
   let* within := yaml_deadline_in spec in result_ok (Spec.parse_duration_secs within)).

(** [deadlines_again]: no panic here, a deadline past the last instant is none. *)
Definition deadlines_again (spec : str) (now : time) : option time * option time :=
  let '(timeout, alert) := stored_deadlines spec in
  let at_ := fun secs =>
    let* budget := Quota.try_seconds (Z.min (Z.of_N secs) I64_MAX) in
    Quota.checked_add DATE_MAX now budget in
  (timeout ≫= at_, alert ≫= at_).

(** The row of one run, changed. *)
Definition alter_run (run_id : str) (f : R.workflow_run -> R.workflow_run) (s : store) : store :=
  fst (update_runs (fun id _ => bool_decide (id = run_id)) f s).

(** [rearm_deadlines] *)
Definition rearm_deadlines (run_id : str) (now : time) (s : store) : store :=
  match run_definition run_id s with
  | None => s
  | Some (_, d) =>
      let '(deadline, alert) := deadlines_again (def_spec d) now in
      alter_run run_id
        (fun r => r <| R.deadline_at := match deadline with Some t => Some t | None => R.deadline_at r end |>
                    <| R.alert_deadline_at :=
                         match alert with Some t => Some t | None => R.alert_deadline_at r end |>
                    <| R.alert_fired_at := None |>) s
  end.

(** [refuse_if_full] *)
Definition refuse_if_full (run_id : str) (cap : option RunCap) (s : store) : result again_error unit :=
  match cap with
  | None => Ok tt
  | Some cap =>
      let '(active, _) := Runs.runs_in_flight (rc_name cap) (rc_key cap) (Some run_id) s in
      if (Z.of_N (rc_max cap) <=? active)%Z then
        Err (AtCapacity {| mar_name := rc_name cap; mar_max := rc_max cap; mar_active := active;
                           mar_waiting := 0; mar_key := rc_key cap |})
      else Ok tt
  end.

(** The rows [refuse_if_teardown_owed] counts: a remote job's handle on a task that is over
    (or was never let run). *)
Definition owing (run_id : str) (r : T.task_run) : bool :=
  bool_decide (T.run_id r = run_id) && not_null (T.external_handle r) && negb (is_status Running r).

(** [refuse_if_teardown_owed] *)
Definition refuse_if_teardown_owed (run_id : str) (s : store) : result again_error unit :=
  let n := size (affected (fun _ r => owing run_id r) (task_runs s)) in
  if (0 <? n)%nat then Err (Owed {| to_run_id := run_id; to_tasks := Z.of_nat n |}) else Ok tt.

(** [insert_run_again] *)
Definition insert_run_again (run_id : str) (by_ : RunAgain) (tasks : nat) (task_id : option str)
    (now : time) (s : store) : store :=
  s <| event_outbox ::= fun l => l ++ [{| e_run := run_id; e_type := again_event by_;
                                          e_body := PutBack by_ tasks task_id; e_at := now |}] |>.

(** The UPDATE that sets an ended run running again, of the statuses it takes. *)
Definition failed_or_cancelled (r : R.workflow_run) : bool := run_is RFailed r || run_is RCancelled r.
Definition ended (r : R.workflow_run) : bool := run_is RSucceeded r || failed_or_cancelled r.

Definition armed (r : R.workflow_run) : R.workflow_run :=
  r <| R.status := RRunning |> <| R.finished_at := None |>
    <| R.queued_at := match R.admitted_at r with None => None | Some _ => R.queued_at r end |>.

Definition arm (run_id : str) (takes : R.workflow_run -> bool)
    (more : R.workflow_run -> R.workflow_run) (s : store) : store * nat :=
  update_runs (fun id r => bool_decide (id = run_id) && takes r) (fun r => more (armed r)) s.

(** ** The rows *)

(** [attempt_base + CASE WHEN attempt = 0 AND is_approval = 1 AND status IN ('succeeded',
    'failed') THEN 1 ELSE attempt END] *)
Definition next_base (r : T.task_run) : Z :=
  (T.attempt_base r + if (T.attempt r =? 0)%Z && decided_gate r then 1 else T.attempt r)%Z.

(** What every one of them resets of a row's result. *)
Definition no_result (who : option str) (r : T.task_run) : T.task_run :=
  r <| T.claimed_by := None |> <| T.lease_expires_at := None |>
    <| T.finished_at := None |> <| T.output := None |>
    <| T.log := None |> <| T.log_fence := None |> <| T.log_gen := None |>
    <| T.fault_class := None |> <| T.fault_detail := None |> <| T.fault_confidence := None |>
    <| T.sub_run_id := None |> <| T.wake_at := None |> <| T.wait_url := None |>
    <| T.wait_dataset := None |> <| T.wait_dataset_cursor := None |>
    <| T.decided_by := None |> <| T.decision_comment := None |> <| T.cache_hit := false |>
    <| T.reset_by := who |>
    <| T.version ::= Z.succ |>.

(** [retry_task_from_ui_by]'s SET: the round goes on, so the attempt stays. *)
Definition retried_row (now : time) (who : option str) (r : T.task_run) : T.task_run :=
  no_result who r
    <| T.status := Ready |> <| T.scheduled_at := Some now |>
    <| T.attempt_base :=
         (T.attempt_base r + if (T.attempt r =? 0)%Z && decided_gate r then 1 else 0)%Z |>.

(** [rerun_from_failed_in]'s. *)
Definition rerun_row (now : time) (who : option str) (r : T.task_run) : T.task_run :=
  no_result who r
    <| T.status := Pending |> <| T.scheduled_at := Some now |>
    <| T.attempt_base := next_base r |> <| T.attempt := 0%Z |>
    <| T.external_kind := None |> <| T.external_handle := None |>
    <| T.external_endpoint := None |> <| T.external_deadline_at := None |>
    <| T.next_poll_at := None |> <| T.external_epoch ::= Z.succ |>.

(** [rerun_all_in]'s and [clear_task_with_downstream_by]'s: the checkpoint goes too. *)
Definition cleared_row (now : time) (who : option str) (r : T.task_run) : T.task_run :=
  rerun_row now who r <| T.checkpoint_uri := None |> <| T.checkpoint_marker := None |>.

(** [SELECT COUNT( * ) FROM task_dependencies d JOIN task_runs dep ... WHERE dep.status NOT IN
    (done)], on every pending row of the run. *)
Definition outstanding (done : TaskStatus -> bool) (s : store) (id : str) : Z :=
  Z.of_nat (length (List.filter (fun x => negb (done x)) (dep_statuses s id))).

Definition recount (run_id : str) (done : TaskStatus -> bool) (s : store) : store :=
  s <| task_runs := map_imap
         (fun id r => Some (if bool_decide (T.run_id r = run_id) && is_status Pending r
                            then r <| T.remaining_deps := outstanding done s id |> else r))
         (task_runs s) |>.

Definition satisfied (x : TaskStatus) : bool :=
  bool_decide (x = Succeeded) || bool_decide (x = Skipped).

(** ** The four *)

(** [rerun_from_failed_in] *)
Definition rerun_from_failed_in (run_id : str) (by_ : RunAgain) (who : option str) (now : time)
    (s : store) : result again_error (store * option nat) :=
  let cap := run_cap run_id s in
  let '(s', n) := arm run_id failed_or_cancelled (fun r => r <| R.output := None |>) s in
  if (n =? 0)%nat then Ok (s', None)
  else
    let s := s' in
    let? _ := refuse_if_full run_id cap s in
    let s := rearm_deadlines run_id now s in
    let s := keep_replaced (BrokenCone run_id) (again_reason by_) now s in
    let '(s, reset) :=
      update_tasks (fun _ r => bool_decide (T.run_id r = run_id) && broken r) (rerun_row now who) s in
    let s := recount run_id satisfied s in
    Ok (insert_run_again run_id by_ reset None now s, Some reset).

(** [rerun_all_in] *)
Definition is_instance (s : store) (run_id id : str) : bool :=
  match task_runs s !! id with
  | Some r => bool_decide (T.run_id r = run_id) && not_null (T.fanout_parent r)
  | None => false
  end.

(** The two DELETEs: the edges of a fan-out's instances, then their rows. *)
Definition drop_instances (run_id : str) (s : store) : store :=
  let gone := is_instance s run_id in
  delete_tasks gone (s <| task_dependencies ::= filter (fun e => gone e.1 || gone e.2 = false) |>).

Definition rerun_all_in (run_id : str) (who : option str) (now : time) (s : store)
    : result again_error (store * option nat) :=
  let cap := run_cap run_id s in
  let '(s', n) :=
    arm run_id ended (fun r => r <| R.output := None |> <| R.whole_reruns ::= Z.succ |>) s in
  if (n =? 0)%nat then Ok (s', None)
  else
    let s := s' in
    let? _ := refuse_if_full run_id cap s in
    let? _ := refuse_if_teardown_owed run_id s in
    let s := rearm_deadlines run_id now s in
    let s := keep_replaced (Whole run_id) (again_reason RerunAll) now s in
    let s := drop_instances run_id s in
    let '(s, reset) :=
      update_tasks (fun _ r => bool_decide (T.run_id r = run_id) && is_null (T.fanout_parent r) && over r)
        (cleared_row now who) s in
    let s := recount run_id satisfied s in
    Ok (insert_run_again run_id RerunAll reset None now s, Some reset).

(** [clear_task_with_downstream_by] *)
Definition clear_task_with_downstream_by (run_id task_id : str) (who : option str) (now : time)
    (s : store) : result again_error (store * option nat) :=
  let cap := run_cap run_id s in
  match task_runs s !! task_id with
  | None => Ok (s, None)
  | Some r =>
      if negb (bool_decide (T.run_id r = run_id)) then Ok (s, None)
      else if negb (over r) then Ok (s, None)
      else
        let s := keep_replaced (Cone run_id task_id) (again_reason Clear) now s in
        let cone := cone s run_id task_id in
        let '(s, reset) :=
          update_tasks (fun id r => bool_decide (id ∈ cone) && over r) (cleared_row now who) s in
        let s := recount run_id Runs.terminal s in
        let '(s, rearmed) := arm run_id ended (fun r => r <| R.output := None |>) s in
        let? s :=
          if (rearmed =? 1)%nat then
            let? _ := refuse_if_full run_id cap s in Ok (rearm_deadlines run_id now s)
          else Ok s in
        Ok (insert_run_again run_id Clear reset (Some task_id) now s, Some reset)
  end.

(** [retry_task_from_ui_by] *)
Definition retry_task_from_ui_by (task_id : str) (who : option str) (now : time) (s : store)
    : result again_error (store * bool) :=
  match T.run_id <$> task_runs s !! task_id with
  | None => Ok (s, false)
  | Some run_id =>
      let cap := run_cap run_id s in
      let kept := keep_replaced (Task task_id) (again_reason Retry) now s in
      let '(s', n) :=
        update_tasks (fun id r => bool_decide (id = task_id) && retryable r) (retried_row now who) kept in
      if (n =? 0)%nat then Ok (s, false)
      else
        let s := s' in
        let '(s, rearmed) := arm run_id failed_or_cancelled id s in
        let? s :=
          if (rearmed =? 1)%nat then
            let? _ := refuse_if_full run_id cap s in Ok (rearm_deadlines run_id now s)
          else Ok s in
        Ok (insert_run_again run_id Retry 1 (Some task_id) now s, true)
  end.

End ops.
End Ops.
