(* ===== verification/Invariant.v ===== *)
(** * The invariant of the store

    What holds of every store the operations can make: the shape of each row, the edges,
    the count of open dependencies, the tasks asked to stop, and the trigger rules.  The
    lemmas here say when a change of the task table keeps it; [Preserve] and
    [PreserveRuns] apply them to each operation. *)

From S2P Require Import Tables Stops Runs.

Module Invariant.

Import Models.

Definition terminal (r : T.task_run) : bool := Runs.terminal (T.status r).

(** A task that was let run: its dependencies are over and its rule was met. *)
Definition started (r : T.task_run) : bool :=
  match T.status r with Ready | Running | AwaitingApproval | Succeeded => true | _ => false end.

(** ** Rows *)

Definition b2n (b : bool) : nat := if b then 1 else 0.

(** How many kinds of park a row bears the mark of. *)
Definition marks (r : T.task_run) : nat :=
  (b2n (not_null (T.wake_at r)) + b2n (not_null (T.wait_url r)) + b2n (not_null (T.wait_dataset r))
   + b2n (not_null (T.sub_run_id r)) + b2n (not_null (T.external_handle r)))%nat.

Record row_ok (r : T.task_run) : Prop := {
  claimed_running : T.claimed_by r <> None -> T.status r = Running;
  parked_no_lease : T.status r = Running -> T.claimed_by r = None -> T.lease_expires_at r = None;
  waiting_unmarked : (T.status r = Pending \/ T.status r = Ready \/ T.status r = AwaitingApproval) ->
                     marks r = 0%nat;
  held_unmarked : T.claimed_by r <> None -> marks r = 0%nat;
  parked_once : T.status r = Running -> (marks r <= 1)%nat;
  barrier : T.fanout_of r <> None ->
            T.claimed_by r = None /\ T.status r <> Ready /\ marks r = 0%nat;
  asked_held : T.stop_requested_at r <> None -> T.claimed_by r <> None;
}.

(** What every change of a row keeps: who it is; a claim is only ever taken with a new
    version; and what is over stays as it ended. *)
Record row_evolves (r r' : T.task_run) : Prop := {
  ev_run : T.run_id r' = T.run_id r;
  ev_name : T.name r' = T.name r;
  ev_rule : T.trigger_rule r' = T.trigger_rule r;
  ev_gang : T.gang_id r' = T.gang_id r;
  ev_fanout : T.fanout_of r' = T.fanout_of r;
  ev_parent : T.fanout_parent r' = T.fanout_parent r;
  ev_version : (T.version r <= T.version r')%Z;
  ev_claim : T.version r' = T.version r ->
             T.claimed_by r' = T.claimed_by r \/ T.claimed_by r' = None;
  ev_final : terminal r = true ->
             T.status r' = T.status r /\ T.output r' = T.output r /\ T.finished_at r' = T.finished_at r;
  ev_pending : T.status r' = Pending -> T.status r = Pending;
}.

Lemma row_evolves_refl r : row_evolves r r.
Proof. split; auto; lia. Qed.

Lemma row_evolves_trans a b c : row_evolves a b -> row_evolves b c -> row_evolves a c.
Proof.
  intros [] []. split; try congruence; try lia.
  - intros H. destruct (ev_claim1 ltac:(lia)) as [H1|H1]; [|by right].
    rewrite H1. apply ev_claim0. lia.
  - intros H. destruct (ev_final0 H) as (E1 & E2 & E3).
    assert (terminal b = true) as Hb by (unfold terminal in *; by rewrite E1).
    destruct (ev_final1 Hb) as (F1 & F2 & F3). split; [congruence|]. split; congruence.
  - auto.
Qed.

(** ** The task table *)

Definition rows_ok (s : store) : Prop := map_Forall (fun _ => row_ok) (task_runs s).

(** An edge joins two tasks of one run. *)
Definition edges_ok (s : store) : Prop :=
  forall a b, (a, b) ∈ task_dependencies s ->
    exists ra rb, task_runs s !! a = Some ra /\ task_runs s !! b = Some rb
                  /\ T.run_id ra = T.run_id rb.

Definition at_edge (f : T.task_run -> bool) (s : store) (id : str) (e : str * str) : bool :=
  bool_decide (e.1 = id) && match task_runs s !! e.2 with Some r => f r | None => false end.

(** How many dependencies of [id] have not ended. *)
Definition open_deps (s : store) (id : str) : Z :=
  Z.of_nat (length (List.filter (at_edge (fun r => negb (terminal r)) s id)
                      (elements (task_dependencies s)))).

(** The dependency a waiting run's tasks are held by. *)
Definition run_held (s : store) (run_id : str) : Z :=
  match workflow_runs s !! run_id with
  | Some r => if Runs.waiting r then 1 else 0
  | None => 0
  end.

Definition no_gang_dep (s : store) (id : str) : Prop :=
  forall d r, (id, d) ∈ task_dependencies s -> task_runs s !! d = Some r -> T.gang_id r = None.

(** The count on a pending row: never below the dependencies still open, and exactly that
    many when none of them is a gang's. *)
Definition counts_ok (s : store) : Prop :=
  forall id r, task_runs s !! id = Some r -> T.status r = Pending ->
    (open_deps s id + run_held s (T.run_id r) <= T.remaining_deps r)%Z
    /\ (no_gang_dep s id -> T.remaining_deps r = open_deps s id + run_held s (T.run_id r))%Z.

(** A task of a run being stopped: no task of the run is pending any more. *)
Definition stop_asked (r : T.task_run) : Prop :=
  T.status r = Running /\ T.stop_requested_at r <> None /\ T.gang_id r = None.

Definition none_pending (s : store) (run_id : str) : Prop :=
  forall id r, task_runs s !! id = Some r -> T.run_id r = run_id -> T.status r <> Pending.

Definition asked_ok (s : store) : Prop :=
  forall id r, task_runs s !! id = Some r -> stop_asked r -> none_pending s (T.run_id r).

Definition deps_over (s : store) (id : str) : Prop :=
  forall d r, (id, d) ∈ task_dependencies s -> task_runs s !! d = Some r -> terminal r = true.

(** The runs some of whose tasks were put back to run again ([Ops]): a task there keeps what
    it did while what it had started on is pending once more.  Every operation keeps the
    invariant whichever runs these are. *)
Class Again := again : str -> Prop.

Definition rules_ok {AG : Again} (s : store) : Prop :=
  forall id r, task_runs s !! id = Some r -> started r = true -> ~ again (T.run_id r) ->
    deps_over s id /\ rule_holds (T.trigger_rule r) (dep_statuses s id).

Record Inv {AG : Again} (s : store) : Prop := {
  inv_rows : rows_ok s;
  inv_edges : edges_ok s;
  inv_counts : counts_ok s;
  inv_asked : asked_ok s;
  inv_rules : rules_ok s;
}.

(** What the operations keep of a store's past. *)
Record evolves (s s' : store) : Prop := {
  ev_rows : forall id r, task_runs s !! id = Some r ->
              exists r', task_runs s' !! id = Some r' /\ row_evolves r r';
  ev_edges : forall id d r, task_runs s !! id = Some r ->
               (id, d) ∈ task_dependencies s' <-> (id, d) ∈ task_dependencies s;
}.

Lemma evolves_refl s : evolves s s.
Proof. split; [|done]. intros id r H. exists r. split; [done|apply row_evolves_refl]. Qed.

Lemma evolves_trans a b c : evolves a b -> evolves b c -> evolves a c.
Proof.
  intros [Ra Ea] [Rb Eb]. split.
  - intros id r H. destruct (Ra id r H) as (r' & H' & E'). destruct (Rb id r' H') as (r'' & H'' & E'').
    exists r''. split; [done|]. by eapply row_evolves_trans.
  - intros id d r H. destruct (Ra id r H) as (r' & H' & _). rewrite (Eb id d r' H'). by eapply Ea.
Qed.

(** The contract of an operation: it keeps the invariant and the past. *)
Definition keeps {AG : Again} (s s' : store) : Prop := Inv s -> Inv s' /\ evolves s s'.

Section contract.
Context {AG : Again}.

Lemma keeps_refl s : keeps s s.
Proof. intros H. split; [done|apply evolves_refl]. Qed.

Lemma keeps_trans b a c : keeps a b -> keeps b c -> keeps a c.
Proof.
  intros Hab Hbc Ha. destruct (Hab Ha) as [Hb Eab]. destruct (Hbc Hb) as [Hc Ebc].
  split; [done|by eapply evolves_trans].
Qed.

(** A loop, whose state [g] holds the store in. *)
Lemma keeps_fold {B S} (g : S -> store) (f : S -> B -> S) (l : list B) (acc : S) :
  (forall acc x, keeps (g acc) (g (f acc x))) -> keeps (g acc) (g (fold_left f l acc)).
Proof.
  intros H. revert acc; induction l as [|x l IH]; intros acc; [apply keeps_refl|].
  eapply keeps_trans; [apply H|apply IH].
Qed.

End contract.

(** ** Counting along the edges *)

Lemma filter_split {A} (f g h : A -> bool) (l : list A) :
  (forall x, x ∈ l -> b2n (f x) = b2n (g x) + b2n (h x))%nat ->
  length (List.filter f l) = (length (List.filter g l) + length (List.filter h l))%nat.
Proof.
  induction l as [|x l IH]; intros H; [done|]. simpl.
  pose proof (H x ltac:(set_solver)) as Hx. specialize (IH ltac:(set_solver)).
  destruct (f x), (g x), (h x); simpl in *; lia.
Qed.

Lemma filter_none {A} (f : A -> bool) (l : list A) :
  length (List.filter f l) = 0%nat <-> forall x, x ∈ l -> f x = false.
Proof.
  induction l as [|x l IH]; simpl; [split; [by intros _ x ?%elem_of_nil|done]|].
  destruct (f x) eqn:E; simpl.
  - split; [lia|]. intros H. specialize (H x ltac:(set_solver)). congruence.
  - rewrite IH. split; intros H; [|set_solver]. intros y [->|Hy]%elem_of_cons; auto.
Qed.

Lemma open_deps_nonneg s id : (0 <= open_deps s id)%Z.
Proof. unfold open_deps. lia. Qed.

Lemma run_held_nonneg s id : (0 <= run_held s id)%Z.
Proof. unfold run_held. destruct (workflow_runs s !! id) as [r|]; [destruct (Runs.waiting r)|]; lia. Qed.

Lemma open_deps_zero s id : open_deps s id = 0%Z <-> deps_over s id.
Proof.
  unfold open_deps, deps_over.
  transitivity (length (List.filter (at_edge (fun r => negb (terminal r)) s id)
                          (elements (task_dependencies s))) = 0%nat); [lia|].
  rewrite filter_none. split.
  - intros H d r Hd Hr. specialize (H (id, d) ltac:(by apply elem_of_elements)).
    unfold at_edge in H. cbn in H. rewrite bool_decide_true, Hr in H by done. cbn in H.
    by destruct (terminal r).
  - intros H [a d] He%elem_of_elements. unfold at_edge. cbn. case_bool_decide as Ha; [|done].
    subst a. destruct (task_runs s !! d) as [r|] eqn:Er; [|done]. by rewrite (H d r).
Qed.

(** What the open dependencies are as a read of their statuses counts them. *)
Lemma open_deps_statuses s id :
  open_deps s id
  = Z.of_nat (length (List.filter (fun x => negb (Runs.terminal x)) (dep_statuses s id))).
Proof.
  unfold open_deps. f_equal. unfold dep_statuses, dependency_rows.
  induction (elements (task_dependencies s)) as [|[a d] l IH]; [done|]. cbn.
  unfold at_edge at 1. cbn. case_bool_decide; [|done]. cbn.
  destruct (task_runs s !! d) as [x|]; [|done]. cbn. unfold terminal.
  destruct (Runs.terminal (T.status x)); cbn; [exact IH|f_equal; exact IH].
Qed.

(** The edges of [id] to tasks that end between [s] and [s']. *)
Definition ends (s s' : store) (d : str) : bool :=
  match task_runs s !! d, task_runs s' !! d with
  | Some r, Some r' => negb (terminal r) && terminal r'
  | _, _ => false
  end.

Definition closing (s s' : store) (id : str) : Z :=
  Z.of_nat (length (List.filter (fun e => bool_decide (e.1 = id) && ends s s' e.2)
                      (elements (task_dependencies s)))).

Lemma rule_holds_same rule l l' :
  (forall x, x ∈ l <-> x ∈ l') -> rule_holds rule l -> rule_holds rule l'.
Proof.
  intros E. unfold rule_holds.
  assert (l = [] <-> l' = []) as En.
  { split; intros ->; (destruct l as [|x l] || destruct l' as [|x l']); try done;
      exfalso; specialize (E x); set_solver. }
  assert (forall P : TaskStatus -> Prop, Forall P l <-> Forall P l') as Ef
    by (intros P; rewrite !Forall_forall; setoid_rewrite E; done).
  assert (forall P : TaskStatus -> Prop, Exists P l <-> Exists P l') as Ee
    by (intros P; rewrite !Exists_exists; setoid_rewrite E; done).
  intros [H|H]; [left; tauto|right].
  repeat match goal with |- context [is_str ?a ?b] => destruct (is_str a b) end;
    [done|by apply Ee|by apply Ef..].
Qed.

(** ** One change of the task table *)

Section transition.
Context {AG : Again} (s s' : store).

(** What a row's count has to lose: its dependencies that end, and the hold of a run let in. *)
Definition due (id : str) (r : T.task_run) : Z :=
  (closing s s' id + (run_held s (T.run_id r) - run_held s' (T.run_id r)))%Z.

(** The change of one row. *)
Record changes (id : str) (r r' : T.task_run) : Prop := {
  ch_ok : row_ok r';
  ch_evolves : row_evolves r r';
  ch_count : T.status r' = Pending ->
    (T.remaining_deps r - due id r <= T.remaining_deps r')%Z
    /\ (no_gang_dep s id -> T.remaining_deps r' = T.remaining_deps r - due id r)%Z;
  ch_asked : stop_asked r' -> stop_asked r \/ none_pending s' (T.run_id r);
  ch_started : started r' = true ->
    started r = true \/ (deps_over s id /\ rule_holds (T.trigger_rule r) (dep_statuses s id));
}.

Hypothesis Hinv : Inv s.
Hypothesis Hdeps : task_dependencies s' = task_dependencies s.
Hypothesis Hnew : forall id, task_runs s !! id = None -> task_runs s' !! id = None.
Hypothesis Hrows : forall id r, task_runs s !! id = Some r ->
  exists r', task_runs s' !! id = Some r' /\ changes id r r'.

Lemma transition_back id r' :
  task_runs s' !! id = Some r' -> exists r, task_runs s !! id = Some r /\ changes id r r'.
Proof.
  intros H. destruct (task_runs s !! id) as [r|] eqn:E.
  - destruct (Hrows id r E) as (x & Hx & Hc). exists r. split; [done|]. congruence.
  - apply Hnew in E. congruence.
Qed.

Lemma transition_terminal id r r' :
  task_runs s !! id = Some r -> task_runs s' !! id = Some r' -> terminal r = true ->
  T.status r' = T.status r.
Proof.
  intros H H' Ht. destruct (Hrows id r H) as (x & Hx & Hc).
  assert (x = r') as -> by congruence. by apply (ev_final _ _ (ch_evolves _ _ _ Hc)).
Qed.

Lemma transition_open id :
  open_deps s id = (open_deps s' id + closing s s' id)%Z.
Proof.
  unfold open_deps, closing. rewrite Hdeps. rewrite <- Nat2Z.inj_add. f_equal.
  apply filter_split. intros [a d] _. unfold at_edge, ends. cbn.
  case_bool_decide as Ha; [|done]. destruct (task_runs s !! d) as [r|] eqn:E; cbn.
  - destruct (Hrows d r E) as (r' & E' & Hc). rewrite E'. cbn.
    destruct (terminal r) eqn:Ht; cbn; [|by destruct (terminal r')].
    pose proof (transition_terminal d r r' E E' Ht) as Hs. unfold terminal in *.
    rewrite Hs, Ht. done.
  - rewrite (Hnew d E). done.
Qed.

Lemma transition_no_gang id : no_gang_dep s' id -> no_gang_dep s id.
Proof.
  intros H d r Hd Hr. destruct (Hrows d r Hr) as (r' & Hr' & Hc).
  rewrite <- (ev_gang _ _ (ch_evolves _ _ _ Hc)). apply (H d r'); [by rewrite Hdeps|done].
Qed.

Lemma transition_pending run_id : none_pending s run_id -> none_pending s' run_id.
Proof.
  intros H id r' Hr' Hrun Hp. destruct (transition_back id r' Hr') as (r & Hr & Hc).
  pose proof (ch_evolves _ _ _ Hc) as He.
  apply (H id r Hr); [by rewrite <- (ev_run _ _ He)|by apply (ev_pending _ _ He)].
Qed.

Lemma transition_over id :
  deps_over s id -> deps_over s' id /\ forall rule, rule_holds rule (dep_statuses s id) ->
                                                    rule_holds rule (dep_statuses s' id).
Proof.
  intros H.
  assert (forall d r, (id, d) ∈ task_dependencies s -> task_runs s !! d = Some r ->
            exists r', task_runs s' !! d = Some r' /\ T.status r' = T.status r) as Hk.
  { intros d r Hd Hr. destruct (Hrows d r Hr) as (r' & Hr' & _). exists r'. split; [done|].
    eapply transition_terminal; eauto. }
  split.
  - intros d r' Hd Hr'. rewrite Hdeps in Hd. destruct (transition_back d r' Hr') as (r & Hr & _).
    destruct (Hk d r Hd Hr) as (x & Hx & Hs). assert (x = r') as -> by congruence.
    unfold terminal. rewrite Hs. by apply (H d r).
  - intros rule. apply rule_holds_same. intros x. rewrite !dep_statuses_spec, Hdeps. split.
    + intros (d & r & Hd & Hr & <-). destruct (Hk d r Hd Hr) as (r' & Hr' & Hs). eauto 10.
    + intros (d & r' & Hd & Hr' & <-). destruct (transition_back d r' Hr') as (r & Hr & _).
      destruct (Hk d r Hd Hr) as (x & Hx & Hs). assert (x = r') as -> by congruence. eauto 10.
Qed.

Lemma Inv_transition : Inv s' /\ evolves s s'.
Proof.
  destruct Hinv as [Hok Hedge Hcount Hask Hrule]. split; [split|split].
  - intros id r' H. destruct (transition_back id r' H) as (r & _ & Hc). apply Hc.
  - intros a b. rewrite Hdeps. intros H. destruct (Hedge a b H) as (ra & rb & Ha & Hb & E).
    destruct (Hrows a ra Ha) as (ra' & Ha' & Hca). destruct (Hrows b rb Hb) as (rb' & Hb' & Hcb).
    exists ra', rb'. split; [done|]. split; [done|].
    by rewrite (ev_run _ _ (ch_evolves _ _ _ Hca)), (ev_run _ _ (ch_evolves _ _ _ Hcb)).
  - intros id r' H Hp. destruct (transition_back id r' H) as (r & Hr & Hc).
    pose proof (ch_evolves _ _ _ Hc) as He. pose proof (ev_pending _ _ He Hp) as Hpr.
    destruct (Hcount id r Hr Hpr) as [C1 C2]. destruct (ch_count _ _ _ Hc Hp) as [D1 D2].
    rewrite (ev_run _ _ He). pose proof (transition_open id) as Ho. unfold due in *.
    split; [lia|]. intros Hg%transition_no_gang. rewrite (D2 Hg), (C2 Hg). lia.
  - intros id r' H Hs. destruct (transition_back id r' H) as (r & Hr & Hc).
    rewrite (ev_run _ _ (ch_evolves _ _ _ Hc)).
    destruct (ch_asked _ _ _ Hc Hs) as [Ha|Ha]; [|done].
    apply transition_pending. by eapply Hask.
  - intros id r' H Hs Hag. destruct (transition_back id r' H) as (r & Hr & Hc).
    rewrite (ev_run _ _ (ch_evolves _ _ _ Hc)) in Hag.
    assert (deps_over s id /\ rule_holds (T.trigger_rule r) (dep_statuses s id)) as [Ho Hh].
    { destruct (ch_started _ _ _ Hc Hs) as [Ha|Ha]; [by eapply Hrule|done]. }
    destruct (transition_over id Ho) as [Ho' Hh']. split; [done|].
    rewrite (ev_rule _ _ (ch_evolves _ _ _ Hc)). auto.
  - intros id r H. destruct (Hrows id r H) as (r' & H' & Hc). exists r'. split; [done|apply Hc].
  - intros id d r _. by rewrite Hdeps.
Qed.
End transition.

(** A change of the runs and the rest that touches no task and lets no run in. *)
Lemma Inv_other {AG : Again} s s' :
  task_runs s' = task_runs s -> task_dependencies s' = task_dependencies s ->
  (forall id r, task_runs s !! id = Some r -> run_held s' (T.run_id r) = run_held s (T.run_id r)) ->
  keeps s s'.
Proof.
  intros Ht Hd Hr Hi. apply Inv_transition; try done.
  - intros id. by rewrite Ht.
  - intros id r H. exists r. rewrite Ht. split; [done|].
    assert (closing s s' id = 0%Z) as Hc.
    { unfold closing. replace (length _) with 0%nat; [done|]. symmetry. apply filter_none.
      intros [a d] _. unfold ends. cbn. rewrite Ht. destruct (task_runs s !! d); [|by rewrite andb_false_r].
      destruct (terminal _); by rewrite ?andb_false_r. }
    split; auto; [by apply (inv_rows _ Hi id)|apply row_evolves_refl|].
    intros _. unfold due. rewrite Hc, (Hr id r H). split; [lia|]. lia.
Qed.

(** ** Reading a WHERE clause *)

Lemma is_status_true x r : is_status x r = true <-> T.status r = x.
Proof. apply bool_decide_eq_true. Qed.
Lemma is_null_true {A} (o : option A) : is_null o = true <-> o = None.
Proof. by destruct o. Qed.
Lemma not_null_true {A} (o : option A) : not_null o = true <-> o <> None.
Proof. by destruct o. Qed.
Lemma sql_eq_true `{EqDecision A} (o : option A) (a : A) : sql_eq o a = true <-> o = Some a.
Proof. apply bool_decide_eq_true. Qed.
Lemma sql_lt_some o t : sql_lt o t = true -> o <> None.
Proof. by destruct o. Qed.
Lemma sql_le_some o t : sql_le o t = true -> o <> None.
Proof. by destruct o. Qed.

Ltac where_ H :=
  cbv beta in H;
  lazymatch type of H with
  | _ && _ = true =>
      apply andb_true_iff in H; let H' := fresh "Hw" in destruct H as [H H']; where_ H; where_ H'
  | is_status _ _ = true => apply (proj1 (is_status_true _ _)) in H
  | is_null _ = true => apply (proj1 (is_null_true _)) in H
  | not_null _ = true => apply (proj1 (not_null_true _)) in H
  | sql_eq _ _ = true => apply (proj1 (sql_eq_true _ _)) in H
  | sql_lt _ _ = true => apply sql_lt_some in H
  | sql_le _ _ = true => apply sql_le_some in H
  | (_ =? _)%Z = true => apply Z.eqb_eq in H
  | bool_decide _ = true => apply bool_decide_eq_true in H
  | negb _ = true => apply negb_true_iff in H
  | _ => idtac
  end.

(** ** Statements *)

Abbreviation update p f s := (fst (update_tasks p f s)).

Lemma update_tasks_lookup p f s id :
  task_runs (update p f s) !! id = (fun r => if p id r then f r else r) <$> task_runs s !! id.
Proof. unfold update_tasks. cbn. apply update_where_lookup. Qed.

Lemma update_tasks_rows p f s : snd (update_tasks p f s) = size (affected p (task_runs s)).
Proof. done. Qed.

Lemma update_tasks_none p f s : snd (update_tasks p f s) = 0%nat -> update p f s = s.
Proof.
  intros H. unfold update_tasks in *. cbn in H. pose proof (update_where_none p f _ H) as E.
  destruct s. cbn in *. unfold set. cbn. by rewrite E.
Qed.

Lemma run_held_tasks s f run_id : run_held (s <| task_runs ::= f |>) run_id = run_held s run_id.
Proof. done. Qed.

Lemma unchanged {AG : Again} s s' id r :
  Inv s -> task_runs s !! id = Some r -> due s s' id r = 0%Z -> changes s s' id r r.
Proof.
  intros Hi H Hc. split; auto; [by apply (inv_rows _ Hi id)|apply row_evolves_refl|].
  intros _. rewrite Hc. split; [lia|]. lia.
Qed.

Lemma due_closing s p f id r : due s (update p f s) id r = closing s (update p f s) id.
Proof. unfold due. change (run_held (update p f s)) with (run_held s). lia. Qed.

Lemma closing_nothing s s' id :
  (forall d r r', task_runs s !! d = Some r -> task_runs s' !! d = Some r' ->
     terminal r = false -> terminal r' = false) -> closing s s' id = 0%Z.
Proof.
  intros H. unfold closing. replace (length _) with 0%nat; [done|]. symmetry. apply filter_none.
  intros [a d] _. unfold ends. cbn.
  destruct (task_runs s !! d) as [r|] eqn:E; [|by rewrite andb_false_r].
  destruct (task_runs s' !! d) as [r'|] eqn:E'; [|by rewrite andb_false_r].
  destruct (terminal r) eqn:Ht; cbn; [by rewrite andb_false_r|].
  rewrite (H d r r' E E' Ht). by rewrite andb_false_r.
Qed.

(** A SET that ends no task and leaves the counts alone. *)
Record neutral (s : store) (id : str) (r r' : T.task_run) : Prop := {
  n_ok : row_ok r';
  n_evolves : row_evolves r r';
  n_open : terminal r = false -> terminal r' = false;
  n_count : T.remaining_deps r' = T.remaining_deps r;
  n_asked : stop_asked r' -> stop_asked r \/ none_pending s (T.run_id r);
  n_started : started r' = true ->
    started r = true \/ (deps_over s id /\ rule_holds (T.trigger_rule r) (dep_statuses s id));
}.

Lemma neutral_update {AG : Again} s p f :
  (Inv s -> forall id r, task_runs s !! id = Some r -> row_ok r -> p id r = true ->
     neutral s id r (f r)) ->
  keeps s (update p f s).
Proof.
  intros Hn Hi. specialize (Hn Hi). set (s' := update p f s).
  pose proof (update_tasks_lookup p f s) as Hl. fold s' in Hl.
  assert (forall id r, due s s' id r = 0%Z) as Hc.
  { intros id r0. unfold s'. rewrite due_closing. fold s'. apply closing_nothing.
    intros d r r' Hr Hr' Ht. rewrite Hl, Hr in Hr'. injection Hr' as <-.
    destruct (p d r) eqn:Ep; [|done].
    apply (n_open _ _ _ _ (Hn d r Hr (inv_rows _ Hi d r Hr) Ep) Ht). }
  assert (forall run_id, none_pending s run_id -> none_pending s' run_id) as Hnp.
  { intros run_id H id r' Hr' Hrun Hp. rewrite Hl in Hr'.
    destruct (task_runs s !! id) as [r|] eqn:Hr; [|done]. injection Hr' as <-.
    destruct (p id r) eqn:Ep; [|by apply (H id r)].
    pose proof (n_evolves _ _ _ _ (Hn id r Hr (inv_rows _ Hi id r Hr) Ep)) as He.
    apply (H id r Hr); [by rewrite <- (ev_run _ _ He)|by apply (ev_pending _ _ He)]. }
  apply Inv_transition; try done.
  - intros id H. by rewrite Hl, H.
  - intros id r H. rewrite Hl, H. cbn. eexists. split; [done|].
    destruct (p id r) eqn:Ep; [|by apply unchanged].
    destruct (Hn id r H (inv_rows _ Hi id r H) Ep) as [Ho He _ Hr Ha Hs].
    split; auto; [|naive_solver]. intros Hp.
    change (due s _ id r) with (due s s' id r). rewrite Hc, Hr. split; [lia|]. lia.
Qed.

(** ** Ending tasks with their dependents' decrements *)

Lemma count_pair (l : list (str * str)) i d :
  NoDup l ->
  length (List.filter (fun e => bool_decide (e.1 = i) && bool_decide (e.2 = d)) l)
  = b2n (bool_decide ((i, d) ∈ l)).
Proof.
  induction 1 as [|[a b] l Hn Hl IH]; [done|]. cbn [List.filter fst snd].
  destruct (decide ((a, b) = (i, d))) as [E|E].
  - injection E as -> ->. rewrite !bool_decide_true by set_solver. cbn. rewrite IH.
    rewrite bool_decide_false by done. done.
  - replace (bool_decide (a = i) && bool_decide (b = d)) with false.
    + rewrite IH. f_equal. apply bool_decide_ext. set_solver.
    + repeat case_bool_decide; subst; done.
Qed.

(** The decrements of a set of ended tasks, on one row. *)
Definition drops (s : store) (xs : list str) (i : str) : Z :=
  Z.of_nat (length (List.filter (fun e => bool_decide (e.1 = i) && bool_decide (e.2 ∈ xs))
                      (elements (task_dependencies s)))).

Lemma drops_cons s x xs i :
  x ∉ xs ->
  drops s (x :: xs) i
  = ((if bool_decide ((i, x) ∈ task_dependencies s) then 1 else 0) + drops s xs i)%Z.
Proof.
  intros Hx. unfold drops.
  rewrite (filter_split _ (fun e => bool_decide (e.1 = i) && bool_decide (e.2 = x))
             (fun e => bool_decide (e.1 = i) && bool_decide (e.2 ∈ xs))).
  - rewrite count_pair by apply NoDup_elements. rewrite Nat2Z.inj_add. f_equal.
    rewrite (bool_decide_ext _ ((i, x) ∈ task_dependencies s)) by apply elem_of_elements.
    by destruct (bool_decide _).
  - intros [a b] _. cbn. case_bool_decide; cbn; [|done].
    repeat case_bool_decide; cbn; set_solver.
Qed.

Lemma decrements_lookup xs s i :
  NoDup xs ->
  task_runs (fold_left (fun s id => decrement_dependents id s) xs s) !! i
  = (fun r => if is_status Pending r
              then r <| T.remaining_deps := T.remaining_deps r - drops s xs i |> else r)%Z
    <$> task_runs s !! i.
Proof.
  revert s; induction xs as [|x xs IH]; intros s Hn; cbn [fold_left].
  - destruct (task_runs s !! i) as [r|]; [|done]. cbn. f_equal.
    destruct (is_status Pending r); [|done]. replace (drops s [] i) with 0%Z.
    + destruct r. unfold set, const. cbn. f_equal. lia.
    + unfold drops. replace (length _) with 0%nat; [done|]. symmetry. apply filter_none.
      intros [a b] _. cbn. rewrite (bool_decide_false (b ∈ [])) by set_solver.
      by rewrite andb_false_r.
  - apply NoDup_cons in Hn as [Hx Hn]. rewrite IH by done. rewrite decrement_lookup.
    destruct (task_runs s !! i) as [r|] eqn:E; [|done]. cbn. f_equal.
    rewrite drops_cons by done.
    match goal with |- context [drops ?t xs i] => change (drops t xs i) with (drops s xs i) end.
    destruct (bool_decide ((i, x) ∈ task_dependencies s)) eqn:Eb; cbn.
    + destruct (is_status Pending r) eqn:Ep; [|by rewrite Ep].
      assert (is_status Pending (r <| T.remaining_deps ::= Z.pred |>) = true) as -> by done.
      destruct r. unfold set, const. cbn. f_equal. lia.
    + destruct (is_status Pending r); [|done]. destruct r. unfold set, const. cbn. done.
Qed.

Lemma decrements_other xs s :
  let s' := fold_left (fun s id => decrement_dependents id s) xs s in
  task_dependencies s' = task_dependencies s /\ workflow_runs s' = workflow_runs s.
Proof.
  revert s; induction xs as [|x xs IH]; intros s; [done|]. cbn [fold_left].
  specialize (IH (decrement_dependents x s)). cbn zeta in *. destruct IH as [-> ->]. done.
Qed.

(** What ends a row. *)
Record ending (s : store) (id : str) (r r' : T.task_run) : Prop := {
  e_ok : row_ok r';
  e_evolves : row_evolves r r';
  e_open : terminal r = false;
  e_over : terminal r' = true;
  e_started : started r' = true ->
    started r = true \/ (deps_over s id /\ rule_holds (T.trigger_rule r) (dep_statuses s id));
}.

Lemma terminal_not r : terminal r = true -> T.status r <> Pending /\ ~ stop_asked r.
Proof.
  unfold terminal, stop_asked. destruct (T.status r); intros H; try discriminate H;
    split; intuition congruence.
Qed.

Lemma finish_many {AG : Again} s p f xs :
  NoDup xs ->
  (forall x, x ∈ xs <-> exists r, task_runs s !! x = Some r /\ p x r = true) ->
  (Inv s -> forall id r, task_runs s !! id = Some r -> row_ok r -> p id r = true ->
     ending s id r (f r)) ->
  keeps s (fold_left (fun s id => decrement_dependents id s) xs (update p f s)).
Proof.
  intros Hn Hx Hf Hi. specialize (Hf Hi).
  set (s' := fold_left (fun s id => decrement_dependents id s) xs (update p f s)).
  destruct (decrements_other xs (update p f s)) as [Hd Hr]. fold s' in Hd, Hr.
  assert (forall i, task_runs s' !! i
            = (fun r => if p i r then f r
                        else if is_status Pending r
                             then r <| T.remaining_deps := T.remaining_deps r - drops s xs i |>
                             else r)%Z <$> task_runs s !! i) as Hl.
  { intros i. unfold s'. rewrite decrements_lookup, update_tasks_lookup by done.
    destruct (task_runs s !! i) as [r|] eqn:E; [|done]. cbn. f_equal.
    destruct (p i r) eqn:Ep; [|done].
    pose proof (e_over _ _ _ _ (Hf i r E (inv_rows _ Hi i r E) Ep)) as Ht%terminal_not.
    unfold is_status. rewrite bool_decide_false by tauto. done. }
  assert (forall i, closing s s' i = drops s xs i) as Hc.
  { intros i. unfold closing, drops. do 2 f_equal. apply List.filter_ext. intros [a d]. cbn.
    f_equal. unfold ends. rewrite Hl.
    destruct (task_runs s !! d) as [r|] eqn:E; cbn; symmetry.
    - destruct (p d r) eqn:Ep.
      + destruct (Hf d r E (inv_rows _ Hi d r E) Ep) as [_ _ -> -> _].
        apply bool_decide_true. apply Hx. eauto.
      + rewrite bool_decide_false; [|intros (x & Ex & Ep')%Hx; congruence].
        replace (terminal (if is_status Pending r then _ else r)) with (terminal r)
          by (by destruct (is_status Pending r)).
        by destruct (terminal r).
    - apply bool_decide_false. intros (x & Ex & _)%Hx. congruence. }
  assert (forall i r, due s s' i r = drops s xs i) as Hdue.
  { intros i r. unfold due, run_held. rewrite Hc, Hr. change (workflow_runs (update p f s)) with
      (workflow_runs s). lia. }
  apply Inv_transition; try done.
  - intros id H. by rewrite Hl, H.
  - intros id r H. rewrite Hl, H. cbn. eexists. split; [done|].
    pose proof (inv_rows _ Hi id r H) as Hok. cbn in Hok.
    destruct (p id r) eqn:Ep.
    + destruct (Hf id r H Hok Ep) as [H1 H2 H3 H4 H5]. apply terminal_not in H4 as [Ha Hb].
      split; auto; [intros; congruence|tauto].
    + destruct (is_status Pending r) eqn:Es.
      * apply is_status_true in Es. split.
        -- destruct Hok. split; cbn; auto.
        -- split; cbn; auto; lia.
        -- intros _. rewrite Hdue. unfold set, const. cbn. lia.
        -- intros Ha. left. done.
        -- intros Ha. by left.
      * split; auto; [apply row_evolves_refl|]. intros Hp.
        apply (bool_decide_eq_false_1 _) in Es. done.
Qed.

(** One task, by the statement pair every resolution uses. *)
Lemma finish_one {AG : Again} s id p f :
  (forall i r, p i r = true -> i = id) ->
  (Inv s -> forall r, task_runs s !! id = Some r -> row_ok r -> p id r = true ->
     ending s id r (f r)) ->
  snd (update_tasks p f s) <> 0%nat ->
  keeps s (decrement_dependents id (update p f s)).
Proof.
  intros Hid Hf H0. rewrite update_tasks_rows in H0.
  apply (finish_many s p f [id]); [apply NoDup_singleton| |].
  - intros x. rewrite list_elem_of_singleton. split; [|intros (r & _ & H); by apply Hid in H].
    intros ->. destruct (map_choose (affected p (task_runs s))) as (i & r & H).
    { intros E. by rewrite E, map_size_empty in H0. }
    apply affected_lookup in H as [H Hp]. pose proof (Hid i r Hp) as ->. eauto.
  - intros Hi i r Hr Hok H. pose proof (Hid i r H) as ->. by apply Hf.
Qed.

(** ** Ending tasks with no decrement *)

Lemma drop_update {AG : Again} s p f :
  (Inv s -> forall id r, task_runs s !! id = Some r -> row_ok r -> p id r = true ->
     ending s id r (f r)) ->
  (Inv s -> forall id r, task_runs s !! id = Some r -> p id r = true ->
     T.gang_id r <> None \/
     forall i x, (i, id) ∈ task_dependencies s -> task_runs s !! i = Some x ->
                 T.status x = Pending -> p i x = true) ->
  keeps s (update p f s).
Proof.
  intros Hf Hg Hi. specialize (Hf Hi). specialize (Hg Hi). set (s' := update p f s).
  pose proof (update_tasks_lookup p f s) as Hl. fold s' in Hl.
  assert (forall i x, task_runs s !! i = Some x -> T.status x = Pending -> p i x = false ->
            no_gang_dep s i -> closing s s' i = 0%Z) as Hc.
  { intros i x Hx Hp Hpi Hng. unfold closing. replace (length _) with 0%nat; [done|]. symmetry.
    apply filter_none. intros [a d] He%elem_of_elements. cbn.
    case_bool_decide as Ha; [|done]. subst a. cbn. unfold ends. rewrite Hl.
    destruct (task_runs s !! d) as [r|] eqn:Er; [|done]. cbn.
    destruct (p d r) eqn:Ep; [|by destruct (terminal r)]. exfalso.
    destruct (Hg d r Er Ep) as [H|H]; [by apply H, (Hng d)|].
    specialize (H i x He Hx Hp). congruence. }
  apply Inv_transition; try done.
  - intros id H. by rewrite Hl, H.
  - intros id r H. rewrite Hl, H. cbn. eexists.
    split; [done|]. pose proof (inv_rows _ Hi id r H) as Hok. cbn in Hok.
    destruct (p id r) eqn:Ep.
    + destruct (Hf id r H Hok Ep) as [H1 H2 H3 H4 H5]. apply terminal_not in H4 as [Ha Hb].
      split; auto; [intros; congruence|tauto].
    + split; auto; [apply row_evolves_refl|]. intros Hp.
      assert (due s s' id r = closing s s' id) as Hdue by apply due_closing.
      change (due s _ id r) with (due s s' id r). rewrite Hdue. split.
      * unfold closing. lia.
      * intros Hng. pose proof (Hc id r H Hp Ep Hng) as Hc0.
        lia.
Qed.

End Invariant.
