(* ===== verification/Preserve.v ===== *)
(** * Stopping, advancing, claiming and reporting keep the invariant

    One lemma for each operation of [Stops] and [Scheduler]: from a store that has the
    invariant it makes one that has it, and every row evolves as a row may. *)

From S2P Require Import Tables Cond Stops Scheduler Invariant Runs.

Module Preserve.

Import Models Invariant.

(** Evaluates the fields of a row under its SETs. *)
Ltac row_fields :=
  lazy beta iota zeta delta [set const is_status marks b2n terminal started stop_asked
   Runs.terminal is_null not_null coalesce negb
    T.run_id T.name T.status T.attempt T.attempt_base T.remaining_deps T.input T.output
    T.log T.log_fence T.log_gen T.claimed_by T.lease_expires_at T.version T.scheduled_at
    T.finished_at T.trigger_rule T.allow_failure T.is_approval T.approval_timeout_secs
    T.approval_on_timeout T.runner_class T.gang_id T.gang_rank T.gang_size T.priority
    T.pool T.fanout_of T.fanout_parent T.fanout_epoch T.stop_requested_at T.session_id
    T.sub_run_id T.wake_at T.wait_url T.wait_dataset T.wait_dataset_cursor T.next_poll_at
    T.external_kind T.external_handle T.external_endpoint T.external_epoch
    T.external_deadline_at T.cache_hit T.decided_by T.decision_comment T.fault_class
    T.fault_detail T.fault_confidence T.quota_wait_since T.quota_waits T.quota_wait_version
    T.quota_wait_detail T.checkpoint_uri T.checkpoint_marker T.reset_by].
Ltac row_fields_in H :=
  lazy beta iota zeta delta [set const is_status marks b2n terminal started stop_asked
   Runs.terminal is_null not_null coalesce negb
    T.run_id T.name T.status T.attempt T.attempt_base T.remaining_deps T.input T.output
    T.log T.log_fence T.log_gen T.claimed_by T.lease_expires_at T.version T.scheduled_at
    T.finished_at T.trigger_rule T.allow_failure T.is_approval T.approval_timeout_secs
    T.approval_on_timeout T.runner_class T.gang_id T.gang_rank T.gang_size T.priority
    T.pool T.fanout_of T.fanout_parent T.fanout_epoch T.stop_requested_at T.session_id
    T.sub_run_id T.wake_at T.wait_url T.wait_dataset T.wait_dataset_cursor T.next_poll_at
    T.external_kind T.external_handle T.external_endpoint T.external_epoch
    T.external_deadline_at T.cache_hit T.decided_by T.decision_comment T.fault_class
    T.fault_detail T.fault_confidence T.quota_wait_since T.quota_waits T.quota_wait_version
    T.quota_wait_detail T.checkpoint_uri T.checkpoint_marker T.reset_by] in H.

Ltac close :=
  intros; destruct_and?; destruct_or?;
  first [done | congruence | lia | solve [eauto 3] | exfalso; solve [eauto 3] | tauto | idtac].

(** One row [r], what its WHERE clause says of it and its invariant: decide each field. *)
Ltac decide_row r :=
  match goal with Hok : row_ok r |- _ => destruct Hok end;
  repeat match goal with H : T.status r = _ |- _ => rewrite H in * end;
  repeat match goal with H : context [r] |- _ => revert H end;
  destruct r; row_fields; intros; subst;
  split; try match goal with |- row_ok _ => split | |- row_evolves _ _ => split end;
  row_fields; repeat split; close.

(** A statement whose count the code looks at. *)
Lemma update_pair p f s s' n :
  update_tasks p f s = (s', n) -> s' = update p f s /\ n = snd (update_tasks p f s).
Proof. by intros ->. Qed.

Ltac statement E :=
  match goal with
  | |- context [match update_tasks ?p ?f ?s with _ => _ end] =>
      let s1 := fresh "s" in let n := fresh "rows" in
      destruct (update_tasks p f s) as [s1 n] eqn:E; apply update_pair in E as [-> E]
  end.

Section stops.
Context {W : World} {AG : Again}.

Lemma update_runs_keeps p f s :
  (forall r, Runs.waiting (f r) = Runs.waiting r) -> keeps s (fst (update_runs p f s)).
Proof.
  intros H. apply Inv_other; [done..|]. intros id t _. generalize (T.run_id t). intros run_id.
  unfold run_held, update_runs. cbn.
  rewrite update_where_lookup. destruct (workflow_runs s !! run_id) as [r|]; [|done]. cbn.
  destruct (p run_id r); by rewrite ?H.
Qed.

Lemma insert_run_completed_keeps run_id x now s :
  keeps s (Stops.insert_run_completed run_id x now s).
Proof. by apply Inv_other. Qed.

Lemma finish_stopped_run_keeps run_id now s :
  keeps s (fst (Stops.finish_stopped_run run_id now s)).
Proof.
  unfold Stops.finish_stopped_run.
  pose proof (update_runs_keeps (Stops.finishes run_id s) (Stops.finished_run now) s
                ltac:(done)) as H.
  destruct (update_runs _ _ s) as [s' rows]. cbn in H. case_match; [done|]. case_match; [|done].
  eapply keeps_trans; [done|]. apply insert_run_completed_keeps.
Qed.

Lemma unheld_open r : Stops.unheld r = true -> terminal r = false.
Proof.
  unfold Stops.unheld, is_status, terminal. destruct (T.status r); try done; by cbn.
Qed.

Lemma unheld_unclaimed r : row_ok r -> Stops.unheld r = true -> T.claimed_by r = None.
Proof.
  intros Hok Hp. destruct (T.claimed_by r) eqn:E; [|done].
  pose proof (claimed_running _ Hok ltac:(congruence)) as Hs.
  unfold Stops.unheld, is_status in Hp. by rewrite Hs, E in Hp.
Qed.

Lemma cancelled_ending s id now r :
  row_ok r -> Stops.unheld r = true -> ending s id r (Stops.cancelled_row now r).
Proof.
  intros Hok Hp. pose proof (unheld_open r Hp) as Ho.
  pose proof (unheld_unclaimed r Hok Hp) as Hc. unfold Stops.cancelled_row. clear Hp. decide_row r.
Qed.

(** The dependents of a row of a run are of that run. *)
Lemma dependent_run s i id x r :
  Inv s -> (i, id) ∈ task_dependencies s -> task_runs s !! i = Some x ->
  task_runs s !! id = Some r -> T.run_id x = T.run_id r.
Proof.
  intros Hi He Hx Hr. destruct (inv_edges _ Hi i id He) as (a & b & Ha & Hb & E). congruence.
Qed.

Lemma stop_cancels_keeps run_id now s :
  keeps s (update (fun _ r => bool_decide (T.run_id r = run_id) && Stops.unheld r)
             (Stops.cancelled_row now) s).
Proof.
  apply drop_update.
  - intros _ id r _ Hok [_ Hp]%andb_true_iff. by apply cancelled_ending.
  - intros Hi id r Hr [Hrun _]%andb_true_iff. right. intros i x He Hx Hs.
    apply bool_decide_eq_true in Hrun.
    rewrite (dependent_run s i id x r) by done. rewrite bool_decide_true by done.
    unfold Stops.unheld, is_status. by rewrite Hs.
Qed.

Lemma stop_cancels_pending run_id now s :
  none_pending (update (fun _ r => bool_decide (T.run_id r = run_id) && Stops.unheld r)
                  (Stops.cancelled_row now) s) run_id.
Proof.
  intros id r. rewrite update_tasks_lookup. destruct (task_runs s !! id) as [x|]; [|done].
  intros [= <-]. destruct (Stops.unheld x) eqn:E.
  - case_bool_decide; cbn; [done|]. intros Hr. by rewrite Hr in *.
  - rewrite andb_false_r. intros _ Hs. unfold Stops.unheld, is_status in E. by rewrite Hs in E.
Qed.

Lemma stop_asks_keeps run_id now lease s :
  none_pending s run_id ->
  keeps s (update (fun _ r => bool_decide (T.run_id r = run_id) && is_status Running r
                              && not_null (T.claimed_by r)) (Stops.asked_row now lease) s).
Proof.
  intros Hn. apply neutral_update. intros _ id r Hr Hok Hp. where_ Hp.
  assert (stop_asked (Stops.asked_row now lease r) -> none_pending s (T.run_id r)) as Ha
    by (intros _; by rewrite Hp).
  unfold Stops.asked_row in *. decide_row r.
Qed.

Lemma stop_run_tasks_keeps run_id now s : keeps s (fst (Stops.stop_run_tasks run_id now s)).
Proof.
  unfold Stops.stop_run_tasks.
  pose proof (stop_cancels_keeps run_id now s) as H1.
  pose proof (stop_cancels_pending run_id now s) as H2.
  destruct (update_tasks _ _ s) as [s1 n1]. cbn in H1, H2.
  pose proof (stop_asks_keeps run_id now (Stops.stop_lease now) s1 H2) as H3.
  destruct (update_tasks _ _ s1) as [s2 n2]. by eapply keeps_trans.
Qed.

Lemma stop_and_finish_keeps now s run_id : keeps s (Stops.stop_and_finish now s run_id).
Proof.
  eapply keeps_trans; [apply stop_run_tasks_keeps|apply finish_stopped_run_keeps].
Qed.

Lemma cancel_run_keeps run_id now s : keeps s (fst (Stops.cancel_run run_id now s)).
Proof.
  unfold Stops.cancel_run. destruct (update_runs _ _ s) as [s1 asked] eqn:E.
  assert (keeps s s1) as H1.
  { change s1 with (fst (s1, asked)). rewrite <- E. by apply update_runs_keeps. }
  case_match; [done|].
  pose proof (stop_run_tasks_keeps run_id now s1) as H2.
  destruct (Stops.stop_run_tasks run_id now s1) as [s2 did].
  do 2 (eapply keeps_trans; [eassumption|]). apply finish_stopped_run_keeps.
Qed.

Lemma cancel_overdue_runs_keeps now s : keeps s (fst (Stops.cancel_overdue_runs now s)).
Proof.
  unfold Stops.cancel_overdue_runs. destruct (update_runs _ _ s) as [s1 n] eqn:E.
  assert (keeps s s1) as H1.
  { change s1 with (fst (s1, n)). rewrite <- E. by apply update_runs_keeps. }
  eapply keeps_trans; [exact H1|]. apply (keeps_fold id). apply stop_and_finish_keeps.
Qed.

Lemma end_stopped_run_keeps now acc run_id :
  keeps acc.1 (Stops.end_stopped_run now acc run_id).1.
Proof.
  destruct acc as [s ended]. unfold Stops.end_stopped_run.
  pose proof (stop_run_tasks_keeps run_id now s) as H1.
  destruct (Stops.stop_run_tasks run_id now s) as [s1 n1].
  destruct (update_tasks _ _ s1) as [s2 n2] eqn:E.
  assert (keeps s1 s2) as H2.
  { change s2 with (fst (s2, n2)). rewrite <- E. apply neutral_update.
    intros _ id r Hr Hok Hp. where_ Hp. decide_row r. }
  pose proof (finish_stopped_run_keeps run_id now s2) as H3.
  destruct (Stops.finish_stopped_run run_id now s2) as [s3 [x|]];
    (eapply keeps_trans; [exact H1|]); by eapply keeps_trans.
Qed.

Lemma end_stopped_runs_keeps now s : keeps s (fst (Stops.end_stopped_runs now s)).
Proof. apply (keeps_fold fst _ _ (s, 0%nat)). apply end_stopped_run_keeps. Qed.


Lemma held_by_id task_id worker_id fence i r :
  Stops.held_by task_id worker_id fence i r = true -> i = task_id.
Proof. unfold Stops.held_by. intros H. by where_ H. Qed.

Lemma settle_stopping_keeps task_id worker_id fence now s :
  keeps s (fst (Stops.settle_stopping task_id worker_id fence now s)).
Proof.
  unfold Stops.settle_stopping. statement E.
  match goal with |- context [update ?p ?f s] => assert (keeps s (update p f s)) as H1 end.
  { apply drop_update; unfold Stops.held_by, Stops.asked.
    - intros _ id r Hr Hok Hp. where_ Hp. unfold Stops.cancelled_row. decide_row r.
    - intros Hi id r Hr Hp. where_ Hp. destruct (T.gang_id r) eqn:Eg; [by left|right].
      intros i x He Hx Hs. exfalso.
      apply (inv_asked _ Hi id r Hr) with i x; [|done|by eapply dependent_run|done].
      by repeat split. }
  case_match; [done|]. case_match; [|done].
  eapply keeps_trans; [exact H1|]. apply finish_stopped_run_keeps.
Qed.

Lemma release_stopping_task_keeps task_id worker_id fence retry_secs now s :
  keeps s (fst (Stops.release_stopping_task task_id worker_id fence retry_secs now s)).
Proof.
  apply neutral_update. unfold Stops.held_by, Stops.asked.
  intros _ id r Hr Hok Hp. where_ Hp. decide_row r.
Qed.

Lemma claim_teardown_keeps worker_id lease acc task :
  keeps acc.1 (Stops.claim_teardown worker_id lease acc task).1.
Proof.
  destruct acc as [s claimed]. unfold Stops.claim_teardown. statement E.
  apply neutral_update. unfold Stops.asked. intros _ id r Hr Hok Hp. where_ Hp. decide_row r.
Qed.

Lemma claim_teardowns_keeps worker_id limit classes held now s :
  keeps s (fst (Stops.claim_teardowns worker_id limit classes held now s)).
Proof. apply (keeps_fold fst _ _ (s, [])). apply claim_teardown_keeps. Qed.

End stops.

Section scheduler.
Context {W : World} {AG : Again}.

Lemma recover_keeps now s : keeps s (fst (Scheduler.recover_expired_leases now s)).
Proof.
  apply neutral_update. unfold Scheduler.lease_expired.
  intros _ id r Hr Hok Hp. where_ Hp. 
  assert (T.claimed_by r <> None) as Hc by (intros Hc; by apply Hw1, parked_no_lease).
  pose proof (held_unmarked _ Hok Hc) as Hm. decide_row r.
Qed.

(** A pending row with nothing left to wait for: its dependencies are over. *)
Lemma counted_over s id r :
  counts_ok s -> task_runs s !! id = Some r -> T.status r = Pending -> (T.remaining_deps r <= 0)%Z ->
  deps_over s id.
Proof.
  intros Hc Hr Hs H0. apply open_deps_zero. destruct (Hc id r Hr Hs) as [H _].
  pose proof (open_deps_nonneg s id). pose proof (run_held_nonneg s (T.run_id r)). lia.
Qed.

Lemma unblocked_over s id r :
  Inv s -> task_runs s !! id = Some r -> T.status r = Pending -> (T.remaining_deps r <= 0)%Z ->
  deps_over s id.
Proof. intros Hi. apply counted_over, Hi. Qed.

Lemma pending_unheld r :
  row_ok r -> T.status r = Pending -> T.claimed_by r = None /\ T.stop_requested_at r = None.
Proof.
  intros Hok Hs. assert (T.claimed_by r = None) as Hc.
  { destruct (T.claimed_by r) eqn:E; [|done]. pose proof (claimed_running _ Hok). intuition congruence. }
  split; [done|]. destruct (T.stop_requested_at r) eqn:E; [|done].
  pose proof (asked_held _ Hok). intuition congruence.
Qed.

Lemma dep_unsuccessful_rule s id :
  Scheduler.dep_unsuccessful s id = false -> rule_holds $"all_success" (dep_statuses s id).
Proof.
  intros H. right. change (Forall (fun x => x = Succeeded) (dep_statuses s id)).
  apply Forall_forall. intros x Hx. unfold Scheduler.dep_unsuccessful in H.
  destruct (decide (x = Succeeded)); [done|]. exfalso. apply not_true_iff_false in H. apply H.
  apply existsb_exists. exists x. split; [by apply list_elem_of_In|]. by rewrite bool_decide_false.
Qed.

Lemma fast_ready_neutral s now id r :
  Inv s -> task_runs s !! id = Some r -> Scheduler.fast_ready s id r = true ->
  neutral s id r (Scheduler.ready_row now r).
Proof.
  intros Hi Hr Hp. unfold Scheduler.fast_ready, Scheduler.unblocked, Scheduler.default_shaped in Hp.
  where_ Hp. pose proof (inv_rows _ Hi id r Hr) as Hok. cbn in Hok.
  pose proof (pending_unheld r Hok Hp) as [Hc Hst].
  pose proof (unblocked_over s id r Hi Hr Hp ltac:(lia)) as Ho.
  assert (rule_holds (T.trigger_rule r) (dep_statuses s id)) as Hrule.
  { rewrite Hw1. by apply dep_unsuccessful_rule. }
  pose proof (waiting_unmarked _ Hok ltac:(by left)) as Hm.
  unfold Scheduler.ready_row. decide_row r.
Qed.

Lemma skipped_ending s now id r :
  row_ok r -> T.status r = Pending -> ending s id r (Scheduler.skipped_row now r).
Proof.
  intros Hok Hs. pose proof (pending_unheld r Hok Hs) as [Hc Hst].
  unfold Scheduler.skipped_row. decide_row r.
Qed.

Lemma returning_spec {A} (p : str -> A -> bool) (t : gmap str A) i :
  i ∈ returning p t <-> exists r, t !! i = Some r /\ p i r = true.
Proof.
  unfold returning. rewrite list_elem_of_fmap. split.
  - intros ([j r] & -> & H%elem_of_map_to_list%affected_lookup). eauto.
  - intros (r & H). exists (i, r). split; [done|]. by apply elem_of_map_to_list, affected_lookup.
Qed.

Lemma returning_NoDup {A} (p : str -> A -> bool) (t : gmap str A) : NoDup (returning p t).
Proof. apply NoDup_fst_map_to_list. Qed.

Lemma ready_default_shaped_keeps now s : keeps s (fst (Scheduler.ready_default_shaped now s)).
Proof. apply neutral_update. intros Hi id r Hr _ Hp. by apply fast_ready_neutral. Qed.

Lemma skip_default_shaped_keeps now s : keeps s (fst (Scheduler.skip_default_shaped now s)).
Proof.
  unfold Scheduler.skip_default_shaped. statement E2. cbn [fst].
  apply finish_many; [apply returning_NoDup|apply returning_spec|].
  intros Hi id r Hr Hok Hp. apply skipped_ending; [done|].
  unfold Scheduler.fast_skip, Scheduler.unblocked in Hp. by where_ Hp.
Qed.

Lemma advance_default_shaped_keeps now s :
  keeps s (fst (Scheduler.advance_default_shaped now s)).
Proof.
  unfold Scheduler.advance_default_shaped. pose proof (ready_default_shaped_keeps now s) as H1.
  destruct (Scheduler.ready_default_shaped now s) as [s1 n1].
  pose proof (skip_default_shaped_keeps now s1) as H2.
  destruct (Scheduler.skip_default_shaped now s1) as [s2 n2]. by eapply keeps_trans.
Qed.

(** A candidate read at [s0], and the store the loop has since come to. *)
Lemma candidate_over s0 s id cand r :
  edges_ok s0 -> counts_ok s0 -> evolves s0 s -> task_runs s0 !! id = Some cand -> task_runs s !! id = Some r ->
  T.status cand = Pending -> (T.remaining_deps cand <= 0)%Z ->
  deps_over s id /\ T.trigger_rule r = T.trigger_rule cand /\ T.fanout_of r = T.fanout_of cand.
Proof.
  intros Hed Hct He Hc Hr Hs H0. destruct (ev_rows _ _ He id cand Hc) as (x & Hx & Hev).
  assert (x = r) as -> by congruence. split; [|by split; apply Hev].
  pose proof (counted_over s0 id cand Hct Hc Hs H0) as Ho.
  intros d rd Hd Hrd. apply (ev_edges _ _ He id d cand Hc) in Hd as Hd0.
  destruct (Hed id d Hd0) as (_ & y & _ & Hy & _).
  destruct (ev_rows _ _ He d y Hy) as (z & Hz & Hev2). assert (z = rd) as -> by congruence.
  pose proof (Ho d y Hd0 Hy) as Ht. destruct (ev_final _ _ Hev2 Ht) as (E & _).
  unfold terminal in *. by rewrite E.
Qed.

(** Its dependencies end no other way after it was read. *)
Lemma candidate_statuses s0 s1 s id cand :
  edges_ok s0 -> counts_ok s0 -> evolves s0 s1 -> evolves s1 s ->
  task_runs s0 !! id = Some cand -> T.status cand = Pending -> (T.remaining_deps cand <= 0)%Z ->
  forall x, x ∈ dep_statuses s id <-> x ∈ dep_statuses s1 id.
Proof.
  intros Hed Hct He1 He2 Hc Hs H0 x.
  destruct (ev_rows _ _ He1 id cand Hc) as (c1 & Hc1 & _).
  assert (forall d, (id, d) ∈ task_dependencies s <-> (id, d) ∈ task_dependencies s1) as Hd
    by (intros d; by apply (ev_edges _ _ He2 id d c1)).
  assert (forall d r1, (id, d) ∈ task_dependencies s1 -> task_runs s1 !! d = Some r1 ->
            exists r, task_runs s !! d = Some r /\ T.status r = T.status r1) as Hk.
  { intros d r1 Hin Hr1. destruct (ev_rows _ _ He2 d r1 Hr1) as (r & Hr & Hev).
    exists r. split; [done|]. apply (ev_final _ _ Hev).
    by eapply (candidate_over s0 s1 id cand c1). }
  rewrite !dep_statuses_spec. split.
  - intros (d & r & Hin & Hr & <-). apply Hd in Hin. apply (ev_edges _ _ He1 id d cand Hc) in Hin as Hin0.
    destruct (Hed id d Hin0) as (_ & y & _ & Hy & _). destruct (ev_rows _ _ He1 d y Hy) as (r1 & Hr1 & _).
    destruct (Hk d r1 Hin Hr1) as (z & Hz & Es). exists d, r1. split_and!; [done..|congruence].
  - intros (d & r1 & Hin & Hr1 & <-). destruct (Hk d r1 Hin Hr1) as (r & Hr & Es).
    exists d, r. split_and!; [by apply Hd|done..].
Qed.

Lemma end_pending_keeps task_id f s :
  (forall s r, row_ok r -> T.status r = Pending -> ending s task_id r (f r)) ->
  keeps s (fst (Scheduler.end_pending task_id f s)).
Proof.
  intros Hf. unfold Scheduler.end_pending. statement E. cbn [fst].
  destruct (0 <? rows)%nat eqn:E0.
  - apply finish_one.
    + unfold Scheduler.pending_row. intros i r H. by where_ H.
    + unfold Scheduler.pending_row. intros _ r Hr Hok H. where_ H. by apply Hf.
    + apply Nat.ltb_lt in E0. lia.
  - apply Nat.ltb_ge in E0. rewrite update_tasks_none by lia. apply keeps_refl.
Qed.

Lemma advanced_neutral s now id cand r :
  row_ok r -> T.status r = Pending -> T.fanout_of r = T.fanout_of cand -> deps_over s id ->
  rule_holds (T.trigger_rule r) (dep_statuses s id) ->
  neutral s id r (Scheduler.advanced_row now cand r).
Proof.
  intros Hok Hs Hf Ho Hrule. pose proof (pending_unheld r Hok Hs) as [Hc Hst].
  pose proof (waiting_unmarked _ Hok ltac:(by left)) as Hm.
  unfold Scheduler.advanced_row, Scheduler.ready_row.
  destruct (T.fanout_of cand) eqn:Ef; cbn [not_null is_null negb];
    [clear Ef|destruct (T.is_approval cand)]; decide_row r.
Qed.

(** A candidate that was read at [s0], its dependencies' statuses at [s1], and the write at
    [s]. *)
Lemma settle_candidate_keeps s0 s1 now id cand v s :
  edges_ok s0 -> counts_ok s0 -> evolves s0 s1 -> evolves s1 s ->
  task_runs s0 !! id = Some cand -> Scheduler.unblocked cand = true ->
  (v = Scheduler.Goes -> rule_holds (T.trigger_rule cand) (dep_statuses s1 id)) ->
  keeps s (fst (Scheduler.settle_candidate now id cand v s)).
Proof.
  intros Hed Hct He1 He2 Hc Hu Hv. unfold Scheduler.unblocked in Hu. where_ Hu.
  assert (evolves s0 s) as Hev by (by eapply evolves_trans).
  destruct v as [msg| |]; cbn [Scheduler.settle_candidate].
  - apply end_pending_keeps. intros s' r Hok Hs.
    pose proof (pending_unheld r Hok Hs) as [Hcl Hst]. decide_row r.
  - specialize (Hv eq_refl). apply neutral_update. intros _ i r Hr Hok Hp.
    unfold Scheduler.pending_row in Hp. where_ Hp. subst i.
    destruct (candidate_over s0 s id cand r) as (Ho & E1 & E2); try done; [lia|].
    apply advanced_neutral; try done. rewrite E1.
    eapply rule_holds_same; [|exact Hv]. symmetry. by eapply (candidate_statuses s0 s1 s id cand); [..|lia].
  - apply end_pending_keeps. intros; by apply skipped_ending.
Qed.

Lemma advance_candidate_keeps s0 now acc id cand :
  Inv s0 -> task_runs s0 !! id = Some cand -> Scheduler.unblocked cand = true ->
  evolves s0 acc.1 -> keeps acc.1 (Scheduler.advance_candidate now acc (id, cand)).1.
Proof.
  intros Hi Hc Hu Hev. destruct acc as [s n]. cbn [fst] in *. unfold Scheduler.advance_candidate.
  set (v := Scheduler.decide_candidate _ _ _).
  pose proof (settle_candidate_keeps s0 s now id cand v s (inv_edges _ Hi) (inv_counts _ Hi) Hev
    (evolves_refl s) Hc Hu) as Hk.
  destruct (Scheduler.settle_candidate now id cand v s) as [s1 rows]. apply Hk.
  unfold v, Scheduler.decide_candidate. destruct (Scheduler.eval_row_when s cand) as [pass|]; [|done].
  destruct (pass && _) eqn:Ep; [|done]. intros _. apply andb_true_iff in Ep as [_ Ep].
  by apply trigger_rule_ready_spec.
Qed.

Lemma insert_by_perm {A} (le : A -> A -> bool) x l : Permutation (Stops.insert_by le x l) (x :: l).
Proof.
  induction l as [|y l IH]; [done|]. cbn. destruct (le x y); [done|].
  rewrite IH. apply perm_swap.
Qed.

Lemma sort_by_perm {A} (le : A -> A -> bool) l : Permutation (Stops.sort_by le l) l.
Proof. induction l as [|x l IH]; [done|]. cbn. by rewrite insert_by_perm, IH. Qed.

(** The candidates of a store, as its advance reads them. *)
Definition candidates_of (s : store) (l : list (str * T.task_run)) : Prop :=
  Forall (fun kv => task_runs s !! kv.1 = Some kv.2 /\ Scheduler.unblocked kv.2 = true) l.

Lemma advance_candidates_of s : candidates_of s (Scheduler.advance_candidates s).
Proof.
  apply Forall_forall. intros [id r]. unfold Scheduler.advance_candidates.
  rewrite sort_by_perm. by intros H%elem_of_map_to_list%affected_lookup.
Qed.

Lemma advance_fold_keeps s0 now l acc :
  Inv s0 -> candidates_of s0 l -> evolves s0 acc.1 ->
  keeps acc.1 (fold_left (Scheduler.advance_candidate now) l acc).1.
Proof.
  intros Hi Hl. revert acc. induction Hl as [|[id cand] l [Hc Hu] _ IH]; intros acc He;
    [apply keeps_refl|].
  pose proof (advance_candidate_keeps s0 now acc id cand Hi Hc Hu He) as Hk.
  intros Ha. destruct (Hk Ha) as [Ha' He']. cbn [fold_left].
  eapply keeps_trans; [exact Hk|apply IH; by eapply evolves_trans|done].
Qed.

Lemma advance_exotic_once_keeps now s : keeps s (fst (Scheduler.advance_exotic_once now s)).
Proof.
  intros Hi. eapply (advance_fold_keeps s now _ (s, 0%nat)); [done|apply advance_candidates_of| |done].
  apply evolves_refl.
Qed.

Lemma advance_rounds_keeps rounds now s n : keeps s (fst (Scheduler.advance_rounds rounds now s n)).
Proof.
  revert s n; induction rounds as [|rounds IH]; intros s n; [apply keeps_refl|].
  cbn [Scheduler.advance_rounds]. case_match; [apply keeps_refl|].
  pose proof (advance_default_shaped_keeps now s) as H1.
  destruct (Scheduler.advance_default_shaped now s) as [s1 fast].
  pose proof (advance_exotic_once_keeps now s1) as H2.
  destruct (Scheduler.advance_exotic_once now s1) as [s2 slow].
  assert (keeps s s2) as H12 by (by eapply keeps_trans).
  case_match; [done|]. eapply keeps_trans; [exact H12|apply IH].
Qed.

Lemma advance_ready_tasks_keeps now s : keeps s (fst (Scheduler.advance_ready_tasks now s)).
Proof. apply advance_rounds_keeps. Qed.

(** *** Claims *)

Lemma claimed_neutral s id worker_id lease r :
  row_ok r -> T.status r = Ready -> neutral s id r (Scheduler.claimed_row worker_id lease r).
Proof.
  intros Hok Hs.
  assert (T.claimed_by r = None) as Hc.
  { destruct (T.claimed_by r) eqn:E; [|done]. pose proof (claimed_running _ Hok). intuition congruence. }
  assert (T.stop_requested_at r = None) as Hst.
  { destruct (T.stop_requested_at r) eqn:E; [|done]. pose proof (asked_held _ Hok). intuition congruence. }
  pose proof (waiting_unmarked _ Hok ltac:(auto)) as Hm.
  unfold Scheduler.claimed_row. decide_row r.
Qed.

Lemma claim_candidate_keeps worker_id lease acc task :
  keeps acc.1.1 (Scheduler.claim_candidate worker_id lease acc task).1.1.
Proof.
  destruct acc as [[s avail] claimed]. unfold Scheduler.claim_candidate.
  case_match; [apply keeps_refl|]. statement E.
  enough (keeps s (update (fun id r => bool_decide (id = task.1) && is_status Ready r
            && (T.version r =? T.version task.2)%Z) (Scheduler.claimed_row worker_id lease) s))
    by (by case_match).
  apply neutral_update. intros _ id r Hr Hok Hp. where_ Hp. by apply claimed_neutral.
Qed.

Lemma claim_ready_filtered_keeps worker_id limit classes caps nongang now s :
  keeps s (fst (Scheduler.claim_ready_filtered worker_id limit classes caps nongang now s)).
Proof.
  unfold Scheduler.claim_ready_filtered.
  match goal with |- context [fold_left ?f ?l ?a] =>
    pose proof (keeps_fold (fun acc => acc.1.1) f l a ltac:(apply claim_candidate_keeps)) as H
  end.
  by destruct (fold_left _ _ _) as [[s1 av] cl].
Qed.

Lemma claim_ready_gang_keeps worker_id capacity classes caps now s :
  keeps s (fst (Scheduler.claim_ready_gang worker_id capacity classes caps now s)).
Proof.
  unfold Scheduler.claim_ready_gang. case_match; [apply keeps_refl|].
  case_match; [|apply keeps_refl]. apply neutral_update.
  intros _ id r Hr Hok Hp. where_ Hp. by apply claimed_neutral.
Qed.

Lemma sibling_gang member_id s id r :
  Scheduler.sibling member_id s id r = true -> T.gang_id r <> None.
Proof. unfold Scheduler.sibling. by destruct (T.gang_id r). Qed.

Lemma cancel_gang_siblings_keeps member_id now s :
  keeps s (fst (Scheduler.cancel_gang_siblings member_id now s)).
Proof.
  unfold Scheduler.cancel_gang_siblings. statement E1. statement E2. cbn [fst].
  eapply keeps_trans; [apply neutral_update|apply drop_update].
  - intros _ id r Hr Hok Hp. where_ Hp. apply sibling_gang in Hp.
    unfold Stops.asked_row. decide_row r.
  - intros _ id r Hr Hok Hp. apply andb_true_iff in Hp as [_ Hp].
    assert (Stops.unheld r = true) as Hu.
    { unfold Stops.unheld. destruct (is_status AwaitingApproval r); [by rewrite orb_true_r|].
      by rewrite orb_false_r. }
    pose proof (unheld_open r Hu) as Ho. pose proof (unheld_unclaimed r Hok Hu) as Hc.
    unfold Stops.cancelled_row. clear Hp Hu. decide_row r.
  - intros _ id r Hr [Hp _]%andb_true_iff. left. by eapply sibling_gang.
Qed.

(** *** Reports *)

Lemma fenced_held task_id worker_id fence id r :
  Scheduler.fenced task_id worker_id fence id r = true ->
  id = task_id /\ T.claimed_by r = Some worker_id /\ T.version r = fence
  /\ T.stop_requested_at r = None.
Proof. unfold Scheduler.fenced, Stops.held_by. intros H. where_ H. done. Qed.

(** A report under a claim that ends its task. *)
Lemma report_keeps task_id worker_id fence f s :
  (forall s r, row_ok r -> T.claimed_by r = Some worker_id -> T.status r = Running ->
     T.stop_requested_at r = None -> ending s task_id r (f r)) ->
  snd (update_tasks (Scheduler.fenced task_id worker_id fence) f s) <> 0%nat ->
  keeps s (decrement_dependents task_id (update (Scheduler.fenced task_id worker_id fence) f s)).
Proof.
  intros Hf H0. apply finish_one; [|intros _ r Hr Hok Hp|done].
  - by intros i r [-> _]%fenced_held.
  - apply fenced_held in Hp as (_ & Hc & _ & Hst). apply Hf; try done.
    apply (claimed_running _ Hok). congruence.
Qed.

Lemma mark_task_succeeded_keeps task_id worker_id fence output cache_hit now s :
  keeps s (fst (Scheduler.mark_task_succeeded_inner task_id worker_id fence output cache_hit now s)).
Proof.
  unfold Scheduler.mark_task_succeeded_inner. statement E. case_match eqn:E0.
  - apply Nat.eqb_eq in E0. rewrite update_tasks_none by lia. apply settle_stopping_keeps.
  - apply Nat.eqb_neq in E0. cbn [fst].
    eapply keeps_trans; [|apply neutral_update].
    + apply report_keeps; [|lia]. intros s' r Hok Hc Hs Hst. decide_row r.
    + intros Hi id r Hr _ Hp. unfold Scheduler.promoted in Hp.
      apply andb_true_iff in Hp as [Hp _]. by apply fast_ready_neutral.
Qed.

Lemma mark_task_failed_keeps task_id worker_id fence error now s :
  keeps s (fst (Scheduler.mark_task_failed task_id worker_id fence error now s)).
Proof.
  unfold Scheduler.mark_task_failed. statement E. case_match eqn:E0.
  - apply Nat.eqb_eq in E0. rewrite update_tasks_none by lia. apply settle_stopping_keeps.
  - apply Nat.eqb_neq in E0. cbn [fst].
    apply report_keeps; [|lia]. intros s' r Hok Hc Hs Hst. decide_row r.
Qed.

Lemma record_attempt_keeps task_id attempt end_ output policy now s :
  keeps s (Scheduler.record_attempt task_id attempt end_ output policy now s).
Proof.
  unfold Scheduler.record_attempt. case_match; [apply keeps_refl|]. case_match; by apply Inv_other.
Qed.

(** A claim handed back: the task is ready again. *)
Lemma handed_back_neutral s task_id worker_id r r' :
  row_ok r -> T.claimed_by r = Some worker_id -> T.stop_requested_at r = None ->
  T.status r' = Ready -> T.claimed_by r' = None -> T.stop_requested_at r' = None ->
  marks r' = marks r -> row_evolves r r' -> T.remaining_deps r' = T.remaining_deps r ->
  neutral s task_id r r'.
Proof.
  intros Hok Hc Hst H1 H2 H3 H4 He H5.
  pose proof (claimed_running _ Hok ltac:(congruence)) as Hs.
  pose proof (held_unmarked _ Hok ltac:(congruence)) as Hm.
  assert (T.fanout_of r = None) as Hf.
  { destruct (T.fanout_of r) eqn:E; [|done]. destruct (barrier _ Hok); [congruence..|]. congruence. }
  split; try done.
  - split; try congruence; try (intros; exfalso; congruence).
    by rewrite (ev_fanout _ _ He), Hf.
  - unfold terminal. by rewrite H1.
  - intros (H & _). congruence.
  - intros _. left. unfold started. by rewrite Hs.
Qed.

Lemma retry_task_keeps task_id worker_id fence error retry_at end_ now s :
  keeps s (fst (Scheduler.retry_task task_id worker_id fence error retry_at end_ now s)).
Proof.
  unfold Scheduler.retry_task. statement E. case_match eqn:E0.
  - apply Nat.eqb_eq in E0. rewrite update_tasks_none by lia. apply settle_stopping_keeps.
  - match goal with |- context [update ?p ?f s] => assert (keeps s (update p f s)) as H1 end.
    { apply neutral_update. intros _ id r Hr Hok Hp.
      apply fenced_held in Hp as (_ & Hc & _ & Hst).
      pose proof (claimed_running _ Hok ltac:(congruence)) as Hs.
      eapply handed_back_neutral; try done. split; try done; [by right|].
      unfold terminal. by rewrite Hs. }
    case_match; [|done]. cbn [fst]. eapply keeps_trans; [exact H1|apply record_attempt_keeps].
Qed.

Lemma note_task_log_keeps task_id fence note s :
  keeps s (Scheduler.note_task_log task_id fence note s).
Proof. apply neutral_update. intros _ id r Hr Hok Hp. where_ Hp. decide_row r. Qed.

Lemma append_task_output_keeps task_id fence chunk reset s :
  keeps s (Scheduler.append_task_output task_id fence chunk reset s).
Proof.
  apply neutral_update. intros _ id r Hr Hok Hp. where_ Hp. destruct reset; decide_row r.
Qed.

Lemma renew_task_lease_keeps task_id worker_id fence extend now s :
  keeps s (fst (Scheduler.renew_task_lease task_id worker_id fence extend now s)).
Proof.
  apply neutral_update. unfold Stops.held_by. intros _ id r Hr Hok Hp. where_ Hp. decide_row r.
Qed.

Lemma record_task_checkpoint_keeps run_id task_id uri marker s :
  keeps s (fst (Scheduler.record_task_checkpoint run_id task_id uri marker s)).
Proof. apply neutral_update. intros _ id r Hr Hok Hp. where_ Hp. decide_row r. Qed.

Lemma reclass_ready_tasks_keeps from to age att now s :
  keeps s (fst (Scheduler.reclass_ready_tasks from to age att now s)).
Proof. apply neutral_update. intros _ id r Hr Hok Hp. where_ Hp. decide_row r. Qed.

Lemma requeue_quota_wait_keeps task_id worker_id fence detail wait now s :
  keeps s (fst (Scheduler.requeue_quota_wait task_id worker_id fence detail wait now s)).
Proof.
  unfold Scheduler.requeue_quota_wait. case_match; [|apply settle_stopping_keeps].
  case_match; [|apply keeps_refl]. statement E.
  match goal with |- context [update ?p ?f s] => assert (keeps s (update p f s)) as H1 end;
    [|by case_match].
  apply neutral_update. unfold Scheduler.quota_held, Stops.held_by. intros _ id r Hr Hok Hp.
  where_ Hp. eapply handed_back_neutral; try done. split; try done; [by right|].
  unfold terminal. by rewrite (claimed_running _ Hok ltac:(congruence)).
Qed.

End scheduler.
End Preserve.
