(* ===== verification/PreserveRuns.v ===== *)
(** * Parking, resolving, letting in and ending keep the invariant

    The same as [Preserve], for the operations of [Parks] and of [Runs] but the making of a
    run, which is [Create]'s. *)

From S2P Require Import Tables Cond Stops Scheduler Parks Runs Invariant Preserve.

Module PreserveRuns.

Import Models Invariant Preserve.

Section parks.
Context {W : World} {AG : Again}.

(** ** Resolutions *)

Lemma resolve_keeps task_id p f s :
  (Inv s -> forall r, task_runs s !! task_id = Some r -> row_ok r -> p r = true ->
     ending s task_id r (f r)) ->
  keeps s (fst (Parks.resolve task_id p f s)).
Proof.
  intros Hf. unfold Parks.resolve. statement E. case_match eqn:E0.
  - apply Nat.eqb_eq in E0. cbn [fst]. rewrite update_tasks_none by lia. apply keeps_refl.
  - apply Nat.eqb_neq in E0. cbn [fst]. apply finish_one; [|intros Hi r Hr Hok Hp|lia].
    + intros i r H. by where_ H.
    + apply andb_true_iff in Hp as [_ Hp]. by apply Hf.
Qed.

(** A parked row, by the mark it bears. *)
Lemma parked_unclaimed r :
  row_ok r -> marks r <> 0%nat -> T.claimed_by r = None /\ T.fanout_of r = None
                                  /\ T.stop_requested_at r = None.
Proof.
  intros Hok Hm. assert (T.claimed_by r = None) as Hc.
  { destruct (T.claimed_by r) eqn:E; [|done]. exfalso. apply Hm, (held_unmarked _ Hok). congruence. }
  split; [done|]. split.
  - destruct (T.fanout_of r) eqn:E; [|done]. destruct (barrier _ Hok) as (_ & _ & H); congruence.
  - destruct (T.stop_requested_at r) eqn:E; [|done]. exfalso. apply (asked_held _ Hok); congruence.
Qed.

(** A parked task that ends: what was parked is over, and it had started. *)
Lemma parked_ending s id r r' :
  row_ok r -> T.status r = Running -> marks r <> 0%nat -> row_evolves r r' ->
  T.status r' = Succeeded \/ T.status r' = Failed -> T.claimed_by r' = None ->
  T.stop_requested_at r' = None -> ending s id r r'.
Proof.
  intros Hok Hs Hm He Hs' Hc Hst. destruct (parked_unclaimed r Hok Hm) as (H1 & H2 & H3).
  pose proof (ev_fanout _ _ He) as Hf. split; try done.
  - destruct Hs' as [E|E]; split; try congruence; rewrite E; intuition congruence.
  - unfold terminal. by rewrite Hs.
  - unfold terminal. by destruct Hs' as [-> | ->].
  - intros _. left. unfold started. by rewrite Hs.
Qed.

Lemma marked_wake r : T.wake_at r <> None -> marks r <> 0%nat.
Proof. unfold marks. destruct (T.wake_at r); [cbn; lia|done]. Qed.
Lemma marked_url r : T.wait_url r <> None -> marks r <> 0%nat.
Proof. unfold marks. destruct (T.wait_url r); [cbn; lia|done]. Qed.
Lemma marked_dataset r : T.wait_dataset r <> None -> marks r <> 0%nat.
Proof. unfold marks. destruct (T.wait_dataset r); [cbn; lia|done]. Qed.
Lemma marked_sub r : T.sub_run_id r <> None -> marks r <> 0%nat.
Proof. unfold marks. destruct (T.sub_run_id r); [cbn; lia|done]. Qed.
Lemma marked_job r : T.external_handle r <> None -> marks r <> 0%nat.
Proof. unfold marks. destruct (T.external_handle r); [cbn; lia|done]. Qed.

(** The resolutions of a parked task write over its status, its output and its marks. *)
Ltac parked_tac Hok Hs Hm :=
  destruct (parked_unclaimed _ Hok Hm) as (? & ? & ?);
  apply parked_ending; try done;
  [split; try done; [by left|unfold terminal; by rewrite Hs]|by auto].

Lemma resolve_approval_keeps run_id task_id approve by_ comment now s :
  keeps s (fst (Parks.resolve_approval run_id task_id approve by_ comment now s)).
Proof.
  apply resolve_keeps. intros _ r Hr Hok Hp. where_ Hp.
  assert (T.claimed_by r = None) as Hc.
  { destruct (T.claimed_by r) eqn:E; [|done]. pose proof (claimed_running _ Hok). intuition congruence. }
  assert (T.stop_requested_at r = None) as Hst.
  { destruct (T.stop_requested_at r) eqn:E; [|done]. pose proof (asked_held _ Hok). intuition congruence. }
  pose proof (waiting_unmarked _ Hok ltac:(auto)) as Hm.
  unfold Parks.finished. destruct approve; decide_row r.
Qed.

Lemma expire_approval_keeps now acc cand : keeps acc.1 (Parks.expire_approval now acc cand).1.
Proof.
  destruct acc as [s1 l], cand as [id r]. unfold Parks.expire_approval.
  repeat (case_match; try apply keeps_refl); subst;
    match goal with E : Parks.resolve_approval ?a ?b ?c ?d ?e ?f s1 = _ |- _ =>
      pose proof (resolve_approval_keeps a b c d e f s1) as Hk; by rewrite E in Hk end.
Qed.

Lemma resolve_expired_approvals_keeps now s :
  keeps s (fst (Parks.resolve_expired_approvals now s)).
Proof. apply (keeps_fold fst _ _ (s, [])). apply expire_approval_keeps. Qed.

Lemma resolve_subworkflow_keeps task_id child ok now s :
  keeps s (fst (Parks.resolve_subworkflow task_id child ok now s)).
Proof.
  apply resolve_keeps. intros _ r Hr Hok Hp. unfold Parks.parked_on in Hp. where_ Hp.
  pose proof (marked_sub r ltac:(congruence)) as Hm.
  destruct ok; parked_tac Hok Hp Hm.
Qed.

Lemma fail_parked_subworkflow_keeps task_id child reason now s :
  keeps s (fst (Parks.fail_parked_subworkflow task_id child reason now s)).
Proof.
  apply resolve_keeps. intros _ r Hr Hok Hp. unfold Parks.parked_on in Hp. where_ Hp.
  pose proof (marked_sub r ltac:(congruence)) as Hm. parked_tac Hok Hp Hm.
Qed.

Lemma requeue_parked_subworkflow_keeps task_id child output retry_at s :
  keeps s (fst (Parks.requeue_parked_subworkflow task_id child output retry_at s)).
Proof.
  apply neutral_update. unfold Parks.parked_on. intros _ id r Hr Hok Hp. where_ Hp.
  pose proof (marked_sub r ltac:(congruence)) as Hm.
  destruct (parked_unclaimed r Hok Hm) as (Hc & Hf & Hst).
  pose proof (parked_once _ Hok Hw) as H1.
  assert (marks (r <| T.sub_run_id := None |>) = 0)%nat as H0.
  { unfold marks in *. rewrite Hw0 in H1. cbn in H1 |- *. lia. }
  assert (terminal r = false) as Ht by (unfold terminal; by rewrite Hw).
  split; [split|split|..]; try done; try congruence; cbn; try lia; try (intros; congruence).
  - intros (H & _). discriminate H.
  - intros _. left. unfold started. by rewrite Hw.
Qed.

Lemma reconcile_subworkflow_keeps now acc p :
  keeps acc.1 (Parks.reconcile_subworkflow now acc p).1.
Proof.
  destruct acc as [s l], p as [[[task_id child] status] out]. unfold Parks.reconcile_subworkflow.
  set (ok := bool_decide (status = RSucceeded)).
  assert (keeps s (match Parks.resolve_subworkflow task_id child ok now s with
                   | (s, true) => (s, l ++ [(task_id, ok)]) | (s, false) => (s, l) end).1) as H1.
  { pose proof (resolve_subworkflow_keeps task_id child ok now s) as Hk.
    by destruct (Parks.resolve_subworkflow task_id child ok now s) as [s1 [|]]. }
  destruct ok; [|done]. destruct (Parks.repeat_spec_of task_id s); [|done]. destruct (Parks.decide _ _ _) as [|delay_secs|reason]; [done|..].
  - apply requeue_parked_subworkflow_keeps.
  - pose proof (fail_parked_subworkflow_keeps task_id child reason now s) as Hk.
    by destruct (Parks.fail_parked_subworkflow task_id child reason now s) as [s2 [|]].
Qed.

Lemma reconcile_subworkflows_keeps now s : keeps s (Parks.reconcile_subworkflows now s).1.1.
Proof. apply (keeps_fold fst _ _ (s, [])). apply reconcile_subworkflow_keeps. Qed.

(** A sweep that resolves what it read. *)
Lemma resolve_loop_keeps {A} (p : T.task_run -> bool) f
    (g : str * T.task_run -> A) (acc : store * list A) (due : str * T.task_run) :
  (Inv acc.1 -> forall r, task_runs acc.1 !! due.1 = Some r -> row_ok r -> p r = true ->
     ending acc.1 due.1 r (f r)) ->
  keeps acc.1 (let '(s, resolved) := acc in
               match Parks.resolve due.1 p f s with
               | (s, true) => (s, resolved ++ [g due])
               | (s, false) => (s, resolved)
               end).1.
Proof.
  destruct acc as [s l]. cbn [fst]. intros Hf. pose proof (resolve_keeps due.1 p f s Hf) as Hk.
  by destruct (Parks.resolve due.1 p f s) as [s1 [|]].
Qed.

Lemma resolve_wait_keeps now acc due : keeps acc.1 (Parks.resolve_wait now acc due).1.
Proof.
  apply (resolve_loop_keeps _ _ (fun due => (due.1, default now (T.wake_at due.2)))).
  intros _ r Hr Hok Hp. unfold Parks.wait_due in Hp. where_ Hp.
  pose proof (marked_wake r Hw) as Hm. parked_tac Hok Hp Hm.
Qed.

Lemma reconcile_waits_keeps now s : keeps s (Parks.reconcile_waits now s).1.1.
Proof. apply (keeps_fold fst _ _ (s, [])). apply resolve_wait_keeps. Qed.

Lemma resolve_url_wait_keeps task_id now s : keeps s (fst (Parks.resolve_url_wait task_id now s)).
Proof.
  apply resolve_keeps. intros _ r Hr Hok Hp. unfold Parks.waits_url in Hp. where_ Hp.
  pose proof (marked_url r Hw) as Hm. parked_tac Hok Hp Hm.
Qed.

Lemma repark_url_wait_keeps task_id at_ s : keeps s (fst (Parks.repark_url_wait task_id at_ s)).
Proof.
  apply neutral_update. unfold Parks.waits_url. intros _ id r Hr Hok Hp. where_ Hp. decide_row r.
Qed.

Lemma claim_url_wait_keeps until acc due : keeps acc.1 (Parks.claim_url_wait until acc due).1.
Proof.
  destruct acc as [s1 l]. unfold Parks.claim_url_wait. statement E.
  apply neutral_update. unfold Parks.waits_url. intros _ id r Hr Hok Hp.
  apply andb_true_iff in Hp as [Hp _]. where_ Hp. decide_row r.
Qed.

Lemma claim_due_url_waits_keeps limit claim now s :
  keeps s (fst (Parks.claim_due_url_waits limit claim now s)).
Proof. apply (keeps_fold fst _ _ (s, [])). apply claim_url_wait_keeps. Qed.

Lemma resolve_dataset_wait_keeps now acc due :
  keeps acc.1 (Parks.resolve_dataset_wait now acc due).1.
Proof.
  apply (resolve_loop_keeps _ _ (fun due => (due.1, default [] (T.wait_dataset due.2)))).
  intros _ r Hr Hok Hp. unfold Parks.waits_dataset in Hp. where_ Hp.
  pose proof (marked_dataset r Hw) as Hm. parked_tac Hok Hp Hm.
Qed.

Lemma reconcile_dataset_waits_keeps now s : keeps s (Parks.reconcile_dataset_waits now s).1.1.
Proof. apply (keeps_fold fst _ _ (s, [])). apply resolve_dataset_wait_keeps. Qed.

Lemma repark_external_keeps task_id handle at_ s :
  keeps s (fst (Parks.repark_external task_id handle at_ s)).
Proof.
  apply neutral_update. unfold Parks.parked_job. intros _ id r Hr Hok Hp. where_ Hp. decide_row r.
Qed.

Lemma resolve_external_keeps task_id handle out now s :
  keeps s (fst (Parks.resolve_external task_id handle out now s)).
Proof.
  apply resolve_keeps. intros _ r Hr Hok Hp. unfold Parks.parked_job in Hp. where_ Hp.
  pose proof (marked_job r ltac:(congruence)) as Hm. parked_tac Hok Hp Hm.
Qed.

Lemma fail_external_keeps task_id handle reason keep now s :
  keeps s (fst (Parks.fail_external_impl task_id handle reason keep now s)).
Proof.
  apply resolve_keeps. intros _ r Hr Hok Hp. unfold Parks.parked_job in Hp. where_ Hp.
  pose proof (marked_job r ltac:(congruence)) as Hm. parked_tac Hok Hp Hm.
Qed.

Lemma claim_external_poll_keeps until acc due :
  keeps acc.1 (Parks.claim_external_poll until acc due).1.
Proof.
  destruct acc as [s1 l]. unfold Parks.claim_external_poll.
  statement E. apply neutral_update. unfold Parks.parked_job. intros _ id r Hr Hok Hp.
  apply andb_true_iff in Hp as [Hp _]. where_ Hp. decide_row r.
Qed.

Lemma claim_due_external_polls_keeps limit claim now s :
  keeps s (fst (Parks.claim_due_external_polls limit claim now s)).
Proof. apply (keeps_fold fst _ _ (s, [])). apply claim_external_poll_keeps. Qed.

Lemma clear_external_handle_keeps task_id handle s :
  keeps s (fst (Parks.clear_external_handle task_id handle s)).
Proof.
  apply neutral_update. intros _ id r Hr Hok Hp. where_ Hp.
  assert (marks (r <| T.external_handle := None |>) <= marks r)%nat as Hm
    by (unfold marks; cbn; lia).
  assert (T.claimed_by r <> None -> marks (r <| T.external_handle := None |>) = 0)%nat as Hm1
    by (intros H%(held_unmarked _ Hok); lia).
  unfold Parks.settled_job. destruct Hok. split; [split|split|..]; try done; cbn; try lia; auto.
  - intros H%waiting_unmarked0. change (marks (r <| T.external_handle := None |>) = 0)%nat. lia.
  - intros H%parked_once0. change (marks (r <| T.external_handle := None |>) <= 1)%nat. lia.
  - intros (H1 & H2 & H3)%barrier0. repeat split; try done.
    change (marks (r <| T.external_handle := None |>) = 0)%nat. lia.
Qed.

(** ** Parking *)

(** The task is still its worker's under the claim [fence]: it has not handed it back. *)
Definition claim_kept (task_id : str) (fence : Z) (s : store) : Prop :=
  forall r, task_runs s !! task_id = Some r -> T.status r = Running -> T.version r = fence ->
    T.claimed_by r <> None.

Lemma park_keeps task_id fence f s :
  claim_kept task_id fence s ->
  (forall r, marks r = 0%nat -> marks (f r) <= 1)%nat ->
  (forall r, row_evolves r (f r) /\ T.status (f r) = T.status r
             /\ T.remaining_deps (f r) = T.remaining_deps r
             /\ T.stop_requested_at (f r) = T.stop_requested_at r) ->
  keeps s (fst (Parks.park task_id fence f s)).
Proof.
  intros Hk Hm Hf. unfold Parks.park. statement E. cbn [fst]. apply neutral_update.
  unfold Parks.parkable. intros _ id r Hr Hok Hp. where_ Hp. subst id.
  pose proof (Hk r Hr Hw1 Hw0) as Hc. pose proof (held_unmarked _ Hok Hc) as H0.
  specialize (Hm r H0). destruct (Hf r) as ([E1 E2 E3 E4 E5 E6 E7 E8 E9] & Es & Er & Est).
  assert (T.fanout_of r = None) as Hfan.
  { destruct (T.fanout_of r) eqn:Ef; [|done]. destruct (barrier _ Hok); congruence. }
  assert (terminal r = false) as Ht by (unfold terminal; by rewrite Hw1).
  unfold Parks.unclaimed. split; [split|split|..]; try done; cbn; try congruence; try (by right).
  - intros H. exfalso. rewrite Es, Hw1 in H. naive_solver.
  - intros _. unfold terminal. cbn. by rewrite Es, Hw1.
  - intros (_ & H & _). cbn in H. congruence.
  - intros _. left. unfold started. by rewrite Hw1.
Qed.

(** The row a park makes: itself, with one mark. *)
Ltac park_tac :=
  intros Hk; apply park_keeps;
  [done|intros r; unfold marks; cbn; lia|intros r; repeat split; cbn; try done; try lia; by left].

Lemma park_subworkflow_keeps task_id fence child s :
  claim_kept task_id fence s -> keeps s (fst (Parks.park_subworkflow task_id fence child s)).
Proof. park_tac. Qed.

Lemma park_wait_keeps task_id fence wake s :
  claim_kept task_id fence s -> keeps s (fst (Parks.park_wait task_id fence wake s)).
Proof. park_tac. Qed.

Lemma park_wait_url_keeps task_id fence url poll s :
  claim_kept task_id fence s -> keeps s (fst (Parks.park_wait_url task_id fence url poll s)).
Proof. park_tac. Qed.

Lemma park_external_keeps task_id fence kind handle endpoint poll deadline s :
  claim_kept task_id fence s ->
  keeps s (fst (Parks.park_external task_id fence kind handle endpoint poll deadline s)).
Proof. park_tac. Qed.

Lemma park_wait_dataset_keeps task_id fence uri s :
  claim_kept task_id fence s -> keeps s (fst (Parks.park_wait_dataset task_id fence uri s)).
Proof. park_tac. Qed.

Lemma release_subworkflow_task_keeps task_id fence s :
  claim_kept task_id fence s -> keeps s (fst (Parks.release_subworkflow_task task_id fence s)).
Proof.
  intros Hk. apply neutral_update. unfold Parks.parkable. intros _ id r Hr Hok Hp. where_ Hp.
  subst id. pose proof (Hk r Hr Hw1 Hw0) as Hc. destruct (T.claimed_by r) as [w|] eqn:Ec; [|done].
  eapply handed_back_neutral; try done. split; try done; [by right|].
  unfold terminal. by rewrite Hw1.
Qed.

End parks.

Section runs.
Context {W : World} {AG : Again}.

(** ** Ending runs *)

Lemma finalize_keeps now acc run : keeps acc.1 (Runs.finalize now acc run).1.
Proof.
  destruct acc as [s l], run as [run_id status]. unfold Runs.finalize.
  destruct (update_runs _ _ s) as [s1 n] eqn:E1.
  assert (keeps s s1) as H1.
  { change s1 with (fst (s1, n)). rewrite <- E1. by apply update_runs_keeps. }
  case_match; [done|]. destruct (update_runs _ _ s1) as [s2 m] eqn:E2.
  assert (keeps s1 s2) as H2.
  { change s2 with (fst (s2, m)). rewrite <- E2. by apply update_runs_keeps. }
  cbn [fst]. eapply keeps_trans; [exact H1|]. eapply keeps_trans; [exact H2|].
  apply insert_run_completed_keeps.
Qed.

Lemma reap_keeps runs now s : keeps s (fst (Runs.reap runs now s)).
Proof. apply (keeps_fold fst _ _ (s, [])). apply finalize_keeps. Qed.

Lemma reap_slice_keeps after limit now s : keeps s (Runs.reap_slice after limit now s).1.1.
Proof.
  unfold Runs.reap_slice. case_match; [apply keeps_refl|].
  match goal with |- context [Runs.reap ?l now s] => pose proof (reap_keeps l now s) as H1 end.
  by destruct (Runs.reap _ now s).
Qed.

Lemma reap_all_keeps fuel after now s l : keeps s (fst (Runs.reap_all fuel after now s l)).
Proof.
  revert after s l; induction fuel as [|fuel IH]; intros after s l; [apply keeps_refl|].
  cbn [Runs.reap_all]. pose proof (reap_slice_keeps after Runs.REAP_ALL_SLICE now s) as H1.
  destruct (Runs.reap_slice after Runs.REAP_ALL_SLICE now s) as [[s1 swept] [n|]]; [|done].
  eapply keeps_trans; [exact H1|apply IH].
Qed.

Lemma reap_woken_keeps woken now s : keeps s (fst (Runs.reap_woken woken now s)).
Proof.
  destruct woken as [|[|r runs]]; [apply reap_all_keeps|apply keeps_refl|apply reap_keeps].
Qed.

Lemma is_run_complete_keeps run_id now s : keeps s (fst (Runs.is_run_complete run_id now s)).
Proof. unfold Runs.is_run_complete. case_match; [apply keeps_refl|]. by apply update_runs_keeps. Qed.

(** ** Letting runs in *)

Definition let_in_row (run_id : str) (r : T.task_run) : bool :=
  bool_decide (T.run_id r = run_id) && is_status Pending r && (0 <? T.remaining_deps r)%Z.
Definition admitted_row (now : time) (r : T.task_run) : T.task_run :=
  r <| T.remaining_deps ::= Z.pred |> <| T.scheduled_at := Some now |>.

Lemma let_in_held run_id deadline now s s' r0 i :
  workflow_runs s !! run_id = Some r0 -> Runs.may_be_let_in r0 = true ->
  workflow_runs s'
  = update_where (fun id r => bool_decide (id = run_id) && Runs.may_be_let_in r)
      (fun r => r <| R.admitted_at := Some now |> <| R.deadline_at := deadline |>)
      (workflow_runs s) ->
  (run_held s i - run_held s' i = if bool_decide (i = run_id) then 1 else 0)%Z.
Proof.
  intros Hr0 Hw E. unfold run_held. rewrite E, update_where_lookup. case_bool_decide as Hi.
  - subst i. rewrite Hr0. cbn. rewrite Hw. unfold Runs.may_be_let_in in Hw. where_ Hw.
    rewrite Hw. unfold Runs.waiting. cbn. by rewrite andb_false_r.
  - destruct (workflow_runs s !! i); cbn; lia.
Qed.

Lemma let_in_keeps run_id deadline now s : keeps s (fst (Runs.let_in run_id deadline now s)).
Proof.
  unfold Runs.let_in. set (p := fun id r => bool_decide (id = run_id) && Runs.may_be_let_in r).
  destruct (update_runs p _ s) as [s1 n] eqn:E1.
  set (f := fun r => r <| R.admitted_at := Some now |> <| R.deadline_at := deadline |>) in E1.
  assert (s1 = s <| workflow_runs ::= update_where p f |> /\ n = size (affected p (workflow_runs s)))
    as [-> ->] by (by injection E1 as <- <-).
  case_match eqn:E0.
  - apply Nat.eqb_eq in E0. cbn [fst]. apply Inv_other; [done..|]. intros i t _. unfold run_held.
    cbn. by rewrite update_where_none.
  - apply Nat.eqb_neq in E0. cbn [fst].
    assert (exists r0, workflow_runs s !! run_id = Some r0 /\ Runs.may_be_let_in r0 = true)
      as (r0 & Hr0 & Hw0).
    { destruct (map_choose (affected p (workflow_runs s))) as (i & r0 & H).
      { intros E. by rewrite E, map_size_empty in E0. }
      apply affected_lookup in H as [H Hp]. unfold p in Hp. where_ Hp. subst i. eauto. }
    intros Hi. set (s' := update _ _ _).
    assert (forall i, run_held s i - run_held s' i = if bool_decide (i = run_id) then 1 else 0)%Z
      as Hheld by (intros i; by eapply let_in_held).
    assert (forall id, task_runs s' !! id
              = (fun r => if let_in_row run_id r then admitted_row now r else r)
                <$> task_runs s !! id) as Hl
      by (intros id; apply (update_where_lookup (fun _ r => let_in_row run_id r) (admitted_row now))).
    assert (forall id, closing s s' id = 0%Z) as Hclose.
    { intros id. apply closing_nothing. intros d r r' Hr Hr' Ht. rewrite Hl, Hr in Hr'.
      injection Hr' as <-. by destruct (let_in_row run_id r). }
    assert (task_dependencies s' = task_dependencies s) as Hd by done.
    clearbody s'. apply Inv_transition; try done.
    + intros id H. by rewrite Hl, H.
    + intros id r H. rewrite Hl, H. cbn. eexists. split; [done|].
      assert (due s s' id r = if bool_decide (T.run_id r = run_id) then 1 else 0)%Z as Hdue
        by (unfold due; by rewrite Hclose, Hheld).
      pose proof (inv_rows _ Hi id r H) as Hok. cbn in Hok.
      unfold let_in_row. case_bool_decide as Hrun; [|by apply unchanged].
      destruct (is_status Pending r) eqn:Ep; cbn [andb].
      * apply is_status_true in Ep. destruct (inv_counts _ Hi id r H Ep) as [Hlow _].
        pose proof (open_deps_nonneg s id). subst run_id.
        assert (run_held s (T.run_id r) = 1%Z) as H1.
        { unfold run_held. rewrite Hr0. unfold Runs.may_be_let_in in Hw0. where_ Hw0.
          by rewrite Hw0. }
        destruct (Z.ltb_spec 0 (T.remaining_deps r)); [|lia].
        assert (T.remaining_deps (admitted_row now r) = T.remaining_deps r - 1)%Z as Hr1
          by (unfold admitted_row; cbn; lia).
        split; try (by left); [by destruct Hok; split|split; try done; by left|].
        intros _. rewrite Hdue, Hr1. split; [lia|]. lia.
      * split; try (by left); [done|apply row_evolves_refl|]. intros Hp.
        apply is_status_true in Hp. congruence.
Qed.

Lemma admit_next_keeps next running now s l :
  keeps s (fst (Runs.admit_next next running now s l)).
Proof.
  revert running s l; induction next as [|[run_id r] next IH]; intros running s l;
    [apply keeps_refl|].
  cbn [Runs.admit_next]. cbv zeta. case_match; [apply keeps_refl|].
  match goal with |- context [Runs.let_in ?a ?b ?c s] =>
    pose proof (let_in_keeps a b c s) as H1; destruct (Runs.let_in a b c s) as [s1 [|]] end;
    (eapply keeps_trans; [exact H1|apply IH]).
Qed.

Lemma admit_keys_keeps keys now s : keeps s (fst (fold_left (Runs.admit_key now) keys (s, []))).
Proof.
  apply (keeps_fold fst _ _ (s, [])). intros [s1 l] k. unfold Runs.admit_key.
  destruct (Runs.runs_in_flight _ _ _ _) as [a b]. apply admit_next_keeps.
Qed.

Lemma admit_waiting_runs_keeps now s : keeps s (fst (Runs.admit_waiting_runs now s)).
Proof. apply admit_keys_keeps. Qed.

(** ** Superseding *)

Lemma supersede_run_keeps by_ now acc run_id :
  keeps acc.1 (Runs.supersede_run by_ now acc run_id).1.
Proof.
  destruct acc as [s n]. unfold Runs.supersede_run. destruct (update_runs _ _ s) as [s1 m] eqn:E1.
  assert (keeps s s1) as H1.
  { change s1 with (fst (s1, m)). rewrite <- E1. by apply update_runs_keeps. }
  case_match; [done|]. eapply keeps_trans; [exact H1|]. apply stop_and_finish_keeps.
Qed.

Lemma take_place_keeps dag run_id own now s s' waits :
  Runs.take_place dag run_id own now s = Ok (s', waits) -> keeps s s'.
Proof.
  unfold Runs.take_place. destruct (Spec.max_active_runs dag) as [max|];
    [|intros [= <- <-]; apply keeps_refl].
  destruct (max =? 0)%N; [intros [= <- <-]; apply keeps_refl|].
  set (s0 := match default Spec.Refuse (Spec.when_full dag) with
             | Spec.Supersede => _ | _ => s end).
  assert (keeps s s0) as H0.
  { unfold s0. destruct (default _ _); try apply keeps_refl.
    apply (keeps_fold fst _ _ (s, 0%nat)). apply supersede_run_keeps. }
  clearbody s0. cbv zeta. destruct (Runs.runs_in_flight _ _ _ s0) as [a w].
  destruct (Z.of_N max <=? a)%Z; [destruct (_ || _); [done|]|]; by intros [= <- <-].
Qed.

End runs.
End PreserveRuns.
