(* ===== verification/Create.v ===== *)
(** * What [create_run] writes

    The rows and edges of a run as [Runs.create_run_full] builds them: every task has its
    rows, every row waits for exactly the rows its task depends on, and nothing else of the
    task table changes. *)

From S2P Require Import Tables Stops Scheduler Runs Invariant Preserve PreserveRuns.

Module Create.

Import Models Invariant Preserve PreserveRuns.

(** How many rows a task has. *)
Definition members {num} (t : Spec.TaskSpec num) : nat :=
  match Spec.gang t with Some g => N.to_nat (Spec.gang_size g) | None => 1 end.

(** The store but for its tasks, and but for its edges. *)
Definition same_but_tasks (s s' : store) : Prop := s' = s <| task_runs := task_runs s' |>.
Definition same_but_edges (s s' : store) : Prop :=
  s' = s <| task_dependencies := task_dependencies s' |>.

Lemma same_but_tasks_trans a b c : same_but_tasks a b -> same_but_tasks b c -> same_but_tasks a c.
Proof. unfold same_but_tasks. intros -> ->. by destruct a, c. Qed.

Lemma same_but_edges_trans a b c : same_but_edges a b -> same_but_edges b c -> same_but_edges a c.
Proof. unfold same_but_edges. intros -> ->. by destruct a, c. Qed.

Section rows.
Context {W : World}.
Context (uuid : nat -> str) (dag : Spec.DagGraph num) (run_id : str) (now : time) (held : Z).

(** ** Rows *)

Lemma insert_task_spec id r s s' :
  Runs.insert_task id r s = Ok s' ->
  task_runs s !! id = None /\ s' = s <| task_runs ::= <[ id := r ]> |>.
Proof.
  unfold Runs.insert_task. destruct (task_runs s !! id) eqn:E; [done|].
  destruct (negb _); [done|]. by intros [= <-].
Qed.

Record inserted (s s' : store) (mk : N -> T.task_run) (rank : N) (ids : list str) : Prop := {
  ins_nodup : NoDup ids;
  ins_fresh : forall id, id ∈ ids -> task_runs s !! id = None;
  ins_rows : forall i id, ids !! i = Some id -> task_runs s' !! id = Some (mk (rank + N.of_nat i)%N);
  ins_old : forall id, id ∉ ids -> task_runs s' !! id = task_runs s !! id;
  ins_same : same_but_tasks s s';
}.

Lemma insert_members_spec mk m rank s next s' next' ids :
  Runs.insert_members uuid mk m rank s next = Ok (s', next', ids) ->
  length ids = m /\ inserted s s' mk rank ids.
Proof.
  revert rank s next ids; induction m as [|m IH]; intros rank s next ids; cbn.
  - intros [= -> _ <-]. split; [done|]. split; [constructor|set_solver|done|done|].
    unfold same_but_tasks. by destruct s'.
  - destruct (Runs.insert_task _ _ s) as [s1|] eqn:E1; [|done].
    destruct (Runs.insert_members _ _ m _ _ _) as [[[s2 n2] l]|] eqn:E2; [|done].
    intros [= <- <- <-]. apply insert_task_spec in E1 as [Hn ->].
    apply IH in E2 as [Hl [H1 H2 H3 H4 H5]]. split; [cbn; by rewrite Hl|].
    assert (uuid next ∉ l) as Hni.
    { intros H%H2. cbn in H. by rewrite lookup_insert_eq in H. }
    split.
    + by constructor.
    + intros id [->|H]%elem_of_cons; [done|]. apply H2 in H. cbn in H.
      by apply lookup_insert_None in H as [H _].
    + intros [|i] id; cbn.
      * intros [= <-]. rewrite H4 by done. cbn. rewrite lookup_insert_eq, N.add_0_r. done.
      * intros H. rewrite (H3 i id H). do 2 f_equal. lia.
    + intros id [Hne Hid]%not_elem_of_cons. rewrite H4 by done. cbn. by rewrite lookup_insert_ne.
    + eapply same_but_tasks_trans; [|exact H5]. unfold same_but_tasks. done.
Qed.

(** What the loop has built, of the tasks it has been through. *)
Record built (s0 : store) (done : list (Spec.TaskSpec num)) (s : store)
    (ids : gmap str (list str)) : Prop := {
  bt_names : NoDup (map Spec.name done);
  bt_done : forall t, t ∈ done ->
    exists l gid, ids !! Spec.name t = Some l /\ length l = members t
      /\ forall i id, l !! i = Some id ->
           task_runs s !! id
           = Some (Runs.new_row dag run_id now held t
                     (option_map (fun g => (gid, Spec.gang_size g)) (Spec.gang t)) (N.of_nat i));
  bt_ids : forall x l, ids !! x = Some l ->
    NoDup l /\ (exists t, t ∈ done /\ Spec.name t = x) /\ forall id, id ∈ l -> task_runs s0 !! id = None;
  bt_apart : forall x y l l' id,
    ids !! x = Some l -> ids !! y = Some l' -> id ∈ l -> id ∈ l' -> x = y;
  bt_rows : forall id, (exists x l, ids !! x = Some l /\ id ∈ l)
                       \/ task_runs s !! id = task_runs s0 !! id;
  bt_same : same_but_tasks s0 s;
}.

Lemma built_start s0 : built s0 [] s0 ∅.
Proof.
  split; try done; [constructor|set_solver|by right|]. unfold same_but_tasks. by destruct s0.
Qed.

(** One task of the loop, when its name is new and its rows were written. *)
Lemma built_task s0 done s ids t gid s' l :
  built s0 done s ids -> ids !! Spec.name t = None -> length l = members t ->
  inserted s s' (Runs.new_row dag run_id now held t
                   (option_map (fun g => (gid, Spec.gang_size g)) (Spec.gang t))) 0 l ->
  built s0 (done ++ [t]) s' (<[ Spec.name t := l ]> ids).
Proof.
  intros [B1 B2 B3 B4 B5 B6] Hn Hl [I1 I2 I3 I4 I5].
  assert (forall u, u ∈ done -> Spec.name u <> Spec.name t) as Hne.
  { intros u Hu E. destruct (B2 u Hu) as (lu & _ & H & _). congruence. }
  assert (forall x lx id, ids !! x = Some lx -> id ∈ lx -> id ∉ l) as Hap.
  { intros x lx id Hx Hid Hil%I2. destruct (B3 x lx Hx) as (_ & (u & Hu & <-) & _).
    destruct (B2 u Hu) as (lu & g & Hlu & _ & Hr). assert (lu = lx) as -> by congruence.
    apply list_elem_of_lookup_1 in Hid as [i Hi]. rewrite (Hr i id Hi) in Hil. done. }
  assert (forall id, id ∈ l -> task_runs s0 !! id = None) as Hs0.
  { intros id Hid. destruct (B5 id) as [(x & lx & Hx & Hix)|E].
    - by destruct (Hap x lx id Hx Hix).
    - rewrite <- E. by apply I2. }
  split.
  - rewrite map_app. apply NoDup_app. split; [done|]. split; [|apply NoDup_singleton].
    intros x (u & -> & Hu)%list_elem_of_fmap. cbn. rewrite list_elem_of_singleton. by apply Hne.
  - intros u [Hu| ->%list_elem_of_singleton]%elem_of_app.
    + destruct (B2 u Hu) as (lu & g & Hlu & Hlen & Hr). exists lu, g.
      rewrite lookup_insert_ne by (by apply not_eq_sym, Hne). split; [done|]. split; [done|].
      intros i id Hi. rewrite I4; [by apply Hr|]. eapply Hap; [done|]. by eapply list_elem_of_lookup_2.
    + exists l, gid. rewrite lookup_insert_eq. split; [done|]. split; [done|].
      intros i id Hi. by rewrite (I3 i id Hi).
  - intros x lx. destruct (decide (x = Spec.name t)) as [->|Hx].
    + rewrite lookup_insert_eq. intros [= <-]. split; [done|]. split; [|done].
      exists t. split; [set_solver|done].
    + rewrite lookup_insert_ne by done. intros H. destruct (B3 x lx H) as (H1 & (u & Hu & E) & H3).
      split; [done|]. split; [|done]. exists u. split; [set_solver|done].
  - intros x y lx ly id. destruct (decide (x = Spec.name t)) as [->|Hx], (decide (y = Spec.name t)) as [->|Hy];
      rewrite ?lookup_insert_eq, ?lookup_insert_ne by done; [done|..].
    + intros [= <-] H H1 H2. by destruct (Hap y ly id H H2).
    + intros H [= <-] H1 H2. by destruct (Hap x lx id H H1).
    + apply B4.
  - intros id. destruct (decide (id ∈ l)) as [Hid|Hid].
    + left. exists (Spec.name t), l. by rewrite lookup_insert_eq.
    + destruct (B5 id) as [(x & lx & Hx & Hix)|E]; [left|right].
      * exists x, lx. rewrite lookup_insert_ne; [done|]. intros <-. congruence.
      * by rewrite I4.
  - by eapply same_but_tasks_trans.
Qed.

Lemma insert_task_specs_built s0 ts done s next ids s' next' ids' :
  built s0 done s ids ->
  Runs.insert_task_specs uuid dag run_id now held ts (s, next, ids) = Ok (s', next', ids') ->
  built s0 (done ++ ts) s' ids'.
Proof.
  revert done s next ids; induction ts as [|t ts IH]; intros done s next ids Hb;
    cbn [Runs.insert_task_specs].
  { intros [= -> _ ->]. by rewrite app_nil_r. }
  destruct (Runs.insert_task_spec uuid dag run_id now held (s, next, ids) t)
    as [[[s1 n1] ids1]|] eqn:E; [|done].
  intros H. replace (done ++ t :: ts) with ((done ++ [t]) ++ ts) by (by rewrite <- app_assoc).
  eapply IH; [|exact H]. revert E. unfold Runs.insert_task_spec. destruct (ids !! Spec.name t) eqn:En; [done|].
  match goal with |- (let '(_, _) := ?x in _) = _ -> _ => destruct x as [gang n] eqn:Eg end.
  destruct (Runs.insert_members uuid _ _ _ _ _) as [[[s2 n2] l]|] eqn:E; [|done].
  intros [= -> _ <-]. apply insert_members_spec in E as [Hl Hins].
  eapply (built_task _ _ _ _ _ (match gang with Some g => g.1 | None => [] end)); [done..|].
  unfold members in *. destruct (Spec.gang t) as [g|]; injection Eg as <- _; exact Hins.
Qed.

End rows.

(** ** Edges *)

(** The edges of a list that leave [a]. *)
Definition leaving (a : str) (es : list (str * str)) : nat :=
  length (List.filter (fun e => bool_decide (e.1 = a)) es).

Definition out_count (s : store) (a : str) : nat := leaving a (elements (task_dependencies s)).

Lemma leaving_perm a l l' : Permutation l l' -> leaving a l = leaving a l'.
Proof.
  unfold leaving. induction 1 as [|x l l' _ IH|x y l|l l' l'' _ IH1 _ IH2]; [done|..|lia]; cbn.
  - destruct (bool_decide _); cbn; lia.
  - by destruct (bool_decide (x.1 = a)), (bool_decide (y.1 = a)).
Qed.

Lemma leaving_app a l l' : leaving a (l ++ l') = (leaving a l + leaving a l')%nat.
Proof. unfold leaving. by rewrite List.filter_app, length_app. Qed.

Record wired (s s' : store) (new : str * str -> Prop) (n : str -> nat) : Prop := {
  w_in : forall e, e ∈ task_dependencies s' <-> e ∈ task_dependencies s \/ new e;
  w_count : forall a, out_count s' a = (out_count s a + n a)%nat;
  w_same : same_but_edges s s';
}.

Lemma wired_refl s : wired s s (fun _ => False) (fun _ => 0%nat).
Proof. split; [tauto|lia|]. unfold same_but_edges. by destruct s. Qed.

Lemma wired_trans s s' s'' p n q m r k :
  wired s s' p n -> wired s' s'' q m -> (forall e, r e <-> p e \/ q e) ->
  (forall a, k a = n a + m a)%nat -> wired s s'' r k.
Proof.
  intros [H1 H2 H3] [J1 J2 J3] Hr Hk. split.
  - intros e. rewrite J1, H1, Hr. tauto.
  - intros a. rewrite J2, H2, Hk. lia.
  - by eapply same_but_edges_trans.
Qed.

Lemma insert_edges_wired {W : World} es s s' :
  Runs.insert_edges s es = Ok s' -> wired s s' (fun e => e ∈ es) (fun a => leaving a es).
Proof.
  revert s; induction es as [|e es IH]; intros s; cbn [Runs.insert_edges].
  { intros [= ->]. eapply wired_trans; [apply wired_refl..| |done]. set_solver. }
  unfold Runs.insert_edge at 1. case_bool_decide as He; [done|]. intros H%IH.
  eapply wired_trans with (p := fun x => x = e) (n := fun a => leaving a [e]); [|exact H|set_solver|].
  - split; [cbn; set_solver| |done]. intros a. unfold out_count. cbn [task_dependencies set].
    rewrite (leaving_perm a _ (e :: elements (task_dependencies s)))
      by (by apply elements_union_singleton).
    change (e :: elements (task_dependencies s)) with ([e] ++ elements (task_dependencies s)).
    rewrite leaving_app. lia.
  - intros a. apply (leaving_app a [e] es).
Qed.

Lemma leaving_edges_of a ds l :
  NoDup ds -> leaving a (Runs.edges_of ds l) = if bool_decide (a ∈ ds) then length l else 0%nat.
Proof.
  unfold Runs.edges_of. induction 1 as [|d ds Hd Hn IH]; [done|]. cbn [flat_map].
  rewrite leaving_app, IH.
  assert (leaving a (map (fun b => (d, b)) l) = if bool_decide (d = a) then length l else 0%nat) as ->.
  { clear. unfold leaving. induction l as [|b l IH]; cbn; [by case_bool_decide|].
    case_bool_decide; cbn; lia. }
  repeat case_bool_decide; subst; try done; try lia; exfalso; set_solver.
Qed.

Lemma edges_of_spec ds l e : e ∈ Runs.edges_of ds l <-> e.1 ∈ ds /\ e.2 ∈ l.
Proof.
  unfold Runs.edges_of. rewrite list_elem_of_In, in_flat_map.
  setoid_rewrite in_map_iff. rewrite !list_elem_of_In. split.
  - intros (a & Ha & b & <- & Hb). done.
  - destruct e as [a b]. intros [Ha Hb]. exists a. split; [done|]. by exists b.
Qed.

Section wire.
Context {W : World} (ids : gmap str (list str)).
Hypothesis Hids : forall x l, ids !! x = Some l -> NoDup l.

Definition rows_of (x : str) : list str := default [] (ids !! x).

(** What a row of [t] waits for: every row of what [t] depends on. *)
Definition waits_for (t : Spec.TaskSpec num) (deps : list str) (e : str * str) : Prop :=
  e.1 ∈ rows_of (Spec.name t) /\ exists dep, dep ∈ deps /\ e.2 ∈ rows_of dep.

Definition wait_count (t : Spec.TaskSpec num) (deps : list str) (a : str) : nat :=
  if bool_decide (a ∈ rows_of (Spec.name t))
  then list_sum (map (fun dep => length (rows_of dep)) deps) else 0%nat.

Lemma rows_of_NoDup x : NoDup (rows_of x).
Proof. unfold rows_of. destruct (ids !! x) eqn:E; [by eapply Hids|constructor]. Qed.

Lemma wire_deps_wired t deps s s' :
  Runs.wire_deps ids t deps s = Ok s' ->
  wired s s' (waits_for t deps) (wait_count t deps)
  /\ forall dep, dep ∈ deps -> exists l, ids !! dep = Some l.
Proof.
  unfold waits_for, wait_count. revert s; induction deps as [|dep deps IH]; intros s;
    cbn [Runs.wire_deps].
  { intros [= ->]. split; [|set_solver]. eapply wired_trans; [apply wired_refl..| |].
    - set_solver.
    - intros a. by case_bool_decide. }
  destruct (ids !! dep) as [l|] eqn:El; [|done].
  destruct (Runs.insert_edges s _) as [s1|] eqn:E; [|done].
  intros [H Hd]%IH. apply insert_edges_wired in E. split.
  - eapply wired_trans; [exact E|exact H|..].
    + intros e. rewrite edges_of_spec. unfold rows_of at 2. setoid_rewrite elem_of_cons.
      change (default [] (ids !! Spec.name t)) with (rows_of (Spec.name t)). split.
      * intros [H1 (x & [->|Hx] & H2)]; [left; by rewrite El in H2|right; eauto].
      * intros [[H1 H2]|(H1 & x & Hx & H2)]; (split; [done|]).
        -- exists dep. split; [by left|]. by rewrite El.
        -- exists x. split; [by right|done].
    + intros a. cbv beta. rewrite leaving_edges_of by apply rows_of_NoDup.
      change (default [] (ids !! Spec.name t)) with (rows_of (Spec.name t)).
      case_bool_decide; [|done]. cbn. unfold rows_of at 1. by rewrite El.
  - intros x [->|Hx]%elem_of_cons; [eauto|by apply Hd].
Qed.

Lemma wire_tasks_wired ts s s' :
  Runs.wire_tasks ids ts s = Ok s' ->
  wired s s' (fun e => exists t, t ∈ ts /\ waits_for t (Spec.depends_on t) e)
    (fun a => list_sum (map (fun t => wait_count t (Spec.depends_on t) a) ts))
  /\ forall t dep, t ∈ ts -> dep ∈ Spec.depends_on t -> exists l, ids !! dep = Some l.
Proof.
  revert s; induction ts as [|t ts IH]; intros s; cbn [Runs.wire_tasks].
  { intros [= ->]. split; [|set_solver]. eapply wired_trans; [apply wired_refl..| |done]. set_solver. }
  destruct (Runs.wire_deps ids t _ s) as [s1|] eqn:E; [|done]. intros [H Hd]%IH.
  apply wire_deps_wired in E as [E Hd1]. split.
  - eapply wired_trans; [exact E|exact H| |done]. intros e. setoid_rewrite elem_of_cons.
    split; [intros (x & [->|Hx] & Hw); eauto|]. intros [Hw|(x & Hx & Hw)]; eauto.
  - intros x dep [->|Hx]%elem_of_cons; [by apply Hd1|by apply Hd].
Qed.

End wire.

(** Two stores with the same open edges of [id]. *)
Lemma filter_length_ext {A} (f g : A -> bool) (l l' : list A) :
  NoDup l -> NoDup l' -> (forall x, (x ∈ l /\ f x = true) <-> (x ∈ l' /\ g x = true)) ->
  length (List.filter f l) = length (List.filter g l').
Proof.
  intros Hl Hl' H. apply Permutation_length, NoDup_Permutation.
  - by apply NoDup_ListNoDup, List.NoDup_filter, NoDup_ListNoDup.
  - by apply NoDup_ListNoDup, List.NoDup_filter, NoDup_ListNoDup.
  - intros x. rewrite !list_elem_of_In, !List.filter_In, <- !list_elem_of_In. apply H.
Qed.

Lemma open_deps_ext s s' id :
  (forall d, (id, d) ∈ task_dependencies s' <-> (id, d) ∈ task_dependencies s) ->
  (forall d, (id, d) ∈ task_dependencies s -> task_runs s' !! d = task_runs s !! d) ->
  open_deps s' id = open_deps s id.
Proof.
  intros He Hr. unfold open_deps. f_equal.
  apply filter_length_ext; [apply NoDup_elements..|]. intros [a d].
  rewrite !elem_of_elements. unfold at_edge. cbn. split; intros [Hin H];
    destruct (bool_decide (a = id)) eqn:E; cbn in H; try done;
    apply bool_decide_eq_true in E as ->.
  - apply He in Hin. split; [done|]. cbn. by rewrite <- (Hr d Hin).
  - split; [by apply He|]. cbn. by rewrite (Hr d Hin).
Qed.

Lemma open_deps_all s id :
  (forall d, (id, d) ∈ task_dependencies s ->
     exists r, task_runs s !! d = Some r /\ terminal r = false) ->
  open_deps s id = Z.of_nat (out_count s id).
Proof.
  intros H. unfold open_deps, out_count, leaving. f_equal.
  apply filter_length_ext; [apply NoDup_elements..|]. intros [a d].
  rewrite !elem_of_elements. unfold at_edge. cbn. split; intros [Hin E]; (split; [done|]).
  - by apply andb_true_iff in E as [E _].
  - rewrite E. apply bool_decide_eq_true in E as ->. destruct (H d Hin) as (r & -> & ->). done.
Qed.

(** ** The run *)

Lemma find_name {num} (ts : list (Spec.TaskSpec num)) t :
  NoDup (map Spec.name ts) -> t ∈ ts ->
  List.find (fun u => bool_decide (Spec.name u = Spec.name t)) ts = Some t.
Proof.
  induction ts as [|u ts IH]; [set_solver|]. cbn. intros [Hu Hn]%NoDup_cons Ht.
  case_bool_decide as E.
  - apply elem_of_cons in Ht as [->|Ht]; [done|]. exfalso. apply Hu. rewrite E.
    apply list_elem_of_fmap. eauto.
  - apply elem_of_cons in Ht as [->|Ht]; [done|]. by apply IH.
Qed.

(** A sum along tasks of distinct names, all but one of them nothing. *)
Lemma list_sum_single {num} (ts : list (Spec.TaskSpec num)) (t : Spec.TaskSpec num)
    (f : Spec.TaskSpec num -> nat) :
  NoDup (map Spec.name ts) -> t ∈ ts ->
  (forall u, u ∈ ts -> Spec.name u <> Spec.name t -> f u = 0%nat) ->
  list_sum (map f ts) = f t.
Proof.
  induction ts as [|u ts IH]; [set_solver|]. intros [Hu Hn]%NoDup_cons Ht Hf.
  change (f u + list_sum (map f ts) = f t)%nat.
  apply elem_of_cons in Ht as [->|Ht].
  - assert (list_sum (map f ts) = 0%nat) as ->; [|lia]. clear IH Hn.
    assert (forall v, v ∈ ts -> f v = 0%nat) as Hz.
    { intros v Hv. apply Hf; [by right|]. intros E. apply Hu. rewrite <- E.
      apply list_elem_of_fmap. eauto. }
    clear Hf Hu. induction ts as [|v ts IH]; [done|].
    change (f v + list_sum (map f ts) = 0)%nat. rewrite (Hz v) by (by left).
    apply IH. intros w Hw. apply Hz. by right.
  - rewrite IH by (try done; intros v Hv; apply Hf; by right).
    rewrite Hf; [lia|by left|]. intros E. apply Hu. rewrite E. apply list_elem_of_fmap. eauto.
Qed.

Section run.
Context {W : World} {AG : Again}.
Context (dag : Spec.DagGraph num) (run_id : str) (now : time) (held : Z) (ids : gmap str (list str)).
Context (s0 s2 s3 : store).
#[local] Abbreviation ts := (Spec.tasks (Spec.spec dag)).
Hypothesis Hb : built dag run_id now held s0 ts s2 ids.
Hypothesis Hw : Runs.wire_tasks ids ts s2 = Ok s3.

Lemma ids_NoDup x l : ids !! x = Some l -> NoDup l.
Proof. intros H. by destruct (bt_ids _ _ _ _ _ _ _ _ Hb x l H). Qed.

Lemma rows_of_task t : t ∈ ts -> length (rows_of ids (Spec.name t)) = members t.
Proof.
  intros Ht. destruct (bt_done _ _ _ _ _ _ _ _ Hb t Ht) as (l & g & E & Hl & _).
  unfold rows_of. by rewrite E.
Qed.

Lemma rows_of_row t id : t ∈ ts -> id ∈ rows_of ids (Spec.name t) ->
  task_runs s0 !! id = None
  /\ exists gang rank, task_runs s2 !! id = Some (Runs.new_row dag run_id now held t gang rank).
Proof.
  intros Ht Hid. destruct (bt_done _ _ _ _ _ _ _ _ Hb t Ht) as (l & g & E & Hl & Hr).
  unfold rows_of in Hid. rewrite E in Hid. cbn in Hid. split.
  - destruct (bt_ids _ _ _ _ _ _ _ _ Hb _ _ E) as (_ & _ & H). by apply H.
  - apply list_elem_of_lookup_1 in Hid as [i Hi]. eexists _, _. by apply (Hr i).
Qed.

Lemma rows_of_dep x id : id ∈ rows_of ids x -> exists t, t ∈ ts /\ Spec.name t = x.
Proof.
  unfold rows_of. destruct (ids !! x) as [l|] eqn:E; [|set_solver]. intros _.
  by destruct (bt_ids _ _ _ _ _ _ _ _ Hb _ _ E) as (_ & H & _).
Qed.

(** The width of a dependency is its number of rows. *)
Lemma width_rows dep l : ids !! dep = Some l -> Runs.width dag dep = Z.of_nat (length (rows_of ids dep)).
Proof.
  intros E. destruct (bt_ids _ _ _ _ _ _ _ _ Hb _ _ E) as (_ & (t & Ht & <-) & _).
  rewrite rows_of_task by done. unfold Runs.width, Spec.task_spec, members.
  rewrite (find_name _ t (bt_names _ _ _ _ _ _ _ _ Hb) Ht). cbn. destruct (Spec.gang t); [|done].
  by rewrite N_nat_Z.
Qed.

Lemma dep_count_rows t a :
  t ∈ ts -> a ∈ rows_of ids (Spec.name t) ->
  Z.of_nat (list_sum (map (fun u => wait_count ids u (Spec.depends_on u) a) ts))
  = Runs.dep_count dag t.
Proof.
  intros Ht Ha. rewrite (list_sum_single ts t) by
    first [apply (bt_names _ _ _ _ _ _ _ _ Hb) | done
          | intros u Hu Hne; unfold wait_count; rewrite bool_decide_false; [done|];
            intros Hau; apply Hne; revert Ha Hau; unfold rows_of;
            destruct (ids !! Spec.name t) as [l|] eqn:E1, (ids !! Spec.name u) as [l'|] eqn:E2;
            try set_solver; cbn; intros; by eapply (bt_apart _ _ _ _ _ _ _ _ Hb)].
  unfold wait_count. rewrite bool_decide_true by done. unfold Runs.dep_count.
  destruct (wire_tasks_wired ids ids_NoDup _ _ _ Hw) as [_ Hd].
  assert (forall dep, dep ∈ Spec.depends_on t -> exists l, ids !! dep = Some l) as Hdep
    by (intros; by eapply Hd).
  induction (Spec.depends_on t) as [|dep deps IH]; [done|]. cbn [map fold_right].
  change (list_sum (?x :: ?l)) with (x + list_sum l)%nat.
  destruct (Hdep dep) as [l El]; [by left|]. rewrite (width_rows dep l El), <- IH; [lia|].
  intros x Hx. apply Hdep. by right.
Qed.

(** *** What the whole of it keeps *)

Lemma wired_edges e :
  e ∈ task_dependencies s3
  <-> e ∈ task_dependencies s0 \/ exists t, t ∈ ts /\ waits_for ids t (Spec.depends_on t) e.
Proof.
  destruct (wire_tasks_wired ids ids_NoDup _ _ _ Hw) as [[H _ _] _]. rewrite H.
  by rewrite (bt_same _ _ _ _ _ _ _ _ Hb).
Qed.

Lemma wired_tasks id : task_runs s3 !! id = task_runs s2 !! id.
Proof.
  destruct (wire_tasks_wired ids ids_NoDup _ _ _ Hw) as [[_ _ H] _]. by rewrite H.
Qed.

Lemma wired_runs : workflow_runs s3 = workflow_runs s0.
Proof.
  destruct (wire_tasks_wired ids ids_NoDup _ _ _ Hw) as [[_ _ H] _].
  by rewrite H, (bt_same _ _ _ _ _ _ _ _ Hb).
Qed.

Definition new_id (id : str) : Prop := exists t, t ∈ ts /\ id ∈ rows_of ids (Spec.name t).

Lemma new_or_old id r :
  task_runs s3 !! id = Some r ->
  (task_runs s0 !! id = Some r /\ ~ new_id id)
  \/ exists t gang rank, t ∈ ts /\ id ∈ rows_of ids (Spec.name t)
       /\ r = Runs.new_row dag run_id now held t gang rank.
Proof.
  rewrite wired_tasks. intros H. destruct (bt_rows _ _ _ _ _ _ _ _ Hb id) as [(x & l & Hx & Hid)|E].
  - right. assert (id ∈ rows_of ids x) as Hr by (unfold rows_of; by rewrite Hx).
    destruct (rows_of_dep x id Hr) as (t & Ht & <-).
    destruct (rows_of_row t id Ht Hr) as (_ & g & k & E). exists t, g, k.
    split; [done|]. split; [done|]. congruence.
  - left. rewrite <- E. split; [done|]. intros (t & Ht & Hid).
    destruct (rows_of_row t id Ht Hid) as (Hn & _). rewrite E in H. congruence.
Qed.

Lemma old_kept id r : task_runs s0 !! id = Some r -> task_runs s3 !! id = Some r.
Proof.
  intros H. rewrite wired_tasks. destruct (bt_rows _ _ _ _ _ _ _ _ Hb id) as [(x & l & Hx & Hid)|E].
  - assert (id ∈ rows_of ids x) as Hr by (unfold rows_of; by rewrite Hx).
    destruct (rows_of_dep x id Hr) as (t & Ht & <-).
    destruct (rows_of_row t id Ht Hr) as (Hn & _). congruence.
  - by rewrite E.
Qed.

Lemma old_edges id d r :
  task_runs s0 !! id = Some r -> (id, d) ∈ task_dependencies s3 <-> (id, d) ∈ task_dependencies s0.
Proof.
  intros H. rewrite wired_edges. split; [|by left]. intros [He|(t & Ht & Hid & _)]; [done|].
  destruct (rows_of_row t id Ht Hid) as (Hn & _). cbn in *. congruence.
Qed.

Lemma new_edge_rows e t :
  t ∈ ts -> waits_for ids t (Spec.depends_on t) e ->
  exists u g k g' k', task_runs s3 !! e.1 = Some (Runs.new_row dag run_id now held t g k)
    /\ u ∈ ts /\ e.2 ∈ rows_of ids (Spec.name u)
    /\ task_runs s3 !! e.2 = Some (Runs.new_row dag run_id now held u g' k').
Proof.
  intros Ht (H1 & dep & Hd & H2). destruct (rows_of_row t e.1 Ht H1) as (_ & g & k & E1).
  destruct (rows_of_dep dep e.2 H2) as (u & Hu & <-).
  destruct (rows_of_row u e.2 Hu H2) as (_ & g' & k' & E2).
  exists u, g, k, g', k'. by rewrite !wired_tasks.
Qed.

(** *** The invariant *)

Hypothesis Hinv : Inv s0.
Hypothesis Hrun : forall id r, task_runs s0 !! id = Some r -> T.run_id r <> run_id.
Hypothesis Hheld : run_held s0 run_id = held.

Lemma new_row_ok t gang rank : row_ok (Runs.new_row dag run_id now held t gang rank).
Proof. split; cbn; try done; intros; repeat split; done. Qed.

Lemma old_dep id r d : task_runs s0 !! id = Some r -> (id, d) ∈ task_dependencies s3 ->
  exists rd, task_runs s0 !! d = Some rd /\ task_runs s3 !! d = Some rd.
Proof.
  intros Hr Hd%(old_edges id d r Hr). destruct (inv_edges _ Hinv id d Hd) as (_ & rd & _ & H & _).
  exists rd. split; [done|by apply old_kept].
Qed.

Lemma old_open id r : task_runs s0 !! id = Some r -> open_deps s3 id = open_deps s0 id.
Proof.
  intros Hr. apply open_deps_ext.
  - intros d. by eapply old_edges.
  - intros d Hd. apply (old_edges id d r Hr) in Hd. destruct (old_dep id r d Hr Hd) as (rd & -> & ->). done.
Qed.

(** A new row waits for as many rows as it counts. *)
Lemma new_open t id :
  t ∈ ts -> id ∈ rows_of ids (Spec.name t) -> open_deps s3 id = Runs.dep_count dag t.
Proof.
  intros Ht Hid. destruct (rows_of_row t id Ht Hid) as (Hn & _).
  assert (forall d, (id, d) ∉ task_dependencies s0) as Hno.
  { intros d Hd. destruct (inv_edges _ Hinv id d Hd) as (ra & _ & Ha & _). congruence. }
  rewrite open_deps_all.
  - destruct (wire_tasks_wired ids ids_NoDup _ _ _ Hw) as [[_ H _] _].
    rewrite H, Nat2Z.inj_add, (dep_count_rows t id Ht Hid).
    assert (out_count s2 id = 0%nat) as ->; [|lia]. unfold out_count, leaving. apply filter_none.
    rewrite (bt_same _ _ _ _ _ _ _ _ Hb). intros [a d] He%elem_of_elements. cbn in *.
    apply bool_decide_eq_false. intros ->. by eapply Hno.
  - intros d [Hd|(u & Hu & Hd)]%wired_edges; [by destruct (Hno d)|].
    destruct (new_edge_rows _ u Hu Hd) as (v & g & k & g' & k' & _ & _ & _ & E). by eexists.
Qed.

Lemma new_edges t id d :
  t ∈ ts -> id ∈ rows_of ids (Spec.name t) ->
  (id, d) ∈ task_dependencies s3 <-> exists dep, dep ∈ Spec.depends_on t /\ d ∈ rows_of ids dep.
Proof.
  intros Ht Hid. destruct (rows_of_row t id Ht Hid) as (Hn & _). rewrite wired_edges. split.
  - intros [He|(u & Hu & Hid' & Hd)].
    + destruct (inv_edges _ Hinv id d He) as (ra & _ & Ha & _). congruence.
    + assert (u = t) as ->; [|done]. cbn in Hid'.
      assert (Spec.name u = Spec.name t) as E.
      { revert Hid Hid'. unfold rows_of.
        destruct (ids !! Spec.name t) as [l|] eqn:E1, (ids !! Spec.name u) as [l'|] eqn:E2;
          try set_solver. cbn. intros. by eapply (bt_apart _ _ _ _ _ _ _ _ Hb). }
      pose proof (find_name _ u (bt_names _ _ _ _ _ _ _ _ Hb) Hu) as Fu.
      rewrite E, (find_name _ t (bt_names _ _ _ _ _ _ _ _ Hb) Ht) in Fu. congruence.
  - intros (dep & Hdep & Hd). right. exists t. split; [done|]. split; [done|]. by exists dep.
Qed.

Lemma new_out t id :
  t ∈ ts -> id ∈ rows_of ids (Spec.name t) -> Z.of_nat (out_count s3 id) = Runs.dep_count dag t.
Proof.
  intros Ht Hid. rewrite <- (new_open t id Ht Hid), open_deps_all; [done|].
  intros d [Hd|(u & Hu & Hd)]%wired_edges.
  - destruct (rows_of_row t id Ht Hid) as (Hn & _).
    destruct (inv_edges _ Hinv id d Hd) as (ra & _ & Ha & _). congruence.
  - destruct (new_edge_rows _ u Hu Hd) as (v & g & k & g' & k' & _ & _ & _ & E). by eexists.
Qed.

Lemma created_keeps : Inv s3 /\ evolves s0 s3.
Proof.
  split; [split|split].
  - intros id r H. destruct (new_or_old id r H) as [[H0 _]|(t & g & k & _ & _ & ->)].
    + by apply (inv_rows _ Hinv id).
    + apply new_row_ok.
  - intros a b [He|(t & Ht & He)]%wired_edges.
    + destruct (inv_edges _ Hinv a b He) as (ra & rb & Ha & Hbb & E). exists ra, rb.
      split; [by apply old_kept|]. split; [by apply old_kept|done].
    + destruct (new_edge_rows _ t Ht He) as (u & g & k & g' & k' & E1 & _ & _ & E2).
      by eexists _, _.
  - intros id r H Hp. unfold run_held. rewrite wired_runs.
    fold (run_held s0 (T.run_id r)).
    destruct (new_or_old id r H) as [[H0 _]|(t & g & k & Ht & Hid & ->)].
    + destruct (inv_counts _ Hinv id r H0 Hp) as [C1 C2]. rewrite (old_open id r H0).
      split; [done|]. intros Hg. apply C2. intros d rd Hd Hrd.
      apply (Hg d rd); [by eapply old_edges|by apply old_kept].
    + rewrite (new_open t id Ht Hid). cbn. rewrite Hheld. lia.
  - intros id r H Hs. destruct (new_or_old id r H) as [[H0 _]|(t & g & k & _ & _ & ->)].
    + intros i x Hx E. destruct (new_or_old i x Hx) as [[Hx0 _]|(t & g & k & _ & _ & ->)].
      * by apply (inv_asked _ Hinv id r H0 Hs i).
      * cbn in E. by destruct (Hrun id r H0).
    + by destruct Hs.
  - intros id r H Hs Hag. destruct (new_or_old id r H) as [[H0 _]|(t & g & k & _ & _ & ->)]; [|done].
    destruct (inv_rules _ Hinv id r H0 Hs Hag) as [Ho Hr]. split.
    + intros d rd Hd Hrd. destruct (old_dep id r d H0 Hd) as (x & Hx & Hx').
      apply (Ho d rd); [by eapply old_edges|]. congruence.
    + eapply rule_holds_same; [|exact Hr]. intros x. rewrite !dep_statuses_spec.
      split; intros (d & rd & Hd & Hrd & E).
      * exists d, rd. apply (old_edges id d r H0) in Hd as Hd3.
        split; [done|]. split; [by apply old_kept|done].
      * destruct (old_dep id r d H0 Hd) as (y & Hy & Hy'). exists d, y.
        split; [by eapply old_edges|]. split; [done|]. congruence.
  - intros id r H. exists r. split; [by apply old_kept|apply row_evolves_refl].
  - intros id d r H. by eapply old_edges.
Qed.

End run.

(** ** The transaction *)

Section transaction.
Context {W : World} {AG : Again}.

(** No task appears, as far as stopping and superseding go. *)
Definition no_new (s s' : store) : Prop :=
  forall id, task_runs s !! id = None -> task_runs s' !! id = None.

Lemma no_new_refl s : no_new s s.
Proof. by intros id. Qed.

Lemma no_new_update p f s : no_new s (update p f s).
Proof. intros id H. by rewrite update_tasks_lookup, H. Qed.

Lemma no_new_stop_run_tasks run_id now s : no_new s (fst (Stops.stop_run_tasks run_id now s)).
Proof.
  intros id H. unfold Stops.stop_run_tasks. statement E1. statement E2. cbn [fst].
  by repeat apply no_new_update.
Qed.

Lemma finish_stopped_run_tasks run_id now s :
  task_runs (fst (Stops.finish_stopped_run run_id now s)) = task_runs s.
Proof.
  unfold Stops.finish_stopped_run. destruct (update_runs _ _ s) as [s1 n] eqn:E.
  injection E as <- <-. case_match; [done|]. by case_match.
Qed.

Lemma no_new_supersede_run by_ now acc run_id :
  no_new acc.1 (Runs.supersede_run by_ now acc run_id).1.
Proof.
  destruct acc as [s n]. unfold Runs.supersede_run. destruct (update_runs _ _ s) as [s1 m] eqn:E.
  injection E as <- <-. intros id H. case_match; [done|]. cbn [fst]. unfold Stops.stop_and_finish.
  rewrite finish_stopped_run_tasks. by apply no_new_stop_run_tasks.
Qed.

Lemma take_place_no_new dag run_id own now s s' waits :
  Runs.take_place dag run_id own now s = Ok (s', waits) -> no_new s s'.
Proof.
  unfold Runs.take_place. destruct (Spec.max_active_runs dag) as [max|]; [|intros [= <- <-]; apply no_new_refl].
  destruct (max =? 0)%N; [intros [= <- <-]; apply no_new_refl|].
  set (s0 := match default Spec.Refuse (Spec.when_full dag) with
             | Spec.Supersede => _ | _ => s end).
  assert (no_new s s0) as H0.
  { unfold s0. destruct (default _ _); try apply no_new_refl. unfold Runs.supersede_runs.
    generalize (Runs.superseded (Spec.dg_name dag) (Spec.concurrency_key dag) own s). intros l.
    assert (forall acc, no_new acc.1 (fold_left (Runs.supersede_run run_id now) l acc).1) as H;
      [|exact (H (s, 0%nat))].
    induction l as [|x l IH]; intros acc; [apply no_new_refl|]. intros id H. cbn [fold_left].
    by apply IH, no_new_supersede_run. }
  clearbody s0. cbv zeta. destruct (Runs.runs_in_flight _ _ _ s0) as [a w].
  destruct (Z.of_N max <=? a)%Z; [destruct (_ || _); [done|]|]; by intros [= <- <-].
Qed.

(** A run id nothing has borne yet. *)
Definition fresh_run (run_id : str) (s : store) : Prop :=
  forall id r, task_runs s !! id = Some r -> T.run_id r <> run_id.

Lemma fresh_run_kept run_id s s' :
  no_new s s' -> evolves s s' -> fresh_run run_id s -> fresh_run run_id s'.
Proof.
  intros Hn He Hf id r' H. destruct (task_runs s !! id) as [r|] eqn:E; [|apply Hn in E; congruence].
  destruct (ev_rows _ _ He id r E) as (x & Hx & Hev). assert (x = r') as -> by congruence.
  rewrite (ev_run _ _ Hev). by eapply Hf.
Qed.

Definition held_of (waits : bool) : Z := if waits then 1 else 0.

(** The stages of a creation that came to its end: the place it took, its run, its rows,
    its edges, and the bookkeeping that touches neither. *)
Lemma create_run_stages uuid dag rq floor free now s s' run_id :
  Runs.create_run_full uuid dag rq floor free now s = Ok (s', run_id) ->
  run_id = uuid 1%nat
  /\ exists sa s0 waits s1 s2 ids s3,
    Runs.take_place (Spec.spec dag) run_id (Runs.own rq) now sa = Ok (s0, waits)
    /\ task_runs sa = task_runs s /\ task_dependencies sa = task_dependencies s
    /\ workflow_runs sa = workflow_runs s
    /\ task_runs s1 = task_runs s0 /\ task_dependencies s1 = task_dependencies s0
    /\ (exists r, workflow_runs s1 = <[ run_id := r ]> (workflow_runs s0)
                  /\ Runs.waiting r = waits /\ R.status r = RRunning)
    /\ built dag run_id now (held_of waits) s1 (Spec.tasks (Spec.spec dag)) s2 ids
    /\ Runs.wire_tasks ids (Spec.tasks (Spec.spec dag)) s2 = Ok s3
    /\ task_runs s' = task_runs s3 /\ task_dependencies s' = task_dependencies s3
    /\ workflow_runs s' = workflow_runs s3.
Proof.
  unfold Runs.create_run_full.
  destruct (Runs.check_disk_floor _ _); [|done].
  destruct (Runs.deadline_of now (Spec.run_timeout_secs _)) as [dl|]; [|done].
  destruct (Runs.deadline_of now (Runs.alert_secs _)) as [al|]; [|done].
  destruct (Runs.hold_claim _ _); [|done].
  destruct (Runs.take_dead_letter _ _) as [sa|] eqn:Ea; [|done].
  destruct (Runs.take_place _ _ _ _ _) as [[s0 waits]|] eqn:Ep; [|done].
  set (s1 := Runs.insert_run _ _ _ _ _ _ _ _ s0).
  destruct (Runs.insert_task_specs _ _ _ _ _ _ _) as [[[s2 n2] ids]|] eqn:Et; [|done].
  destruct (Runs.wire_tasks _ _ _) as [s3|] eqn:Ew; [|done].
  destruct (Runs.resolve_claim _ _ _) as [s4|] eqn:Ec; [|done].
  intros [= <- <-]. split; [done|]. exists sa, s0, waits, s1, s2, ids, s3.
  split; [done|].
  assert (task_runs sa = task_runs s /\ task_dependencies sa = task_dependencies s
          /\ workflow_runs sa = workflow_runs s) as (E1 & E2 & E3).
  { revert Ea. unfold Runs.take_dead_letter. destruct (Runs.dead_letter rq); [|by intros [= <-]].
    case_bool_decide; [|done]. by intros [= <-]. }
  do 3 (split; [done|]).
  assert (task_runs s1 = task_runs s0 /\ task_dependencies s1 = task_dependencies s0
          /\ exists r, workflow_runs s1 = <[ uuid 1%nat := r ]> (workflow_runs s0)
                  /\ Runs.waiting r = waits /\ R.status r = RRunning) as (F1 & F2 & F3).
  { unfold s1, Runs.insert_run. split; [by destruct (Runs.trigger rq)|].
    split; [by destruct (Runs.trigger rq)|].
    exists (Runs.run_row dag rq (uuid 0%nat) now dl al waits).
    split; [by destruct (Runs.trigger rq)|]. unfold Runs.run_row.
    destruct clock_current as [[c o] so]. split; [by destruct waits|done]. }
  do 3 (split; [done|]).
  split; [by eapply (insert_task_specs_built _ _ _ _ _ _ _ []), Et; apply built_start|].
  split; [done|].
  assert (task_runs s4 = task_runs s3 /\ task_dependencies s4 = task_dependencies s3
          /\ workflow_runs s4 = workflow_runs s3) as (G1 & G2 & G3); [|done].
  revert Ec. unfold Runs.resolve_claim, Runs.upsert_source_offset.
  destruct (Runs.offset rq) as [[src pos]|]; (destruct (Runs.claim rq);
    [destruct (Runs.claim_ours _ _); [|done]|]); by intros [= <-].
Qed.

(** The store the rows are written to: the invariant holds there, and nothing of the run but
    its own row is in it yet. *)
Lemma create_run_made uuid dag rq floor free now s s' run_id :
  Inv s -> fresh_run (uuid 1%nat) s ->
  Runs.create_run_full uuid dag rq floor free now s = Ok (s', run_id) ->
  run_id = uuid 1%nat
  /\ exists waits s1 s2 ids s3,
    Inv s1 /\ evolves s s1 /\ fresh_run run_id s1
    /\ (exists r, workflow_runs s1 !! run_id = Some r /\ Runs.waiting r = waits /\ R.status r = RRunning)
    /\ run_held s1 run_id = held_of waits
    /\ built dag run_id now (held_of waits) s1 (Spec.tasks (Spec.spec dag)) s2 ids
    /\ Runs.wire_tasks ids (Spec.tasks (Spec.spec dag)) s2 = Ok s3
    /\ task_runs s' = task_runs s3 /\ task_dependencies s' = task_dependencies s3
    /\ workflow_runs s' = workflow_runs s3.
Proof.
  intros Hi Hf H. apply create_run_stages in H
    as (-> & sa & s0 & waits & s1 & s2 & ids & s3 & Hp & E1 & E2 & E3 & F1 & F2 & (r & F3 & Hw & Hst)
        & Hb & Hwire & G).
  assert (keeps s sa) as K1.
  { apply Inv_other; [done..|]. intros id t _. unfold run_held. by rewrite E3. }
  destruct (K1 Hi) as [Ia Ea]. destruct (take_place_keeps _ _ _ _ _ _ _ Hp Ia) as [I0 E0].
  assert (fresh_run (uuid 1%nat) s0) as Hf0.
  { eapply (fresh_run_kept _ sa); [by eapply take_place_no_new|done|].
    unfold fresh_run. by rewrite E1. }
  assert (keeps s0 s1) as K2.
  { apply Inv_other; [done..|]. intros id t Ht. unfold run_held. rewrite F3, lookup_insert_ne; [done|].
    by apply not_eq_sym, (Hf0 id). }
  destruct (K2 I0) as [I1 Ev1]. split; [done|]. exists waits, s1, s2, ids, s3.
  split; [done|]. split; [exact (evolves_trans _ _ _ Ea (evolves_trans _ _ _ E0 Ev1))|].
  split; [unfold fresh_run; by rewrite F1|].
  split; [exists r; by rewrite F3, lookup_insert_eq|].
  split; [|done]. unfold run_held. rewrite F3, lookup_insert_eq, Hw. by destruct waits.
Qed.

Lemma create_run_keeps uuid dag rq floor free now s s' run_id :
  fresh_run (uuid 1%nat) s ->
  Runs.create_run_full uuid dag rq floor free now s = Ok (s', run_id) -> keeps s s'.
Proof.
  intros Hf H Hi. destruct (create_run_made _ _ _ _ _ _ _ _ _ Hi Hf H)
    as (-> & waits & s1 & s2 & ids & s3 & I1 & Ev1 & Hf1 & _ & Hheld & Hb & Hwire & G1 & G2 & G3).
  destruct (created_keeps _ _ _ _ _ _ _ _ Hb Hwire I1 Hf1 Hheld) as [I3 Ev3].
  assert (keeps s3 s') as K4.
  { apply Inv_other; [done..|]. intros id t _. unfold run_held. by rewrite G3. }
  destruct (K4 I3) as [I' Ev']. split; [done|].
  repeat (eapply evolves_trans; [eassumption|]). apply evolves_refl.
Qed.

End transaction.
End Create.
