(* ===== verification/Reach.v ===== *)
(** * What the operations can reach

    One step is one call of one operation, with any arguments: a worker, an engine tick, an
    approver or a client may make the next one, in any order and as often as they like, and
    any of them may stop for good between two calls.  What a caller must have is in the
    rule: a task is parked under a claim its worker still keeps, and a run is made under an
    id nothing has borne.

    An operation of one transaction is one step.  The sweeps of several, the advance, the
    reaps, the reconciliations and the polls, are a step as a whole and, apart, a step for
    each of their statements or transactions, so that anyone may act between two of them.
    What such a statement was read under may be older than the store it writes: a candidate
    of an advance was read at one store, its dependencies' statuses at a later one, its
    [when] at any time at all ([settle_one]), and a due row is any row ([expire_one] and the
    others).

    Two kinds of operation are no step here, and [reachable] is not every state the system
    has.  Putting tasks back (a retry by hand, a rerun, a clear) is [Life]'s, in histories
    with the conditions of [Life.again], and [History]'s, in histories with none.  The sweep
    of the fan-outs ([Fanout]) gives a running barrier new dependencies; it is a step of
    [History]. *)

From S2P Require Import Tables Cond Stops Scheduler Parks Runs Invariant Preserve PreserveRuns Create.

Module Reach.

Import Models Invariant.

(** Here no task is ever put back; [Life] has the histories in which they are. *)
#[global] Instance never : Again := fun _ => False.

(** [s] is what [s0] has come to by such steps: what was read at [s0] was read of a store
    with its counts right, and no row or edge of it has gone ([steps_was]). *)
Definition was (s0 s : store) : Prop := edges_ok s0 /\ counts_ok s0 /\ evolves s0 s.

Section reach.
Context {W : World}.

Inductive step (s : store) : store -> Prop :=
(* Making, admitting and ending runs *)
| create_run uuid dag rq floor free now s' run_id :
    Create.fresh_run (uuid 1%nat) s ->
    Runs.create_run_full uuid dag rq floor free now s = Ok (s', run_id) -> step s s'
| let_runs_in now : step s (fst (Runs.admit_waiting_runs now s))
| reap woken now : step s (fst (Runs.reap_woken woken now s))
| check_complete run_id now : step s (fst (Runs.is_run_complete run_id now s))
(* Stopping *)
| cancel run_id now : step s (fst (Stops.cancel_run run_id now s))
| overdue now : step s (fst (Stops.cancel_overdue_runs now s))
| end_stopped now : step s (fst (Stops.end_stopped_runs now s))
| settle task_id worker fence now : step s (fst (Stops.settle_stopped_task task_id worker fence now s))
| release task_id worker fence secs now :
    step s (fst (Stops.release_stopping_task task_id worker fence secs now s))
| teardowns worker limit classes held now :
    step s (fst (Stops.claim_teardowns worker limit classes held now s))
(* Advancing and claiming *)
| recover now : step s (fst (Scheduler.recover_expired_leases now s))
| advance now : step s (fst (Scheduler.advance_ready_tasks now s))
| claim worker limit classes caps nongang now :
    step s (fst (Scheduler.claim_ready_filtered worker limit classes caps nongang now s))
| claim_gang worker capacity classes caps now :
    step s (fst (Scheduler.claim_ready_gang worker capacity classes caps now s))
| reclass from to age attempts now :
    step s (fst (Scheduler.reclass_ready_tasks from to age attempts now s))
(* A worker's reports *)
| succeed task_id worker fence output cached now :
    step s (fst (Scheduler.mark_task_succeeded_inner task_id worker fence output cached now s))
| fail task_id worker fence error now :
    step s (fst (Scheduler.mark_task_failed task_id worker fence error now s))
| retry task_id worker fence error at_ end_ now :
    step s (fst (Scheduler.retry_task task_id worker fence error at_ end_ now s))
| quota_wait task_id worker fence detail wait now :
    step s (fst (Scheduler.requeue_quota_wait task_id worker fence detail wait now s))
| gang_failed task_id now : step s (fst (Scheduler.cancel_gang_siblings task_id now s))
| renew task_id worker fence extend now :
    step s (fst (Scheduler.renew_task_lease task_id worker fence extend now s))
| note task_id fence text : step s (Scheduler.note_task_log task_id fence text s)
| append task_id fence chunk reset : step s (Scheduler.append_task_output task_id fence chunk reset s)
| checkpoint run_id task_id uri marker :
    step s (fst (Scheduler.record_task_checkpoint run_id task_id uri marker s))
(* Parking *)
| park_sub task_id fence child :
    PreserveRuns.claim_kept task_id fence s -> step s (fst (Parks.park_subworkflow task_id fence child s))
| release_sub task_id fence :
    PreserveRuns.claim_kept task_id fence s -> step s (fst (Parks.release_subworkflow_task task_id fence s))
| park_time task_id fence wake :
    PreserveRuns.claim_kept task_id fence s -> step s (fst (Parks.park_wait task_id fence wake s))
| park_url task_id fence url poll :
    PreserveRuns.claim_kept task_id fence s -> step s (fst (Parks.park_wait_url task_id fence url poll s))
| park_dataset task_id fence uri :
    PreserveRuns.claim_kept task_id fence s -> step s (fst (Parks.park_wait_dataset task_id fence uri s))
| park_job task_id fence kind handle endpoint poll deadline :
    PreserveRuns.claim_kept task_id fence s ->
    step s (fst (Parks.park_external task_id fence kind handle endpoint poll deadline s))
(* Resolving what is parked *)
| approve run_id task_id ok by_ comment now :
    step s (fst (Parks.resolve_approval run_id task_id ok by_ comment now s))
| expire_approvals now : step s (fst (Parks.resolve_expired_approvals now s))
| reconcile_sub now : step s (Parks.reconcile_subworkflows now s).1.1
| reconcile_time now : step s (Parks.reconcile_waits now s).1.1
| claim_url limit secs now : step s (fst (Parks.claim_due_url_waits limit secs now s))
| repark_url task_id at_ : step s (fst (Parks.repark_url_wait task_id at_ s))
| resolve_url task_id now : step s (fst (Parks.resolve_url_wait task_id now s))
| reconcile_dataset now : step s (Parks.reconcile_dataset_waits now s).1.1
| claim_job limit secs now : step s (fst (Parks.claim_due_external_polls limit secs now s))
| repark_job task_id handle at_ : step s (fst (Parks.repark_external task_id handle at_ s))
| resolve_job task_id handle output now :
    step s (fst (Parks.resolve_external task_id handle output now s))
| fail_job task_id handle reason keep now :
    step s (fst (Parks.fail_external_impl task_id handle reason keep now s))
| clear_job task_id handle : step s (fst (Parks.clear_external_handle task_id handle s))
(* The sweeps of several transactions, one at a time *)
| ready_shaped now : step s (fst (Scheduler.ready_default_shaped now s))
| skip_shaped now : step s (fst (Scheduler.skip_default_shaped now s))
| settle_one s0 s1 id cand pass now :
    was s0 s1 -> evolves s1 s -> task_runs s0 !! id = Some cand -> Scheduler.unblocked cand = true ->
    step s (fst (Scheduler.settle_candidate now id cand
                   (Scheduler.decide_candidate (dep_statuses s1 id) pass cand) s))
| reap_one s0 run_id r x now :
    was s0 s -> workflow_runs s0 !! run_id = Some r -> Runs.reapable r = true ->
    Runs.run_outcome (Runs.tasks_of run_id s0) = Some x ->
    step s (fst (Runs.finalize now (s, []) (run_id, x)))
| admit_keys keys now : step s (fst (fold_left (Runs.admit_key now) keys (s, [])))
| end_stopped_one s0 run_id r now :
    was s0 s -> workflow_runs s0 !! run_id = Some r -> Stops.stranded s0 run_id r = true ->
    step s (fst (Stops.end_stopped_run now (s, 0%nat) run_id))
| expire_one now cand : step s (fst (Parks.expire_approval now (s, []) cand))
| sub_one now parked : step s (fst (Parks.reconcile_subworkflow now (s, []) parked))
| time_one now due : step s (fst (Parks.resolve_wait now (s, []) due))
| dataset_one now due : step s (fst (Parks.resolve_dataset_wait now (s, []) due))
| url_one until due : step s (fst (Parks.claim_url_wait until (s, []) due))
| job_one until due : step s (fst (Parks.claim_external_poll until (s, []) due)).

Lemma settle_one_keeps {AG : Again} s0 s1 s id cand pass now :
  was s0 s1 -> evolves s1 s -> task_runs s0 !! id = Some cand -> Scheduler.unblocked cand = true ->
  keeps s (fst (Scheduler.settle_candidate now id cand
                  (Scheduler.decide_candidate (dep_statuses s1 id) pass cand) s)).
Proof.
  intros (Hed & Hct & He1) He2 Hc Hu. eapply Preserve.settle_candidate_keeps; eauto.
  unfold Scheduler.decide_candidate. destruct pass as [pass|]; [|done].
  destruct (pass && _) eqn:Ep; [|done]. intros _. apply andb_true_iff in Ep as [_ Ep].
  by apply trigger_rule_ready_spec.
Qed.

(** One row of a sweep, as the sweep with nothing done yet. *)
Ltac one_keeps s :=
  lazymatch goal with
  | |- context [Stops.end_stopped_run] => apply (Preserve.end_stopped_run_keeps _ (s, 0%nat))
  | |- context [Runs.finalize] => apply (PreserveRuns.finalize_keeps _ (s, []))
  | |- context [Parks.expire_approval] => apply (PreserveRuns.expire_approval_keeps _ (s, []))
  | |- context [Parks.reconcile_subworkflow] =>
      apply (PreserveRuns.reconcile_subworkflow_keeps _ (s, []))
  | |- context [Parks.resolve_wait] => apply (PreserveRuns.resolve_wait_keeps _ (s, []))
  | |- context [Parks.resolve_dataset_wait] => apply (PreserveRuns.resolve_dataset_wait_keeps _ (s, []))
  | |- context [Parks.claim_url_wait] => apply (PreserveRuns.claim_url_wait_keeps _ (s, []))
  | |- context [Parks.claim_external_poll] => apply (PreserveRuns.claim_external_poll_keeps _ (s, []))
  end.

Lemma step_keeps {AG : Again} s s' : step s s' -> keeps s s'.
Proof.
  intros []; try (by eapply Create.create_run_keeps); try (by eapply settle_one_keeps);
    try one_keeps s;
    eauto using PreserveRuns.admit_waiting_runs_keeps, PreserveRuns.reap_woken_keeps,
      PreserveRuns.is_run_complete_keeps, Preserve.cancel_run_keeps,
      Preserve.cancel_overdue_runs_keeps, Preserve.end_stopped_runs_keeps,
      Preserve.settle_stopping_keeps, Preserve.release_stopping_task_keeps,
      Preserve.claim_teardowns_keeps, Preserve.recover_keeps, Preserve.advance_ready_tasks_keeps,
      Preserve.claim_ready_filtered_keeps, Preserve.claim_ready_gang_keeps,
      Preserve.reclass_ready_tasks_keeps, Preserve.mark_task_succeeded_keeps,
      Preserve.mark_task_failed_keeps, Preserve.retry_task_keeps,
      Preserve.requeue_quota_wait_keeps, Preserve.cancel_gang_siblings_keeps,
      Preserve.renew_task_lease_keeps, Preserve.note_task_log_keeps,
      Preserve.append_task_output_keeps, Preserve.record_task_checkpoint_keeps,
      Preserve.ready_default_shaped_keeps, Preserve.skip_default_shaped_keeps.
  all: eauto using PreserveRuns.park_subworkflow_keeps, PreserveRuns.release_subworkflow_task_keeps,
      PreserveRuns.park_wait_keeps, PreserveRuns.park_wait_url_keeps,
      PreserveRuns.park_wait_dataset_keeps, PreserveRuns.park_external_keeps,
      PreserveRuns.resolve_approval_keeps, PreserveRuns.resolve_expired_approvals_keeps,
      PreserveRuns.reconcile_subworkflows_keeps, PreserveRuns.reconcile_waits_keeps,
      PreserveRuns.claim_due_url_waits_keeps, PreserveRuns.repark_url_wait_keeps,
      PreserveRuns.resolve_url_wait_keeps, PreserveRuns.reconcile_dataset_waits_keeps,
      PreserveRuns.claim_due_external_polls_keeps, PreserveRuns.repark_external_keeps,
      PreserveRuns.resolve_external_keeps, PreserveRuns.fail_external_keeps,
      PreserveRuns.clear_external_handle_keeps, PreserveRuns.admit_keys_keeps.
Qed.

Definition steps : store -> store -> Prop := rtc step.
Definition reachable (s : store) : Prop := steps empty_store s.

Lemma Inv_empty {AG : Again} : Inv empty_store.
Proof. split; intros id; by intros. Qed.

Lemma steps_keeps {AG : Again} s s' : steps s s' -> keeps s s'.
Proof.
  induction 1 as [s|s t u H _ IH]; [apply keeps_refl|].
  eapply keeps_trans; [by apply step_keeps|exact IH].
Qed.

Lemma reachable_inv s : reachable s -> Inv s.
Proof. intros H. apply (steps_keeps _ _ H), Inv_empty. Qed.

Lemma reachable_evolves s s' : reachable s -> steps s s' -> evolves s s'.
Proof. intros H Hs. by apply (steps_keeps _ _ Hs), reachable_inv. Qed.

(** Whatever was read of a store the system reached, it was read of such a store. *)
Lemma steps_was s0 s : reachable s0 -> steps s0 s -> was s0 s.
Proof.
  intros Hr Hs. pose proof (reachable_inv s0 Hr) as Hi.
  split; [apply Hi|]. split; [apply Hi|]. by apply reachable_evolves.
Qed.

(** An advance that reads its candidate, then the statuses, then the outputs its [when]
    names, and then writes, with anything between them, is a step where it writes. *)
Lemma late_settle s0 s1 s2 s now id cand :
  reachable s0 -> steps s0 s1 -> steps s1 s2 -> steps s2 s ->
  (id, cand) ∈ Scheduler.advance_candidates s0 ->
  step s (fst (Scheduler.settle_candidate now id cand
                 (Scheduler.decide_candidate (dep_statuses s1 id) (Scheduler.eval_row_when s2 cand) cand) s)).
Proof.
  intros Hr H01 H12 H2 Hin. pose proof (Preserve.advance_candidates_of s0) as Hall.
  apply (proj1 (Forall_forall _ _) Hall) in Hin as [Hc Hu]. eapply settle_one; eauto.
  - by apply steps_was.
  - eapply reachable_evolves; [|by etrans]. unfold reachable. by etrans.
Qed.

End reach.
End Reach.
