(* ===== verification/Safety.v ===== *)
(** * What holds of everything the operations can reach

    A report under a spent claim is refused, the count on a waiting task is the number of
    its open dependencies, and, while nothing is put back, a gate is decided once. *)

From S2P Require Import Tables Cond Stops Scheduler Parks Runs Invariant Preserve Reach.

Module Safety.

Import Models Invariant.

Section safety.
Context {W : World}.

(** ** Claims *)

(** The claim [fence] on [id] is not (or no more) [worker]'s. *)
Definition spent (id worker : str) (fence : Z) (s : store) : Prop :=
  exists r, task_runs s !! id = Some r /\ (fence <= T.version r)%Z
            /\ (T.version r = fence -> T.claimed_by r <> Some worker).

(** No row is held by [worker] under that claim: spent, or gone with its task. *)
Definition unheld (id worker : str) (fence : Z) (s : store) : Prop :=
  forall i r, task_runs s !! i = Some r -> Stops.held_by id worker fence i r = false.

Lemma spent_unheld id worker fence s : spent id worker fence s -> unheld id worker fence s.
Proof.
  intros (r & Hr & _ & Hc) i x Hx. apply not_true_iff_false. unfold Stops.held_by. intros H.
  where_ H. subst i. assert (x = r) as -> by congruence. by apply Hc.
Qed.

Lemma gone_unheld id worker fence s : task_runs s !! id = None -> unheld id worker fence s.
Proof.
  intros Hn i x Hx. apply not_true_iff_false. unfold Stops.held_by. intros H. where_ H. congruence.
Qed.

Lemma unheld_update id worker fence s p f :
  unheld id worker fence s -> (forall i r, p i r = true -> Stops.held_by id worker fence i r = true) ->
  update_tasks p f s = (s, 0%nat).
Proof.
  intros Hs Hp.
  assert (snd (update_tasks p f s) = 0%nat) as H0.
  { rewrite update_tasks_rows. apply affected_none. intros i r Hr. apply not_true_iff_false.
    intros E%Hp. by rewrite (Hs i r Hr) in E. }
  rewrite (surjective_pairing (update_tasks p f s)), H0. f_equal. by apply update_tasks_none.
Qed.

Lemma unheld_settle id worker fence now s :
  unheld id worker fence s -> Stops.settle_stopping id worker fence now s = (s, false).
Proof.
  intros Hs. unfold Stops.settle_stopping.
  rewrite (unheld_update _ _ _ _ _ _ Hs); [done|]. by intros i r [H _]%andb_true_iff.
Qed.

(** Every report under the claim is refused, and leaves the whole store as it was. *)
Record refused (id worker : str) (fence : Z) (s : store) : Prop := {
  rf_success : forall output cached now,
    Scheduler.mark_task_succeeded_inner id worker fence output cached now s = (s, false);
  rf_failure : forall error now, Scheduler.mark_task_failed id worker fence error now s = (s, false);
  rf_retry : forall error at_ end_ now,
    Scheduler.retry_task id worker fence error at_ end_ now s = (s, false);
  rf_wait : forall detail wait now,
    Scheduler.requeue_quota_wait id worker fence detail wait now s = (s, Policy.Quota.Stale);
  rf_renew : forall extend now, Scheduler.renew_task_lease id worker fence extend now s = (s, false);
  rf_settle : forall now, Stops.settle_stopped_task id worker fence now s = (s, false);
  rf_release : forall secs now, Stops.release_stopping_task id worker fence secs now s = (s, false);
}.

Lemma unheld_refused s id worker fence : unheld id worker fence s -> refused id worker fence s.
Proof.
  intros Hs.
  assert (forall i r, Scheduler.fenced id worker fence i r = true ->
            Stops.held_by id worker fence i r = true) as Hf by (by intros i r [H _]%andb_true_iff).
  split; intros.
  - unfold Scheduler.mark_task_succeeded_inner. rewrite (unheld_update _ _ _ _ _ _ Hs Hf). cbn [Nat.eqb].
    by rewrite unheld_settle.
  - unfold Scheduler.mark_task_failed. rewrite (unheld_update _ _ _ _ _ _ Hs Hf). cbn [Nat.eqb].
    by rewrite unheld_settle.
  - unfold Scheduler.retry_task. rewrite (unheld_update _ _ _ _ _ _ Hs Hf). cbn [Nat.eqb].
    by rewrite unheld_settle.
  - unfold Scheduler.requeue_quota_wait. case_match eqn:E; [|by rewrite unheld_settle].
    apply affected_lookup in E as [Hr Hq]. unfold Scheduler.quota_held in Hq.
    apply andb_true_iff in Hq as [Hq _]. apply andb_true_iff in Hq as [Hq _].
    by rewrite (Hs _ _ Hr) in Hq.
  - unfold Scheduler.renew_task_lease. rewrite (unheld_update _ _ _ _ _ _ Hs); [done|].
    by intros i r [H _]%andb_true_iff.
  - by apply unheld_settle.
  - unfold Stops.release_stopping_task. rewrite (unheld_update _ _ _ _ _ _ Hs); [done|].
    by intros i r [H _]%andb_true_iff.
Qed.

Lemma spent_refused s id worker fence : spent id worker fence s -> refused id worker fence s.
Proof. intros H. by apply unheld_refused, spent_unheld. Qed.

(** C2: a stale report changes nothing.  A success, a failure, a retry, a quota wait, a
    renewal and a settlement sent under a spent claim all answer that they were not
    accepted, and leave the whole store as it was. *)
Theorem stale_reports s id worker fence : spent id worker fence s -> refused id worker fence s.
Proof. apply spent_refused. Qed.

(** ** Outcomes *)

(** A row that is over stays as it is where its outcome is read. *)
Lemma over_stays s s' id r :
  Reach.reachable s -> Reach.steps s s' -> task_runs s !! id = Some r ->
  terminal r = true ->
  exists r', task_runs s' !! id = Some r' /\ T.status r' = T.status r
             /\ T.output r' = T.output r /\ T.finished_at r' = T.finished_at r.
Proof.
  intros Hr Hs H Ht. destruct (Reach.reachable_evolves s s' Hr Hs) as [Hev _].
  destruct (Hev id r H) as (r' & H' & He). exists r'. split; [done|]. by apply (ev_final _ _ He).
Qed.

(** The count is right, while nothing is put back.  A pending task of a run that has its place counts at least its
    dependencies that are not over, and exactly those when none of them is a gang's; in a
    waiting run it counts one more. *)
Theorem count_right s id r :
  Reach.reachable s -> task_runs s !! id = Some r -> T.status r = Pending ->
  let n := (Z.of_nat (length (List.filter (fun x => negb (Runs.terminal x)) (dep_statuses s id)))
            + run_held s (T.run_id r))%Z in
  (n <= T.remaining_deps r)%Z /\ (no_gang_dep s id -> T.remaining_deps r = n).
Proof.
  intros Hr H Hp. pose proof (Reach.reachable_inv s Hr) as Hi.
  rewrite <- open_deps_statuses. by apply (inv_counts _ Hi id r).
Qed.

(** What a resolution does: it finds its row, or changes nothing. *)
Lemma resolve_cases id p f s :
  (exists r, task_runs s !! id = Some r /\ p r = true
     /\ Parks.resolve id p f s
        = (decrement_dependents id (update (fun i r => bool_decide (i = id) && p r) f s), true))
  \/ ((forall r, task_runs s !! id = Some r -> p r = false) /\ Parks.resolve id p f s = (s, false)).
Proof.
  unfold Parks.resolve. Preserve.statement E. rewrite update_tasks_rows, affected_one in E.
  destruct (task_runs s !! id) as [r|] eqn:Er.
  - destruct (p r) eqn:Ep.
    + left. exists r. rewrite map_size_singleton in E. by rewrite E.
    + right. rewrite map_size_empty in E. split; [by intros x [= <-]|]. rewrite E. cbn [Nat.eqb].
      rewrite update_tasks_none; [done|]. by rewrite update_tasks_rows, affected_one, Er, Ep.
  - right. rewrite map_size_empty in E. split; [done|]. rewrite E. cbn [Nat.eqb].
    rewrite update_tasks_none; [done|]. by rewrite update_tasks_rows, affected_one, Er.
Qed.

(** The row of a task that was resolved. *)
Lemma resolved_row id p f s r :
  task_runs s !! id = Some r -> p r = true -> T.status (f r) <> Pending ->
  task_runs (decrement_dependents id (update (fun i r => bool_decide (i = id) && p r) f s)) !! id
  = Some (f r).
Proof.
  intros Hr Hp Hf. rewrite decrement_lookup, update_tasks_lookup, Hr. cbn.
  rewrite (bool_decide_true (id = id)), Hp by done. cbn. unfold is_status. rewrite (bool_decide_false _ Hf).
  by rewrite andb_false_r.
Qed.

(** A gate is decided once, while nothing is put back.  When a decision on an approval was taken, every later
    decision on it, a timeout's or another approver's, is refused and changes nothing. *)
Theorem approval_decided_once s s1 s2 run_id id ok by_ comment now run_id' ok' by' comment' now' :
  Reach.reachable s ->
  Parks.resolve_approval run_id id ok by_ comment now s = (s1, true) -> Reach.steps s1 s2 ->
  Parks.resolve_approval run_id' id ok' by' comment' now' s2 = (s2, false).
Proof.
  intros Hr E Hs.
  assert (Reach.reachable s1) as Hr1.
  { eapply rtc_r; [exact Hr|]. change s1 with (fst (s1, true)). rewrite <- E. apply Reach.approve. }
  assert (exists r, task_runs s1 !! id = Some r /\ terminal r = true) as (r1 & H1 & Ht).
  { unfold Parks.resolve_approval in E. match type of E with Parks.resolve _ ?p ?f _ = _ =>
      destruct (resolve_cases id p f s) as [(r & Hx & Hp & E')|[_ E']]; rewrite E' in E end; [|done].
    apply (f_equal fst) in E. cbn [fst] in E. rewrite <- E.
    eexists. split; [apply resolved_row; [done..|by destruct ok]|by destruct ok]. }
  destruct (over_stays s1 s2 id r1 Hr1 Hs H1 Ht) as (r2 & H2 & Est & _).
  unfold Parks.resolve_approval. match goal with |- Parks.resolve _ ?p ?f _ = _ =>
    destruct (resolve_cases id p f s2) as [(r & Hx & Hp & _)|[_ E']]; [exfalso|exact E'] end.
  apply andb_true_iff in Hp as [_ Hp]. apply is_status_true in Hp.
  assert (r = r2) as -> by congruence. unfold terminal in Ht. rewrite <- Est, Hp in Ht. done.
Qed.

End safety.
End Safety.
