(* ===== verification/Progress.v ===== *)
(** * What an advance does

    An advance leaves no task pending that had nothing left to wait for, and a run that is
    under way always has a next move. *)

From S2P Require Import Tables Cond Stops Scheduler Runs Invariant Preserve Reach.

Module Progress.

Import Models Invariant Preserve.

Section moves.
Context {W : World} {AG : Again}.

(** ** Every unblocked task moves *)

(** A store on which the task has left [pending], or can still leave it. *)
Definition to_move (id : str) (s : store) : Prop :=
  exists r, task_runs s !! id = Some r /\ (T.status r = Pending -> (T.remaining_deps r <= 0)%Z).

Definition moved (id : str) (s : store) : Prop :=
  exists r, task_runs s !! id = Some r /\ T.status r <> Pending.

Lemma moved_evolves id s s' : evolves s s' -> moved id s -> moved id s'.
Proof.
  intros [He _] (r & H & Hp). destruct (He id r H) as (r' & H' & Hev). exists r'. split; [done|].
  intros E. by apply Hp, (ev_pending _ _ Hev).
Qed.

Lemma to_move_decrement id d s : to_move id s -> to_move id (decrement_dependents d s).
Proof.
  intros (r & H & Hp). unfold to_move. rewrite decrement_lookup, H. cbn. eexists. split; [done|].
  case_match; [|done]. unfold set. cbn. intros E%Hp. lia.
Qed.

Lemma to_move_update id p f s :
  (forall r, T.status (f r) <> Pending) -> to_move id s -> to_move id (update p f s).
Proof.
  intros Hf (r & H & Hp). unfold to_move. rewrite update_tasks_lookup, H. cbn. eexists.
  split; [done|]. case_match; [|done]. intros E. by destruct (Hf r).
Qed.

Lemma to_move_default_shaped id now s :
  to_move id s -> to_move id (fst (Scheduler.advance_default_shaped now s)).
Proof.
  intros H. unfold Scheduler.advance_default_shaped, Scheduler.ready_default_shaped,
    Scheduler.skip_default_shaped. statement E1. statement E2. cbn [fst].
  match goal with |- context [fold_left _ ?l _] => generalize l; intros xs end.
  apply (to_move_update id (Scheduler.fast_ready s) (Scheduler.ready_row now)) in H; [|done].
  apply (to_move_update id (Scheduler.fast_skip (update (Scheduler.fast_ready s)
           (Scheduler.ready_row now) s)) (Scheduler.skipped_row now)) in H; [|done].
  clear E1 E2. match type of H with to_move _ ?x => generalize dependent x end.
  induction xs as [|x xs IH]; intros s0 H; [done|]. cbn [fold_left].
  by apply IH, to_move_decrement.
Qed.

(** A candidate leaves [pending] on its turn, whatever its [when] and its rule say. *)
Lemma end_pending_moved id f s r :
  task_runs s !! id = Some r -> (forall r, T.status (f r) <> Pending) ->
  moved id (fst (Scheduler.end_pending id f s)).
Proof.
  intros H Hf. unfold Scheduler.end_pending. statement E. cbn [fst].
  assert (moved id (update (Scheduler.pending_row id) f s)) as Hm.
  { exists (if Scheduler.pending_row id id r then f r else r). rewrite update_tasks_lookup, H.
    split; [done|]. unfold Scheduler.pending_row. rewrite bool_decide_true by done. cbn.
    destruct (is_status Pending r) eqn:Ep; [done|]. intros E'%is_status_true. congruence. }
  case_match; [|done]. destruct Hm as (x & Hx & Hp). unfold moved. rewrite decrement_lookup, Hx.
  cbn. eexists. split; [done|]. by case_match.
Qed.

Lemma advance_candidate_moves now acc id cand r :
  task_runs acc.1 !! id = Some r -> moved id (Scheduler.advance_candidate now acc (id, cand)).1.
Proof.
  destruct acc as [s n]. cbn [fst]. intros H.
  unfold Scheduler.advance_candidate, Scheduler.decide_candidate, Scheduler.settle_candidate.
  destruct (Scheduler.eval_row_when s cand) as [pass|msg].
  - destruct (pass && _).
    + statement E. cbn [fst].
      exists (if Scheduler.pending_row id id r then Scheduler.advanced_row now cand r else r).
      rewrite update_tasks_lookup, H. split; [done|].
      unfold Scheduler.pending_row. rewrite bool_decide_true by done. cbn [andb].
      destruct (is_status Pending r) eqn:Ep.
      * unfold Scheduler.advanced_row. case_match; [done|]. by case_match.
      * intros E'%is_status_true. congruence.
    + pose proof (end_pending_moved id (Scheduler.skipped_row now) s r H ltac:(done)) as Hm.
      by destruct (Scheduler.end_pending _ _ s).
  - match goal with |- context [Scheduler.end_pending id ?f s] =>
      pose proof (end_pending_moved id f s r H ltac:(done)) as Hm end.
    by destruct (Scheduler.end_pending _ _ s).
Qed.

Lemma advance_exotic_moves now s id r :
  Inv s -> task_runs s !! id = Some r -> (T.status r = Pending -> T.remaining_deps r = 0%Z) ->
  moved id (fst (Scheduler.advance_exotic_once now s)).
Proof.
  intros Hi Hr Hu. destruct (decide (T.status r = Pending)) as [Hp|Hp]; cycle 1.
  { destruct (advance_exotic_once_keeps now s Hi) as [_ He]. eapply moved_evolves; [exact He|].
    by exists r. }
  assert ((id, r) ∈ Scheduler.advance_candidates s) as Hin.
  { unfold Scheduler.advance_candidates. rewrite sort_by_perm.
    apply elem_of_map_to_list, affected_lookup. split; [done|]. unfold Scheduler.unblocked, is_status.
    rewrite Hp, Hu by done. done. }
  pose proof (advance_candidates_of s) as Hall. unfold Scheduler.advance_exotic_once.
  assert (Inv (s, 0%nat).1 /\ evolves s (s, 0%nat).1) as Hacc by (split; [done|apply evolves_refl]).
  revert Hin Hacc. generalize (s, 0%nat).
  induction Hall as [|[i cand] l [Hc Hcu] Hl IH]; intros acc Hin [Ha He]; [set_solver|].
  cbn [fold_left]. destruct (advance_candidate_keeps s now acc i cand Hi Hc Hcu He Ha) as [Ha' He'].
  assert (evolves s (Scheduler.advance_candidate now acc (i, cand)).1) as Hs
    by (by eapply evolves_trans).
  apply elem_of_cons in Hin as [E|Hin]; [|by apply IH].
  injection E as <- <-. destruct (ev_rows _ _ He id r Hr) as (x & Hx & _).
  destruct (advance_fold_keeps s now l _ Hi Hl Hs Ha') as [_ Hf].
  eapply moved_evolves; [exact Hf|]. by eapply advance_candidate_moves.
Qed.

Lemma advance_rounds_moves k now s n id r :
  Inv s -> task_runs s !! id = Some r -> Scheduler.unblocked r = true ->
  moved id (fst (Scheduler.advance_rounds (S k) now s n)).
Proof.
  intros Hi H Hu. unfold Scheduler.unblocked in Hu. where_ Hu.
  cbn [Scheduler.advance_rounds]. case_match eqn:E0.
  { apply Nat.eqb_eq, affected_none with (i := id) (r := r) in E0; [|done].
    unfold Scheduler.unblocked, is_status in E0. by rewrite Hu, Hw in E0. }
  pose proof (advance_default_shaped_keeps now s Hi) as [Hi1 He1].
  pose proof (to_move_default_shaped id now s ltac:(exists r; split; [done|lia])) as Hm.
  destruct (Scheduler.advance_default_shaped now s) as [s1 fast]. cbn [fst] in *.
  destruct Hm as (r1 & H1 & Hm).
  assert (moved id (fst (Scheduler.advance_exotic_once now s1))) as Hmv.
  { apply (advance_exotic_moves now s1 id r1 Hi1 H1). intros Hp. specialize (Hm Hp).
    destruct (inv_counts _ Hi1 id r1 H1 Hp) as [Hlow _].
    pose proof (open_deps_nonneg s1 id). pose proof (run_held_nonneg s1 (T.run_id r1)). lia. }
  pose proof (advance_exotic_once_keeps now s1 Hi1) as [Hi2 He2].
  destruct (Scheduler.advance_exotic_once now s1) as [s2 slow]. cbn [fst] in *.
  case_match; [done|]. eapply moved_evolves; [|exact Hmv]. by apply advance_rounds_keeps.
Qed.

Lemma unblocked_moves now s id r :
  Inv s -> task_runs s !! id = Some r -> Scheduler.unblocked r = true ->
  moved id (fst (Scheduler.advance_ready_tasks now s)).
Proof. apply advance_rounds_moves. Qed.

(** ** A run under way has a next move *)

Lemma open_dep s id :
  (0 < open_deps s id)%Z ->
  exists d r, (id, d) ∈ task_dependencies s /\ task_runs s !! d = Some r /\ terminal r = false.
Proof.
  unfold open_deps. destruct (List.filter _ _) as [|[a d] l] eqn:E; [done|]. intros _.
  assert (In (a, d) (List.filter (at_edge (fun r => negb (terminal r)) s id)
                       (elements (task_dependencies s)))) as Hin by (rewrite E; by left).
  apply filter_In in Hin as [Hin%list_elem_of_In%elem_of_elements He].
  unfold at_edge in He. cbn in He. apply andb_true_iff in He as [->%bool_decide_eq_true He].
  destruct (task_runs s !! d) as [r|] eqn:Er; [|done]. exists d, r. by apply negb_true_iff in He.
Qed.

(** In a run that is not held, whose tasks are in no gang and depend on each other in no
    circle: something pending with nothing else under way leaves something unblocked. *)
Lemma run_moves now s run (rank : str -> nat) id r :
  Inv s ->
  (forall a b, (a, b) ∈ task_dependencies s -> rank b < rank a)%nat ->
  (forall i x, task_runs s !! i = Some x -> T.run_id x = run ->
     T.gang_id x = None /\ (T.status x = Pending \/ Runs.terminal (T.status x) = true)) ->
  run_held s run = 0%Z ->
  task_runs s !! id = Some r -> T.run_id r = run -> T.status r = Pending ->
  exists i x x', task_runs s !! i = Some x /\ T.run_id x = run /\ Scheduler.unblocked x = true
    /\ task_runs (fst (Scheduler.advance_ready_tasks now s)) !! i = Some x'
    /\ T.status x' <> Pending.
Proof.
  intros Hi Hrank Hall Hheld.
  remember (rank id) as n eqn:En. revert id r En.
  induction n as [n IH] using lt_wf_ind. intros id r -> H Hrun Hp.
  destruct (inv_counts _ Hi id r H Hp) as [_ Hcount].
  assert (no_gang_dep s id) as Hg.
  { intros d rd Hd Hrd. apply (Hall d rd Hrd). destruct (inv_edges _ Hi id d Hd) as (a & b & Ha & Hb & E).
    congruence. }
  specialize (Hcount Hg). rewrite Hrun, Hheld in Hcount.
  destruct (decide (open_deps s id = 0%Z)) as [H0|H0].
  - assert (Scheduler.unblocked r = true) as Hu.
    { unfold Scheduler.unblocked, is_status. rewrite Hp, Hcount, H0. done. }
    destruct (unblocked_moves now s id r Hi H Hu) as (x' & Hx' & Hm). by exists id, r, x'.
  - pose proof (open_deps_nonneg s id).
    destruct (open_dep s id ltac:(lia)) as (d & rd & Hd & Hrd & Ht).
    destruct (inv_edges _ Hi id d Hd) as (a & b & Ha & Hb & E).
    assert (T.run_id rd = run) as Hrd_run by congruence.
    destruct (Hall d rd Hrd Hrd_run) as [_ [Hpd|Htd]]; [|unfold terminal in Ht; congruence].
    by apply (IH (rank d) (Hrank _ _ Hd) d rd).
Qed.

End moves.

Section progress.
Context {W : World}.

(** An advance leaves nothing behind, while nothing is put back.  A pending task with nothing left to wait for is
    not pending after the tick: it was made ready, parked, skipped, or failed on its own
    [when]. *)
Theorem advance_moves now s id r :
  Reach.reachable s -> task_runs s !! id = Some r -> Scheduler.unblocked r = true ->
  exists r', task_runs (fst (Scheduler.advance_ready_tasks now s)) !! id = Some r'
             /\ T.status r' <> Pending.
Proof. intros Hr. apply unblocked_moves. by apply Reach.reachable_inv. Qed.

(** ** The rule of the fast path *)

Lemma unsuccessful_rule s id :
  trigger_rule_ready $"all_success" (map task_status_str (dep_statuses s id))
  = negb (Scheduler.dep_unsuccessful s id).
Proof.
  destruct (Scheduler.dep_unsuccessful s id) eqn:E; cbn [negb].
  - apply not_true_iff_false. intros [Hn|Hall]%trigger_rule_ready_spec.
    + unfold Scheduler.dep_unsuccessful in E. by rewrite Hn in E.
    + change (Forall (fun x => x = Succeeded) (dep_statuses s id)) in Hall.
      unfold Scheduler.dep_unsuccessful in E. apply existsb_exists in E as (x & Hx & E).
      rewrite Forall_forall in Hall. apply list_elem_of_In, Hall in Hx. subst x.
      by rewrite bool_decide_true in E.
  - by apply trigger_rule_ready_spec, dep_unsuccessful_rule.
Qed.

End progress.
End Progress.
