(* ===== verification/AgainFacts.v ===== *)
(** * What putting tasks back keeps, and what it does

    The statements [Ops] shares, and when a store with some tasks of one run put back has
    the invariant again; then each of the four operations. *)

From S2P Require Import Tables Stops Scheduler Runs Ops Invariant Preserve Create.

Module AgainFacts.

Import Models Invariant Preserve.

Section facts.
Context {W : World}.

(** ** The statements they share *)

(** The tasks and the edges are untouched. *)
Record same_tasks (s s' : store) : Prop := {
  st_rows : task_runs s' = task_runs s;
  st_edges : task_dependencies s' = task_dependencies s;
}.

Lemma same_tasks_refl s : same_tasks s s.
Proof. done. Qed.

Lemma same_tasks_trans b a c : same_tasks a b -> same_tasks b c -> same_tasks a c.
Proof. intros [] []. split; congruence. Qed.

Lemma keep_replaced_tasks reset reason now s :
  same_tasks s (Ops.keep_replaced reset reason now s)
  /\ workflow_runs (Ops.keep_replaced reset reason now s) = workflow_runs s
  /\ event_outbox (Ops.keep_replaced reset reason now s) = event_outbox s.
Proof. unfold Ops.keep_replaced. repeat case_match; done. Qed.

Lemma rearm_tasks run_id now s : same_tasks s (Ops.rearm_deadlines run_id now s).
Proof. unfold Ops.rearm_deadlines. repeat case_match; done. Qed.

Lemma arm_tasks run_id takes more s : same_tasks s (fst (Ops.arm run_id takes more s)).
Proof. done. Qed.

(** A change of the one run that leaves every other as it was. *)
Definition only_run (run_id : str) (s s' : store) : Prop :=
  forall i, i <> run_id -> workflow_runs s' !! i = workflow_runs s !! i.

Lemma only_run_trans run_id b a c : only_run run_id a b -> only_run run_id b c -> only_run run_id a c.
Proof. intros H1 H2 i Hi. by rewrite H2, H1. Qed.

Lemma arm_only run_id takes more s : only_run run_id s (fst (Ops.arm run_id takes more s)).
Proof.
  intros i Hi. unfold Ops.arm, update_runs. cbn. rewrite update_where_lookup.
  destruct (workflow_runs s !! i); [|done]. cbn. by rewrite bool_decide_false by done.
Qed.

Lemma rearm_lookup run_id now s : exists f,
  (forall i, workflow_runs (Ops.rearm_deadlines run_id now s) !! i
             = (fun r => if bool_decide (i = run_id) then f r else r) <$> workflow_runs s !! i)
  /\ (forall r, R.status (f r) = R.status r /\ Runs.waiting (f r) = Runs.waiting r
                /\ R.finished_at (f r) = R.finished_at r /\ R.output (f r) = R.output r)
  /\ event_outbox (Ops.rearm_deadlines run_id now s) = event_outbox s.
Proof.
  unfold Ops.rearm_deadlines. destruct (Ops.run_definition run_id s) as [[x d]|].
  - destruct (Ops.deadlines_again _ now) as [dl al]. eexists. split.
    + intros i. unfold Ops.alter_run, update_runs. cbn. apply update_where_lookup.
    + done.
  - exists id. split; [|done]. intros i. by destruct (workflow_runs s !! i), (bool_decide _).
Qed.

Lemma rearm_only run_id now s : only_run run_id s (Ops.rearm_deadlines run_id now s).
Proof.
  intros i Hi. destruct (rearm_lookup run_id now s) as (f & -> & _).
  rewrite bool_decide_false by done. by destruct (workflow_runs s !! i).
Qed.

(** A run that was armed does not wait. *)
Lemma armed_not_waiting r : Runs.waiting (Ops.armed r) = false.
Proof. unfold Runs.waiting, Ops.armed, set. cbn. by destruct (R.admitted_at r), (R.queued_at r). Qed.

Definition not_held (run_id : str) (s : store) : Prop := run_held s run_id = 0%Z.

Lemma rearm_held run_id now s : not_held run_id s -> not_held run_id (Ops.rearm_deadlines run_id now s).
Proof.
  unfold not_held, run_held. destruct (rearm_lookup run_id now s) as (f & -> & Hf).
  rewrite bool_decide_true by done. destruct (workflow_runs s !! run_id) as [r|]; [|done]. cbn.
  by destruct (proj1 Hf r) as (_ & -> & _).
Qed.

Lemma arm_affected run_id takes more s n :
  snd (Ops.arm run_id takes more s) = n -> n <> 0%nat ->
  n = 1%nat /\ exists r, workflow_runs s !! run_id = Some r /\ takes r = true
       /\ workflow_runs (fst (Ops.arm run_id takes more s)) !! run_id = Some (more (Ops.armed r)).
Proof.
  unfold Ops.arm, update_runs. cbn. rewrite affected_one.
  destruct (workflow_runs s !! run_id) as [r|] eqn:E; [|by intros <-].
  destruct (takes r) eqn:Et; [|by intros <-]. rewrite map_size_singleton. intros <- _.
  split; [done|]. exists r. split; [done|]. split; [done|].
  rewrite update_where_lookup, E. cbn. by rewrite bool_decide_true, Et by done.
Qed.

Lemma arm_none run_id takes more s :
  snd (Ops.arm run_id takes more s) = 0%nat -> fst (Ops.arm run_id takes more s) = s.
Proof.
  unfold Ops.arm, update_runs. cbn. intros H. pose proof (update_where_none _
    (fun r => more (Ops.armed r)) _ H) as E. destruct s. cbn in *. unfold set. cbn. by rewrite E.
Qed.

(** ** Counting again *)

Lemma recount_lookup run_id f s i :
  task_runs (Ops.recount run_id f s) !! i
  = (fun r => if bool_decide (T.run_id r = run_id) && is_status Pending r
              then r <| T.remaining_deps := Ops.outstanding f s i |> else r) <$> task_runs s !! i.
Proof. unfold Ops.recount, set, const. cbn. rewrite map_lookup_imap. by destruct (task_runs s !! i). Qed.

Lemma recount_open run_id f s i : open_deps (Ops.recount run_id f s) i = open_deps s i.
Proof.
  unfold open_deps. do 2 f_equal. apply List.filter_ext. intros [a d]. unfold at_edge. cbn [fst snd].
  f_equal. rewrite recount_lookup. destruct (task_runs s !! d) as [r|]; [|done]. cbn. by case_match.
Qed.

(** A status read as done exactly when it is final: the count is of the open dependencies. *)
Lemma outstanding_open f s i :
  (forall d r, (i, d) ∈ task_dependencies s -> task_runs s !! d = Some r ->
     f (T.status r) = terminal r) ->
  Ops.outstanding f s i = open_deps s i.
Proof.
  intros H. rewrite open_deps_statuses. unfold Ops.outstanding. do 2 f_equal.
  assert (forall x, x ∈ dep_statuses s i -> f x = Runs.terminal x) as Hx.
  { intros x (d & r & Hd & Hr & <-)%dep_statuses_spec. by apply (H d). }
  induction (dep_statuses s i) as [|x l IH]; [done|]. cbn. rewrite (Hx x) by set_solver.
  destruct (Runs.terminal x); cbn; [|f_equal]; apply IH; set_solver.
Qed.

(** ** A store with tasks of one run put back *)

(** A row, across it: who it is stays; a row put back has a new version and no holder, and
    another keeps both. *)
Record row_again (r r' : T.task_run) : Prop := {
  ra_run : T.run_id r' = T.run_id r;
  ra_name : T.name r' = T.name r;
  ra_parent : T.fanout_parent r' = T.fanout_parent r;
  ra_version : (T.version r' = T.version r /\ T.claimed_by r' = T.claimed_by r
                /\ T.status r' = T.status r)
               \/ (T.version r' = (T.version r + 1)%Z /\ T.claimed_by r' = None);
  ra_asked : stop_asked r' -> stop_asked r;
  ra_ok : row_ok r -> row_ok r';
}.

Record put_back (run : str) (s s' : store) : Prop := {
  pb_edges : forall a b, (a, b) ∈ task_dependencies s' -> (a, b) ∈ task_dependencies s;
  pb_edges_other : forall a b r, task_runs s !! a = Some r -> T.run_id r <> run ->
    (a, b) ∈ task_dependencies s -> (a, b) ∈ task_dependencies s';
  pb_ends : forall a b, (a, b) ∈ task_dependencies s' ->
    is_Some (task_runs s !! a) -> is_Some (task_runs s !! b) ->
    is_Some (task_runs s' !! a) /\ is_Some (task_runs s' !! b);
  pb_other : forall id r, task_runs s !! id = Some r -> T.run_id r <> run ->
    task_runs s' !! id = Some r;
  pb_rows : forall id r', task_runs s' !! id = Some r' ->
    exists r, task_runs s !! id = Some r /\ row_again r r';
  pb_kept : forall id r, task_runs s !! id = Some r -> T.fanout_parent r = None ->
    is_Some (task_runs s' !! id);
  pb_counts : forall id r, task_runs s' !! id = Some r -> T.run_id r = run ->
    T.status r = Pending -> T.remaining_deps r = open_deps s' id;
  pb_held : run_held s' run = 0%Z;
  pb_held_other : forall i, i <> run -> run_held s' i = run_held s i;
}.

(** No task of the run is asked to stop. *)
Definition quiet (run : str) (s : store) : Prop :=
  forall id r, task_runs s !! id = Some r -> T.run_id r = run -> ~ stop_asked r.

Lemma put_back_inv {AG AG' : Again} run s s' :
  put_back run s s' -> quiet run s -> (forall i, @again AG i -> @again AG' i) -> @again AG' run ->
  Inv (AG := AG) s -> Inv (AG := AG') s'.
Proof.
  intros [He Heo Hends Ho Hr _ Hc Hh Hho] Hq Hsub Hrun Hi.
  assert (forall id r r', task_runs s !! id = Some r -> task_runs s' !! id = Some r' ->
            T.run_id r <> run -> r' = r) as Hsame.
  { intros id r r' H H' Hn. rewrite (Ho id r H Hn) in H'. congruence. }
  assert (forall id r, task_runs s !! id = Some r -> T.run_id r <> run ->
            forall d, (id, d) ∈ task_dependencies s ->
            exists rd, task_runs s !! d = Some rd /\ task_runs s' !! d = Some rd) as Hdep.
  { intros id r H Hn d Hd. destruct (inv_edges _ Hi id d Hd) as (ra & rb & Ha & Hb & E).
    exists rb. split; [done|]. apply Ho; [done|]. congruence. }
  split.
  - intros id r' H. destruct (Hr id r' H) as (r & Hr0 & Hag). apply (ra_ok _ _ Hag).
    by apply (inv_rows _ Hi id).
  - intros a b Hab. destruct (inv_edges _ Hi a b (He a b Hab)) as (ra & rb & Ha & Hb & E).
    destruct (Hends a b Hab) as [[ra' Ha'] [rb' Hb']]; [by eexists..|].
    exists ra', rb'. split; [done|]. split; [done|].
    destruct (Hr a ra' Ha') as (x & Hx & Gx). destruct (Hr b rb' Hb') as (y & Hy & Gy).
    rewrite (ra_run _ _ Gx), (ra_run _ _ Gy). congruence.
  - intros id r' H Hp. destruct (decide (T.run_id r' = run)) as [E|E].
    + rewrite E, Hh, (Hc id r' H E Hp). lia.
    + destruct (Hr id r' H) as (r & Hr0 & Hag). rewrite (ra_run _ _ Hag) in E.
      assert (r' = r) as -> by by eapply Hsame.
      destruct (inv_counts _ Hi id r Hr0 Hp) as [C1 C2]. rewrite (Hho _ E).
      rewrite (Create.open_deps_ext s s' id).
      * split; [done|]. intros Hg. apply C2. intros d rd Hd Hrd.
        destruct (Hdep id r Hr0 E d Hd) as (x & Hx & Hx'). assert (x = rd) as -> by congruence.
        apply (Hg d rd); [by eapply Heo|done].
      * intros d. split; [apply He|by eapply Heo].
      * intros d Hd. destruct (Hdep id r Hr0 E d Hd) as (x & -> & ->). done.
  - intros id r' H Hs. destruct (Hr id r' H) as (r & Hr0 & Hag).
    pose proof (ra_asked _ _ Hag Hs) as Hsr. rewrite (ra_run _ _ Hag).
    assert (T.run_id r <> run) as Hn by (intros E; by apply (Hq id r)).
    intros i x' Hx' E Hp. destruct (Hr i x' Hx') as (x & Hx & Hagx).
    rewrite (ra_run _ _ Hagx) in E. assert (x' = x) as -> by (eapply Hsame; eauto; congruence).
    by apply (inv_asked _ Hi id r Hr0 Hsr i x).
  - intros id r' H Hs Hna. destruct (Hr id r' H) as (r & Hr0 & Hag). rewrite (ra_run _ _ Hag) in Hna.
    assert (T.run_id r <> run) as Hn by (intros E; apply Hna; by rewrite E).
    assert (r' = r) as -> by by eapply Hsame.
    destruct (inv_rules _ Hi id r Hr0 Hs) as [Hov Hru]; [by intros Hx; apply Hna, Hsub|]. split.
    + intros d rd Hd Hrd. apply He in Hd. destruct (Hdep id r Hr0 Hn d Hd) as (x & Hx & Hx').
      apply (Hov d rd); [done|congruence].
    + eapply rule_holds_same; [|exact Hru]. intros x. rewrite !dep_statuses_spec.
      split; intros (d & rd & Hd & Hrd & E).
      * destruct (Hdep id r Hr0 Hn d Hd) as (y & Hy & Hy'). exists d, y.
        split; [by eapply Heo|]. split; [done|]. congruence.
      * apply He in Hd. destruct (Hdep id r Hr0 Hn d Hd) as (y & Hy & Hy'). exists d, y.
        split; [done|]. split; [done|]. congruence.
Qed.

Lemma row_again_refl r : row_again r r.
Proof. split; auto. Qed.

Lemma row_again_count r r' z : row_again r r' -> row_again r (r' <| T.remaining_deps := z |>).
Proof.
  intros []. split; auto. intros Hok. specialize (ra_ok0 Hok).
  destruct ra_ok0. split; auto.
Qed.

(** A terminal row put back to [pending]. *)
Lemma rerun_row_again now who r : terminal r = true -> row_again r (Ops.rerun_row now who r).
Proof.
  intros Ht. split; try done; [by right|by intros [? _]|]. intros [].
  assert (T.claimed_by r = None) as Hc.
  { destruct (T.claimed_by r) eqn:E; [|done]. unfold terminal in Ht.
    by rewrite claimed_running0 in Ht. }
  split; try done.
  intros Ha. exfalso. by apply asked_held0.
Qed.

Lemma cleared_row_again now who r : terminal r = true -> row_again r (Ops.cleared_row now who r).
Proof. intros Ht. destruct (rerun_row_again now who r Ht) as [? ? ? ? ? Hok]. split; try done.
  intros H%Hok. destruct H. split; auto.
Qed.

Section reset.
Context (s s2 : store) (run : str) (gone : str -> bool).
Context (p : str -> T.task_run -> bool) (f : T.task_run -> T.task_run) (finished : TaskStatus -> bool).
Hypothesis Hedges : edges_ok s.
Hypothesis Hrows2 : forall id, task_runs s2 !! id = if gone id then None else task_runs s !! id.
Hypothesis Hedges2 : forall a b, (a, b) ∈ task_dependencies s2
  <-> (a, b) ∈ task_dependencies s /\ gone a = false /\ gone b = false.
Hypothesis Hgone : forall id r, task_runs s !! id = Some r -> gone id = true ->
  T.run_id r = run /\ T.fanout_parent r <> None.
Hypothesis Hp : forall id r, task_runs s !! id = Some r -> p id r = true ->
  T.run_id r = run /\ row_again r (f r) /\ T.status (f r) = Pending.
Hypothesis Hdone : forall id r, task_runs s !! id = Some r -> gone id = false -> T.run_id r = run ->
  p id r = false -> finished (T.status r) = terminal r.
Hypothesis Hpending : finished Pending = false.

#[local] Abbreviation s3 := (Ops.recount run finished (update p f s2)).

Lemma reset_lookup id :
  task_runs s3 !! id
  = if gone id then None
    else (fun r => let r := if p id r then f r else r in
            if bool_decide (T.run_id r = run) && is_status Pending r
            then r <| T.remaining_deps := Ops.outstanding finished (update p f s2) id |> else r)
         <$> task_runs s !! id.
Proof using Hrows2.
  rewrite recount_lookup, update_tasks_lookup, Hrows2. destruct (gone id); [done|].
  by destruct (task_runs s !! id).
Qed.

Lemma reset_row id r :
  task_runs s !! id = Some r -> gone id = false ->
  exists r', task_runs s3 !! id = Some r' /\ row_again r r' /\ (T.run_id r <> run -> r' = r)
    /\ T.status r' = (if p id r then Pending else T.status r)
    /\ (T.run_id r = run -> T.status r' = Pending ->
        T.remaining_deps r' = Ops.outstanding finished (update p f s2) id).
Proof using Hrows2 Hp.
  intros H Hg. rewrite reset_lookup, Hg, H. cbn. eexists. split; [done|].
  destruct (p id r) eqn:Ep.
  - destruct (Hp id r H Ep) as (Hr & Ha & Hs). rewrite (ra_run _ _ Ha), Hr.
    unfold is_status. rewrite Hs, !bool_decide_true by done. cbn [andb].
    split; [by apply row_again_count|]. split; [done|]. done.
  - destruct (bool_decide (T.run_id r = run)) eqn:Er; cbn [andb].
    + apply bool_decide_eq_true in Er. destruct (is_status Pending r) eqn:Es.
      * split; [by apply row_again_count, row_again_refl|]. done.
      * split; [apply row_again_refl|]. split; [done|]. split; [done|].
        intros _ E. apply bool_decide_eq_false_1 in Es. done.
    + apply bool_decide_eq_false in Er. split; [apply row_again_refl|]. done.
Qed.

Lemma reset_outstanding id r :
  task_runs s !! id = Some r -> T.run_id r = run ->
  Ops.outstanding finished (update p f s2) id = open_deps s3 id.
Proof using Hrows2 Hp Hdone Hedges Hedges2 Hpending.
  intros H Hr. rewrite recount_open. apply outstanding_open. intros d rd Hd.
  change (task_dependencies (update p f s2)) with (task_dependencies s2) in Hd.
  apply Hedges2 in Hd as (Hd & _ & Hgd). destruct (Hedges id d Hd) as (ra & rb & Ha & Hb & E).
  rewrite update_tasks_lookup, Hrows2, Hgd, Hb. cbn. intros [= <-].
  assert (T.run_id rb = run) as Hrb by congruence.
  destruct (p d rb) eqn:Ep.
  - destruct (Hp d rb Hb Ep) as (_ & _ & Hs). unfold terminal. by rewrite Hs, Hpending.
  - by apply (Hdone d).
Qed.

Lemma put_back_reset s' :
  same_tasks s3 s' -> run_held s' run = 0%Z -> (forall i, i <> run -> run_held s' i = run_held s i) ->
  put_back run s s'.
Proof using Hrows2 Hp Hdone Hedges Hedges2 Hgone Hpending.
  intros [Et Ed] Hh Hho.
  change (task_dependencies s3) with (task_dependencies s2) in Ed.
  assert (forall id r, task_runs s !! id = Some r -> gone id = true -> T.run_id r = run) as Hgr.
  { intros id r H Hg. by apply (Hgone id r). }
  split; rewrite ?Ed; try done.
  - intros a b. by intros [H _]%Hedges2.
  - intros a b r H Hn Hab. apply Hedges2. split; [done|].
    destruct (Hedges a b Hab) as (ra & rb & Ha & Hb & E).
    split; apply not_true_iff_false; intros Hg; apply Hn; [by eapply Hgr|].
    rewrite <- (Hgr b rb Hb Hg). congruence.
  - intros a b (_ & Ga & Gb)%Hedges2 [ra Ha] [rb Hb]. rewrite Et.
    destruct (reset_row a ra Ha Ga) as (x & -> & _). destruct (reset_row b rb Hb Gb) as (y & -> & _).
    by split; eexists.
  - intros id r H Hn. rewrite Et.
    assert (gone id = false) as Hg by (apply not_true_iff_false; intros Hg; by apply Hn, (Hgr id)).
    destruct (reset_row id r H Hg) as (x & -> & _ & Hx & _). by rewrite Hx.
  - intros id r'. rewrite Et. intros H.
    destruct (task_runs s !! id) as [r|] eqn:E; cycle 1.
    { rewrite reset_lookup, E in H. by destruct (gone id). }
    destruct (gone id) eqn:Hg; [by rewrite reset_lookup, Hg in H|].
    destruct (reset_row id r E Hg) as (x & Hx & Ha & _). exists r. split; [done|]. congruence.
  - intros id r H Hn. rewrite Et. assert (gone id = false) as Hg.
    { apply not_true_iff_false. intros Hg. by destruct (Hgone id r H Hg). }
    destruct (reset_row id r H Hg) as (x & -> & _). by eexists.
  - intros id r' H Hr Hs. rewrite Et in H.
    destruct (task_runs s !! id) as [r|] eqn:E; cycle 1.
    { rewrite reset_lookup, E in H. by destruct (gone id). }
    destruct (gone id) eqn:Hg; [by rewrite reset_lookup, Hg in H|].
    destruct (reset_row id r E Hg) as (x & Hx & Ha & _ & _ & Hcount).
    assert (x = r') as -> by congruence. rewrite (ra_run _ _ Ha) in Hr.
    rewrite (Hcount Hr Hs), (reset_outstanding id r E Hr).
    unfold open_deps, at_edge. by rewrite Et, Ed.
Qed.
End reset.

(** ** The cone of a task *)

(** [y] waits for [x]. *)
Definition waits_for (s : store) (x y : str) : Prop := (y, x) ∈ task_dependencies s.

Lemma dependents_spec s ids y : y ∈ Ops.dependents s ids <-> exists x, x ∈ ids /\ waits_for s x y.
Proof.
  unfold Ops.dependents, waits_for. rewrite elem_of_map. split.
  - intros ([a b] & -> & [Hb He]%elem_of_filter). by exists b.
  - intros (x & Hx & He). exists (y, x). split; [done|]. by apply elem_of_filter.
Qed.

Lemma cone_rounds_sound fuel s ids y :
  y ∈ Ops.cone_rounds fuel s ids -> exists x, x ∈ ids /\ rtc (waits_for s) x y.
Proof.
  revert ids; induction fuel as [|fuel IH]; intros ids; cbn; [by exists y|].
  case_bool_decide; [by exists y|]. intros (x & Hx & Hr)%IH.
  apply elem_of_union in Hx as [Hx|(z & Hz & Hw)%dependents_spec]; [by exists x|].
  exists z. split; [done|]. by eapply rtc_l.
Qed.

Lemma cone_rounds_grows fuel s ids : ids ⊆ Ops.cone_rounds fuel s ids.
Proof.
  revert ids; induction fuel as [|fuel IH]; intros ids; cbn; [done|].
  case_bool_decide; [done|]. specialize (IH (ids ∪ Ops.dependents s ids)). set_solver.
Qed.

(** The tasks that wait for anything. *)
Definition waiters (s : store) : gset str := set_map fst (task_dependencies s).

Lemma list_to_set_size (l : list str) : (size (list_to_set l : gset str) <= length l)%nat.
Proof.
  induction l as [|x l IH]; cbn; [by rewrite size_empty|].
  rewrite size_union_alt, size_singleton.
  assert (size (list_to_set l ∖ {[x]} : gset str) <= size (list_to_set l : gset str))%nat
    by (apply subseteq_size; set_solver). lia.
Qed.

Lemma waiters_size s : (size (waiters s) <= size (task_dependencies s))%nat.
Proof.
  unfold waiters, set_map. etransitivity; [apply list_to_set_size|]. by rewrite length_fmap.
Qed.

Lemma cone_rounds_closed fuel s ids :
  (size (waiters s ∖ ids) <= fuel)%nat ->
  Ops.dependents s (Ops.cone_rounds fuel s ids) ⊆ Ops.cone_rounds fuel s ids.
Proof.
  assert (forall X, Ops.dependents s X ⊆ waiters s) as Hw.
  { intros X y (x & _ & Hy)%dependents_spec. unfold waiters. apply elem_of_map. by exists (y, x). }
  revert ids; induction fuel as [|fuel IH]; intros ids Hs; cbn.
  - assert (waiters s ∖ ids ≡ ∅) as He by (apply size_empty_iff; lia). specialize (Hw ids). set_solver.
  - case_bool_decide as E; [set_solver|]. apply IH.
    assert (exists y, y ∈ Ops.dependents s ids /\ y ∉ ids) as (y & Hy & Hn).
    { destruct (set_choose_or_empty (Ops.dependents s ids ∖ ids)) as [[y Hy]|Hn];
        [exists y; set_solver|]. destruct E. apply leibniz_equiv. intros y.
      specialize (Hn y). destruct (decide (y ∈ ids)); set_solver. }
    assert (size (waiters s ∖ (ids ∪ Ops.dependents s ids)) < size (waiters s ∖ ids))%nat; [|lia].
    apply subset_size. specialize (Hw ids). split; [set_solver|].
    intros Hc. specialize (Hc y). set_solver.
Qed.

(** The recursive query of a clear finds the task and everything that waits for it,
    directly or through others. *)
Lemma cone_reach s run_id task_id y :
  y ∈ Ops.cone s run_id task_id
  <-> (exists r, task_runs s !! task_id = Some r /\ T.run_id r = run_id)
      /\ rtc (waits_for s) task_id y.
Proof.
  assert (forall x, x ∈ Ops.cone_start s run_id task_id
            <-> (exists r, task_runs s !! task_id = Some r /\ T.run_id r = run_id) /\ x = task_id) as Hst.
  { intros x. unfold Ops.cone_start. destruct (task_runs s !! task_id) as [r|]; [|set_solver].
    case_bool_decide; set_solver. }
  unfold Ops.cone. split.
  - intros (x & [Hr ->]%Hst & Hx)%cone_rounds_sound. done.
  - intros [Hr Hx]. revert Hx. apply (rtc_ind_r (fun y => y ∈ _)).
    + apply cone_rounds_grows. by apply Hst.
    + intros a b _ Hab Ha. eapply cone_rounds_closed; [|apply dependents_spec; by exists a].
      transitivity (size (waiters s)); [apply subseteq_size; set_solver|apply waiters_size].
Qed.

(** It stays inside the run. *)
Lemma cone_run s run_id task_id y r :
  edges_ok s -> y ∈ Ops.cone s run_id task_id -> task_runs s !! y = Some r -> T.run_id r = run_id.
Proof.
  intros He [(r0 & H0 & Hr0) Hx]%cone_reach. revert r.
  refine (rtc_ind_r (fun y => forall r, task_runs s !! y = Some r -> T.run_id r = run_id) _ _ _ _ Hx).
  - intros r H. congruence.
  - intros a b _ Hab IH r H. destruct (He b a Hab) as (rb & ra & Hb & Ha & E).
    specialize (IH ra Ha). congruence.
Qed.

(** ** The operations *)

Lemma run_held_of (i : str) s s' :
  workflow_runs s' !! i = workflow_runs s !! i -> run_held s' i = run_held s i.
Proof. unfold run_held. by intros ->. Qed.

Lemma arm_held run_id takes more s :
  (forall r, Runs.waiting (more r) = Runs.waiting r) ->
  snd (Ops.arm run_id takes more s) <> 0%nat -> not_held run_id (fst (Ops.arm run_id takes more s)).
Proof.
  intros Hm H. destruct (arm_affected run_id takes more s _ eq_refl H) as (_ & r & _ & _ & E).
  unfold not_held, run_held. by rewrite E, Hm, armed_not_waiting.
Qed.

(** What a rerun that was not refused has done before it resets a row. *)
Record rerun_shape (run_id : str) (takes : R.workflow_run -> bool)
    (more : R.workflow_run -> R.workflow_run) (s s2 : store) : Prop := {
  rs_tasks : same_tasks s s2;
  rs_held : not_held run_id s2;
  rs_only : only_run run_id s s2;
  rs_events : event_outbox s2 = event_outbox s;
  rs_row : exists r r', workflow_runs s !! run_id = Some r /\ takes r = true
    /\ workflow_runs s2 !! run_id = Some r' /\ R.status r' = R.status (more (Ops.armed r))
    /\ R.finished_at r' = R.finished_at (more (Ops.armed r))
    /\ R.output r' = R.output (more (Ops.armed r));
}.

Lemma rerun_prepared run_id takes more reset reason now s :
  (forall r, Runs.waiting (more r) = Runs.waiting r) ->
  snd (Ops.arm run_id takes more s) <> 0%nat ->
  rerun_shape run_id takes more s
    (Ops.keep_replaced reset reason now (Ops.rearm_deadlines run_id now (fst (Ops.arm run_id takes more s)))).
Proof.
  intros Hm Hn. set (s1 := fst (Ops.arm run_id takes more s)).
  destruct (keep_replaced_tasks reset reason now (Ops.rearm_deadlines run_id now s1)) as (K1 & K2 & K3).
  destruct (rearm_lookup run_id now s1) as (f & Hf1 & Hf2 & Hf3).
  split.
  - eapply same_tasks_trans; [|exact K1]. eapply same_tasks_trans; [apply arm_tasks|apply rearm_tasks].
  - unfold not_held, run_held. rewrite K2. apply (rearm_held run_id now s1). by apply arm_held.
  - intros i Hi. rewrite K2, rearm_only by done. by apply arm_only.
  - by rewrite K3, Hf3.
  - destruct (arm_affected run_id takes more s _ eq_refl Hn) as (_ & r & Hr & Ht & E).
    fold s1 in E. exists r, (f (more (Ops.armed r))). split; [done|]. split; [done|].
    rewrite K2, Hf1, E. cbn. rewrite bool_decide_true by done.
    destruct (Hf2 (more (Ops.armed r))) as (-> & _ & -> & ->). done.
Qed.

Lemma broken_terminal r : Ops.broken r = true -> terminal r = true.
Proof. unfold Ops.broken, terminal, is_status. by destruct (T.status r). Qed.

Lemma satisfied_open x : Ops.satisfied x = false -> x <> Failed -> x <> Cancelled -> Runs.terminal x = false.
Proof. by destruct x. Qed.

(** The rows a rerun from the failed tasks takes. *)
Definition broken_of (run_id id : str) (r : T.task_run) : bool :=
  bool_decide (T.run_id r = run_id) && Ops.broken r.

Lemma rerun_from_failed_shape run_id by_ who now s s' n :
  Ops.rerun_from_failed_in run_id by_ who now s = Ok (s', Some n) ->
  exists s2, rerun_shape run_id Ops.failed_or_cancelled (fun r => r <| R.output := None |>) s s2
    /\ s' = Ops.insert_run_again run_id by_ n None now
              (Ops.recount run_id Ops.satisfied (update (broken_of run_id) (Ops.rerun_row now who) s2))
    /\ n = size (affected (broken_of run_id) (task_runs s)).
Proof.
  unfold Ops.rerun_from_failed_in.
  destruct (Ops.arm _ _ _ s) as [s1 k] eqn:Ea. destruct (k =? 0)%nat eqn:Ek; [done|].
  apply Nat.eqb_neq in Ek. destruct (Ops.refuse_if_full _ _ _); [|done].
  pose proof (rerun_prepared run_id Ops.failed_or_cancelled (fun r => r <| R.output := None |>)
    (Ops.BrokenCone run_id) (again_reason by_) now s ltac:(done)) as Hs.
  rewrite Ea in Hs. cbn [fst snd] in Hs. specialize (Hs Ek).
  set (s2 := Ops.keep_replaced _ _ _ _) in *.
  statement E. intros [= <- <-]. exists s2. split; [done|].
  rewrite update_tasks_rows, (st_rows _ _ (rs_tasks _ _ _ _ _ Hs)) in E. subst rows. done.
Qed.

Lemma rerun_from_failed_put_back run_id by_ who now s s' n :
  edges_ok s -> Ops.rerun_from_failed_in run_id by_ who now s = Ok (s', Some n) ->
  put_back run_id s s'.
Proof.
  intros He (s2 & [[Ht Hd] Hh Ho _ _] & -> & _)%rerun_from_failed_shape.
  eapply (put_back_reset s s2 run_id (fun _ => false) (broken_of run_id) (Ops.rerun_row now who)
            Ops.satisfied); try done.
  - intros id. by rewrite Ht.
  - intros x y. rewrite Hd. tauto.
  - intros id r _ [->%bool_decide_eq_true Hb]%andb_true_iff.
    split; [done|]. split; [by apply rerun_row_again, broken_terminal|done].
  - intros id r _ _ Hr. unfold broken_of. rewrite bool_decide_true by done. cbn [andb].
    unfold Ops.broken, terminal, is_status. by destruct (T.status r).
  - intros i Hi. by apply run_held_of, Ho.
Qed.

Lemma rerun_all_put_back run_id who now s s' n :
  edges_ok s -> Ops.rerun_all_in run_id who now s = Ok (s', Some n) -> put_back run_id s s'.
Proof.
  intros He. unfold Ops.rerun_all_in.
  destruct (Ops.arm _ _ _ s) as [s1 k] eqn:Ea. destruct (k =? 0)%nat eqn:Ek; [done|].
  apply Nat.eqb_neq in Ek. destruct (Ops.refuse_if_full _ _ _); [|done].
  destruct (Ops.refuse_if_teardown_owed _ _); [|done].
  pose proof (rerun_prepared run_id Ops.ended
    (fun r => r <| R.output := None |> <| R.whole_reruns ::= Z.succ |>)
    (Ops.Whole run_id) (again_reason RerunAll) now s ltac:(done)) as Hs.
  rewrite Ea in Hs. cbn [fst snd] in Hs. destruct (Hs Ek) as [[Ht Hd] Hh Ho _ _]. clear Hs Ea.
  set (s2 := Ops.keep_replaced _ _ _ _) in *.
  statement E. intros [= <- _].
  eapply (put_back_reset s (Ops.drop_instances run_id s2) run_id (Ops.is_instance s2 run_id)
            (fun _ r => bool_decide (T.run_id r = run_id) && is_null (T.fanout_parent r) && Ops.over r)
            (Ops.cleared_row now who) Ops.satisfied); try done.
  - intros id. unfold Ops.drop_instances, set. cbn. rewrite <- Ht.
    destruct (Ops.is_instance s2 run_id id) eqn:Eg.
    + apply map_lookup_filter_None. right. intros r _ H. cbn in H. congruence.
    + destruct (task_runs s2 !! id) as [r|] eqn:Er.
      * by apply map_lookup_filter_Some.
      * apply map_lookup_filter_None. by left.
  - intros x y. unfold Ops.drop_instances, set. cbn. rewrite elem_of_filter, Hd. cbn.
    rewrite orb_false_iff. tauto.
  - intros id r Hr. unfold Ops.is_instance. rewrite Ht, Hr. intros Hg. where_ Hg. done.
  - intros id r _ Hp. where_ Hp. split; [done|]. split; [by apply cleared_row_again|done].
  - intros id r Hr Hg Hrun. unfold Ops.is_instance in Hg. rewrite Ht, Hr in Hg.
    rewrite bool_decide_true in * by done. cbn [andb] in *. unfold not_null in Hg.
    apply negb_false_iff in Hg. rewrite Hg. cbn [andb]. unfold Ops.over, terminal.
    by destruct (T.status r).
  - intros i Hi. apply run_held_of. by apply Ho.
Qed.

(** The end a clear and a retry share: the run, set running again when it had ended. *)
Lemma rearmed run_id takes more cap now s s4 k s5 :
  (forall r, Runs.waiting (more r) = Runs.waiting r) -> not_held run_id s ->
  Ops.arm run_id takes more s = (s4, k) ->
  (if (k =? 1)%nat then
     let? _ := Ops.refuse_if_full run_id cap s4 in Ok (Ops.rearm_deadlines run_id now s4)
   else Ok s4) = Ok s5 ->
  same_tasks s s5 /\ not_held run_id s5 /\ only_run run_id s s5.
Proof.
  intros Hm Hh Ea E5.
  pose proof (arm_tasks run_id takes more s) as A1.
  pose proof (arm_only run_id takes more s) as A2.
  pose proof (arm_held run_id takes more s Hm) as A3.
  pose proof (arm_none run_id takes more s) as A4.
  rewrite Ea in A1, A2, A3, A4. cbn [fst snd] in A1, A2, A3, A4.
  assert (not_held run_id s4) as Hh4.
  { destruct k as [|k]; [by rewrite A4|by apply A3]. }
  destruct (k =? 1)%nat.
  - destruct (Ops.refuse_if_full _ _ _); [|done]. injection E5 as <-.
    split; [eapply same_tasks_trans; [exact A1|apply rearm_tasks]|].
    split; [by apply rearm_held|]. eapply only_run_trans; [exact A2|apply rearm_only].
  - by injection E5 as <-.
Qed.

(** The rows a clear takes. *)
Definition cleared_of (s : store) (run_id task_id id : str) (r : T.task_run) : bool :=
  bool_decide (id ∈ Ops.cone s run_id task_id) && Ops.over r.

Lemma cone_same s s2 run_id task_id :
  same_tasks s s2 -> Ops.cone s2 run_id task_id = Ops.cone s run_id task_id.
Proof.
  intros [Ht Hd]. unfold Ops.cone, Ops.cone_start. rewrite Ht, Hd.
  assert (forall ids, Ops.dependents s2 ids = Ops.dependents s ids) as Hs
    by (intros ids; unfold Ops.dependents; by rewrite Hd).
  match goal with |- Ops.cone_rounds ?n _ ?l = _ => generalize n l end.
  intros n. induction n as [|n IH]; intros l; cbn; [done|]. by rewrite Hs, IH.
Qed.

Lemma clear_shape run_id task_id who now s s' n :
  not_held run_id s ->
  Ops.clear_task_with_downstream_by run_id task_id who now s = Ok (s', Some n) ->
  exists s2, same_tasks s s2
    /\ same_tasks (Ops.recount run_id Runs.terminal
                     (update (cleared_of s run_id task_id) (Ops.cleared_row now who) s2)) s'
    /\ not_held run_id s' /\ only_run run_id s s'
    /\ n = size (affected (cleared_of s run_id task_id) (task_runs s)).
Proof.
  intros Hh. unfold Ops.clear_task_with_downstream_by.
  destruct (task_runs s !! task_id) as [r0|] eqn:E0; [|done].
  destruct (negb (bool_decide _)); [done|]. destruct (negb (Ops.over r0)); [done|].
  destruct (keep_replaced_tasks (Ops.Cone run_id task_id) (again_reason Clear) now s) as (Hst & Kr & _).
  set (s2 := Ops.keep_replaced _ _ _ _) in *.
  rewrite (cone_same s s2) by done. fold (cleared_of s run_id task_id).
  statement E. destruct (Ops.arm _ _ _ _) as [s4 k] eqn:Ea.
  set (s3 := Ops.recount _ _ _) in *.
  destruct (if (k =? 1)%nat then _ else _) as [s5|] eqn:E5; [|done]. intros [= <- <-].
  assert (not_held run_id s3) as Hh3.
  { unfold not_held, run_held in *. change (workflow_runs s3) with (workflow_runs s2). by rewrite Kr. }
  destruct (rearmed run_id Ops.ended (fun r => r <| R.output := None |>) _ now s3 s4 k s5
              ltac:(done) Hh3 Ea E5) as (H1 & H2 & H3).
  change (only_run run_id s2 s5) in H3.
  exists s2. split; [done|]. split; [destruct H1; done|]. split; [done|]. split.
  - intros i Hi. rewrite <- Kr. by apply H3.
  - rewrite E, update_tasks_rows. by rewrite (st_rows _ _ Hst).
Qed.

Lemma clear_put_back run_id task_id who now s s' n :
  edges_ok s -> not_held run_id s ->
  Ops.clear_task_with_downstream_by run_id task_id who now s = Ok (s', Some n) -> put_back run_id s s'.
Proof.
  intros He Hh (s2 & [Ht Hd] & H1 & H2 & H3 & _)%clear_shape; [|done].
  eapply (put_back_reset s s2 run_id (fun _ => false) (cleared_of s run_id task_id)
            (Ops.cleared_row now who) Runs.terminal); try done.
  - intros id. by rewrite Ht.
  - intros x y. rewrite Hd. tauto.
  - intros id r Hr [Hc%bool_decide_eq_true Ho]%andb_true_iff.
    split; [by eapply cone_run|split; [by apply cleared_row_again|done]].
  - intros i Hi. apply run_held_of. by apply H3.
Qed.

(** A retry resets one task and counts nothing again, so it asks that nothing of the run is
    pending. *)
Lemma retried_row_again now who r :
  terminal r = true -> T.external_handle r = None -> T.fanout_of r = None ->
  row_again r (Ops.retried_row now who r).
Proof.
  intros Ht Hx Hf. split; try done; [by right|by intros [? _]|]. intros [].
  assert (T.claimed_by r = None) as Hc.
  { destruct (T.claimed_by r) eqn:E; [|done]. unfold terminal in Ht.
    by rewrite claimed_running0 in Ht. }
  assert (marks (Ops.retried_row now who r) = 0%nat) as Hm by (unfold marks; cbn; by rewrite Hx).
  split; try done. intros Ha. exfalso. by apply asked_held0.
Qed.

Lemma retry_put_back task_id who now s s' r :
  edges_ok s -> task_runs s !! task_id = Some r -> none_pending s (T.run_id r) ->
  not_held (T.run_id r) s -> T.external_handle r = None -> T.fanout_of r = None ->
  Ops.retry_task_from_ui_by task_id who now s = Ok (s', true) -> put_back (T.run_id r) s s'.
Proof.
  intros He Hr Hnp Hh Hx Hf. unfold Ops.retry_task_from_ui_by. rewrite Hr. cbn [fmap option_fmap option_map].
  destruct (keep_replaced_tasks (Ops.Task task_id) (again_reason Retry) now s) as ([Ht Hd] & Kr & _).
  set (s2 := Ops.keep_replaced _ _ _ _) in *.
  statement E. destruct (_ =? 0)%nat; [done|]. clear E.
  set (p := fun id x => bool_decide (id = task_id) && Ops.retryable x).
  set (s3 := update p (Ops.retried_row now who) s2).
  destruct (Ops.arm _ _ _ _) as [s4 k] eqn:Ea.
  destruct (if (k =? 1)%nat then _ else _) as [s5|] eqn:E5; [|done]. intros [= <-].
  assert (not_held (T.run_id r) s3) as Hh3.
  { unfold not_held, run_held in *. change (workflow_runs s3) with (workflow_runs s2). by rewrite Kr. }
  destruct (rearmed (T.run_id r) Ops.failed_or_cancelled id _ now s3 s4 k s5 ltac:(done) Hh3 Ea E5)
    as (H1 & H2 & H3).
  change (only_run (T.run_id r) s2 s5) in H3.
  destruct H1 as [Q1 Q2].
  assert (forall i, task_runs s5 !! i = (fun x => if p i x then Ops.retried_row now who x else x)
            <$> task_runs s !! i) as Hl.
  { intros i. rewrite Q1. unfold s3. rewrite update_tasks_lookup. by rewrite Ht. }
  change (task_dependencies s3) with (task_dependencies s2) in Q2. rewrite Hd in Q2.
  assert (forall i x, task_runs s !! i = Some x -> p i x = true -> i = task_id /\ x = r /\ terminal x = true) as Hp.
  { intros i x Hi Hp. unfold p, Ops.retryable, is_status in Hp. where_ Hp. subst i.
    split; [done|]. split; [congruence|]. unfold terminal. by destruct (T.status x). }
  set (s6 := Ops.insert_run_again _ _ _ _ _ s5).
  change (task_runs s5) with (task_runs s6) in Hl.
  change (task_dependencies s5) with (task_dependencies s6) in Q2.
  split.
  - intros x y. by rewrite Q2.
  - intros x y z _ _. by rewrite Q2.
  - intros x y _ [rx Hrx] [ry Hry]. rewrite !Hl, Hrx, Hry. by split; eexists.
  - intros i x Hi Hn. rewrite Hl, Hi. cbn. destruct (p i x) eqn:Ep; [|done].
    by destruct (Hp i x Hi Ep) as (_ & -> & _).
  - intros i x'. rewrite Hl.
    destruct (task_runs s !! i) as [x|] eqn:Hi; [|done]. cbn. intros [= <-]. exists x. split; [done|].
    destruct (p i x) eqn:Ep; [|apply row_again_refl].
    destruct (Hp i x Hi Ep) as (_ & -> & Htm). by apply retried_row_again.
  - intros i x Hi _. rewrite Hl, Hi. by eexists.
  - intros i x'. rewrite Hl.
    destruct (task_runs s !! i) as [x|] eqn:Hi; [|done]. cbn. intros [= <-] Hrun Hpe. exfalso.
    destruct (p i x); [done|]. by apply (Hnp i x).
  - exact H2.
  - intros i Hi. apply run_held_of. rewrite <- Kr. by apply H3.
Qed.

End facts.
End AgainFacts.
