(* ===== verification/Life.v ===== *)
(** * Histories in which tasks are put back

    As [Reach], with the four operations of [Ops] among the steps, under the conditions of
    [again].  What a run's tasks did is then no more final, so what is kept is less, and the
    invariant knows which runs it is; the count on a pending task is still right, and a rerun
    leaves the run with a next move.  The code has none of those conditions: they are the
    ones under which the operations do as their comments say, [LifeWitnesses] has what
    happens without them, and [History] what holds without them.  As in [Reach], no runtime
    fan-out is expanded. *)

From S2P Require Import Tables Stops Scheduler Parks Runs Ops Invariant Preserve Reach Safety Progress AgainFacts.

Module Life.

Import Models Invariant Preserve AgainFacts.

Section life.
Context {W : World}.

(** A store, with the runs that had tasks put back. *)
Definition state : Type := gset str * store.

Definition put (A : gset str) : Again := fun i => i ∈ A.

(** What [Ops] does to one run, when no task of the run is asked to stop, for a clear and a
    retry the run has its place, and for a retry nothing of the run is pending (it counts
    nothing again) and the task is no barrier and is owed no teardown. *)
Inductive again (s : store) : str -> store -> Prop :=
| rerun run by_ who now s' n :
    quiet run s -> Ops.rerun_from_failed_in run by_ who now s = Ok (s', Some n) -> again s run s'
| rerun_all run who now s' n :
    quiet run s -> Ops.rerun_all_in run who now s = Ok (s', Some n) -> again s run s'
| clear run task_id who now s' n :
    quiet run s -> not_held run s ->
    Ops.clear_task_with_downstream_by run task_id who now s = Ok (s', Some n) -> again s run s'
| retry task_id who now s' r :
    task_runs s !! task_id = Some r -> T.external_handle r = None -> T.fanout_of r = None ->
    quiet (T.run_id r) s -> not_held (T.run_id r) s -> none_pending s (T.run_id r) ->
    Ops.retry_task_from_ui_by task_id who now s = Ok (s', true) -> again s (T.run_id r) s'.

Inductive step : state -> state -> Prop :=
| go A s s' : Reach.step s s' -> step (A, s) (A, s')
| back A s run s' : again s run s' -> step (A, s) ({[ run ]} ∪ A, s').

Definition lives : state -> state -> Prop := rtc step.
Definition lived (x : state) : Prop := lives (∅, empty_store) x.

Lemma again_put_back s run s' : edges_ok s -> again s run s' -> put_back run s s' /\ quiet run s.
Proof.
  intros He []; (split; [|done]).
  - by eapply rerun_from_failed_put_back.
  - by eapply rerun_all_put_back.
  - by eapply clear_put_back.
  - by eapply retry_put_back.
Qed.

Lemma step_inv x y : step x y -> Inv (AG := put x.1) x.2 -> Inv (AG := put y.1) y.2.
Proof.
  intros [A s s' H|A s run s' H] Hi.
  - by apply (Reach.step_keeps (AG := put A) s s' H).
  - cbn in *. destruct (again_put_back s run s' (inv_edges _ Hi) H) as [Hp Hq].
    apply (put_back_inv (AG := put A) (AG' := put ({[ run ]} ∪ A)) run s s' Hp Hq); [..|exact Hi];
      unfold Invariant.again, put; set_solver.
Qed.

Lemma lived_inv x : lived x -> Inv (AG := put x.1) x.2.
Proof.
  apply (rtc_ind_r (fun x => Inv (AG := put x.1) x.2)); [apply Reach.Inv_empty|].
  intros y z _ H Hi. by eapply step_inv.
Qed.

Lemma lived_lives x y : lived x -> lives x y -> lived y.
Proof. unfold lived, lives. intros. by etrans. Qed.

(** Histories with nothing put back are among them. *)
Lemma reachable_lived s : Reach.reachable s -> lived (∅, s).
Proof.
  unfold lived, lives, Reach.reachable, Reach.steps. induction 1 as [|a b c H _ IH]; [done|].
  eapply rtc_l; [by apply go|exact IH].
Qed.

(** What a run of which nothing is put back keeps of its past. *)
Definition evolves_run (run : str) (s s' : store) : Prop :=
  forall id r, task_runs s !! id = Some r -> T.run_id r = run ->
    exists r', task_runs s' !! id = Some r' /\ row_evolves r r'
      /\ forall d, (id, d) ∈ task_dependencies s -> (id, d) ∈ task_dependencies s'.

Lemma step_elsewhere x y run :
  step x y -> Inv (AG := put x.1) x.2 -> run ∉ y.1 -> run ∉ x.1 /\ evolves_run run x.2 y.2.
Proof.
  intros [A s s' H|A s run' s' H] Hi Hn; cbn in *.
  - split; [done|]. apply (Reach.step_keeps (AG := put A) s s' H) in Hi as [_ [Hr He]].
    intros id r Hid _. destruct (Hr id r Hid) as (r' & Hr' & Hev). exists r'. split_and!; [done..|].
    intros d. by apply (He id d r Hid).
  - destruct (again_put_back s run' s' (inv_edges _ Hi) H) as [Hp _].
    assert (run <> run' /\ run ∉ A) as [Hne HA] by set_solver. split; [done|].
    intros id r Hid Hrun. exists r. split_and!.
    + apply (pb_other _ _ _ Hp); [done|congruence].
    + apply row_evolves_refl.
    + intros d. apply (pb_edges_other _ _ _ Hp id d r Hid). congruence.
Qed.

Lemma evolves_run_trans run a b c : evolves_run run a b -> evolves_run run b c -> evolves_run run a c.
Proof.
  intros H1 H2 id r Hr Hrun. destruct (H1 id r Hr Hrun) as (r1 & Hr1 & Ev1 & E1).
  destruct (H2 id r1 Hr1) as (r2 & Hr2 & Ev2 & E2); [by rewrite (ev_run _ _ Ev1)|].
  exists r2. split_and!; [done|by eapply row_evolves_trans|auto].
Qed.

Lemma lives_elsewhere x y run :
  lives x y -> lived x -> run ∉ y.1 -> run ∉ x.1 /\ evolves_run run x.2 y.2.
Proof.
  induction 1 as [x|x x1 y Hs Hl IH]; intros Hx Hn.
  - split; [done|]. intros id r Hr _. exists r. split_and!; [done|apply row_evolves_refl|done].
  - assert (lived x1) as Hx1 by (eapply rtc_r; [exact Hx|exact Hs]).
    destruct (IH Hx1 Hn) as [Hn1 E1].
    destruct (step_elsewhere _ _ _ Hs (lived_inv _ Hx) Hn1) as [Hn0 E0].
    split; [done|]. by eapply evolves_run_trans.
Qed.

(** ** What starts *)

(** C1: no task runs before its time.  In a run of which nothing was put back, a task that
    is ready, running, waiting for an approval or done has every dependency over, and their
    outcomes meet its trigger rule.  It holds in every history of the steps of [Reach], with
    tasks of other runs put back under the conditions of [Life.again], and with no runtime
    fan-out expanded: those are the histories of [lived].  (A task that is put back leaves
    what it had let run over a dependency that is open again, and a fan-out's barrier runs
    over its instances.) *)
Theorem started_rule_met A s id r :
  lived (A, s) -> task_runs s !! id = Some r -> T.run_id r ∉ A ->
  T.status r = Ready \/ T.status r = Running \/ T.status r = AwaitingApproval
  \/ T.status r = Succeeded ->
  Forall (fun x => Runs.terminal x = true) (dep_statuses s id)
  /\ trigger_rule_ready (T.trigger_rule r) (map task_status_str (dep_statuses s id)) = true.
Proof.
  intros Hl H Hn Hs. pose proof (lived_inv _ Hl) as Hi. cbn in Hi.
  destruct (inv_rules _ Hi id r H) as [Ho Hh].
  { unfold started. by destruct Hs as [-> |[-> |[-> | ->]]]. }
  { exact Hn. }
  split; [|by apply trigger_rule_ready_spec].
  apply Forall_forall. intros x (d & rd & Hd & Hrd & <-)%dep_statuses_spec. by apply (Ho d rd).
Qed.

(** ** The count, again *)

(** C6: the count is right whatever was put back, as long as what is put back is quiet.  In
    every history of [lived] (runs made, worked on, stopped and worked on again, with no
    runtime fan-out expanded), a pending task counts at least its dependencies that are not
    over, and exactly those when none of them is a gang's; in a waiting run one more.
    Tasks are put back there under the conditions of [Life.again]: a run none of whose tasks
    is asked to stop, for a clear or a retry a run that has its place, and for a retry of one
    task a run with nothing pending and a task that is no barrier and is owed no teardown.
    (A retry with a dependent pending leaves its count too low: [retry_skips_dependent].) *)
Theorem count_right_again A s id r :
  lived (A, s) -> task_runs s !! id = Some r -> T.status r = Pending ->
  let n := (Z.of_nat (length (List.filter (fun x => negb (Runs.terminal x)) (dep_statuses s id)))
            + run_held s (T.run_id r))%Z in
  (n <= T.remaining_deps r)%Z /\ (no_gang_dep s id -> T.remaining_deps r = n).
Proof.
  intros Hl H Hp. pose proof (lived_inv _ Hl) as Hi. cbn in *. rewrite <- open_deps_statuses.
  by apply (inv_counts _ Hi id r).
Qed.

(** ** What a rerun and a clear do *)

(** What a rerun from the failed tasks makes of a row. *)
Definition rerun_of (run : str) (who : option str) (now : time) (s' : store) (id : str)
    (r : T.task_run) : T.task_run :=
  if broken_of run id r then Ops.rerun_row now who r <| T.remaining_deps := open_deps s' id |>
  else if bool_decide (T.run_id r = run) && is_status Pending r
       then r <| T.remaining_deps := open_deps s' id |> else r.

Lemma rerun_rows run by_ who now s s' n :
  edges_ok s -> Ops.rerun_from_failed_in run by_ who now s = Ok (s', Some n) ->
  forall id, task_runs s' !! id = rerun_of run who now s' id <$> task_runs s !! id.
Proof.
  intros He (s2 & [[Ht Hd] _ _ _ _] & -> & _)%rerun_from_failed_shape id.
  set (s3 := Ops.recount _ _ _). change (task_runs s3 !! id = rerun_of run who now s3 id <$> task_runs s !! id).
  assert (forall i, task_runs s2 !! i = if (fun _ : str => false) i then None else task_runs s !! i)
    as H2 by (intros i; by rewrite Ht).
  unfold s3. rewrite (reset_lookup s s2 run (fun _ => false) _ _ _ H2).
  destruct (task_runs s !! id) as [r|] eqn:E; [|done]. cbn [fmap option_fmap option_map]. f_equal.
  assert (T.run_id r = run -> Ops.outstanding Ops.satisfied (update (broken_of run) (Ops.rerun_row now who) s2) id
            = open_deps s3 id) as Ho.
  { intros Hr. apply (reset_outstanding s s2 run (fun _ => false)) with (r := r); try done.
    - intros a b. rewrite Hd. tauto.
    - intros i x _ [-> %bool_decide_eq_true Hb]%andb_true_iff.
      split; [done|]. split; [by apply rerun_row_again, broken_terminal|done].
    - intros i x _ _ Hx. unfold broken_of. rewrite bool_decide_true by done. cbn [andb].
      unfold Ops.broken, terminal, is_status. by destruct (T.status x). }
  unfold rerun_of. fold s3. destruct (broken_of run id r) eqn:Eb.
  - unfold broken_of in Eb. apply andb_true_iff in Eb as [Er%bool_decide_eq_true _].
    change (T.run_id (Ops.rerun_row now who r)) with (T.run_id r).
    rewrite Er, bool_decide_true by done. cbn [andb is_status]. by rewrite <- Ho.
  - destruct (bool_decide (T.run_id r = run)) eqn:Er; [|done].
    apply bool_decide_eq_true in Er. by rewrite Ho.
Qed.

(** A rerun from the failed tasks.  It is for a run that failed or was cancelled, and
    answers [None], changing nothing, for any other.  Where it goes ahead the run is running
    with no end and no output, every failed, cancelled or skipped task of it is pending on a
    new version with its attempts counted from none, and waits for exactly the dependencies
    that are not over; every task that succeeded, and every other run's, is as it was; no
    edge changes; and one event says how many were put back. *)
Theorem rerun_from_failed_spec A s run by_ who now s' n :
  lived (A, s) -> Ops.rerun_from_failed_in run by_ who now s = Ok (s', n) ->
  match n with
  | None => s' = s /\ forall r, workflow_runs s !! run = Some r -> R.status r <> RFailed /\ R.status r <> RCancelled
  | Some n =>
      (exists r r', workflow_runs s !! run = Some r /\ (R.status r = RFailed \/ R.status r = RCancelled)
         /\ workflow_runs s' !! run = Some r' /\ R.status r' = RRunning
         /\ R.finished_at r' = None /\ R.output r' = None)
      /\ (forall id, task_runs s' !! id = rerun_of run who now s' id <$> task_runs s !! id)
      /\ task_dependencies s' = task_dependencies s
      /\ (forall i, i <> run -> workflow_runs s' !! i = workflow_runs s !! i)
      /\ n = size (affected (broken_of run) (task_runs s))
      /\ event_outbox s' = event_outbox s
           ++ [{| e_run := run; e_type := again_event by_; e_body := PutBack by_ n None; e_at := now |}]
  end.
Proof.
  intros Hl E. pose proof (lived_inv _ Hl) as Hi. cbn in Hi. destruct n as [n|].
  - pose proof (rerun_rows run by_ who now s s' n (inv_edges _ Hi) E) as Hrows.
    destruct (rerun_from_failed_shape _ _ _ _ _ _ _ E) as (s2 & [[Ht Hd] _ Ho Hev Hrow] & Hs' & Hn).
    split; [|split; [exact Hrows|]].
    + destruct Hrow as (r & r' & Hr & Hf & Hr' & E1 & E2 & E3). exists r, r'. split; [done|].
      split; [|rewrite Hs'; done].
      unfold Ops.failed_or_cancelled, run_is in Hf.
      apply orb_true_iff in Hf as [Hf%bool_decide_eq_true|Hf%bool_decide_eq_true]; auto.
    + split; [rewrite Hs'; exact Hd|]. split; [intros i Hi'; rewrite Hs'; by apply Ho|].
      split; [done|]. rewrite Hs', <- Hev. done.
  - unfold Ops.rerun_from_failed_in in E.
    pose proof (arm_none run Ops.failed_or_cancelled (fun r => r <| R.output := None |>) s) as Hnone.
    pose proof (affected_one Ops.failed_or_cancelled (workflow_runs s) run) as Ha.
    unfold Ops.arm, update_runs in *. cbn [fst snd] in *. destruct (_ =? 0)%nat eqn:E0.
    + apply Nat.eqb_eq in E0. injection E as <-. split; [by apply Hnone|]. intros r Hr.
      rewrite Ha, Hr in E0. unfold Ops.failed_or_cancelled, run_is in E0.
      destruct (bool_decide (R.status r = RFailed) || bool_decide (R.status r = RCancelled)) eqn:Eo;
        [by rewrite map_size_singleton in E0|].
      apply orb_false_iff in Eo as [E1%bool_decide_eq_false E2%bool_decide_eq_false]. done.
    + by destruct (Ops.refuse_if_full _ _ _).
Qed.

(** C14: a clear takes the task and what waits for it.  In a run that has its place, a clear
    of a task that is over resets that task and every task that is over and waits for it,
    directly or through others (the rows of the code's recursive query), to pending on a new
    version; what does not depend on it keeps its outcome, its version and its holder; and
    a pending task of the run counts its dependencies that are not over. *)
Theorem clear_takes_cone A s run task_id who now s' n :
  lived (A, s) -> not_held run s ->
  Ops.clear_task_with_downstream_by run task_id who now s = Ok (s', Some n) ->
  (forall id r, task_runs s !! id = Some r ->
     rtc (waits_for s) task_id id -> Runs.terminal (T.status r) = true ->
     task_runs s' !! id = Some (Ops.cleared_row now who r <| T.remaining_deps := open_deps s' id |>))
  /\ (forall id r, task_runs s !! id = Some r ->
     ~ (rtc (waits_for s) task_id id /\ Runs.terminal (T.status r) = true) ->
     exists r', task_runs s' !! id = Some r' /\ r' = r <| T.remaining_deps := T.remaining_deps r' |>
       /\ (T.run_id r <> run -> r' = r))
  /\ (forall id r', task_runs s' !! id = Some r' -> T.run_id r' = run -> T.status r' = Pending ->
        T.remaining_deps r' = open_deps s' id).
Proof.
  intros Hl Hh E. pose proof (lived_inv _ Hl) as Hi. cbn in Hi. pose proof (inv_edges _ Hi) as He.
  pose proof (clear_put_back run task_id who now s s' n He Hh E) as Hp.
  assert (exists r, task_runs s !! task_id = Some r /\ T.run_id r = run) as Hr0.
  { unfold Ops.clear_task_with_downstream_by in E. destruct (task_runs s !! task_id) as [r|]; [|done].
    destruct (bool_decide (T.run_id r = run)) eqn:Er; [|done].
    apply bool_decide_eq_true in Er. by exists r. }
  destruct (clear_shape run task_id who now s s' n Hh E) as (s2 & [Ht Hd] & [Et Ed] & _).
  assert (forall i, task_runs s2 !! i = if (fun _ : str => false) i then None else task_runs s !! i)
    as H2 by (intros i; by rewrite Ht).
  pose proof (reset_lookup s s2 run (fun _ => false) (cleared_of s run task_id) (Ops.cleared_row now who)
    Runs.terminal H2) as Hlk. rewrite <- Et in Hlk. cbn beta iota in Hlk.
  assert (forall id r, cleared_of s run task_id id r = true
            <-> rtc (waits_for s) task_id id /\ Runs.terminal (T.status r) = true) as Hc.
  { intros id r. unfold cleared_of, Ops.over. rewrite andb_true_iff, bool_decide_eq_true, cone_reach. tauto. }
  split; [|split; [|apply (pb_counts _ _ _ Hp)]].
  - intros id r Hr Hw Htm. specialize (Hlk id). rewrite Hr in Hlk. cbn in Hlk.
    assert (cleared_of s run task_id id r = true) as Hct by (apply Hc; done).
    assert (T.run_id r = run) as Hrun.
    { unfold cleared_of in Hct. apply andb_true_iff in Hct as [Hct%bool_decide_eq_true _].
      by eapply cone_run. }
    rewrite Hct in Hlk. change (T.run_id (Ops.cleared_row now who r)) with (T.run_id r) in Hlk.
    rewrite Hrun, bool_decide_true in Hlk by done. cbn [andb] in Hlk.
    pose proof (pb_counts _ _ _ Hp id _ Hlk Hrun eq_refl) as Hcount. rewrite <- Hcount. exact Hlk.
  - intros id r Hr Hn. specialize (Hlk id). rewrite Hr in Hlk. cbn in Hlk.
    destruct (cleared_of s run task_id id r) eqn:Ec; [by apply Hc in Ec|].
    eexists. split; [exact Hlk|]. case_match eqn:Eb.
    + split; [done|]. intros Hx. apply andb_true_iff in Eb as [Eb%bool_decide_eq_true _]. done.
    + split; [by destruct r|done].
Qed.

(** ** A run goes on *)

(** C8: a run goes on.  In the histories of [lived] (tasks put back under the conditions
    of [Life.again], no runtime fan-out expanded), of a run that has its place, whose tasks
    are in no gang and depend on each other in no circle: if something is pending and nothing
    else of the run is under way, some pending task has nothing left to wait for, and the
    next advance moves it. *)
Theorem run_moves_on A now s run (rank : str -> nat) id r :
  lived (A, s) ->
  (forall a b, (a, b) ∈ task_dependencies s -> rank b < rank a)%nat ->
  (forall i x, task_runs s !! i = Some x -> T.run_id x = run ->
     T.gang_id x = None /\ (T.status x = Pending \/ Runs.terminal (T.status x) = true)) ->
  run_held s run = 0%Z ->
  task_runs s !! id = Some r -> T.run_id r = run -> T.status r = Pending ->
  exists i x x', task_runs s !! i = Some x /\ T.run_id x = run /\ Scheduler.unblocked x = true
    /\ task_runs (fst (Scheduler.advance_ready_tasks now s)) !! i = Some x'
    /\ T.status x' <> Pending.
Proof. intros Hl. apply (Progress.run_moves (AG := put A)). by apply (lived_inv _ Hl). Qed.

(** ** A rerun goes somewhere *)

(** C7: a rerun is never for nothing.  When the run that is rerun from its failed tasks had
    nothing under way, has no gang, and its tasks depend on each other in no circle, and a
    task of it was put back, then some task has nothing left to wait for, and the next
    advance moves it. *)
Theorem rerun_moves A s run by_ who now s' n (rank : str -> nat) now' :
  lived (A, s) -> Ops.rerun_from_failed_in run by_ who now s = Ok (s', Some (S n)) ->
  (forall a b, (a, b) ∈ task_dependencies s -> rank b < rank a)%nat ->
  (forall id r, task_runs s !! id = Some r -> T.run_id r = run ->
     T.gang_id r = None /\ Runs.terminal (T.status r) = true) ->
  exists i x x', task_runs s' !! i = Some x /\ T.run_id x = run /\ Scheduler.unblocked x = true
    /\ task_runs (fst (Scheduler.advance_ready_tasks now' s')) !! i = Some x'
    /\ T.status x' <> Pending.
Proof.
  intros Hl E Hrank Hover. pose proof (lived_inv _ Hl) as Hi. cbn in Hi.
  pose proof (rerun_rows run by_ who now s s' (S n) (inv_edges _ Hi) E) as Hrows.
  pose proof (rerun_from_failed_put_back run by_ who now s s' (S n) (inv_edges _ Hi) E) as Hp.
  assert (quiet run s) as Hq.
  { intros id r Hr Hrun (Hs & _). destruct (Hover id r Hr Hrun) as [_ Ht]. by rewrite Hs in Ht. }
  assert (lived ({[ run ]} ∪ A, s')) as Hl'.
  { eapply lived_lives; [exact Hl|]. apply rtc_once, back. by eapply rerun. }
  destruct (rerun_from_failed_shape _ _ _ _ _ _ _ E) as (s2 & [[_ Hd] _ _ _ _] & Hs' & Hn).
  destruct (map_choose (affected (broken_of run) (task_runs s))) as (id & r & H).
  { intros E0. by rewrite E0, map_size_empty in Hn. }
  apply affected_lookup in H as [Hr Hb]. pose proof Hb as [Hrun%bool_decide_eq_true _]%andb_true_iff.
  pose proof (Hrows id) as Hrow. rewrite Hr in Hrow. cbn [fmap option_fmap option_map] in Hrow.
  unfold rerun_of in Hrow. rewrite Hb in Hrow.
  eapply (Progress.run_moves (AG := put ({[ run ]} ∪ A)) now' s' run rank id); try done.
  - by apply (lived_inv _ Hl').
  - intros a b Hab. apply Hrank. by apply (pb_edges _ _ _ Hp).
  - intros i x' Hx' Hxr. rewrite Hrows in Hx'. destruct (task_runs s !! i) as [x|] eqn:Hx; [|done].
    cbn [fmap option_fmap option_map] in Hx'. apply (inj Some) in Hx'. subst x'.
    assert (T.run_id x = run) as Hxrun.
    { rewrite <- Hxr. unfold rerun_of. by repeat case_match. }
    destruct (Hover i x Hx Hxrun) as [Hg Ht]. unfold rerun_of.
    destruct (broken_of run i x); [by split; [|left]|].
    destruct (bool_decide _ && _); by split; [|right].
  - apply (pb_held _ _ _ Hp).
Qed.

(** ** Caps *)

(** The store with one run changed at most, as a count that leaves that run out sees it. *)
Lemma in_flight_without name key run s s' :
  only_run run s s' -> workflow_definitions s' = workflow_definitions s ->
  (fst (Runs.runs_in_flight name key None s') <= fst (Runs.runs_in_flight name key (Some run) s) + 1)%Z.
Proof.
  intros Ho Hd. unfold Runs.runs_in_flight. cbn [fst].
  set (p := fun (except : option str) (s : store) (id : str) (r : R.workflow_run) => run_is RRunning r && Runs.of_key s name key r
                                 && negb (bool_decide (Some id = except))).
  change (Z.of_nat (size (affected (p None s') (workflow_runs s')))
          <= Z.of_nat (size (affected (p (Some run) s) (workflow_runs s))) + 1)%Z.
  assert (forall r, Runs.of_key s' name key r = Runs.of_key s name key r) as Hk
    by (intros r; unfold Runs.of_key; by rewrite Hd).
  assert (delete run (affected (p None s') (workflow_runs s'))
          ⊆ affected (p (Some run) s) (workflow_runs s)) as Hsub.
  { apply map_subseteq_spec. intros i r [Hn H]%lookup_delete_Some.
    apply affected_lookup in H as [H Hp]. apply affected_lookup. rewrite <- Ho by done.
    split; [done|]. unfold p in *. rewrite Hk in Hp.
    rewrite (bool_decide_false (Some i = Some run)) by congruence.
    by rewrite (bool_decide_false (Some i = None)) in Hp. }
  apply map_subseteq_size in Hsub.
  destruct (affected (p None s') (workflow_runs s') !! run) as [x|] eqn:E.
  - rewrite <- (insert_delete_id _ _ _ E), map_size_insert_None by apply lookup_delete_eq. lia.
  - rewrite delete_id in Hsub by done. lia.
Qed.

Lemma keep_replaced_definitions reset reason now s :
  workflow_definitions (Ops.keep_replaced reset reason now s) = workflow_definitions s.
Proof. unfold Ops.keep_replaced. by repeat case_match. Qed.

Lemma keep_replaced_runs reset reason now s :
  workflow_runs (Ops.keep_replaced reset reason now s) = workflow_runs s.
Proof. apply keep_replaced_tasks. Qed.

Lemma rearm_definitions run now s :
  workflow_definitions (Ops.rearm_deadlines run now s) = workflow_definitions s.
Proof. unfold Ops.rearm_deadlines. by repeat case_match. Qed.

Lemma within_cap run cap s1 s' :
  Ops.refuse_if_full run (Some cap) s1 = Ok tt -> only_run run s1 s' ->
  workflow_definitions s' = workflow_definitions s1 ->
  (fst (Runs.runs_in_flight (Ops.rc_name cap) (Ops.rc_key cap) None s') <= Z.of_N (Ops.rc_max cap))%Z.
Proof.
  intros H Ho Hd. pose proof (in_flight_without (Ops.rc_name cap) (Ops.rc_key cap) run s1 s' Ho Hd) as Hle.
  unfold Ops.refuse_if_full in H. destruct (Runs.runs_in_flight _ _ (Some run) s1) as [active w].
  cbn in *. destruct (Z.leb_spec (Z.of_N (Ops.rc_max cap)) active); [done|]. lia.
Qed.

Lemma arm_ended run takes more s r :
  workflow_runs s !! run = Some r -> takes r = true -> snd (Ops.arm run takes more s) = 1%nat.
Proof.
  intros Hr Ht. unfold Ops.arm, update_runs. cbn. rewrite affected_one, Hr, Ht. apply map_size_singleton.
Qed.

Lemma rerun_within run by_ who now s s' n r cap :
  workflow_runs s !! run = Some r -> Ops.failed_or_cancelled r = true -> Ops.run_cap run s = Some cap ->
  Ops.rerun_from_failed_in run by_ who now s = Ok (s', Some n) ->
  (fst (Runs.runs_in_flight (Ops.rc_name cap) (Ops.rc_key cap) None s') <= Z.of_N (Ops.rc_max cap))%Z.
Proof.
  intros Hr Hf Hcap E. unfold Ops.rerun_from_failed_in in E. rewrite Hcap in E.
  pose proof (arm_ended run Ops.failed_or_cancelled (fun r => r <| R.output := None |>) s r Hr Hf) as Hn.
  destruct (Ops.arm _ _ _ s) as [s1 k] eqn:Ea. cbn in Hn. subst k. cbn [Nat.eqb] in E.
  destruct (Ops.refuse_if_full _ _ _) as [[]|] eqn:Ef; [|done].
  destruct (update_tasks _ _ _) as [s3 m] eqn:Eu. apply (f_equal fst) in Eu. cbn in Eu. subst s3.
  injection E as <- _. eapply within_cap; [exact Ef| |].
  - intros i Hi. cbn. rewrite keep_replaced_runs. by apply rearm_only.
  - cbn. by rewrite keep_replaced_definitions, rearm_definitions.
Qed.

Lemma rerun_all_within run who now s s' n r cap :
  workflow_runs s !! run = Some r -> Ops.ended r = true -> Ops.run_cap run s = Some cap ->
  Ops.rerun_all_in run who now s = Ok (s', Some n) ->
  (fst (Runs.runs_in_flight (Ops.rc_name cap) (Ops.rc_key cap) None s') <= Z.of_N (Ops.rc_max cap))%Z.
Proof.
  intros Hr He Hcap E. unfold Ops.rerun_all_in in E. rewrite Hcap in E.
  pose proof (arm_ended run Ops.ended
    (fun r => r <| R.output := None |> <| R.whole_reruns ::= Z.succ |>) s r Hr He) as Hn.
  destruct (Ops.arm _ _ _ s) as [s1 k] eqn:Ea. cbn in Hn. subst k. cbn [Nat.eqb] in E.
  destruct (Ops.refuse_if_full _ _ _) as [[]|] eqn:Ef; [|done].
  destruct (Ops.refuse_if_teardown_owed _ _); [|done].
  destruct (update_tasks _ _ _) as [s3 m] eqn:Eu. apply (f_equal fst) in Eu. cbn in Eu. subst s3.
  injection E as <- _. eapply within_cap; [exact Ef| |].
  - intros i Hi. cbn. rewrite keep_replaced_runs. by apply rearm_only.
  - cbn. by rewrite keep_replaced_definitions, rearm_definitions.
Qed.

Lemma clear_within run id who now s s' n r cap :
  workflow_runs s !! run = Some r -> Ops.ended r = true -> Ops.run_cap run s = Some cap ->
  Ops.clear_task_with_downstream_by run id who now s = Ok (s', Some n) ->
  (fst (Runs.runs_in_flight (Ops.rc_name cap) (Ops.rc_key cap) None s') <= Z.of_N (Ops.rc_max cap))%Z.
Proof.
  intros Hr He Hcap E. unfold Ops.clear_task_with_downstream_by in E. rewrite Hcap in E.
  destruct (task_runs s !! id); [|done]. destruct (negb (bool_decide _)); [done|].
  destruct (negb (Ops.over _)); [done|].
  destruct (update_tasks _ _ _) as [s3 m] eqn:Eu. apply (f_equal fst) in Eu. cbn in Eu. subst s3.
  set (s3 := Ops.recount _ _ _) in *.
  pose proof (arm_ended run Ops.ended (fun r => r <| R.output := None |>) s3 r) as Hn.
  change (workflow_runs s3) with (workflow_runs (Ops.keep_replaced (Ops.Cone run id) (again_reason Clear) now s)) in Hn.
  rewrite keep_replaced_runs in Hn. specialize (Hn Hr He).
  destruct (Ops.arm _ _ _ s3) as [s1 k] eqn:Ea. cbn in Hn. subst k. cbn [Nat.eqb] in E.
  destruct (Ops.refuse_if_full _ _ _) as [[]|] eqn:Ef; [|done]. injection E as <- _.
  eapply within_cap; [exact Ef| |].
  - intros i Hi. cbn. by apply rearm_only.
  - cbn. by rewrite rearm_definitions.
Qed.

Lemma retry_within id who now s s' x r cap :
  task_runs s !! id = Some x ->
  workflow_runs s !! T.run_id x = Some r -> Ops.failed_or_cancelled r = true -> Ops.run_cap (T.run_id x) s = Some cap ->
  Ops.retry_task_from_ui_by id who now s = Ok (s', true) ->
  (fst (Runs.runs_in_flight (Ops.rc_name cap) (Ops.rc_key cap) None s') <= Z.of_N (Ops.rc_max cap))%Z.
Proof.
  intros Hx Hr Hf Hcap E. unfold Ops.retry_task_from_ui_by in E. rewrite Hx in E. cbn [fmap option_fmap option_map] in E.
  rewrite Hcap in E.
  destruct (update_tasks _ _ _) as [s3 m] eqn:Eu. apply (f_equal fst) in Eu. cbn in Eu. subst s3.
  destruct (m =? 0)%nat; [done|].
  set (s3 := _ <| task_runs ::= _ |>) in *.
  pose proof (arm_ended (T.run_id x) Ops.failed_or_cancelled Datatypes.id s3 r) as Hn.
  change (workflow_runs s3) with (workflow_runs (Ops.keep_replaced (Ops.Task id) (again_reason Retry) now s)) in Hn.
  rewrite keep_replaced_runs in Hn. specialize (Hn Hr Hf).
  destruct (Ops.arm _ _ _ s3) as [s1 k] eqn:Ea. cbn in Hn. subst k. cbn [Nat.eqb] in E.
  destruct (Ops.refuse_if_full _ _ _) as [[]|] eqn:Ef; [|done]. injection E as <-.
  eapply within_cap; [exact Ef| |].
  - intros i Hi. cbn. by apply rearm_only.
  - cbn. by rewrite rearm_definitions.
Qed.

(** A run set running again is within its cap.  Whichever of the four operations sets a
    failed or cancelled run running again, and it was not refused, then the runs of its
    workflow in flight under its key, that one counted, are no more than the cap. *)
Theorem again_within_cap s run s' r cap :
  again s run s' -> workflow_runs s !! run = Some r ->
  R.status r = RFailed \/ R.status r = RCancelled -> Ops.run_cap run s = Some cap ->
  (fst (Runs.runs_in_flight (Ops.rc_name cap) (Ops.rc_key cap) None s') <= Z.of_N (Ops.rc_max cap))%Z.
Proof.
  intros Ha Hr Hst Hcap.
  assert (Ops.failed_or_cancelled r = true /\ Ops.ended r = true) as [Hf He].
  { unfold Ops.ended, Ops.failed_or_cancelled, run_is. by destruct Hst as [-> | ->]. }
  destruct Ha; eauto using rerun_within, rerun_all_within, clear_within, retry_within.
Qed.

End life.
End Life.
