(* ===== verification/Claims.v ===== *)
(** * What a claim takes

    [claim_ready_filtered] takes each task it answers with, once, as its candidate was read,
    and no other; no pool runs over its cap by it; and a gang is claimed whole or not at
    all. *)

From S2P Require Import Tables Cond Stops Scheduler Runs Invariant Preserve.

Module Claims.

Import Models Invariant Preserve.

(** ** Classes *)

Definition COMMA : ascii := ",".

Lemma split_char_infix (x : str) (a r : str) :
  contains_char COMMA x = false ->
  split_char COMMA (a ++ COMMA :: x ++ COMMA :: r)
  = split_char COMMA a ++ [x] ++ split_char COMMA r.
Proof.
  intros Hx. induction a as [|c a IH].
  - cbn [app]. change (split_char COMMA (COMMA :: ?l)) with ([] :: split_char COMMA l).
    by rewrite split_char_cons.
  - cbn [app split_char]. rewrite IH. destruct (ch COMMA c); [done|].
    destruct (split_char COMMA a) eqn:E; [by apply split_char_nonempty in E|done].
Qed.

Lemma join_app c l1 l2 :
  l1 <> [] -> l2 <> [] -> join [c] (l1 ++ l2) = join [c] l1 ++ c :: join [c] l2.
Proof.
  induction l1 as [|x l1 IH]; [done|]. intros _ H2. destruct l1 as [|y l1].
  - destruct l2; [done|]. done.
  - cbn [app]. change (join [c] (x :: y :: ?l)) with (x ++ [c] ++ join [c] (y :: l)).
    change (y :: l1 ++ l2) with ((y :: l1) ++ l2). rewrite IH by done.
    by rewrite <- !app_assoc.
Qed.

(** The set as the text of its members, one empty name on either side. *)
Lemma class_set_text classes :
  classes <> [] -> Stops.class_set classes = join [COMMA] ([] :: classes ++ [[]]).
Proof.
  intros H. assert (join [COMMA] (classes ++ [[]]) = join [COMMA] classes ++ [COMMA]) as E
    by (by apply join_app).
  destruct classes as [|c cs]; [done|]. unfold Stops.class_set.
  change (join [COMMA] ([] :: (c :: cs) ++ [[]])) with (COMMA :: join [COMMA] ((c :: cs) ++ [[]])).
  by rewrite E.
Qed.

(** A class is served when it is named.  For the classes an engine can be given (no
    comma in a name), the text match of the claim is membership. *)
Theorem class_set_member (classes : list str) (x : str) :
  Forall (fun c => contains_char COMMA c = false) classes -> contains_char COMMA x = false ->
  x <> [] -> classes <> [] ->
  Stops.in_set (Stops.class_set classes) x = true <-> x ∈ classes.
Proof.
  intros Hc Hx Hne Hcl. unfold Stops.in_set. rewrite class_set_text by done.
  change $"," with [COMMA]. rewrite contains_spec. split.
  - intros (a & r & E).
    assert (split_char COMMA (join [COMMA] ([] :: classes ++ [[]])) = [] :: classes ++ [[]]) as Hs.
    { apply split_char_join; [done|]. constructor; [done|]. apply Forall_app. by repeat constructor. }
    rewrite E in Hs. rewrite <- !app_assoc in Hs. cbn [app] in Hs.
    rewrite split_char_infix in Hs by done.
    assert (x ∈ [] :: classes ++ [[]]) as Hin by (rewrite <- Hs; set_solver).
    apply elem_of_cons in Hin as [->|Hin]; [done|]. apply elem_of_app in Hin as [Hin|Hin]; [done|].
    by apply list_elem_of_singleton in Hin.
  - intros (l1 & l2 & ->)%list_elem_of_split. exists (join [COMMA] ([] :: l1)), (join [COMMA] (l2 ++ [[]])).
    replace ([] :: (l1 ++ x :: l2) ++ [[]]) with (([] :: l1) ++ ([x] ++ (l2 ++ [[]])))
      by (by rewrite <- app_assoc).
    rewrite join_app by done. rewrite join_app by (by destruct l2).
    by rewrite <- !app_assoc.
Qed.

(** ** The candidates *)

Section claims.
Context {W : World} {HS : ScanLaw W}.

Lemma scan_elem t id r : (id, r) ∈ scan t <-> t !! id = Some r.
Proof. rewrite scan_perm. apply elem_of_map_to_list. Qed.

Lemma scan_NoDup t : NoDup (map fst (scan t)).
Proof. rewrite scan_perm. apply NoDup_fst_map_to_list. Qed.

Lemma NoDup_map_filter {A B} (g : A -> B) (f : A -> bool) l :
  NoDup (map g l) -> NoDup (map g (List.filter f l)).
Proof.
  induction l as [|x l IH]; [done|]. cbn. intros [Hx Hn]%NoDup_cons.
  destruct (f x); [|by apply IH]. cbn. constructor; [|by apply IH].
  intros (y & E & Hy)%list_elem_of_fmap. apply Hx. rewrite E. apply list_elem_of_fmap. exists y.
  split; [done|]. apply list_elem_of_In, filter_In in Hy as [Hy _]. by apply list_elem_of_In.
Qed.

Lemma NoDup_take {A} n (l : list A) : NoDup l -> NoDup (take n l).
Proof. intros H. rewrite <- (take_drop n l) in H. by apply NoDup_app in H as [H _]. Qed.

Lemma candidates_spec now classes exhausted nongang limit s :
  let l := Scheduler.ready_candidates now classes exhausted nongang limit s in
  NoDup (map fst l)
  /\ (forall id r, (id, r) ∈ l ->
        task_runs s !! id = Some r /\ Scheduler.claimable now classes exhausted nongang r = true)
  /\ ((0 <= limit)%Z -> (Z.of_nat (length l) <= limit)%Z).
Proof.
  cbn zeta. unfold Scheduler.ready_candidates, Scheduler.limited.
  set (f := fun kv : str * T.task_run => Scheduler.claimable now classes exhausted nongang kv.2).
  set (l := Stops.sort_by Scheduler.claim_order (List.filter f (scan (task_runs s)))).
  assert (NoDup (map fst l)) as Hn.
  { unfold l. rewrite (Permutation_map fst (sort_by_perm _ _)).
    apply NoDup_map_filter, scan_NoDup. }
  assert (forall id r, (id, r) ∈ l -> task_runs s !! id = Some r /\ f (id, r) = true) as Hl.
  { intros id r. unfold l. rewrite sort_by_perm, list_elem_of_In, filter_In, <- list_elem_of_In.
    by rewrite scan_elem. }
  destruct (Z.ltb_spec limit 0).
  - split; [done|]. split; [done|lia].
  - split; [|split].
    + rewrite <- firstn_map. by apply NoDup_take.
    + intros id r Hin. apply Hl. rewrite <- (take_drop (Z.to_nat limit) l). set_solver.
    + intros _. rewrite length_take. lia.
Qed.

(** ** The loop *)

(** What the loop has done to the store it began with: each task it took is as its claim
    leaves it, and no other row has changed. *)
Definition taken_from (worker_id : str) (lease : time) (s0 s : store)
    (claimed : list (str * T.task_run)) : Prop :=
  (forall id r, (id, r) ∈ claimed ->
     task_runs s !! id = Some (Scheduler.claimed_row worker_id lease r))
  /\ (forall id, id ∉ map fst claimed -> task_runs s !! id = task_runs s0 !! id).

Definition in_pool (p : str) (kv : str * T.task_run) : bool := sql_eq (T.pool kv.2) p.
Definition pool_taken (p : str) (claimed : list (str * T.task_run)) : Z :=
  Z.of_nat (length (List.filter (in_pool p) claimed)).

(** The slots left in a pool are those it had less those taken. *)
Definition budget (avail0 avail : gmap str Z) (claimed : list (str * T.task_run)) : Prop :=
  forall p n, avail0 !! p = Some n ->
    exists m, avail !! p = Some m /\ m = (n - pool_taken p claimed)%Z /\ (0 <= m)%Z.

Lemma pool_taken_app p l x :
  pool_taken p (l ++ [x]) = (pool_taken p l + if in_pool p x then 1 else 0)%Z.
Proof.
  unfold pool_taken. rewrite List.filter_app, length_app. cbn. destruct (in_pool p x); cbn; lia.
Qed.

Lemma claim_candidate_spec worker_id lease s0 s avail0 avail claimed id r :
  task_runs s0 !! id = Some r -> T.status r = Ready -> id ∉ map fst claimed ->
  taken_from worker_id lease s0 s claimed -> budget avail0 avail claimed ->
  exists s' avail' claimed',
    Scheduler.claim_candidate worker_id lease (s, avail, claimed) (id, r) = (s', avail', claimed')
    /\ (claimed' = claimed \/ claimed' = claimed ++ [(id, r)])
    /\ taken_from worker_id lease s0 s' claimed' /\ budget avail0 avail' claimed'.
Proof.
  intros Hr Hs Hid [Ht1 Ht2] Hb. unfold Scheduler.claim_candidate. cbn [fst snd].
  destruct (Scheduler.drained avail r) eqn:Ed; [exists s, avail, claimed; split; [done|]; split; [by left|done]|].
  statement E.
  match type of E with context [update_tasks ?p ?f s] => set (q := p) in *; set (g := f) in * end.
  assert (task_runs s !! id = Some r) as Hsr by (by rewrite Ht2).
  assert (rows = 1%nat) as ->.
  { rewrite E, update_tasks_rows.
    rewrite <- (map_size_singleton (K := str) (M := gmap str) id r). f_equal.
    apply map_eq. intros i. apply option_eq. intros x. rewrite affected_lookup, lookup_singleton_Some.
    unfold q. split.
    - intros [Hi Hq]. where_ Hq. subst i. split; congruence.
    - intros [<- <-]. split; [done|]. unfold is_status. rewrite Hs, Z.eqb_refl.
      by rewrite !bool_decide_true. }
  exists (update q g s), (Scheduler.take_slot avail r), (claimed ++ [(id, r)]).
  split; [done|]. split; [by right|]. split; [split|].
  - intros i x [Hin|Hin%list_elem_of_singleton]%elem_of_app.
    + rewrite update_tasks_lookup, (Ht1 i x Hin). cbn. unfold q.
      rewrite bool_decide_false; [done|]. intros ->. apply Hid. apply list_elem_of_fmap. by exists (id, x).
    + injection Hin as -> ->. rewrite update_tasks_lookup, Hsr. cbn. unfold q, is_status.
      by rewrite Hs, Z.eqb_refl, !bool_decide_true.
  - intros i. rewrite map_app. cbn [map]. intros Hi. rewrite update_tasks_lookup, Ht2 by set_solver.
    destruct (task_runs s0 !! i) as [x|]; [|done]. cbn. unfold q.
    rewrite bool_decide_false by set_solver. done.
  - intros p n Hp. destruct (Hb p n Hp) as (m & Hm & -> & Hge). rewrite pool_taken_app.
    change (in_pool p (id, r)) with (bool_decide (T.pool r = Some p)).
    unfold Scheduler.take_slot, Scheduler.drained in *.
    destruct (T.pool r) as [p'|]; cycle 1.
    { rewrite bool_decide_false by done. exists (n - pool_taken p claimed)%Z. split; [done|]. lia. }
    destruct (decide (p' = p)) as [->|Hne].
    + rewrite lookup_alter_eq, Hm. rewrite Hm in Ed. apply Z.leb_gt in Ed.
      rewrite bool_decide_true by done. eexists. split; [done|]. lia.
    + rewrite lookup_alter_ne by done. rewrite bool_decide_false by congruence.
      exists (n - pool_taken p claimed)%Z. split; [done|]. lia.
Qed.

Lemma claim_loop_spec worker_id lease s0 avail0 l s avail claimed :
  NoDup (map fst l) -> (forall id r, (id, r) ∈ l -> task_runs s0 !! id = Some r /\ T.status r = Ready) ->
  (forall id, id ∈ map fst l -> id ∉ map fst claimed) -> NoDup (map fst claimed) ->
  taken_from worker_id lease s0 s claimed -> budget avail0 avail claimed ->
  exists s' avail' claimed',
    fold_left (Scheduler.claim_candidate worker_id lease) l (s, avail, claimed) = (s', avail', claimed')
    /\ (forall x, x ∈ claimed' -> x ∈ claimed \/ x ∈ l)
    /\ (length claimed' <= length claimed + length l)%nat
    /\ NoDup (map fst claimed')
    /\ taken_from worker_id lease s0 s' claimed' /\ budget avail0 avail' claimed'.
Proof.
  revert s avail claimed; induction l as [|[id r] l IH]; intros s avail claimed Hn Hl Hd Hc Ht Hb.
  { exists s, avail, claimed. split; [done|]. split; [by left|]. split; [cbn; lia|done]. }
  cbn [map] in Hn. apply NoDup_cons in Hn as [Hni Hn].
  destruct (Hl id r ltac:(by left)) as [Hr Hs]. assert (id ∉ map fst claimed) as Hid by (apply Hd; by left).
  destruct (claim_candidate_spec worker_id lease s0 s avail0 avail claimed id r Hr Hs Hid Ht Hb)
    as (s1 & av1 & cl1 & E & Hcl & Ht1 & Hb1).
  cbn [fold_left]. rewrite E.
  assert (NoDup (map fst cl1) /\ (forall i, i ∈ map fst cl1 -> i ∈ map fst claimed \/ i = id)) as [Hn1 Hi1].
  { destruct Hcl as [-> | ->]; [split; [done|by left]|]. rewrite map_app. split.
    - apply NoDup_app. split; [done|]. split; [set_solver|apply NoDup_singleton].
    - intros i [Hi|Hi%list_elem_of_singleton]%elem_of_app; by auto. }
  destruct (IH s1 av1 cl1 Hn) as (s' & av' & cl' & E' & Hin & Hlen & Hn' & Ht' & Hb'); try done.
  - intros i x Hi. apply Hl. by right.
  - intros i Hi [Hic| ->]%Hi1; [|done]. apply (Hd i); [by right|done].
  - exists s', av', cl'. split; [done|]. split; [|split].
    + intros x Hx. destruct (Hin x Hx) as [Hx'|Hx']; [|right; by right].
      destruct Hcl as [-> | ->]; [by left|].
      apply elem_of_app in Hx' as [Hx'| ->%list_elem_of_singleton]; [by left|right; by left].
    + destruct Hcl as [-> | ->]; rewrite ?length_app in Hlen; cbn in *; lia.
    + done.
Qed.

(** ** What a claim answers *)

Lemma pool_avail_lookup caps s p c :
  caps !! p = Some c ->
  Scheduler.pool_avail caps s !! p = Some (Z.max (c - Scheduler.pool_running p s) 0).
Proof. intros H. unfold Scheduler.pool_avail. by rewrite map_lookup_imap, H. Qed.

Lemma occupies_pool p r : Scheduler.occupies p r = true -> T.pool r = Some p.
Proof. unfold Scheduler.occupies. intros H. by where_ H. Qed.

Lemma claimed_pool worker_id lease r : T.pool (Scheduler.claimed_row worker_id lease r) = T.pool r.
Proof. done. Qed.

(** A pool is fuller by what was taken from it at most. *)
Lemma pool_running_taken worker_id lease s0 s claimed p :
  taken_from worker_id lease s0 s claimed ->
  (Scheduler.pool_running p s <= Scheduler.pool_running p s0 + pool_taken p claimed)%Z.
Proof.
  intros [Ht1 Ht2]. unfold Scheduler.pool_running, pool_taken.
  set (q := fun (_ : str) r => Scheduler.occupies p r).
  assert (forall t : gmap str T.task_run, size (affected q t) = length (returning q t)) as Hsize
    by (intros t; unfold returning; by rewrite length_map, length_map_to_list).
  rewrite !Hsize. rewrite <- Nat2Z.inj_add. apply inj_le.
  rewrite <- (length_map fst (List.filter _ claimed)), <- length_app.
  apply submseteq_length, NoDup_submseteq; [apply returning_NoDup|].
  intros id (r & Hr & Hq)%returning_spec. apply elem_of_app.
  destruct (decide (id ∈ map fst claimed)) as [Hid|Hid].
  - right. apply list_elem_of_fmap in Hid as ([i x] & -> & Hx). apply list_elem_of_fmap.
    exists (i, x). split; [done|]. apply list_elem_of_In, filter_In. split; [by apply list_elem_of_In|].
    apply occupies_pool in Hq. pose proof (Ht1 i x Hx) as Hx'. cbn [fst] in Hr.
    assert (r = Scheduler.claimed_row worker_id lease x) as E by congruence.
    rewrite E, claimed_pool in Hq. unfold in_pool, sql_eq. cbn [snd]. by rewrite bool_decide_true.
  - left. apply returning_spec. exists r. by rewrite <- Ht2.
Qed.

(** C9: what a claim takes.  Every task a claim answers with was ready, due, of a class the
    engine serves and in no full pool when the claim began, and is now running under the
    worker's lease with one more attempt and one more version; it is answered with once;
    there are no more of them than were asked for; no other task has changed; and no pool
    with a cap holds more than its cap by it. *)
Theorem claim_takes worker_id limit classes caps nongang now s :
  let lease := (now + secs Stops.lease_secs)%Z in
  let full := Scheduler.exhausted_set (Scheduler.pool_avail caps s) in
  exists s' got,
    Scheduler.claim_ready_filtered worker_id limit classes caps nongang now s = (s', got)
    /\ NoDup (map fst got)
    /\ ((0 <= limit)%Z -> (Z.of_nat (length got) <= limit)%Z)
    /\ (forall id r, (id, r) ∈ got ->
          task_runs s !! id = Some r
          /\ Scheduler.claimable now (Stops.class_set classes) full nongang r = true
          /\ task_runs s' !! id = Some (Scheduler.claimed_row worker_id lease r))
    /\ (forall id, id ∉ map fst got -> task_runs s' !! id = task_runs s !! id)
    /\ (forall p cap, caps !! p = Some cap ->
          (Scheduler.pool_running p s' <= Z.max cap (Scheduler.pool_running p s))%Z).
Proof.
  cbn zeta. unfold Scheduler.claim_ready_filtered.
  set (lease := (now + secs Stops.lease_secs)%Z). set (avail := Scheduler.pool_avail caps s).
  destruct (candidates_spec now (Stops.class_set classes) (Scheduler.exhausted_set avail) nongang limit s)
    as (Hn & Hl & Hlen).
  set (l := Scheduler.ready_candidates _ _ _ _ _ s) in *.
  destruct (claim_loop_spec worker_id lease s avail l s avail []) as
    (s' & av' & got & E & Hin & Hlen' & Hn' & Ht & Hb); try done.
  - intros id r [H1 H2]%Hl. split; [done|]. unfold Scheduler.claimable in H2.
    do 4 apply andb_true_iff in H2 as [H2 _]. by apply is_status_true.
  - intros id _. set_solver.
  - constructor.
  - split; [set_solver|done].
  - intros p n Hp. exists n. split; [done|]. split; [unfold pool_taken; cbn; lia|].
    unfold avail, Scheduler.pool_avail in Hp. rewrite map_lookup_imap in Hp.
    destruct (caps !! p); [|done]. injection Hp as <-. lia.
  - exists s', got. rewrite E. split; [done|]. split; [done|]. split; [intros H0%Hlen; cbn in Hlen'; lia|].
    destruct Ht as [Ht1 Ht2]. split; [|split].
    + intros id r H. destruct (Hin _ H) as [H'|H']; [set_solver|]. destruct (Hl id r H') as [H1 H2].
      split; [done|]. split; [done|]. by apply Ht1.
    + done.
    + intros p cap Hp. destruct (Hb p _ (pool_avail_lookup caps s p cap Hp)) as (m & _ & -> & Hm).
      pose proof (pool_running_taken worker_id lease s s' got p (conj Ht1 Ht2)). lia.
Qed.

End claims.
End Claims.
