(* ===== verification/Sample.v ===== *)
(** * A world and a run, to evaluate the model on

    The smallest code outside the repository that keeps its laws, and a chain of two tasks
    as it is made, advanced, claimed and half done. *)

From S2P Require Import Tables Cond Stops Scheduler Parks Runs Invariant Preserve Create Reach.

Module Sample.

Import Models.

(** What lies outside the repository, as the smallest program that keeps its laws: no
    variable is set, every instant has one text, a task with a [when] is written as its
    [when], one without as its name, the first reads back and the second does not, and one
    text sets a cap. *)
Definition when_key : str := QUOTE :: $"when" ++ [QUOTE].

Definition task_json (t : Spec.TaskSpec Z) : str :=
  match Spec.when t with
  | Some w => when_key ++ w
  | None => $"name: " ++ Spec.name t
  end.

Definition json_task (j : str) : option (Spec.TaskSpec Z) :=
  if bool_decide (take (length when_key) j = when_key)
  then Some ((Spec.task_named (Num := Z) $"gate") <| Spec.when := Some (drop (length when_key) j) |>)
  else None.

#[export] Instance world : World := {|
  num := Z;
  env := fun _ => None;
  rfc3339 := fun _ => $"2026-01-01T00:00:00+00:00";
  DATE_MAX := 8210266876799999999999%Z;
  clock_current := (ClockUnknown, None, None);
  task_to_json := task_json;
  task_from_json := json_task;
  parameters_to_json := fun _ => $"{}";
  yaml_max_active_runs := fun y => if bool_decide (y = $"max_active_runs: 2") then Some 2%N else None;
  yaml_run_timeout_secs := fun _ => None;
  yaml_deadline_in := fun _ => None;
  scan := map_to_list;
|}.

#[export] Instance world_scan : ScanLaw world.
Proof. split. intros t. done. Qed.

#[export] Instance world_when : WhenLaw world.
Proof.
  split.
  - intros t Ht. apply contains_spec. cbn. unfold task_json. cbn in Ht.
    destruct (@Spec.when Z t) as [w|]; [|done].
    exists [], (to_lower w). apply map_app.
  - intros t t'. cbn. unfold task_json, json_task.
    destruct (@Spec.when Z t) as [w|]; case_bool_decide as E; [|done..].
    by intros [= <-].
Qed.

Definition uuid (n : nat) : str := $"u" ++ show_N (N.of_nat n).

Definition task (name : str) (deps : list str) : Spec.TaskSpec Z :=
  (Spec.task_named (Num := Z) name) <| Spec.depends_on := deps |>.

Definition dag (tasks : list (Spec.TaskSpec Z)) : Spec.DagGraph Z :=
  {| Spec.spec :=
       {| Spec.dg_name := $"flow"; Spec.parameters := ∅; Spec.param_schema := ∅;
          Spec.concurrency_key := None; Spec.templates := []; Spec.uses := []; Spec.tags := [];
          Spec.run_timeout_secs := None; Spec.max_active_runs := None; Spec.when_full := None;
          Spec.budget := None; Spec.deadline := None; Spec.notify := None;
          Spec.result_from := None; Spec.dg_runner_class := None; Spec.dg_environment := None;
          Spec.task_defaults := None; Spec.on_datasets := []; Spec.datasets_mode := None;
          Spec.tasks := tasks |};
     Spec.graph_parameters := ∅ |}.

Definition request : Runs.request :=
  {| Runs.yaml_spec := $"name: flow"; Runs.offset := None; Runs.dead_letter := None;
     Runs.rq_triggered_by := None; Runs.trigger := None; Runs.claim := None; Runs.own := None |}.

(** A made run, on an empty store. *)
Definition made (g : Spec.DagGraph Z) : store :=
  match Runs.create_run_full uuid g request 0 None 0%Z empty_store with
  | Ok (s, _) => s
  | Err _ => empty_store
  end.

Lemma made_reachable g :
  is_ok (Runs.create_run_full uuid g request 0 None 0%Z empty_store) = true ->
  Reach.reachable (made g).
Proof.
  unfold made. destruct (Runs.create_run_full _ _ _ _ _ _ _) as [[s id]|] eqn:E; [|done].
  intros _. eapply rtc_once, Reach.create_run; [|exact E]. intros i r H. done.
Qed.

(** [build], then [test]; both take rows [u2] and [u3] of the run [u1]. *)
Definition chain : Spec.DagGraph Z := dag [task $"build" []; task $"test" [$"build"]].

Definition s0 : store := made chain.
Definition s1 : store := fst (Scheduler.advance_ready_tasks 1%Z s0).
Definition s2 : store := fst (Scheduler.claim_ready_filtered $"w" 10 [] ∅ false 2%Z s1).
Definition s3 : store := fst (Scheduler.mark_task_succeeded $"u2" $"w" 1 None 3%Z s2).

Lemma s0_reachable : Reach.reachable s0.
Proof. apply made_reachable. by vm_compute. Qed.

Lemma s1_reachable : Reach.reachable s1.
Proof. eapply rtc_r; [exact s0_reachable|apply Reach.advance]. Qed.

Lemma s2_reachable : Reach.reachable s2.
Proof. eapply rtc_r; [exact s1_reachable|apply Reach.claim]. Qed.

Lemma s3_reachable : Reach.reachable s3.
Proof. eapply rtc_r; [exact s2_reachable|apply Reach.succeed]. Qed.

(** The status and the count of a row. *)
Definition row_of (s : store) (id : str) : option (TaskStatus * Z) :=
  (fun r => (T.status r, T.remaining_deps r)) <$> task_runs s !! id.

Example s0_rows : (row_of s0 $"u2", row_of s0 $"u3") = (Some (Pending, 0%Z), Some (Pending, 1%Z)).
Proof. by vm_compute. Qed.

Example s3_rows : (row_of s3 $"u2", row_of s3 $"u3") = (Some (Succeeded, 0%Z), Some (Ready, 0%Z)).
Proof. by vm_compute. Qed.

End Sample.
