(* ===== verification/LifeWitnesses.v ===== *)
(** * What happens where a task is put back too freely

    Concrete histories, evaluated: what the operations of [Ops] do outside the conditions
    [Life]'s steps ask for.  The first task of a sample run is [u2], the next [u3], and so
    on; the run is [u1].

    ** The theorems of [Life] on concrete histories

    The chain of [Sample] whose first task fails: its run fails, is rerun and goes on; the
    same chain, done, with its first task cleared; and a run under a cap. *)

From S2P Require Import Tables Stops Scheduler Parks Runs Ops Reach Sample Invariant Safety AgainFacts Life.

Module Findings.

Import Models Sample.

(** The store an operation answers with, when it is not refused. *)
Definition after {E A} (r : result E (store * A)) (s : store) : store :=
  match r with Ok (s', _) => s' | Err _ => s end.

Definition claim (limit now : Z) (s : store) : store :=
  fst (Scheduler.claim_ready_filtered $"w" limit [] ∅ false now s).
Definition advance (now : Z) (s : store) : store := fst (Scheduler.advance_ready_tasks now s).

Definition status_of (s : store) (id : str) : option TaskStatus := T.status <$> task_runs s !! id.
Definition holder_of (s : store) (id : str) : option (option str) := T.claimed_by <$> task_runs s !! id.
Definition run_status_of (s : store) (id : str) : option RunStatus := R.status <$> workflow_runs s !! id.

(** Each part of a conjunction, evaluated. *)
Ltac by_parts := lazymatch goal with |- _ /\ _ => split; [by vm_compute|by_parts] | _ => by vm_compute end.

Lemma one_step (s : store) (f : store -> store) :
  (forall s, Reach.step s (f s)) -> Reach.reachable s -> Reach.reachable (f s).
Proof. intros Hf H. eapply rtc_r; [exact H|apply Hf]. Qed.

(** ** A retry in a run under way *)

(** [c] waits for [a] and [b]; [a] fails while [b] still runs, and is retried. *)
Definition fork : Spec.DagGraph Z :=
  dag [task $"a" []; task $"b" []; task $"c" [$"a"; $"b"]].
Definition fork_failed : store :=
  fst (Scheduler.mark_task_failed $"u2" $"w" 1 None 3%Z (claim 10 2 (advance 1 (made fork)))).
Definition fork_retried : store := after (Ops.retry_task_from_ui_by $"u2" None 4%Z fork_failed) fork_failed.
Definition fork_done : store :=
  advance 7 (fst (Scheduler.mark_task_succeeded $"u3" $"w" 1 None 6%Z (claim 10 5 fork_retried))).

Lemma fork_failed_reachable : Reach.reachable fork_failed.
Proof.
  unfold fork_failed, claim, advance.
  apply (one_step _ (fun s => fst (Scheduler.mark_task_failed $"u2" $"w" 1 None 3%Z s)));
    [intros; apply Reach.fail|].
  apply (one_step _ (fun s => fst (Scheduler.claim_ready_filtered $"w" 10 [] ∅ false 2%Z s)));
    [intros; apply Reach.claim|].
  apply (one_step _ (fun s => fst (Scheduler.advance_ready_tasks 1%Z s))); [intros; apply Reach.advance|].
  apply made_reachable. by vm_compute.
Qed.

(** A retry skips what waits for it.  [retry_task_from_ui] makes a failed task ready again,
    and leaves its pending dependents' counts as its failure left them.  When the last
    other dependency of such a dependent succeeds while the retried task runs, the
    dependent is skipped for good, though everything it waits for goes on to succeed. *)
Theorem retry_skips_dependent :
  Reach.reachable fork_failed
  /\ Ops.retry_task_from_ui_by $"u2" None 4%Z fork_failed = Ok (fork_retried, true)
  /\ run_status_of fork_retried $"u1" = Some RRunning
  /\ (status_of fork_done $"u2", status_of fork_done $"u3", status_of fork_done $"u4")
     = (Some Running, Some Succeeded, Some Skipped).
Proof.
  split; [exact fork_failed_reachable|]. split; [by vm_compute|]. split; by vm_compute.
Qed.

(** ** A clear in a run being stopped *)

Definition pair_ : Spec.DagGraph Z := dag [task $"a" []; task $"b" []].
Definition pair_running : store := claim 1 2 (advance 1 (made pair_)).
Definition pair_stopping : store := fst (Stops.cancel_run $"u1" 3%Z pair_running).
Definition pair_cleared : store :=
  after (Ops.clear_task_with_downstream_by $"u1" $"u2" None 4%Z pair_stopping) pair_stopping.
Definition pair_ended : store := fst (Stops.settle_stopped_task $"u3" $"w" 1 5%Z pair_cleared).
Definition pair_after : store := claim 10 7 (advance 6 pair_ended).

(** A cancelled run runs on.  [clear_task_with_downstream] does not ask whether the run is
    being stopped: a task it puts back is pending again, the run still ends, cancelled, with
    its last stopping task, and the task put back is then advanced, claimed and run. *)
Theorem cleared_runs_after_cancel :
  (status_of pair_stopping $"u3", status_of pair_stopping $"u2") = (Some Running, Some Cancelled)
  /\ Ops.clear_task_with_downstream_by $"u1" $"u2" None 4%Z pair_stopping = Ok (pair_cleared, Some 1%nat)
  /\ run_status_of pair_ended $"u1" = Some RCancelled
  /\ run_status_of pair_after $"u1" = Some RCancelled
  /\ (status_of pair_after $"u2", holder_of pair_after $"u2") = (Some Running, Some (Some $"w")).
Proof. by_parts. Qed.

(** ** A rerun over a remote job that is still owed its teardown *)

Definition job_parked : store :=
  fst (Parks.park_external $"u2" 1 $"spark" $"job-1" None 9%Z None (claim 10 2 (advance 1 (made (dag [task $"a" []]))))).
Definition job_cancelled : store := fst (Stops.cancel_run $"u1" 3%Z job_parked).
Definition job_rerun : store :=
  after (Ops.rerun_from_failed_in $"u1" Rerun None 4%Z job_cancelled) job_cancelled.
Definition handle_of (s : store) (id : str) : option (option str) := T.external_handle <$> task_runs s !! id.

(** A rerun forgets a job that runs.  A whole rerun is refused while a cancelled task still
    holds the handle of its remote job, for the teardown to reach it; a rerun from the
    failed tasks of the same run goes ahead and drops the handle. *)
Theorem rerun_drops_handle :
  run_status_of job_cancelled $"u1" = Some RCancelled
  /\ handle_of job_cancelled $"u2" = Some (Some $"job-1")
  /\ Ops.rerun_all_in $"u1" None 4%Z job_cancelled
     = Err (Ops.Owed {| to_run_id := $"u1"; to_tasks := 1 |})
  /\ Ops.rerun_from_failed_in $"u1" Rerun None 4%Z job_cancelled = Ok (job_rerun, Some 1%nat)
  /\ handle_of job_rerun $"u2" = Some None.
Proof. by_parts. Qed.

(** ** A retry over a remote job that still runs *)

Definition job_retried : store :=
  claim 10 10 (after (Ops.retry_task_from_ui_by $"u2" None 4%Z job_cancelled) job_cancelled).
Definition job_polled : store := fst (Parks.claim_due_external_polls 10 60 11%Z job_retried).
Definition job_resolved : store :=
  fst (Parks.resolve_external $"u2" $"job-1" (Some $"done") 12%Z job_polled).
Definition job_reported : store :=
  fst (Scheduler.mark_task_failed $"u2" $"w" 3 (Some $"exit 1") 13%Z job_resolved).

(** A job of an attempt that is over ends the next.  A retry of a cancelled task keeps the
    handle of its remote job and when it is next polled; once a worker has the task, the
    poll of that job is due, and its answer ends the task while the worker holds it.  The
    worker's own report is then taken as well, for nothing changed the version: the task
    that has succeeded fails. *)
Theorem retried_job_polled :
  (status_of job_retried $"u2", holder_of job_retried $"u2", handle_of job_retried $"u2")
     = (Some Running, Some (Some $"w"), Some (Some $"job-1"))
  /\ map fst (snd (Parks.claim_due_external_polls 10 60 11%Z job_retried)) = [$"u2"]
  /\ (status_of job_resolved $"u2", holder_of job_resolved $"u2") = (Some Succeeded, Some (Some $"w"))
  /\ (status_of job_reported $"u2", holder_of job_reported $"u2") = (Some Failed, Some None).
Proof. by_parts. Qed.

(** ** A retry of a gate, and of a fan-out's barrier *)

Definition gate : Spec.TaskSpec Z := (task $"gate" []) <| Spec.task_type := Some $"approval" |>.
Definition gate_rejected : store :=
  fst (Parks.resolve_approval $"u1" $"u2" false (Some $"eve") None 2%Z (advance 1 (made (dag [gate])))).
Definition gate_retried : store := after (Ops.retry_task_from_ui_by $"u2" None 3%Z gate_rejected) gate_rejected.

Definition barrier : Spec.DagGraph Z :=
  dag [task $"list" []; (task $"each" [$"list"]) <| Spec.with_output_of := Some $"list" |>].
Definition barrier_parked : store :=
  advance 4 (fst (Scheduler.mark_task_succeeded $"u2" $"w" 1 (Some $"[1]") 3%Z (claim 10 2 (advance 1 (made barrier))))).
Definition barrier_cancelled : store := fst (Stops.cancel_run $"u1" 5%Z barrier_parked).
Definition barrier_retried : store := after (Ops.retry_task_from_ui_by $"u3" None 6%Z barrier_cancelled) barrier_cancelled.

(** A retried gate is not asked again.  A rejected gate that is retried is made ready, not
    parked for its approver, and the next claim hands it to a worker; so it is with the
    barrier of a runtime fan-out, whose command is only its instances' template. *)
Theorem retry_claims_gate :
  status_of gate_rejected $"u2" = Some Failed
  /\ Ops.retry_task_from_ui_by $"u2" None 3%Z gate_rejected = Ok (gate_retried, true)
  /\ (status_of (claim 10 4 gate_retried) $"u2", holder_of (claim 10 4 gate_retried) $"u2")
     = (Some Running, Some (Some $"w"))
  /\ (status_of barrier_parked $"u3", holder_of barrier_parked $"u3") = (Some Running, Some None)
  /\ Ops.retry_task_from_ui_by $"u3" None 6%Z barrier_cancelled = Ok (barrier_retried, true)
  /\ (status_of (claim 10 7 barrier_retried) $"u3", holder_of (claim 10 7 barrier_retried) $"u3")
     = (Some Running, Some (Some $"w")).
Proof. by_parts. Qed.

(** ** A retry in a run that succeeded *)

Definition lenient : Spec.DagGraph Z := dag [(task $"a" []) <| Spec.allow_failure := true |>].
Definition lenient_over : store :=
  fst (Runs.reap_woken Runs.All 4%Z
         (fst (Scheduler.mark_task_failed $"u2" $"w" 1 None 3%Z (claim 10 2 (advance 1 (made lenient)))))).
Definition lenient_retried : store := after (Ops.retry_task_from_ui_by $"u2" None 5%Z lenient_over) lenient_over.

(** A succeeded run runs on.  A run whose only failure was one it allows has succeeded; a
    retry of that task does not set the run running again, and the task runs all the same. *)
Theorem retry_in_succeeded_run :
  run_status_of lenient_over $"u1" = Some RSucceeded
  /\ Ops.retry_task_from_ui_by $"u2" None 5%Z lenient_over = Ok (lenient_retried, true)
  /\ run_status_of (claim 10 6 lenient_retried) $"u1" = Some RSucceeded
  /\ status_of (claim 10 6 lenient_retried) $"u2" = Some Running.
Proof. by_parts. Qed.

End Findings.

Module LifeWitnesses.

Import Models Invariant AgainFacts Sample Findings.

(** ** Stores *)

(** [u2] fails, [u3] is skipped, the run fails; and the rerun. *)
Definition broken : store := fst (Scheduler.mark_task_failed $"u2" $"w" 1 None 3%Z s2).
Definition over : store := fst (Runs.reap_woken Runs.All 5%Z (advance 4 broken)).
Definition again : store := after (Ops.rerun_from_failed_in $"u1" Rerun None 6%Z over) over.

Lemma over_lived : Life.lived (∅, over).
Proof.
  apply Life.reachable_lived. unfold over, broken, advance.
  eapply rtc_r; [|apply Reach.reap]. eapply rtc_r; [|apply Reach.advance].
  eapply rtc_r; [|apply Reach.fail]. exact s2_reachable.
Qed.

Lemma rerun_taken : Ops.rerun_from_failed_in $"u1" Rerun None 6%Z over = Ok (again, Some 2%nat).
Proof. by vm_compute. Qed.

(** A check of every row of a store. *)
Definition all_rows (s : store) (P : str -> T.task_run -> bool) : bool :=
  forallb (fun kv => P kv.1 kv.2) (map_to_list (task_runs s)).

Lemma all_rows_spec s P : all_rows s P = true -> forall id r, task_runs s !! id = Some r -> P id r = true.
Proof.
  unfold all_rows. rewrite forallb_forall. intros H id r Hr. apply (H (id, r)), list_elem_of_In.
  by apply elem_of_map_to_list.
Qed.

Lemma row_at s id P :
  match task_runs s !! id with Some r => P r | None => false end = true ->
  exists r, task_runs s !! id = Some r /\ P r = true.
Proof. destruct (task_runs s !! id) as [r|]; [by exists r|done]. Qed.

Definition all_edges (s : store) (P : str -> str -> bool) : bool :=
  forallb (fun e => P e.1 e.2) (elements (task_dependencies s)).

Lemma all_edges_spec s P : all_edges s P = true -> forall a b, (a, b) ∈ task_dependencies s -> P a b = true.
Proof.
  unfold all_edges. rewrite forallb_forall. intros H a b Hab. apply (H (a, b)), list_elem_of_In.
  by apply elem_of_elements.
Qed.

Definition no_stop (r : T.task_run) : bool := is_null (T.stop_requested_at r).

Lemma quiet_of s run : all_rows s (fun _ r => no_stop r) = true -> quiet run s.
Proof.
  intros H id r Hr _ (_ & Hs & _). apply (all_rows_spec _ _ H id) in Hr. unfold no_stop in Hr.
  by destruct (T.stop_requested_at r).
Qed.

Lemma over_quiet : quiet $"u1" over.
Proof. apply quiet_of. by vm_compute. Qed.

Lemma over_again : Life.again over $"u1" again.
Proof. eapply Life.rerun; [exact over_quiet|exact rerun_taken]. Qed.

(** ** Witnesses *)

Lemma again_lived : Life.lived ({[ $"u1" ]} ∪ ∅, again).
Proof. eapply rtc_r; [exact over_lived|apply Life.back, over_again]. Qed.

Lemma count_right_again_witness :
  exists r, task_runs again !! $"u3" = Some r /\ T.remaining_deps r = 1%Z.
Proof.
  destruct (row_at again $"u3" (fun r => is_status Pending r && (T.remaining_deps r =? 1)%Z)
              ltac:(by vm_compute)) as (r & Hr & [Hp Hd%Z.eqb_eq]%andb_true_iff).
  apply is_status_true in Hp.
  pose proof (Life.count_right_again ({[ $"u1" ]} ∪ ∅) again $"u3" r again_lived Hr Hp) as [_ _].
  exists r. split; [exact Hr|exact Hd].
Defined.

Lemma rerun_from_failed_spec_witness :
  exists r, workflow_runs again !! $"u1" = Some r /\ R.status r = RRunning.
Proof.
  destruct (Life.rerun_from_failed_spec ∅ over $"u1" Rerun None 6%Z again (Some 2%nat) over_lived rerun_taken)
    as [(r & r' & _ & _ & Hr' & Hs & _) _].
  exists r'. split; [exact Hr'|exact Hs].
Defined.

Definition level (id : str) : nat := if bool_decide (id = $"u3") then 1 else 0.

Lemma rerun_moves_witness :
  exists i x x', task_runs again !! i = Some x /\ T.run_id x = $"u1" /\ Scheduler.unblocked x = true
    /\ task_runs (fst (Scheduler.advance_ready_tasks 7%Z again)) !! i = Some x'
    /\ T.status x' <> Pending.
Proof.
  apply (Life.rerun_moves ∅ over $"u1" Rerun None 6%Z again 1 level 7%Z).
  - exact over_lived.
  - exact rerun_taken.
  - intros a b Hab. apply Nat.ltb_lt.
    exact (all_edges_spec over (fun a b => (level b <? level a)%nat) ltac:(by vm_compute) a b Hab).
  - intros id r Hr _.
    pose proof (all_rows_spec over (fun _ r => is_null (T.gang_id r) && Runs.terminal (T.status r))
                  ltac:(by vm_compute) id r Hr) as H.
    cbv beta in H. apply andb_true_iff in H as [Hg Ht].
    split; [exact (proj1 (is_null_true _) Hg)|exact Ht].
Defined.

(** The chain, done, and its first task cleared. *)
Definition done_ : store :=
  fst (Scheduler.mark_task_succeeded $"u3" $"w" 1 None 5%Z (claim 10 4 s3)).
Definition cleared : store :=
  after (Ops.clear_task_with_downstream_by $"u1" $"u2" None 6%Z done_) done_.

Lemma clear_takes_cone_witness :
  exists r, task_runs cleared !! $"u3" = Some r /\ T.status r = Pending.
Proof.
  destruct (row_at done_ $"u3" (fun r => Runs.terminal (T.status r)) ltac:(by vm_compute)) as (r & Hr & Ht).
  destruct (Life.clear_takes_cone ∅ done_ $"u1" $"u2" None 6%Z cleared 2) as [H _].
  - apply Life.reachable_lived. unfold done_, claim. eapply rtc_r; [|apply Reach.succeed].
    eapply rtc_r; [|apply Reach.claim]. exact s3_reachable.
  - by vm_compute.
  - by vm_compute.
  - eexists. split; [apply (H $"u3" r Hr)|reflexivity].
    + apply rtc_once. unfold waits_for.
      assert (bool_decide (($"u3", $"u2") ∈ task_dependencies done_) = true) as Hd by (by vm_compute).
      exact (proj1 (bool_decide_eq_true _) Hd).
    + exact Ht.
Defined.

(** A run of a workflow that has a cap of two, failed and rerun. *)
Definition capped_request : Runs.request :=
  {| Runs.yaml_spec := $"max_active_runs: 2"; Runs.offset := None; Runs.dead_letter := None;
     Runs.rq_triggered_by := None; Runs.trigger := None; Runs.claim := None; Runs.own := None |}.
Definition capped_over : store :=
  let s := after (Runs.create_run_full uuid chain capped_request 0 None 0%Z empty_store) empty_store in
  fst (Runs.reap_woken Runs.All 5%Z
         (advance 4 (fst (Scheduler.mark_task_failed $"u2" $"w" 1 None 3%Z (claim 10 2 (advance 1 s)))))).
Definition capped_again : store :=
  after (Ops.rerun_from_failed_in $"u1" Rerun None 6%Z capped_over) capped_over.
Definition the_cap : Ops.RunCap := {| Ops.rc_name := $"flow"; Ops.rc_key := None; Ops.rc_max := 2 |}.

Lemma again_within_cap_witness :
  (fst (Runs.runs_in_flight $"flow" None None capped_again) <= 2)%Z.
Proof.
  assert (exists r, workflow_runs capped_over !! $"u1" = Some r /\ run_is RFailed r = true) as (r & Hr & Hs).
  { assert (match workflow_runs capped_over !! $"u1" with Some r => run_is RFailed r | None => false end = true)
      as H by (by vm_compute).
    destruct (workflow_runs capped_over !! $"u1") as [r|]; [by exists r|discriminate H]. }
  apply (Life.again_within_cap capped_over $"u1" capped_again r the_cap).
  - apply (Life.rerun capped_over $"u1" Rerun None 6%Z capped_again 2%nat).
    + apply quiet_of. by vm_compute.
    + by vm_compute.
  - exact Hr.
  - left. exact (proj1 (bool_decide_eq_true _) Hs).
  - by vm_compute.
Defined.

End LifeWitnesses.
