(* ===== verification/RunFacts.v ===== *)
(** * What the operations on runs do

    A run is written whole: its rows, its edges and their counts.  A cancel leaves nothing
    unasked, and the run ends with its last stopping task.  A run ends when its tasks have,
    and as they have. *)

From S2P Require Import Tables Stops Scheduler Runs Invariant Preserve PreserveRuns Create Reach.

Module RunFacts.

Import Models Invariant Preserve PreserveRuns Create.

Section facts.
Context {W : World}.

(** ** A run is written whole *)

(** C13: a run is written whole.  A creation that came to its end has written the run, and
    for every task of the graph its rows, as many as its gang's size or one, pending, with
    an edge to every row of every task it depends on and to no other, and a count of as
    many, plus one where the run waits for its place; and no other task is the run's. *)
Theorem create_run_rows uuid dag rq floor free now s s' run_id :
  Reach.reachable s -> fresh_run (uuid 1%nat) s ->
  Runs.create_run_full uuid dag rq floor free now s = Ok (s', run_id) ->
  exists waits (rows : str -> list str),
    (exists r, workflow_runs s' !! run_id = Some r /\ R.status r = RRunning /\ Runs.waiting r = waits)
    /\ (forall t, t ∈ Spec.tasks (Spec.spec dag) ->
          length (rows (Spec.name t)) = members t
          /\ forall id, id ∈ rows (Spec.name t) ->
               task_runs s !! id = None
               /\ (exists x, task_runs s' !! id = Some x /\ T.run_id x = run_id
                     /\ T.status x = Pending
                     /\ T.remaining_deps x = (Z.of_nat (out_count s' id) + held_of waits)%Z)
               /\ forall d, (id, d) ∈ task_dependencies s'
                            <-> exists dep, dep ∈ Spec.depends_on t /\ d ∈ rows dep)
    /\ (forall id x, task_runs s' !! id = Some x -> T.run_id x = run_id ->
          exists t, t ∈ Spec.tasks (Spec.spec dag) /\ id ∈ rows (Spec.name t)).
Proof.
  intros Hr Hf H. pose proof (Reach.reachable_inv s Hr) as Hi.
  destruct (create_run_made _ _ _ _ _ _ _ _ _ Hi Hf H)
    as (-> & waits & s1 & s2 & ids & s3 & I1 & Ev1 & Hf1 & (r & Hrun & Hw & Hst) & Hheld & Hb & Hwire
        & G1 & G2 & G3).
  exists waits, (rows_of ids). split; [|split].
  - exists r. rewrite G3, (wired_runs _ _ _ _ _ _ _ _ Hb Hwire). done.
  - intros t Ht. split; [by eapply rows_of_task|]. intros id Hid.
    destruct (rows_of_row _ _ _ _ _ _ _ Hb t id Ht Hid) as (Hn & g & k & Hx).
    split; [|split].
    + destruct (task_runs s !! id) as [x|] eqn:E; [|done].
      destruct (ev_rows _ _ Ev1 id x E) as (y & Hy & _). congruence.
    + eexists. rewrite G1, (wired_tasks _ _ _ _ _ _ _ _ Hb Hwire). split; [exact Hx|].
      split; [done|]. split; [done|]. cbn. unfold out_count. rewrite G2.
      fold (out_count s3 id). by rewrite (new_out _ _ _ _ _ _ _ _ Hb Hwire I1 t id Ht Hid).
    + intros d. rewrite G2. by eapply new_edges.
  - intros id x Hx Hid. rewrite G1 in Hx.
    destruct (new_or_old _ _ _ _ _ _ _ _ Hb Hwire id x Hx) as [[Hx1 _]|(t & g & k & Ht & Hin & _)].
    + by destruct (Hf1 id x Hx1).
    + by exists t.
Qed.

(** A timeout too large is a panic, not an error.  The graph's check of
    [run_timeout_secs] has no upper bound, and the deadline is computed with operations
    that panic past chrono's range: whatever else the request says, no run comes of it, and
    the error is not one the caller can be answered with. *)
Theorem run_timeout_panics uuid dag rq floor free now s n :
  Runs.check_disk_floor floor free = Ok tt ->
  Spec.run_timeout_secs (Spec.spec dag) = Some n ->
  (I64_MAX / 1000 < Z.of_N n)%Z \/ (DATE_MAX < now + secs (Z.of_N n))%Z ->
  Runs.create_run_full uuid dag rq floor free now s = Err Runs.Panicked.
Proof.
  intros Hd Hn Hbig. unfold Runs.create_run_full. rewrite Hd, Hn.
  assert (Runs.add_seconds now n = Err Runs.Panicked) as E.
  { unfold Runs.add_seconds, Policy.Quota.try_seconds, Policy.Quota.checked_add.
    destruct (Z.leb_spec (Z.abs (Z.min (Z.of_N n) I64_MAX)) (I64_MAX / 1000)) as [Hs|Hs]; [|done].
    destruct Hbig as [Hbig|Hbig].
    - exfalso. assert (I64_MAX / 1000 < I64_MAX)%Z by done. lia.
    - assert (I64_MAX / 1000 < I64_MAX)%Z by done. rewrite Z.min_l by lia.
      destruct (Z.leb_spec (now + secs (Z.of_N n)) DATE_MAX); [lia|done]. }
  unfold Runs.deadline_of. by rewrite E.
Qed.

(** ** Stopping *)

(** A task that is over, or that its worker was asked to stop. *)
Definition stopped_or_asked (r : T.task_run) : Prop :=
  terminal r = true \/ (Stops.asked r = true /\ T.claimed_by r <> None).

Lemma stop_run_tasks_all run_id now s id r :
  task_runs (fst (Stops.stop_run_tasks run_id now s)) !! id = Some r -> T.run_id r = run_id ->
  stopped_or_asked r.
Proof.
  unfold Stops.stop_run_tasks. statement E1. statement E2. cbn [fst].
  rewrite !update_tasks_lookup. destruct (task_runs s !! id) as [x|]; [|done].
  cbn [fmap option_map option_fmap]. intros [= <-] Hrun.
  assert (T.run_id x = run_id) as Hx.
  { destruct (bool_decide (T.run_id x = run_id) && Stops.unheld x); by case_match. }
  rewrite (bool_decide_true _ Hx). cbn [andb].
  destruct (Stops.unheld x) eqn:Eu.
  - rewrite andb_false_intro1 by (unfold is_status; cbn; by rewrite andb_false_r). by left.
  - rewrite (bool_decide_true _ Hx). cbn [andb]. unfold stopped_or_asked, terminal, Stops.asked.
    unfold Stops.unheld, is_status in Eu. 
    destruct (is_status Running x && not_null (T.claimed_by x)) eqn:Ea.
    + right. where_ Ea. unfold is_status. cbn. rewrite Ea. split; [|done].
      by destruct (T.stop_requested_at x).
    + left. unfold is_status in Ea. destruct (T.status x); try done; cbn in *.
      by destruct (T.claimed_by x).
Qed.

Lemma stop_run_tasks_runs run_id now s :
  workflow_runs (fst (Stops.stop_run_tasks run_id now s)) = workflow_runs s.
Proof. unfold Stops.stop_run_tasks. statement E1. by statement E2. Qed.

(** A run that was asked to stop and has nothing stopping left. *)
Definition stop_over (run_id : str) (s : store) (r : R.workflow_run) : bool :=
  run_is RRunning r && not_null (R.stopping_as r) && negb (Stops.still_stopping run_id s).

Lemma finish_stopped_run_spec run_id now s r :
  workflow_runs s !! run_id = Some r ->
  let s' := fst (Stops.finish_stopped_run run_id now s) in
  workflow_runs s' !! run_id = Some (if stop_over run_id s r then Stops.finished_run now r else r)
  /\ task_runs s' = task_runs s
  /\ event_outbox s'
     = event_outbox s ++ (if stop_over run_id s r
                          then [{| e_run := run_id; e_type := $"run.completed";
                                   e_body := Completed (default (R.status r) (R.stopping_as r)); e_at := now |}]
                          else []).
Proof.
  intros Hr. cbn zeta. unfold Stops.finish_stopped_run.
  destruct (update_runs (Stops.finishes run_id s) (Stops.finished_run now) s) as [s1 n] eqn:E.
  assert (s1 = s <| workflow_runs ::= update_where (Stops.finishes run_id s) (Stops.finished_run now) |>
          /\ n = size (affected (Stops.finishes run_id s) (workflow_runs s))) as [-> ->]
    by (by injection E as <- <-). clear E.
  assert (Stops.finishes run_id s run_id r = stop_over run_id s r) as Hf.
  { unfold Stops.finishes, stop_over. by rewrite bool_decide_true. }
  assert (workflow_runs (s <| workflow_runs ::= update_where (Stops.finishes run_id s)
             (Stops.finished_run now) |>) !! run_id
          = Some (if stop_over run_id s r then Stops.finished_run now r else r)) as Hl.
  { cbn. rewrite update_where_lookup, Hr. cbn. by rewrite Hf. }
  destruct (stop_over run_id s r) eqn:Eo.
  - destruct (_ =? 0)%nat eqn:E0.
    { apply Nat.eqb_eq, affected_none with (i := run_id) (r := r) in E0; [congruence|done]. }
    rewrite Hl. cbn [fmap option_map option_fmap fst]. split; [exact Hl|]. split; [done|].
    unfold Stops.finished_run. cbn. by destruct (R.stopping_as r).
  - assert (size (affected (Stops.finishes run_id s) (workflow_runs s)) = 0%nat) as ->.
    { apply affected_none. intros i x Hx. unfold Stops.finishes in *.
      destruct (bool_decide (i = run_id)) eqn:Ei; [|done]. apply bool_decide_eq_true in Ei. subst i. assert (x = r) as -> by congruence. done. }
    cbn [Nat.eqb fst]. split; [exact Hl|]. split; [done|]. by rewrite app_nil_r.
Qed.

(** C11: a cancel leaves nothing unasked.  A running run that is cancelled is known to be
    stopping; each of its tasks is over, or held by a worker that was asked to stop; and
    the run ended with the call exactly when no task is left stopping. *)
Theorem cancel_asks_all run_id now s r :
  workflow_runs s !! run_id = Some r -> R.status r = RRunning ->
  exists s' counts r',
    Stops.cancel_run run_id now s = (s', Some counts)
    /\ (forall id t, task_runs s' !! id = Some t -> T.run_id t = run_id -> stopped_or_asked t)
    /\ workflow_runs s' !! run_id = Some r'
    /\ (if Stops.still_stopping run_id s'
        then R.status r' = RRunning /\ R.stopping_as r' <> None
        else R.status r' = default RCancelled (R.stopping_as r) /\ R.finished_at r' = Some now).
Proof.
  intros Hr Hs. unfold Stops.cancel_run.
  match goal with |- context [update_runs ?q ?g s] => set (p := q); set (f := g) end.
  assert (p run_id r = true) as Hp.
  { unfold p, run_is. by rewrite Hs, !bool_decide_true. }
  destruct (update_runs p f s) as [s1 n] eqn:E.
  assert (s1 = s <| workflow_runs ::= update_where p f |>
          /\ n = size (affected p (workflow_runs s))) as [-> ->] by (by injection E as <- <-). clear E.
  destruct (_ =? 0)%nat eqn:E0.
  { apply Nat.eqb_eq, affected_none with (i := run_id) (r := r) in E0; [congruence|done]. }
  set (s1 := s <| workflow_runs ::= update_where p f |>).
  assert (workflow_runs s1 !! run_id = Some (f r)) as H1.
  { cbn. rewrite update_where_lookup, Hr. cbn. by rewrite Hp. }
  pose proof (stop_run_tasks_all run_id now s1) as Hall.
  pose proof (stop_run_tasks_runs run_id now s1) as Hruns.
  destruct (Stops.stop_run_tasks run_id now s1) as [s2 counts]. cbn [fst] in *.
  rewrite <- Hruns in H1. destruct (finish_stopped_run_spec run_id now s2 (f r) H1) as (F1 & F2 & _).
  eexists _, counts, _. split; [done|]. rewrite F2. split; [exact Hall|]. split; [exact F1|].
  assert (Stops.still_stopping run_id (fst (Stops.finish_stopped_run run_id now s2))
          = Stops.still_stopping run_id s2) as -> by (unfold Stops.still_stopping; by rewrite F2).
  assert (stop_over run_id s2 (f r) = negb (Stops.still_stopping run_id s2)) as ->.
  { unfold stop_over, run_is, f. cbn. rewrite Hs, bool_decide_true by done.
    by destruct (R.stopping_as r). }
  unfold f. destruct (Stops.still_stopping run_id s2); cbn; rewrite ?Hs;
    destruct (R.stopping_as r); done.
Qed.

(** A stopping run ends with its last stopping task.  When the worker that was asked to
    stop settles its task, the task is cancelled, and the run ends, as what it was stopping
    as, in the same transaction that sends its event, exactly when no other task of it is
    still stopping. *)
Theorem last_stop_ends_run id worker fence now s t r x :
  task_runs s !! id = Some t -> Stops.held_by id worker fence id t = true -> Stops.asked t = true ->
  workflow_runs s !! T.run_id t = Some r -> R.status r = RRunning -> R.stopping_as r = Some x ->
  let others := affected (fun i y => negb (bool_decide (i = id)) && bool_decide (T.run_id y = T.run_id t)
                                     && Stops.asked y) (task_runs s) in
  exists s' t' r',
    Stops.settle_stopped_task id worker fence now s = (s', true)
    /\ task_runs s' !! id = Some t' /\ T.status t' = Cancelled /\ T.claimed_by t' = None
    /\ workflow_runs s' !! T.run_id t = Some r'
    /\ (if (size others =? 0)%nat
        then R.status r' = x /\ R.finished_at r' = Some now
             /\ event_outbox s' = event_outbox s ++ [{| e_run := T.run_id t; e_type := $"run.completed";
                                                        e_body := Completed x; e_at := now |}]
        else r' = r /\ event_outbox s' = event_outbox s).
Proof.
  intros Ht Hh Ha Hr Hrun Hx others. unfold Stops.settle_stopped_task, Stops.settle_stopping.
  match goal with |- context [update_tasks ?q ?g s] => set (p := q); set (f := g) end.
  statement E. rewrite update_tasks_rows in E.
  assert (p id t = true) as Hp by (unfold p; by rewrite Hh, Ha).
  destruct (rows =? 0)%nat eqn:E0.
  { apply Nat.eqb_eq in E0. rewrite E0 in E. symmetry in E.
    apply affected_none with (i := id) (r := t) in E; [congruence|done]. }
  assert (task_runs (update p f s) !! id = Some (f t)) as H1
    by (rewrite update_tasks_lookup, Ht; cbn [fmap option_map option_fmap]; by rewrite Hp).
  rewrite H1. cbn [fmap option_map option_fmap]. change (T.run_id (f t)) with (T.run_id t).
  destruct (finish_stopped_run_spec (T.run_id t) now (update p f s) r Hr) as (F1 & F2 & F3).
  eexists _, (f t), _. split; [done|]. rewrite F2. split; [exact H1|]. split; [done|]. split; [done|].
  split; [exact F1|]. rewrite F3.
  assert (Stops.still_stopping (T.run_id t) (update p f s) = negb (size others =? 0)%nat) as Hs.
  { unfold Stops.still_stopping. do 2 f_equal. unfold others. f_equal. apply map_eq. intros i.
    apply option_eq. intros y. rewrite !affected_lookup, update_tasks_lookup.
    destruct (decide (i = id)) as [->|Hne].
    - rewrite Ht. cbn [fmap option_map option_fmap]. rewrite Hp. split; [|by intros [[= <-] H]; rewrite bool_decide_true in H].
      intros [[= <-] H]. unfold is_status in H. cbn in H. by rewrite andb_false_r in H.
    - rewrite (bool_decide_false (i = id)) by done. cbn [negb andb].
      unfold Stops.asked. rewrite <- andb_assoc.
      assert (forall z, p i z = false) as Hpi.
      { intros z. unfold p, Stops.held_by. by rewrite bool_decide_false. }
      destruct (task_runs s !! i) as [z|]; cbn [fmap option_map option_fmap]; [rewrite Hpi|]; naive_solver. }
  assert (stop_over (T.run_id t) (update p f s) r = (size others =? 0)%nat) as ->.
  { unfold stop_over, run_is. rewrite Hs, Hrun, Hx, bool_decide_true by done. by rewrite negb_involutive. }
  destruct (size others =? 0)%nat.
  - unfold Stops.finished_run. cbn. by rewrite Hx.
  - split; [done|]. by rewrite app_nil_r.
Qed.

(** ** Ending *)

Lemma finalize_spec now s l run x id :
  let s' := (Runs.finalize now (s, l) (run, x)).1 in
  task_runs s' = task_runs s
  /\ (id <> run -> workflow_runs s' !! id = workflow_runs s !! id)
  /\ (forall r, id = run -> workflow_runs s !! id = Some r -> R.status r = RRunning ->
        exists r', workflow_runs s' !! id = Some r' /\ R.status r' = x /\ R.finished_at r' = Some now).
Proof.
  cbn zeta. unfold Runs.finalize. destruct (update_runs _ _ s) as [s1 n] eqn:E1.
  match type of E1 with update_runs ?q ?g s = _ => set (p := q) in *; set (f := g) in * end.
  assert (s1 = s <| workflow_runs ::= update_where p f |>
          /\ n = size (affected p (workflow_runs s))) as [-> ->] by (by injection E1 as <- <-). clear E1.
  destruct (_ =? 0)%nat eqn:E0.
  { apply Nat.eqb_eq in E0. cbn [fst]. split; [done|]. split.
    - intros _. cbn. by rewrite update_where_none.
    - intros r -> Hr Hs. apply affected_none with (i := run) (r := r) in E0; [|done].
      unfold p, run_is in E0. by rewrite Hs, !bool_decide_true in E0. }
  destruct (update_runs _ _ (s <| workflow_runs ::= update_where p f |>)) as [s2 m] eqn:E2.
  match type of E2 with update_runs ?q ?g _ = _ => set (p2 := q) in *; set (f2 := g) in * end.
  assert (s2 = s <| workflow_runs ::= update_where p f |> <| workflow_runs ::= update_where p2 f2 |>) as ->
    by (by injection E2 as <- _). clear E2.
  cbn [fst]. split; [done|]. split.
  - intros Hne. cbn. rewrite !update_where_lookup. destruct (workflow_runs s !! id) as [r|]; [|done].
    cbn. unfold p, p2. rewrite !(bool_decide_false (id = run)) by done. done.
  - intros r -> Hr Hs. cbn. rewrite !update_where_lookup, Hr. cbn.
    assert (p run r = true) as -> by (unfold p, run_is; by rewrite Hs, !bool_decide_true).
    eexists. split; [done|]. by destruct (p2 run (f r)).
Qed.

(** The runs a reap ends, and as what. *)
Definition complete_runs (runs : list str) (s : store) : list (str * RunStatus) :=
  omap (fun id =>
          let* r := workflow_runs s !! id in
          if Runs.reapable r then let* x := Runs.run_outcome (Runs.tasks_of id s) in Some (id, x) else None)
    (remove_dups runs).

Lemma complete_runs_spec runs s id x :
  (id, x) ∈ complete_runs runs s
  <-> id ∈ runs /\ exists r, workflow_runs s !! id = Some r /\ Runs.reapable r = true
                     /\ Runs.run_outcome (Runs.tasks_of id s) = Some x.
Proof.
  unfold complete_runs. rewrite list_elem_of_omap. setoid_rewrite elem_of_remove_dups. split.
  - intros (i & Hi & H). destruct (workflow_runs s !! i) as [r|] eqn:Er; [|done].
    destruct (Runs.reapable r) eqn:Ep; [|done].
    destruct (Runs.run_outcome (Runs.tasks_of i s)) as [y|] eqn:Eo; [|done].
    injection H as <- <-. split; [done|]. by exists r.
  - intros (Hi & r & Hr & Hp & Ho). exists id. by rewrite Hr, Hp, Ho.
Qed.

Lemma complete_runs_NoDup runs s : NoDup (map fst (complete_runs runs s)).
Proof.
  unfold complete_runs. induction (NoDup_remove_dups runs) as [|i l Hi Hn IH]; [constructor|].
  cbn. assert (forall y, y ∈ map fst (omap (fun id =>
          let* r := workflow_runs s !! id in
          if Runs.reapable r then let* x := Runs.run_outcome (Runs.tasks_of id s) in Some (id, x) else None) l)
          -> y ∈ l) as Hsub.
  { intros y ([j x] & -> & (k & Hk & H)%list_elem_of_omap)%list_elem_of_fmap. cbn.
    destruct (workflow_runs s !! k); [|done]. destruct (Runs.reapable _); [|done].
    destruct (Runs.run_outcome _); [|done]. by injection H as <- <-. }
  destruct (workflow_runs s !! i) as [r|]; [|exact IH]. destruct (Runs.reapable r); [|exact IH].
  destruct (Runs.run_outcome _); [|exact IH]. cbn. constructor; [|exact IH]. intros H%Hsub. done.
Qed.

Lemma finalize_fold now l acc id :
  NoDup (map fst l) ->
  (forall x, (id, x) ∈ l -> exists r, workflow_runs acc.1 !! id = Some r /\ R.status r = RRunning) ->
  let s' := (fold_left (Runs.finalize now) l acc).1 in
  task_runs s' = task_runs acc.1
  /\ (id ∉ map fst l -> workflow_runs s' !! id = workflow_runs acc.1 !! id)
  /\ (forall x, (id, x) ∈ l ->
        exists r', workflow_runs s' !! id = Some r' /\ R.status r' = x /\ R.finished_at r' = Some now).
Proof.
  revert acc; induction l as [|[i x] l IH]; intros acc Hn Hrun; cbn zeta.
  { cbn [fold_left]. split; [done|]. split; [done|]. intros x. set_solver. }
  cbn [map] in Hn. apply NoDup_cons in Hn as [Hi Hn]. cbn [fst] in Hi. cbn [fold_left].
  destruct acc as [s a]. destruct (finalize_spec now s a i x id) as (F1 & F2 & F3).
  assert (forall y, (i, y) ∉ l) as Hnot.
  { intros y Hy. apply Hi. apply list_elem_of_fmap. by exists (i, y). }
  destruct (IH (Runs.finalize now (s, a) (i, x)) Hn) as (G1 & G2 & G3).
  { intros y Hy. rewrite F2; [apply (Hrun y); by right|]. intros ->. by eapply Hnot. }
  cbn [fst] in *. split; [by rewrite G1, F1|]. split.
  - intros [Hne Hnl]%not_elem_of_cons. rewrite G2 by done. by apply F2.
  - intros y [[= <- <-]|Hy]%elem_of_cons; [|by apply G3].
    destruct (Hrun y ltac:(by left)) as (r & Hr & Hs). rewrite (G2 Hi). by eapply F3.
Qed.

(** C10: a run ends when its tasks have, and as they have.  Of the runs a reap is told of, one
    that is running, not stopping and has its place ends when every task of it is over: as
    failed when a task failed that may not, as succeeded otherwise.  Every other run stays
    as it was, and no task is touched. *)
Theorem reap_ends_complete runs now s id r :
  workflow_runs s !! id = Some r ->
  let s' := fst (Runs.reap runs now s) in
  let over := Forall (fun t => Runs.terminal (T.status t) = true) (Runs.tasks_of id s) in
  let failed := Exists (fun t => T.status t = Failed /\ T.allow_failure t = false) (Runs.tasks_of id s) in
  task_runs s' = task_runs s
  /\ (id ∈ runs -> Runs.reapable r = true -> over ->
      exists r', workflow_runs s' !! id = Some r' /\ R.finished_at r' = Some now
        /\ (failed -> R.status r' = RFailed) /\ (~ failed -> R.status r' = RSucceeded))
  /\ (id ∉ runs \/ Runs.reapable r = false \/ ~ over -> workflow_runs s' !! id = Some r).
Proof.
  intros Hr. cbn zeta. unfold Runs.reap. fold (complete_runs runs s).
  destruct (finalize_fold now (complete_runs runs s) (s, []) id (complete_runs_NoDup runs s)) as (F1 & F2 & F3).
  { intros x (_ & r' & Hr' & Hp & _)%complete_runs_spec. exists r'. split; [done|].
    unfold Runs.reapable in Hp. where_ Hp. unfold run_is in Hp. by where_ Hp. }
  cbn [fst] in *.
  assert (forallb (fun t => Runs.terminal (T.status t)) (Runs.tasks_of id s) = true
          <-> Forall (fun t => Runs.terminal (T.status t) = true) (Runs.tasks_of id s)) as Hover.
  { rewrite forallb_forall, Forall_forall. by setoid_rewrite list_elem_of_In. }
  split; [exact F1|]. split.
  - intros Hin Hp Ho. assert (exists x, Runs.run_outcome (Runs.tasks_of id s) = Some x
      /\ (Exists (fun t => T.status t = Failed /\ T.allow_failure t = false) (Runs.tasks_of id s) -> x = RFailed)
      /\ (~ Exists (fun t => T.status t = Failed /\ T.allow_failure t = false) (Runs.tasks_of id s) -> x = RSucceeded))
      as (x & Hx & Hx1 & Hx2).
    { unfold Runs.run_outcome. rewrite (proj2 Hover Ho). cbn [negb].
      destruct (existsb _ _) eqn:E; eexists; (split; [done|]).
      - apply existsb_exists in E as (t & Ht & E). split; [done|]. intros Hno. exfalso. apply Hno.
        apply Exists_exists. exists t. split; [by apply list_elem_of_In|]. by where_ E.
      - split; [|done]. intros (t & Ht & Hf & Ha)%Exists_exists. apply not_true_iff_false in E. exfalso.
        apply E. apply existsb_exists. exists t. split; [by apply list_elem_of_In|].
        unfold is_status. by rewrite Hf, Ha, bool_decide_true. }
    destruct (F3 x) as (r' & Hr' & Hs & Hfin); [apply complete_runs_spec; by eauto|].
    exists r'. rewrite Hs. by auto.
  - intros Hno. rewrite F2; [done|]. intros ([i x] & -> & Hin)%list_elem_of_fmap. cbn in *.
    apply complete_runs_spec in Hin as (Hin & r' & Hr' & Hp & Hx). assert (r' = r) as -> by congruence.
    destruct Hno as [Hno|[Hno|Hno]]; [done|congruence|]. apply Hno, Hover.
    unfold Runs.run_outcome in Hx. by destruct (forallb _ _).
Qed.

End facts.
End RunFacts.
