(* ===== verification/SpecFacts.v ===== *)
(** * What a condition and a template mean

    The evaluation of a condition is a recursion on its parts, whose fuel is never used up;
    and a filled-in text is its pieces, each reference replaced on its own.

    ** What the values of a specification are read as

    An approver writes one line of a gate's log and no more; pools and durations read back
    as they were written. *)

From S2P Require Import Prelude F64 Json Cond Spec.

Module CondFacts.

Import Cond.

(** ** Conditions *)

Lemma length_trim s : length (trim s) <= length s.
Proof. destruct (trim_infix s) as (a & b & E). rewrite E at 2. rewrite !length_app. lia. Qed.

Definition total (l : list str) : nat := list_sum (map length l).

Lemma total_cons x l : total (x :: l) = length x + total l.
Proof. done. Qed.

Lemma total_in p l : p ∈ l -> length p <= total l.
Proof.
  induction l as [|x l IH]; [set_solver|]. rewrite total_cons.
  intros [->|H%IH]%elem_of_cons; lia.
Qed.

Lemma find_length p s i : find p s = Some i -> i + length p <= length s.
Proof.
  intros (r & Hr & Hi)%find_Some. apply (f_equal length) in Hr.
  rewrite !length_app, length_take in Hr. lia.
Qed.

(** No loop over a text looks at its fuel: more of it changes nothing. *)

Lemma split_word_fuel n m expr word top start i :
  word <> [] -> length expr - i < n -> length expr - i < m ->
  split_word_from n expr word top start i = split_word_from m expr word top start i.
Proof.
  intros Hw. revert m start i; induction n as [|n IH]; intros [|m] start i Hn Hm; try lia.
  cbn [split_word_from]. destruct (find word (drop i expr)) as [pos|] eqn:Ef; [|done].
  apply find_length in Ef. rewrite length_drop in Ef. destruct word as [|w word]; [done|].
  cbn [length] in *. case_match; [f_equal|]; apply IH; lia.
Qed.

Lemma refs_fuel n m rest refs :
  length rest < n -> length rest < m -> refs_from n rest refs = refs_from m rest refs.
Proof.
  revert m rest refs; induction n as [|n IH]; intros [|m] rest refs Hn Hm; try lia.
  cbn [refs_from]. destruct (find OPEN rest) as [s|] eqn:E1; [|done].
  destruct (find CLOSE _) as [e|] eqn:E2; [|done].
  apply find_length in E1, E2. rewrite !length_drop in E2. cbn in E1, E2.
  apply IH; rewrite !length_drop; lia.
Qed.

Lemma rename_fuel n m rest renamed :
  length rest < n -> length rest < m -> rename_from n rest renamed = rename_from m rest renamed.
Proof.
  revert m rest; induction n as [|n IH]; intros [|m] rest Hn Hm; try lia.
  cbn [rename_from]. destruct (find OPEN rest) as [s|] eqn:E1; [|done].
  destruct (find CLOSE _) as [e|] eqn:E2; [|done].
  apply find_length in E1, E2. rewrite !length_drop in E2. cbn in E1, E2.
  do 2 f_equal. apply IH; rewrite !length_drop; lia.
Qed.

Lemma subst_fuel n m c s :
  length s < n -> length s < m -> subst_from n c s = subst_from m c s.
Proof.
  revert m s; induction n as [|n IH]; intros [|m] s Hn Hm; try lia.
  cbn [subst_from]. destruct s as [|b s]; [done|].
  destruct (if starts_with OPEN (b :: s) then _ else None) as [close|].
  - f_equal. apply IH; rewrite length_drop; cbn in *; lia.
  - f_equal. apply IH; cbn in *; lia.
Qed.

Lemma closing_after n s b j e : closing n s b j = Some e -> j <= e.
Proof.
  revert j; induction n as [|n IH]; intros j; cbn; [done|].
  destruct (_ && _); [by intros [= <-]|]. intros He%IH. lia.
Qed.

Lemma top_fuel n m s i depth :
  length s - i < n -> length s - i < m -> top_from n s i depth = top_from m s i depth.
Proof.
  revert m i depth; induction n as [|n IH]; intros [|m] i depth Hn Hm; try lia.
  cbn [top_from]. destruct (byte_at s i) as [b|] eqn:Eb; [|done].
  apply lookup_lt_Some in Eb.
  destruct (if (ch b APOS || ch b QUOTE) && _ then _ else None) as [e|] eqn:Ec.
  - assert (i + 1 <= e) by (destruct (_ && _); [by eapply closing_after|done]).
    f_equal. apply IH; lia.
  - f_equal. apply IH; lia.
Qed.

Lemma split_word_nonempty fuel expr word top start i :
  split_word_from fuel expr word top start i <> [].
Proof.
  revert start i; induction fuel as [|fuel IH]; intros start i; cbn; [done|].
  destruct (find _ _); [|done]. case_match; [done|apply IH].
Qed.

(** The pieces of a split leave out the words between them. *)
Lemma split_word_total fuel expr word top start i :
  start <= i -> i <= length expr ->
  total (split_word_from fuel expr word top start i)
  + length word * pred (length (split_word_from fuel expr word top start i))
  <= length expr - start.
Proof.
  assert (forall start, total [trim (drop start expr)] + length word * 0 <= length expr - start) as Hlast.
  { intros k. rewrite total_cons. cbn. pose proof (length_trim (drop k expr)) as H.
    rewrite length_drop in H. lia. }
  revert start i; induction fuel as [|fuel IH]; intros start i Hs Hi; cbn [split_word_from];
    [apply Hlast|].
  destruct (find word (drop i expr)) as [pos|] eqn:Ef; [|apply Hlast].
  apply find_length in Ef. rewrite length_drop in Ef. case_match; [|apply IH; lia].
  specialize (IH (i + pos + length word) (i + pos + length word) ltac:(lia) ltac:(lia)).
  pose proof (split_word_nonempty fuel expr word top (i + pos + length word) (i + pos + length word)) as Hne.
  rewrite total_cons. cbn [length pred].
  set (rest := split_word_from fuel expr word top _ _) in *.
  pose proof (length_trim (drop start (take (i + pos) expr))) as H1.
  rewrite length_drop, length_take in H1.
  destruct rest as [|x rest]; [done|]. cbn [length pred] in *. lia.
Qed.

Lemma split_word_shorter expr word p :
  word <> [] -> 1 < length (split_word expr word) -> p ∈ split_word expr word ->
  length p < length expr.
Proof.
  intros Hw Hl Hp%total_in. unfold split_word in *.
  pose proof (split_word_total (S (length expr)) expr word (top_level expr) 0 0 ltac:(lia) ltac:(lia)) as H.
  destruct word as [|w word]; [done|].
  destruct (split_word_from _ _ _ _ 0 0) as [|x [|y l]]; cbn [length pred] in *; lia.
Qed.

Lemma any_part_ext f g ps : (forall p, p ∈ ps -> f p = g p) -> any_part f ps = any_part g ps.
Proof.
  induction ps as [|p ps IH]; intros H; [done|]. cbn. rewrite (H p) by (by left).
  destruct (g p) as [[]|]; [done| |done]. apply IH. intros q Hq. apply H. by right.
Qed.

Lemma all_parts_ext f g ps : (forall p, p ∈ ps -> f p = g p) -> all_parts f ps = all_parts g ps.
Proof.
  induction ps as [|p ps IH]; intros H; [done|]. cbn. rewrite (H p) by (by left).
  destruct (g p) as [[]|]; [|done..]. apply IH. intros q Hq. apply H. by right.
Qed.

Lemma eval_fuel_enough n m expr :
  length expr < n -> length expr < m -> eval_fuel n expr = eval_fuel m expr.
Proof.
  revert m expr; induction n as [|n IH]; intros [|m] expr Hn Hm; try lia.
  cbn [eval_fuel]. pose proof (length_trim expr) as Ht.
  pose proof (split_word_shorter (trim expr) $"or") as Ho.
  pose proof (split_word_shorter (trim expr) $"and") as Ha.
  destruct (split_word (trim expr) $"or") as [|o1 [|o2 os]].
  3: { apply any_part_ext. intros p Hp. specialize (Ho p ltac:(done) ltac:(cbn; lia) Hp).
       apply IH; lia. }
  all: destruct (split_word (trim expr) $"and") as [|a1 [|a2 l]]; try done;
    apply all_parts_ext; intros p Hp; specialize (Ha p ltac:(done) ltac:(cbn; lia) Hp);
    apply IH; lia.
Qed.

Lemma eval_when_fuel n expr : length expr < n -> eval_fuel n expr = eval_when expr.
Proof. intros H. apply eval_fuel_enough; lia. Qed.

Lemma any_part_err f ps e : any_part f ps = Err e -> exists p, p ∈ ps /\ f p = Err e.
Proof.
  induction ps as [|p ps IH]; [done|]. cbn. destruct (f p) as [[]|e'] eqn:E; [done| |].
  - intros (q & Hq & H)%IH. exists q. split; [by right|done].
  - intros [= ->]. exists p. split; [by left|done].
Qed.

Lemma all_parts_err f ps e : all_parts f ps = Err e -> exists p, p ∈ ps /\ f p = Err e.
Proof.
  induction ps as [|p ps IH]; [done|]. cbn. destruct (f p) as [[]|e'] eqn:E; [|done|].
  - intros (q & Hq & H)%IH. exists q. split; [by right|done].
  - intros [= ->]. exists p. split; [by left|done].
Qed.

Lemma compare_ops_fuel ops expr : compare_ops ops expr <> Err OutOfFuel.
Proof.
  induction ops as [|op ops IH]; cbn [compare_ops]; [done|]. destruct (find op expr); [|done].
  repeat case_match; done.
Qed.

Lemma eval_atom_fuel expr : eval_atom expr <> Err OutOfFuel.
Proof. unfold eval_atom. case_match; [done|]. case_match; [done|]. apply compare_ops_fuel. Qed.

Lemma eval_when_unfold expr :
  eval_when expr
  = match split_word (trim expr) $"or" with
    | (_ :: _ :: _) as ors => any_part eval_when ors
    | _ => match split_word (trim expr) $"and" with
           | (_ :: _ :: _) as ands => all_parts eval_when ands
           | _ => eval_atom (trim expr)
           end
    end.
Proof.
  unfold eval_when at 1. cbn [eval_fuel]. pose proof (length_trim expr) as Ht.
  pose proof (split_word_shorter (trim expr) $"or") as Ho.
  pose proof (split_word_shorter (trim expr) $"and") as Ha.
  destruct (split_word (trim expr) $"or") as [|o1 [|o2 os]].
  3: { apply any_part_ext. intros p Hp. specialize (Ho p ltac:(done) ltac:(cbn; lia) Hp).
       apply eval_when_fuel. lia. }
  all: destruct (split_word (trim expr) $"and") as [|a1 [|a2 l]]; try done;
    apply all_parts_ext; intros p Hp; specialize (Ha p ltac:(done) ltac:(cbn; lia) Hp);
    apply eval_when_fuel; lia.
Qed.

Lemma eval_when_ends n expr : length expr <= n -> eval_when expr <> Err OutOfFuel.
Proof.
  revert expr; induction n as [n IH] using lt_wf_ind. intros expr Hn. rewrite eval_when_unfold.
  pose proof (length_trim expr) as Ht.
  pose proof (split_word_shorter (trim expr) $"or") as Ho.
  pose proof (split_word_shorter (trim expr) $"and") as Ha.
  destruct (split_word (trim expr) $"or") as [|o1 [|o2 os]].
  3: { intros (p & Hp & He)%any_part_err. specialize (Ho p ltac:(done) ltac:(cbn; lia) Hp).
       apply (IH (length p)) in He; [done|lia|lia]. }
  all: destruct (split_word (trim expr) $"and") as [|a1 [|a2 l]]; try apply eval_atom_fuel;
    intros (p & Hp & He)%all_parts_err; specialize (Ha p ltac:(done) ltac:(cbn; lia) Hp);
    apply (IH (length p)) in He; [done|lia|lia].
Qed.

(** A condition is evaluated by its parts, to the end.  [eval_when] is the recursion the
    code writes: some part of an [or] holds, every part of an [and] holds, each part read as
    a condition of its own, an earlier part deciding before a later one is read; and
    otherwise the comparison, the membership test or the bare value it is.  The recursion
    always comes to an end. *)
Theorem eval_when_parts (expr : str) :
  eval_when expr
  = match split_word (trim expr) $"or" with
    | (_ :: _ :: _) as ors => any_part eval_when ors
    | _ => match split_word (trim expr) $"and" with
           | (_ :: _ :: _) as ands => all_parts eval_when ands
           | _ => eval_atom (trim expr)
           end
    end
  /\ eval_when expr <> Err OutOfFuel.
Proof. split; [apply eval_when_unfold|by eapply eval_when_ends]. Qed.

(** ** Templates *)

Lemma find_cons_skip p c s : starts_with p (c :: s) = false -> find p (c :: s) = option_map S (find p s).
Proof. intros H. cbn. by rewrite H. Qed.

Lemma find_after (a b : str) (c : ascii) :
  contains_char c a = false -> find [c; c] (a ++ c :: c :: b) = Some (length a).
Proof.
  induction a as [|x a IH]; cbn [app length].
  - intros _. cbn [find]. by rewrite (proj2 (starts_with_spec [c; c] (c :: c :: b)) (ex_intro _ b eq_refl)).
  - intros [Hx Ha]%orb_false_iff. rewrite find_cons_skip.
    + by rewrite IH.
    + unfold starts_with. cbn [strip_prefix]. by rewrite Hx.
Qed.

Lemma subst_plain n m c a s :
  contains_char "{" a = false -> length (a ++ s) < n -> length s < m ->
  subst_from n c (a ++ s) = a ++ subst_from m c s.
Proof.
  revert n; induction a as [|x a IH]; intros n Ha Hn Hm; [by apply subst_fuel|]. cbn [app] in *.
  apply orb_false_iff in Ha as [Hx Ha]. destruct n as [|n]; [cbn in Hn; lia|]. cbn [subst_from].
  assert (starts_with OPEN (x :: a ++ s) = false) as ->.
  { unfold starts_with, OPEN. cbn [lit String.list_ascii_of_string strip_prefix]. by rewrite Hx. }
  by rewrite IH by (try done; cbn in Hn; lia).
Qed.

(** What a reference stands for: its value, the arithmetic it is, or itself. *)
Definition filled (k : str) (c : ctx) : str :=
  match c !! trim k with
  | Some v => v
  | None => match eval_arith (trim k) c with Some v => v | None => OPEN ++ k ++ CLOSE end
  end.

Lemma subst_ref n m c k s :
  contains_char "}" k = false -> length (OPEN ++ k ++ CLOSE ++ s) < n -> length s < m ->
  subst_from n c (OPEN ++ k ++ CLOSE ++ s) = filled k c ++ subst_from m c s.
Proof.
  intros Hk Hn Hm. destruct n as [|n]; [lia|].
  change (OPEN ++ k ++ CLOSE ++ s) with ("{"%char :: "{"%char :: k ++ "}"%char :: "}"%char :: s) in *.
  cbn [subst_from].
  change (starts_with OPEN ("{"%char :: "{"%char :: ?l)) with true.
  change (drop 2 ("{"%char :: "{"%char :: ?l)) with l.
  change CLOSE with ["}"%char; "}"%char]. rewrite find_after by done.
  rewrite take_app_length.
  assert (take (2 + length k + 2) ("{"%char :: "{"%char :: k ++ "}"%char :: "}"%char :: s)
          = OPEN ++ k ++ CLOSE) as Et.
  { cbn. f_equal. f_equal. rewrite take_app_add'. done. done. }
  assert (drop (2 + length k + 2) ("{"%char :: "{"%char :: k ++ "}"%char :: "}"%char :: s) = s) as Ed.
  { cbn. rewrite drop_app_add'; done. }
  rewrite Et, Ed. unfold filled. f_equal. cbn [length] in Hn. rewrite length_app in Hn. cbn [length] in Hn.
  apply subst_fuel; lia.
Qed.

Lemma substitute_from c s n : length s < n -> substitute s c = subst_from n c s.
Proof.
  intros Hn. unfold substitute. destruct (contains OPEN s) eqn:E; cbn [negb]; [apply subst_fuel; lia|].
  symmetry. assert (find OPEN s = None) as Hf by (unfold contains in E; by destruct (find OPEN s)).
  clear E. revert n Hn Hf. induction s as [|x s IH]; intros n Hn Hf; (destruct n; [lia|]); [done|].
  cbn [subst_from find] in *. destruct (starts_with OPEN (x :: s)); [done|].
  f_equal. apply IH; [cbn in Hn; lia|]. by destruct (find OPEN s).
Qed.

(** A text is filled in reference by reference.  Text with no brace stands; each
    reference is replaced by its value in the scope, or by the arithmetic it spells, or is
    left as it is; what a value holds is not read again; and the rest of the text is filled
    in as it would have been alone. *)
Theorem substitute_pieces (a k b : str) (c : ctx) :
  contains_char "{" a = false -> contains_char "}" k = false ->
  substitute a c = a
  /\ substitute (a ++ OPEN ++ k ++ CLOSE ++ b) c = a ++ filled k c ++ substitute b c.
Proof.
  intros Ha Hk. split.
  - rewrite (substitute_from c a (S (length (a ++ [])))) by (rewrite app_nil_r; lia).
    rewrite <- (app_nil_r a) at 2. rewrite (subst_plain _ 1) by (try done; cbn; lia). cbn. by rewrite app_nil_r.
  - set (s := a ++ OPEN ++ k ++ CLOSE ++ b). rewrite (substitute_from c s (S (length s))) by lia.
    unfold s at 2. rewrite (subst_plain _ (S (length s))) by
      first [done|unfold s; lia|unfold s; rewrite !length_app; lia].
    rewrite (subst_ref _ (S (length s))) by
      first [done|unfold s; rewrite ?(length_app a); lia|unfold s; rewrite !length_app; lia].
    rewrite (substitute_from c b (S (length s))); [done|]. unfold s. rewrite !length_app. lia.
Qed.

End CondFacts.

Module SpecFacts.

Import Spec.

(** ** Plain text *)

(** No white space, and nothing past ASCII. *)
Definition plain (c : ascii) : bool := negb (ws1 c) && (code c <? 128)%N.

Lemma plain_head w2 w3 s :
  (forall a b, plain a = true -> plain b = true -> w2 a b = false) ->
  (forall a b c, plain a = true -> plain b = true -> plain c = true -> w3 a b c = false) ->
  forallb plain s = true -> head_ws w2 w3 s = false.
Proof.
  intros H2 H3. destruct s as [|a [|b [|c s]]]; cbn; [done|..]; intros H;
    repeat match goal with H : _ && _ = true |- _ => apply andb_true_iff in H as [? H] end;
    repeat match goal with H : plain ?x = true |- _ =>
             lazymatch goal with
             | _ : ws1 x = false |- _ => fail
             | _ => assert (ws1 x = false) by (unfold plain in H; apply andb_true_iff in H as [H _]; by apply negb_true_iff in H)
             end end;
    repeat match goal with E : ws1 _ = false |- _ => rewrite E; clear E end; cbn; rewrite ?H2, ?H3 by done; done.
Qed.

Lemma plain_ascii c : plain c = true -> (code c < 128)%N.
Proof. unfold plain. intros [_ H]%andb_true_iff. by apply N.ltb_lt. Qed.

Lemma ws2_plain a b : plain a = true -> ws2 a b = false.
Proof.
  intros H%plain_ascii. unfold ws2. destruct (N.eqb_spec (code a) 194); [lia|done].
Qed.

Lemma ws3_plain a b c : plain a = true -> ws3 a b c = false.
Proof.
  intros H%plain_ascii. unfold ws3.
  repeat match goal with |- context [(code a =? ?n)%N] => destruct (N.eqb_spec (code a) n); [lia|] end.
  done.
Qed.

Lemma trim_plain s : forallb plain s = true -> trim s = s.
Proof.
  intros H. unfold trim. assert (trim_start s = s) as ->.
  { apply trim_start_id, plain_head; [by intros; apply ws2_plain|by intros; apply ws3_plain|done]. }
  unfold trim_end. rewrite trim_with_id; [apply rev_involutive|].
  apply plain_head; [by intros; apply ws2_plain|by intros; apply ws3_plain|].
  rewrite forallb_forall in *. intros x Hx. apply H. by apply in_rev.
Qed.

Lemma digit_plain c : is_digit c = true -> plain c = true.
Proof.
  unfold is_digit, plain, ws1, in_range. intros [H1 H2]%andb_true_iff.
  apply N.leb_le in H1, H2. apply andb_true_iff. split; [|apply N.ltb_lt; lia].
  apply negb_true_iff, orb_false_iff. split; [apply andb_false_iff; right; apply N.leb_gt; lia|].
  apply N.eqb_neq. lia.
Qed.

Lemma show_N_plain n : forallb plain (show_N n) = true.
Proof. destruct (show_N_spec n) as (_ & H & _). revert H. apply forallb_impl, digit_plain. Qed.

(** ** Approvals *)

Lemma contains_char_app c s t : contains_char c (s ++ t) = contains_char c s || contains_char c t.
Proof. apply existsb_app. Qed.

(** A replaced character is gone, and no other appears but from its replacement. *)
Lemma replace_char_contains c d r s :
  contains_char d r = false -> (c = d \/ contains_char d s = false) ->
  contains_char d (replace_char c r s) = false.
Proof.
  intros Hr Hd. unfold replace_char. induction s as [|x s IH]; [done|]. cbn [flat_map].
  rewrite contains_char_app. apply orb_false_iff. split.
  - destruct (ch c x) eqn:E; [done|]. cbn. rewrite orb_false_r. destruct Hd as [<-|Hd].
    + exact E.
    + cbn in Hd. by apply orb_false_iff in Hd as [Hd _].
  - apply IH. destruct Hd as [Hd|Hd]; [by left|right]. cbn in Hd. by apply orb_false_iff in Hd as [_ Hd].
Qed.

Lemma one_line_spec s : contains_char NL (one_line s) = false /\ contains_char CR (one_line s) = false.
Proof.
  unfold one_line. split.
  - apply replace_char_contains; [done|by left].
  - apply replace_char_contains; [done|right]. apply replace_char_contains; [done|by left].
Qed.

(** The lines a gate's decision is logged as. *)
Definition decision_lines (approve : bool) (decided_by comment : option str) (at_ : str) : list str :=
  ((if approve then $"approved" else $"rejected") ++ $" by "
   ++ one_line (default $"unknown" decided_by) ++ $" at " ++ at_)
  :: match option_map trim comment with
     | Some ((_ :: _) as c) => [$"comment: " ++ one_line c]
     | _ => []
     end.

(** An approver cannot forge a line of a gate's log.  Whatever the name and the comment
    hold, the log is one line that says what was decided, and one more when there is a
    comment; no line feed or carriage return of theirs begins another. *)
Theorem approval_log_lines (approve : bool) (decided_by comment : option str) (at_ : str) :
  contains_char NL at_ = false -> contains_char CR at_ = false ->
  split_char NL (approval_log approve decided_by comment at_)
  = decision_lines approve decided_by comment at_
  /\ contains_char CR (approval_log approve decided_by comment at_) = false.
Proof.
  intros Hn Hc.
  assert (approval_log approve decided_by comment at_
          = join [NL] (decision_lines approve decided_by comment at_)) as E.
  { unfold approval_log, decision_lines.
    destruct (option_map trim comment) as [[|x c]|]; destruct decided_by; done. }
  assert (Forall (fun l => contains_char NL l = false /\ contains_char CR l = false)
            (decision_lines approve decided_by comment at_)) as H.
  { unfold decision_lines. constructor.
    - destruct (one_line_spec (default $"unknown" decided_by)) as [H1 H2].
      rewrite !contains_char_app, H1, H2, Hn, Hc. by destruct approve.
    - destruct (option_map trim comment) as [[|x c]|]; constructor; [|done].
      destruct (one_line_spec (x :: c)) as [H1 H2]. by rewrite !contains_char_app, H1, H2. }
  rewrite E. split.
  - apply split_char_join; [done|]. eapply Forall_impl; [exact H|]. by intros l [? _].
  - clear E. induction H as [|l ls [_ Hl] _ IH]; [done|]. destruct ls as [|l2 ls]; [done|].
    change (join [NL] (l :: l2 :: ls)) with (l ++ [NL] ++ join [NL] (l2 :: ls)).
    by rewrite !contains_char_app, Hl, IH.
Qed.

(** ** Pools *)

Lemma parse_i64_show k : (1 <= k <= I64_MAX)%Z -> parse_i64 (show_Z k) = Some k.
Proof.
  intros [H1 H2]. unfold show_Z, parse_i64, parse_signed.
  destruct (Z.ltb_spec k 0); [lia|].
  destruct (show_N (Z.to_N k)) as [|c s] eqn:E; [by destruct (show_N_spec (Z.to_N k))|].
  pose proof (show_N_head _ _ _ E) as Hd.
  assert (ch c "-" = false) as -> by (destruct (ch c "-") eqn:Ec; [apply ch_eq in Ec as ->; done|done]).
  assert (ch c "+" = false) as -> by (destruct (ch c "+") eqn:Ec; [apply ch_eq in Ec as ->; done|done]).
  rewrite <- E, parse_digits_show. cbn [option_map]. rewrite Z2N.id by lia.
  assert ((I64_MIN <=? k)%Z && (k <=? I64_MAX)%Z = true) as ->; [|done].
  apply andb_true_iff. split; apply Z.leb_le; [|lia]. unfold I64_MIN. lia.
Qed.

(** An entry of [POOLS] as an operator writes it. *)
Definition pool_entry (p : str * Z) : str := p.1 ++ $":" ++ show_Z p.2.

Lemma name_byte_plain c : is_name_byte c = true -> plain c = true /\ ch "," c = false /\ ch ":" c = false.
Proof. destruct c as [[] [] [] [] [] [] [] []]; vm_compute; auto; discriminate. Qed.

Lemma digit_byte_plain c : is_digit c = true -> plain c = true /\ ch "," c = false /\ ch ":" c = false.
Proof. destruct c as [[] [] [] [] [] [] [] []]; vm_compute; auto; discriminate. Qed.

Lemma find_one c a b : contains_char c a = false -> find [c] (a ++ c :: b) = Some (length a).
Proof.
  induction a as [|x a IH]; cbn [app length].
  - intros _. cbn [find]. by rewrite (proj2 (starts_with_spec [c] (c :: b)) (ex_intro _ b eq_refl)).
  - intros [Hx Ha]%orb_false_iff. cbn [find]. unfold starts_with. cbn [strip_prefix]. rewrite Hx.
    by rewrite IH.
Qed.

Lemma split_once_one c a b : contains_char c a = false -> split_once [c] (a ++ c :: b) = Some (a, b).
Proof.
  intros H. unfold split_once. rewrite find_one by done. cbn [option_map length]. do 2 f_equal.
  - apply take_app_length.
  - replace (a ++ c :: b) with ((a ++ [c]) ++ b) by (by rewrite <- app_assoc).
    rewrite drop_app_length' by (rewrite length_app; cbn; lia). done.
Qed.

Lemma forallb_not_contains (f : ascii -> bool) c s :
  (forall x, f x = true -> ch c x = false) -> forallb f s = true -> contains_char c s = false.
Proof.
  intros H Hs. apply contains_char_false. intros Hin%list_elem_of_In.
  rewrite forallb_forall in Hs. specialize (H c (Hs c Hin)). by rewrite ch_refl in H.
Qed.

Definition pool_ok (p : str * Z) : Prop := validate_pool p.1 = Ok tt /\ (1 <= p.2 <= I64_MAX)%Z.

Lemma validate_pool_bytes n : validate_pool n = Ok tt -> n <> [] /\ forallb is_name_byte n = true.
Proof.
  unfold validate_pool. destruct (length n =? 0)%nat eqn:E0; [done|]. cbn [orb].
  destruct (64 <? length n)%nat; [done|]. destruct (forallb is_name_byte n); [|done].
  intros _. split; [|done]. by intros ->.
Qed.

Lemma show_Z_digits k : (0 <= k)%Z -> show_Z k = show_N (Z.to_N k).
Proof. intros H. unfold show_Z. destruct (Z.ltb_spec k 0); [lia|done]. Qed.

Lemma pool_entry_text p :
  pool_ok p -> trim (pool_entry p) = pool_entry p /\ contains_char "," (pool_entry p) = false.
Proof.
  intros [Hn Hk]. apply validate_pool_bytes in Hn as [_ Hn]. unfold pool_entry.
  rewrite show_Z_digits by lia. destruct (show_N_spec (Z.to_N p.2)) as (_ & Hd & _). split.
  - apply trim_plain. rewrite !forallb_app. apply andb_true_iff. split.
    + revert Hn. apply forallb_impl. intros x Hx. by apply name_byte_plain.
    + apply andb_true_iff. split; [done|]. apply show_N_plain.
  - rewrite !contains_char_app. apply orb_false_iff. split.
    + revert Hn. apply forallb_not_contains. intros x Hx. by apply name_byte_plain.
    + cbn [orb]. apply orb_false_iff. split; [done|].
      revert Hd. apply forallb_not_contains. intros x Hx. by apply digit_byte_plain.
Qed.

Lemma parse_pool_entry_text m p :
  pool_ok p -> m !! p.1 = None -> parse_pool_entry m (pool_entry p) = Ok (<[ p.1 := p.2 ]> m).
Proof.
  intros [Hn Hk] Hm. pose proof (validate_pool_bytes _ Hn) as [_ Hb].
  unfold parse_pool_entry, pool_entry. change $":" with [":"%char]. cbn [app].
  rewrite split_once_one.
  2: { revert Hb. apply forallb_not_contains. intros x Hx. by apply name_byte_plain. }
  rewrite (trim_plain p.1).
  2: { revert Hb. apply forallb_impl. intros x Hx. by apply name_byte_plain. }
  rewrite Hn. cbn [map_err].
  rewrite (trim_plain (show_Z p.2)) by (rewrite show_Z_digits by lia; apply show_N_plain).
  rewrite parse_i64_show by lia. destruct (Z.ltb_spec p.2 1); [lia|]. by rewrite Hm.
Qed.

Lemma parse_pool_entries_text l m :
  NoDup (map fst l) -> Forall pool_ok l -> (forall p, p ∈ l -> m !! p.1 = None) ->
  exists m', parse_pool_entries m (map pool_entry l) = Ok m'
    /\ forall n k, m' !! n = Some k <-> (n, k) ∈ l \/ m !! n = Some k.
Proof.
  revert m; induction l as [|p l IH]; intros m Hn Hl Hm.
  { exists m. split; [done|]. set_solver. }
  cbn [map] in Hn. apply NoDup_cons in Hn as [Hp Hn]. apply Forall_cons in Hl as [Hok Hl].
  cbn [map parse_pool_entries]. rewrite parse_pool_entry_text by (done || (apply Hm; by left)).
  destruct (IH (<[ p.1 := p.2 ]> m) Hn Hl) as (m' & E & H).
  { intros q Hq. rewrite lookup_insert_ne; [apply Hm; by right|]. intros Eq. apply Hp. rewrite Eq.
    apply list_elem_of_fmap. by exists q. }
  exists m'. split; [exact E|]. intros n k. rewrite H, elem_of_cons, lookup_insert_Some.
  specialize (Hm p ltac:(by left)). destruct p as [pn pk]. cbn in *. split.
  - intros [Hin|[[<- <-]|[Hne Hin]]]; auto.
  - intros [[[= -> ->]|Hin]|Hin]; auto. right. right. split; [|done]. intros ->. congruence.
Qed.

Lemma parse_pool_entries_valid es m m' :
  (forall n k, m !! n = Some k -> pool_ok (n, k)) -> parse_pool_entries m es = Ok m' ->
  forall n k, m' !! n = Some k -> pool_ok (n, k).
Proof.
  revert m; induction es as [|e es IH]; intros m Hm; cbn [parse_pool_entries]; [by intros [= <-]|].
  destruct (parse_pool_entry m e) as [m1|] eqn:E; [|done]. apply IH.
  revert E. unfold parse_pool_entry. destruct (split_once _ e) as [[a b]|]; [|done].
  destruct (validate_pool (trim a)) as [[]|] eqn:Ev; [|done]. cbn [map_err].
  destruct (parse_i64 (trim b)) as [k|] eqn:Ek; [|done]. destruct (Z.ltb_spec k 1) as [|Hk]; [done|].
  destruct (m !! trim a) eqn:Ea; [done|]. intros [= <-] n x [[<- <-]|[_ Hx]]%lookup_insert_Some;
    [|by apply Hm].
  split; [done|]. cbn. split; [lia|]. unfold parse_i64, parse_signed in Ek.
  destruct (match trim b with [] => None | _ => _ end); [|done].
  destruct (_ && _) eqn:Er; [|done]. injection Ek as ->. apply andb_true_iff in Er as [_ Er].
  by apply Z.leb_le in Er.
Qed.

Lemma entries_kept l :
  Forall pool_ok l ->
  List.filter (fun e => match e with [] => false | _ => true end) (map trim (map pool_entry l))
  = map pool_entry l.
Proof.
  induction 1 as [|q l Hq _ IH]; [done|]. cbn [map List.filter].
  destruct (pool_entry_text q Hq) as [-> _].
  assert (pool_entry q <> []) as Hne by (unfold pool_entry; by destruct q.1).
  destruct (pool_entry q); [done|]. by rewrite IH.
Qed.

(** Pools read back as they were written.  Any pools of valid, distinct names and a
    number of slots each, joined as [POOLS] wants them, are read as exactly those; and
    whatever text is accepted gives pools of valid names with at least one slot. *)
Theorem parse_pools_round_trip :
  (forall l, NoDup (map fst l) -> Forall pool_ok l ->
     exists m, parse_pools (join $"," (map pool_entry l)) = Ok m
               /\ forall n k, m !! n = Some k <-> (n, k) ∈ l)
  /\ (forall raw m, parse_pools raw = Ok m -> forall n k, m !! n = Some k -> pool_ok (n, k)).
Proof.
  split.
  - intros l Hn Hl. destruct (parse_pool_entries_text l ∅ Hn Hl ltac:(done)) as (m & E & H).
    exists m. split; [|intros n k; rewrite H, lookup_empty; naive_solver].
    unfold parse_pools. destruct (decide (l = [])) as [->|Hne]; [exact E|].
    change $"," with [","%char]. rewrite split_char_join.
    + by rewrite entries_kept.
    + by destruct l.
    + apply Forall_map. eapply Forall_impl; [exact Hl|]. intros q Hq. by apply pool_entry_text.
  - intros raw m. apply parse_pool_entries_valid. intros n k. by rewrite lookup_empty.
Qed.

(** ** Durations *)

Definition UNITS : list (str * N) :=
  [($"s", 1%N); ($"m", 60%N); ($"h", 3600%N); ($"d", 86400%N); ([], 1%N)].

Lemma duration_parts_unit n u :
  u ∈ UNITS -> duration_parts (show_N n ++ u.1) = (show_N n, u.2).
Proof.
  destruct (show_N_spec n) as (Hne & Hd & _). unfold duration_parts. intros Hu.
  rewrite rev_app_distr. 
  repeat (apply elem_of_cons in Hu as [->|Hu]); [..|by apply elem_of_nil in Hu]; cbn -[show_N];
    rewrite ?rev_involutive; try done.
  assert (forallb is_digit (rev (show_N n)) = true) as Hr.
  { rewrite forallb_forall in *. intros x Hx. apply Hd. by apply in_rev. }
  destruct (rev (show_N n)) as [|c r] eqn:E.
  - apply (f_equal (@rev ascii)) in E. rewrite rev_involutive in E. by destruct Hne.
  - cbn in Hr. apply andb_true_iff in Hr as [Hc _]. rewrite app_nil_r.
    destruct c as [[] [] [] [] [] [] [] []]; try discriminate Hc; reflexivity.
Qed.

(** A duration is what it says.  A number and a unit, or a number alone, is read as that
    many seconds, and every duration that is accepted is at least a second and fits the
    machine's width. *)
Theorem parse_duration_reads :
  (forall n u, u ∈ UNITS -> (1 <= n)%N -> (n * u.2 <= U64_MAX)%N ->
     parse_duration_secs (show_N n ++ u.1) = Ok (n * u.2)%N)
  /\ (forall s v, parse_duration_secs s = Ok v -> (1 <= v <= U64_MAX)%N).
Proof.
  split.
  - intros n u Hu Hn Hmax. unfold parse_duration_secs.
    assert (forallb plain (show_N n ++ u.1) = true) as Hp.
    { rewrite forallb_app, show_N_plain.
      repeat (apply elem_of_cons in Hu as [->|Hu]); [..|by apply elem_of_nil in Hu]; done. }
    rewrite (trim_plain _ Hp), (duration_parts_unit n u Hu).
    destruct (show_N_spec n) as (Hne & _).
    assert (exists c t, show_N n ++ u.1 = c :: t) as (c & t & E)
      by (destruct (show_N n) as [|c t]; [done|]; by exists c, (t ++ u.1)).
    rewrite E, <- E. clear c t E. rewrite (trim_plain (show_N n)) by apply show_N_plain.
    assert (1 <= u.2)%N as Hm.
    { clear -Hu. repeat (apply elem_of_cons in Hu as [->|Hu]); [..|by apply elem_of_nil in Hu]; done. }
    unfold parse_u64. rewrite parse_unsigned_show by nia.
    destruct (N.eqb_spec n 0); [lia|]. by rewrite (proj2 (N.leb_le _ _) Hmax).
  - intros s v. unfold parse_duration_secs. destruct (trim s) as [|c t] eqn:Et; [done|].
    assert (1 <= (duration_parts (c :: t)).2)%N as Hm.
    { unfold duration_parts. destruct (rev (c :: t)); [done|]. by repeat case_match. }
    destruct (duration_parts (c :: t)) as [d m]. cbn in Hm. destruct (parse_u64 _) as [n|]; [|done].
    destruct (N.eqb_spec n 0); [done|]. destruct (N.leb_spec (n * m) U64_MAX); [|done].
    intros [= <-]. split; [nia|done].
Qed.

End SpecFacts.
