(* ===== verification/Gangs.v ===== *)
(** * What is bounded

    The attempts the table keeps of one task.

    ** Gangs

    A gang is claimed whole or not at all.  And what its failure does to the tasks that
    depend on it: nothing counts their dependencies down for the siblings it cancels. *)

From S2P Require Import Tables Stops Scheduler Runs Invariant Preserve Reach Claims Sample.

Module Bounds.

Import Models Policy.AttemptLog.

Section bounds.
Context {W : World}.

(** ** Attempts *)

(** The attempts the table has of a task. *)
Definition attempts_of (task_id : str) (s : store) : list Z :=
  omap (fun kv => if bool_decide (kv.1.1 = task_id) then Some kv.1.2 else None)
    (map_to_list (task_attempts s)).

Lemma attempts_of_spec task_id s n :
  n ∈ attempts_of task_id s <-> exists a, task_attempts s !! (task_id, n) = Some a.
Proof.
  unfold attempts_of. rewrite list_elem_of_omap. split.
  - intros ([[t k] a] & Hin%elem_of_map_to_list & H). cbn in H. case_bool_decide as E; [|done].
    injection H as <-. subst t. by exists a.
  - intros (a & H). exists (task_id, n, a). split; [by apply elem_of_map_to_list|]. cbn.
    by rewrite bool_decide_true.
Qed.

Lemma attempts_of_NoDup task_id s : NoDup (attempts_of task_id s).
Proof.
  unfold attempts_of. pose proof (NoDup_fst_map_to_list (task_attempts s)) as H. revert H.
  induction (map_to_list (task_attempts s)) as [|[[t k] a] l IH]; [constructor|].
  cbn. intros [Hni Hn]%NoDup_cons. case_bool_decide as E; [|by apply IH]. constructor; [|by apply IH].
  intros ([[t' k'] a'] & Hin & H)%list_elem_of_omap. cbn in H. case_bool_decide as E'; [|done].
  injection H as ->. apply Hni. apply list_elem_of_fmap. exists (t', k, a'). cbn. split; [congruence|done].
Qed.

(** Distinct integers of an interval are no more than it is long. *)
Lemma interval_length (l : list Z) (lo : Z) (k : nat) :
  NoDup l -> (forall n, n ∈ l -> (lo < n <= lo + Z.of_nat k)%Z) -> (length l <= k)%nat.
Proof.
  intros Hn H.
  assert (NoDup (map (fun n => Z.to_nat (n - lo - 1)) l)) as Hn'.
  { apply NoDup_fmap_2_strong; [|done]. intros x y Hx%H Hy%H E. lia. }
  rewrite <- (length_map (fun n => Z.to_nat (n - lo - 1)) l).
  transitivity (length (seq 0 k)); [|rewrite length_seq; lia].
  apply submseteq_length, NoDup_submseteq; [done|].
  intros x (n & -> & Hx%H)%list_elem_of_fmap. apply elem_of_seq. lia.
Qed.

(** Attempts do not pile up.  Recording an attempt keeps its row and every other
    task's; of the task's own, whose attempts are counted from one, it keeps no more than
    the policy says, the latest ones. *)
Theorem attempts_bounded task_id attempt end_ output policy now s :
  enabled policy = true -> (0 < keep policy)%N -> (Z.of_N (keep policy) <= I64_MAX)%Z ->
  (1 <= attempt <= I64_MAX)%Z -> (forall n, n ∈ attempts_of task_id s -> (1 <= n <= attempt)%Z) ->
  let s' := Scheduler.record_attempt task_id attempt end_ output policy now s in
  (Z.of_nat (length (attempts_of task_id s')) <= Z.of_N (keep policy))%Z
  /\ (exists a, task_attempts s' !! (task_id, attempt) = Some a
        /\ at_reason a = end_str end_ /\ at_output a = fst <$> (tail policy <$> output))
  /\ (forall t n, t <> task_id -> task_attempts s' !! (t, n) = task_attempts s !! (t, n))
  /\ (forall n, n ∈ attempts_of task_id s -> (attempt - Z.of_N (keep policy) < n)%Z ->
        n ∈ attempts_of task_id s').
Proof.
  intros He Hk Hk2 Ha Hn. cbn zeta. unfold Scheduler.record_attempt. rewrite He. cbn [negb].
  match goal with |- context [<[ _ := ?x ]>] => set (row := x) end.
  assert (at_reason row = end_str end_ /\ at_output row = fst <$> (tail policy <$> output)) as Hrow
    by (split; [done|]; unfold row; cbn; by destruct output).
  clearbody row. set (s1 := s <| task_attempts ::= <[ (task_id, attempt) := row ]> |>).
  assert (forall n, n ∈ attempts_of task_id s1 <-> n = attempt \/ n ∈ attempts_of task_id s) as H1.
  { intros n. rewrite !attempts_of_spec. cbn. destruct (decide (n = attempt)) as [->|Hne].
    - rewrite lookup_insert_eq. split; [by left|by exists row].
    - rewrite lookup_insert_ne by congruence. naive_solver. }
  unfold evict_below. destruct (N.eqb_spec (keep policy) 0) as [|Hk0]; [lia|]. rewrite Z.min_l by lia.
  rewrite Z.max_r by (unfold I64_MIN, I64_MAX in *; lia).
  set (cutoff := (attempt - Z.of_N (keep policy))%Z).
  destruct (Z.leb_spec 1 cutoff) as [Hc|Hc].
  - set (s2 := s1 <| task_attempts ::= _ |>).
    assert (forall t n, task_attempts s2 !! (t, n)
              = if decide (t = task_id /\ (n <= cutoff)%Z) then None else task_attempts s1 !! (t, n)) as H2.
    { intros t n. unfold s2. cbn. apply option_eq. intros a. rewrite map_lookup_filter_Some. cbn.
      destruct (decide _); naive_solver. }
    assert (forall n, n ∈ attempts_of task_id s2 <-> n ∈ attempts_of task_id s1 /\ (cutoff < n)%Z) as H3.
    { intros n. rewrite !attempts_of_spec. rewrite H2. destruct (decide _) as [[_ H]|H].
      - split; [by intros (a & ?)|lia].
      - split; [intros (a & ?); split; [by exists a|]|by intros [? _]]. apply Z.nle_gt. tauto. }
    split; [|split; [|split]].
    + rewrite <- (Z2Nat.id (Z.of_N (keep policy))) by lia. apply inj_le.
      apply (interval_length _ cutoff); [apply attempts_of_NoDup|].
      intros n [[->|Hin%Hn]%H1 Hlt]%H3; unfold cutoff in *; lia.
    + exists row. rewrite H2. destruct (decide _) as [[_ H]|_]; [unfold cutoff in *; lia|]. split; [|done].
      cbn. by rewrite lookup_insert_eq.
    + intros t n Hne. rewrite H2. destruct (decide _) as [[-> _]|_]; [done|]. cbn.
      by rewrite lookup_insert_ne by congruence.
    + intros n Hin Hlt. apply H3. split; [apply H1; by right|done].
  - split; [|split; [|split]].
    + rewrite <- (Z2Nat.id (Z.of_N (keep policy))) by lia. apply inj_le.
      apply (interval_length _ cutoff); [apply attempts_of_NoDup|].
      intros n [->|Hin%Hn]%H1; unfold cutoff in *; lia.
    + exists row. split; [|done]. cbn. by rewrite lookup_insert_eq.
    + intros t n Hne. cbn. by rewrite lookup_insert_ne by congruence.
    + intros n Hin _. apply H1. by right.
Qed.

End bounds.
End Bounds.

Module Gangs.

Import Models Invariant Preserve.

(** ** The whole gang *)

Section gangs.
Context {W : World} {HS : ScanLaw W}.

Definition of_gang (g : str) (r : T.task_run) : bool := sql_eq (T.gang_id r) g.

(** The gang [g] has as many rows as each of its rows says. *)
Definition gang_complete (s : store) (g : str) : Prop :=
  forall id r, task_runs s !! id = Some r -> T.gang_id r = Some g ->
    T.gang_size r = Some (Z.of_nat (size (affected (fun _ => of_gang g) (task_runs s)))).

(** The rows of a candidate group are rows of its gang, ready and due. *)
Lemma gang_groups_spec now set s k rows :
  (k, rows) ∈ Scheduler.gang_groups now set s ->
  exists ids, NoDup ids /\ ids <> [] /\ length ids = length rows
    /\ forall id, id ∈ ids -> exists r, task_runs s !! id = Some r /\ T.gang_id r = Some k.1.1
         /\ T.gang_size r = k.1.2 /\ T.status r = Ready /\ Scheduler.gang_member_ready now set r = true.
Proof.
  unfold Scheduler.gang_groups. intros (k' & [= <- ->] & Hk')%list_elem_of_fmap.
  set (l := List.filter (fun kv => Scheduler.gang_member_ready now set kv.2) (scan (task_runs s))).
  exists (map fst (List.filter (fun kv => bool_decide (Scheduler.gang_key kv.2 = Some k)) l)).
  split; [|split; [|split]].
  - unfold l. by apply Claims.NoDup_map_filter, Claims.NoDup_map_filter, Claims.scan_NoDup.
  - apply elem_of_remove_dups, list_elem_of_omap in Hk' as (r & Hin & Hk).
    fold l in Hin. apply list_elem_of_fmap in Hin as (x & -> & Hx). intros E.
    apply map_eq_nil in E. apply list_elem_of_In in Hx.
    assert (In x (List.filter (fun kv => bool_decide (Scheduler.gang_key kv.2 = Some k)) l)) as Hin
      by (apply filter_In; split; [done|by apply bool_decide_eq_true]).
    by rewrite E in Hin.
  - clear Hk'. rewrite length_map. induction l as [|x l IH]; [done|]. cbn. case_bool_decide; cbn; by rewrite IH.
  - intros id ([i r] & -> & Hin)%list_elem_of_fmap.
    apply list_elem_of_In, filter_In in Hin as [Hin Hk]. apply bool_decide_eq_true in Hk.
    unfold l in Hin. apply filter_In in Hin as [Hin Hready].
    apply list_elem_of_In, Claims.scan_elem in Hin. exists r. split; [done|].
    cbn in *. unfold Scheduler.gang_key in Hk. destruct (T.gang_id r) as [g|]; [|done].
    injection Hk as <-. split; [done|]. split; [done|]. split; [|done].
    unfold Scheduler.gang_member_ready in Hready. where_ Hready. done.
Qed.

(** A gang is claimed whole.  When every gang of the store has its rows, a gang claim
    answers with nothing and changes nothing, or it takes every row of one gang that fits
    the capacity: all of them were ready, all of them now run under the worker's lease, and
    no other task has changed. *)
Theorem gang_all_or_nothing worker_id capacity classes caps now s :
  (forall g, gang_complete s g) ->
  exists s' got,
    Scheduler.claim_ready_gang worker_id capacity classes caps now s = (s', got)
    /\ ((s' = s /\ got = [])
        \/ exists g,
            (exists id r, task_runs s !! id = Some r /\ T.gang_id r = Some g)
            /\ (Z.of_nat (size (affected (fun _ => of_gang g) (task_runs s))) <= capacity)%Z
            /\ (forall id r, task_runs s !! id = Some r -> T.gang_id r = Some g ->
                  T.status r = Ready /\ (id, r) ∈ got
                  /\ task_runs s' !! id
                     = Some (Scheduler.claimed_row worker_id (now + secs Stops.lease_secs)%Z r))
            /\ (forall id r, task_runs s !! id = Some r -> T.gang_id r <> Some g ->
                  task_runs s' !! id = Some r)).
Proof.
  intros Hc. unfold Scheduler.claim_ready_gang.
  destruct (Z.ltb_spec capacity 2) as [|Hcap]; [exists s, []; split; [done|by left]|].
  cbv zeta.
  match goal with |- context [List.find ?f ?l] => destruct (List.find f l) as [[[[g sz] pl] rows]|] eqn:Ef end;
    [|exists s, []; split; [done|by left]].
  eexists _, _. split; [reflexivity|right]. exists g.
  apply find_some in Ef as [Hin _].
  apply list_elem_of_In in Hin. rewrite sort_by_perm in Hin.
  apply list_elem_of_In, filter_In in Hin as [Hin Hwhole].
  apply list_elem_of_In, gang_groups_spec in Hin as (ids & Hn & Hne & Hl & Hids).
  unfold Scheduler.gang_whole in Hwhole. cbn [fst snd] in *.
  destruct sz as [n|]; [|done]. apply andb_true_iff in Hwhole as [Hw1 Hw2].
  apply Z.eqb_eq in Hw1. apply Z.leb_le in Hw2.
  set (all := returning (fun _ => of_gang g) (task_runs s)).
  assert (length all = size (affected (fun _ => of_gang g) (task_runs s))) as Hall
    by (unfold all, returning; by rewrite length_map, length_map_to_list).
  assert (forall id, id ∈ ids -> id ∈ all) as Hsub.
  { intros id (r & Hr & Hg & _)%Hids. apply returning_spec. exists r. split; [done|].
    unfold of_gang, sql_eq. by rewrite bool_decide_true. }
  assert (n = Z.of_nat (length all)) as Hlen.
  { destruct ids as [|i0 ids0]; [done|]. destruct (Hids i0 ltac:(by left)) as (r & Hr & Hg & Hs & _).
    rewrite (Hc g i0 r Hr Hg) in Hs. injection Hs as Hs. by rewrite Hall. }
  assert (Permutation ids all) as Hperm.
  { apply submseteq_length_Permutation; [by apply NoDup_submseteq|lia]. }
  split; [|split; [|split]].
  - destruct ids as [|i0 ids0]; [done|]. destruct (Hids i0 ltac:(by left)) as (r & Hr & Hg & _). eauto.
  - rewrite <- Hall. lia.
  - intros id r Hr Hg. assert (id ∈ ids) as Hi.
    { rewrite Hperm. apply returning_spec. exists r. split; [done|]. unfold of_gang, sql_eq.
      by rewrite bool_decide_true. }
    destruct (Hids id Hi) as (r' & Hr' & _ & _ & Hs & _). assert (r' = r) as -> by congruence.
    split; [done|]. assert (sql_eq (T.gang_id r) g && is_status Ready r = true) as Hp.
    { unfold sql_eq, is_status. by rewrite !bool_decide_true. }
    split.
    + apply elem_of_map_to_list, affected_lookup. done.
    + rewrite update_tasks_lookup, Hr. cbn [fmap option_map option_fmap]. by rewrite Hp.
  - intros id r Hr Hg. rewrite update_tasks_lookup, Hr. cbn [fmap option_map option_fmap].
    unfold sql_eq. by rewrite bool_decide_false.
Qed.

End gangs.

(** ** A failed gang and its dependents *)

Import Sample.

(** [train], a gang of two, then [publish]: the gang takes [u3] and [u4], [publish] [u5]. *)
Definition train : Spec.TaskSpec Z :=
  (Sample.task $"train" []) <| Spec.gang := Some {| Spec.gang_size := 2 |} |>.
Definition flow : Spec.DagGraph Z := Sample.dag [train; Sample.task $"publish" [$"train"]].

Definition claimed : store :=
  fst (Scheduler.claim_ready_gang $"w" 2 [] ∅ 2%Z
         (fst (Scheduler.advance_ready_tasks 1%Z (Sample.made flow)))).
(** The first rank fails; its engine cancels the other, whose worker stops it. *)
Definition failed : store :=
  fst (Scheduler.cancel_gang_siblings $"u3" 3%Z
         (fst (Scheduler.mark_task_failed $"u3" $"w" 1 (Some $"rank died") 3%Z claimed))).
Definition stalled : store := fst (Stops.settle_stopped_task $"u4" $"w" 1 4%Z failed).

Example stalled_rows :
  (Sample.row_of stalled $"u3", Sample.row_of stalled $"u4", Sample.row_of stalled $"u5")
  = (Some (Failed, 0%Z), Some (Cancelled, 0%Z), Some (Pending, 1%Z)).
Proof. by vm_compute. Qed.

Lemma stalled_reachable : Reach.reachable stalled.
Proof.
  unfold stalled, failed, claimed.
  eapply rtc_r; [|apply Reach.settle]. eapply rtc_r; [|apply Reach.gang_failed].
  eapply rtc_r; [|apply Reach.fail]. eapply rtc_r; [|apply Reach.claim_gang].
  eapply rtc_r; [|apply Reach.advance]. apply Sample.made_reachable. by vm_compute.
Qed.

(** A failed gang strands what depends on it.  [cancel_gang_siblings] and the
    settlement of an asked sibling end a task without the dependents' decrement every other
    end of a task has.  On this run both members are over, and yet the task that depends on
    them still counts one: no advance ever moves it, and no reap ends its run. *)
Theorem gang_failure_strands (now : time) :
  Reach.reachable stalled
  /\ Forall (fun x => Runs.terminal x = true) (dep_statuses stalled $"u5")
  /\ Sample.row_of stalled $"u5" = Some (Pending, 1%Z)
  /\ run_held stalled $"u1" = 0%Z
  /\ Scheduler.advance_ready_tasks now stalled = (stalled, 0%nat)
  /\ Runs.reap_woken Runs.All now stalled = (stalled, []).
Proof.
  split; [exact stalled_reachable|]. split; [vm_compute; by repeat constructor|].
  split; [by vm_compute|]. split; [by vm_compute|]. split; by vm_compute.
Qed.

End Gangs.
