(* ===== verification/Admission.v ===== *)
(** * Which waiting runs are let in

    A pass over a key's waiting runs lets the oldest in, each while its cap has room, and
    leaves every other run as it was. *)

From stdpp Require Import sorting.
From S2P Require Import Tables Stops Scheduler Runs Invariant Preserve.
Module Admission.

Import Models Invariant Preserve.

Section admission.
Context {W : World}.

(** The runs of a key that have their place: in flight, and not waiting for it. *)
Definition holding (name : str) (key : option str) (s : store) : Z :=
  let '(in_flight, waiting) := Runs.runs_in_flight name key None s in (in_flight - waiting)%Z.

(** The cap of a run, as the definition it was made with says it. *)
Definition cap_of (s : store) (r : R.workflow_run) : Z :=
  match Runs.stored_max_active_runs
          match workflow_definitions s !! R.definition_id r with Some d => def_spec d | None => [] end with
  | Some c => Z.of_N c
  | None => I64_MAX
  end.

Definition let_in_row (now : time) (r : R.workflow_run) : R.workflow_run :=
  r <| R.admitted_at := Some now |>
    <| R.deadline_at := Runs.deadline_after_wait (R.deadline_at r) (default now (R.queued_at r)) now |>.

Lemma update_one {A} (p : A -> bool) (f : A -> A) (t : gmap str A) id r :
  t !! id = Some r -> p r = true ->
  update_where (fun i x => bool_decide (i = id) && p x) f t = <[ id := f r ]> t.
Proof.
  intros Hr Hp. apply map_eq. intros i. rewrite update_where_lookup.
  destruct (decide (i = id)) as [->|Hne].
  - rewrite lookup_insert_eq, Hr. cbn. by rewrite bool_decide_true, Hp.
  - rewrite lookup_insert_ne by done. destruct (t !! i); [|done]. cbn. by rewrite bool_decide_false.
Qed.

Lemma let_in_spec now s id r :
  workflow_runs s !! id = Some r -> Runs.may_be_let_in r = true ->
  exists s', Runs.let_in id (Runs.deadline_after_wait (R.deadline_at r) (default now (R.queued_at r)) now)
               now s = (s', true)
    /\ workflow_runs s' = <[ id := let_in_row now r ]> (workflow_runs s)
    /\ workflow_definitions s' = workflow_definitions s.
Proof.
  intros Hr Hm. unfold Runs.let_in. destruct (update_runs _ _ s) as [s1 n] eqn:E.
  unfold update_runs in E. injection E as <- <-. rewrite affected_one, Hr, Hm, map_size_singleton.
  eexists. split; [reflexivity|]. split; [|done]. cbn [fst].
  unfold update_tasks. cbn [fst]. cbn. by rewrite (update_one _ _ _ id r).
Qed.

Lemma affected_fresh {A} (p : str -> A -> bool) (t : gmap str A) id z :
  t !! id = None ->
  size (affected p (<[ id := z ]> t)) = (size (affected p t) + if p id z then 1 else 0)%nat.
Proof.
  intros Hn. unfold affected. destruct (p id z) eqn:Hp.
  - rewrite map_filter_insert_True by done. rewrite map_size_insert_None; [lia|].
    apply map_lookup_filter_None. by left.
  - rewrite map_filter_insert_not' by (cbn; first [congruence|intros y Hy; congruence]). lia.
Qed.

Lemma affected_insert {A} (p : str -> A -> bool) (t : gmap str A) id x y :
  t !! id = Some x ->
  (size (affected p (<[ id := y ]> t)) + (if p id x then 1 else 0)
   = size (affected p t) + if p id y then 1 else 0)%nat.
Proof.
  intros Hx. pose proof (lookup_delete_eq t id) as Hd.
  rewrite <- (insert_delete_eq t id y). rewrite <- (insert_delete_id t id x Hx) at 2.
  rewrite !affected_fresh by done. lia.
Qed.

(** A run of the key let in holds its place, and nothing else of the count changes. *)
Lemma let_in_holding name key now s s' id r :
  workflow_runs s !! id = Some r -> Runs.may_be_let_in r = true -> Runs.of_key s name key r = true ->
  workflow_runs s' = <[ id := let_in_row now r ]> (workflow_runs s) ->
  workflow_definitions s' = workflow_definitions s ->
  holding name key s' = (holding name key s + 1)%Z.
Proof.
  intros Hr Hm Hk Hw Hd. unfold holding, Runs.runs_in_flight. rewrite Hw.
  assert (forall x, Runs.of_key s' name key x = Runs.of_key s name key x) as Hof
    by (intros x; unfold Runs.of_key; by rewrite Hd).
  assert (Runs.of_key s name key (let_in_row now r) = true) as Hk' by done.
  assert (Runs.waiting (let_in_row now r) = false) as Hnw
    by (unfold Runs.waiting, let_in_row; cbn; by rewrite andb_false_r).
  assert (run_is RRunning (let_in_row now r) = run_is RRunning r) as Hrun by done.
  unfold Runs.may_be_let_in in Hm. apply andb_true_iff in Hm as [Hm _].
  apply andb_true_iff in Hm as [Hwait Hr1].
  set (p := fun id0 r0 => run_is RRunning r0 && Runs.of_key s' name key r0
                          && negb (bool_decide (Some id0 = None))).
  set (p' := fun id0 r0 => run_is RRunning r0 && Runs.of_key s name key r0
                          && negb (bool_decide (Some id0 = None))).
  assert (forall t, affected p t = affected p' t) as E1.
  { intros t. unfold affected. apply map_filter_ext. intros i x _. unfold p, p'. cbn. by rewrite Hof. }
  assert (forall t, affected (fun i x => p i x && Runs.waiting x) t
                    = affected (fun i x => p' i x && Runs.waiting x) t) as E2.
  { intros t. unfold affected. apply map_filter_ext. intros i x _. unfold p, p'. cbn. by rewrite Hof. }
  cbv zeta beta iota. fold p p'. rewrite E1, E2.
  pose proof (affected_insert p' (workflow_runs s) id r (let_in_row now r) Hr) as F1.
  pose proof (affected_insert (fun i x => p' i x && Runs.waiting x) (workflow_runs s) id r
                (let_in_row now r) Hr) as F2.
  assert (p' id r = true) as P1 by (unfold p'; by rewrite Hr1, Hk).
  assert (p' id (let_in_row now r) = true) as P2 by (unfold p'; by rewrite Hrun, Hr1, Hk').
  rewrite P1, P2 in F1. cbv beta in F2. rewrite P1, P2, Hwait, Hnw in F2. cbn [andb] in F2.
  change (affected (fun i x => run_is RRunning x && Runs.of_key s name key x
            && negb (bool_decide (Some i = None)) && Runs.waiting x) (workflow_runs s))
    with (affected (fun i x => p' i x && Runs.waiting x) (workflow_runs s)). lia.
Qed.

(** What the loop over a key's runs leaves: the first [n] of them let in, each into room its
    own cap had, and the next one, if there is one, with none. *)
Lemma admit_next_spec name key now l s running admitted :
  NoDup (map fst l) ->
  (forall id r, (id, r) ∈ l -> workflow_runs s !! id = Some r /\ Runs.may_be_let_in r = true
                               /\ Runs.of_key s name key r = true) ->
  holding name key s = running ->
  exists n s',
    (n <= length l)%nat
    /\ Runs.admit_next l running now s admitted = (s', admitted ++ map fst (take n l))
    /\ holding name key s' = (running + Z.of_nat n)%Z
    /\ workflow_definitions s' = workflow_definitions s
    /\ (forall i id r, (i < n)%nat -> l !! i = Some (id, r) ->
          (running + Z.of_nat i < cap_of s r)%Z
          /\ workflow_runs s' !! id = Some (let_in_row now r))
    /\ (forall id r, l !! n = Some (id, r) -> (cap_of s r <= running + Z.of_nat n)%Z)
    /\ (forall id, id ∉ map fst (take n l) -> workflow_runs s' !! id = workflow_runs s !! id).
Proof.
  revert s running admitted; induction l as [|[id r] l IH]; intros s running admitted Hn Hl Hh.
  { exists 0%nat, s. split; [done|]. split; [by rewrite app_nil_r|]. rewrite Z.add_0_r.
    split; [done|]. split; [done|]. split; [lia|]. done. }
  cbn [map fst] in Hn. apply NoDup_cons in Hn as [Hid Hn].
  destruct (Hl id r ltac:(by left)) as (Hr & Hm & Hk).
  cbn [Runs.admit_next]. fold (cap_of s r). destruct (Z.leb_spec (cap_of s r) running) as [Hc|Hc].
  { exists 0%nat, s. split; [cbn; lia|]. split; [by rewrite app_nil_r|]. rewrite Z.add_0_r.
    split; [done|]. split; [done|]. split; [lia|]. split; [|done]. intros i x [= <- <-]. done. }
  destruct (let_in_spec now s id r Hr Hm) as (s1 & -> & Hw & Hd).
  assert (forall i x, i <> id -> workflow_runs s1 !! i = Some x <-> workflow_runs s !! i = Some x) as Hother
    by (intros i x Hne; by rewrite Hw, lookup_insert_ne).
  destruct (IH s1 (running + 1)%Z (admitted ++ [id]) Hn) as (n & s' & Hle & E & Hh' & Hd' & Hin & Hstop & Hout).
  { intros i x Hix. destruct (Hl i x ltac:(by right)) as (Hx & Hmx & Hkx).
    assert (i <> id) as Hne. { intros ->. apply Hid. apply list_elem_of_fmap. by exists (id, x). }
    split; [by apply Hother|]. split; [done|]. unfold Runs.of_key. by rewrite Hd. }
  { rewrite (let_in_holding name key now s s1 id r) by done. by rewrite Hh. }
  exists (S n), s'. split; [cbn; lia|]. split; [|split; [|split; [|split; [|split]]]].
  - rewrite E. cbn [take map fst]. by rewrite <- app_assoc.
  - rewrite Hh'. lia.
  - by rewrite Hd'.
  - assert (forall x, cap_of s1 x = cap_of s x) as Hcap by (intros x; unfold cap_of; by rewrite Hd).
    intros [|i] j x Hi Hx.
    + injection Hx as <- <-. split; [lia|].
      rewrite Hout; [by rewrite Hw, lookup_insert_eq|]. intros Hj. apply Hid.
      apply list_elem_of_fmap in Hj as (y & -> & Hy). apply list_elem_of_fmap. exists y. split; [done|].
      apply elem_of_take in Hy as (k & Hy & _). by eapply list_elem_of_lookup_2.
    + destruct (Hin i j x ltac:(lia) Hx) as [H1 H2]. rewrite Hcap in H1. split; [lia|done].
  - intros j x Hx. cbn in Hx. pose proof (Hstop j x Hx) as H.
    assert (cap_of s1 x = cap_of s x) as Hcap by (unfold cap_of; by rewrite Hd).
    rewrite Hcap in H. lia.
  - intros j Hj. cbn [take map fst] in Hj. apply not_elem_of_cons in Hj as [Hne Hj].
    rewrite Hout by done. by rewrite Hw, lookup_insert_ne.
Qed.
(** ** In the order they came *)

Lemma insert_by_sorted {A} (Q : relation A) (le : A -> A -> bool) x l :
  (forall a b c, Q a b -> Q b c -> Q a c) ->
  (forall a b, if le a b then Q a b else Q b a) ->
  StronglySorted Q l -> StronglySorted Q (Stops.insert_by le x l).
Proof.
  intros Ht Hle. induction 1 as [|y l Hl IH Hy]; cbn; [by repeat constructor|].
  pose proof (Hle x y) as Hxy. destruct (le x y).
  - constructor; [by constructor|]. constructor; [done|]. eapply Forall_impl; [exact Hy|].
    intros z. by apply Ht.
  - constructor; [exact IH|]. rewrite insert_by_perm. by constructor.
Qed.

Lemma sort_by_sorted {A} (Q : relation A) (le : A -> A -> bool) l :
  (forall a b c, Q a b -> Q b c -> Q a c) -> (forall a b, if le a b then Q a b else Q b a) ->
  StronglySorted Q (Stops.sort_by le l).
Proof.
  intros Ht Hle. induction l as [|x l IH]; [constructor|]. cbn. by apply insert_by_sorted.
Qed.

(** The first run was queued no later than the second. *)
Definition no_later (a b : str * R.workflow_run) : Prop :=
  Stops.null_first (R.queued_at a.2) (R.queued_at b.2) = true.

Lemma no_later_trans a b c : no_later a b -> no_later b c -> no_later a c.
Proof.
  unfold no_later, Stops.null_first. destruct (R.queued_at a.2), (R.queued_at b.2), (R.queued_at c.2);
    try done. lia.
Qed.

Lemma queued_order_spec a b : if Runs.queued_order a b then no_later a b else no_later b a.
Proof.
  unfold Runs.queued_order, no_later, Stops.null_first.
  destruct (R.queued_at a.2) as [x|], (R.queued_at b.2) as [y|]; try done.
  destruct (_ || _) eqn:E.
  - apply orb_true_iff in E as [E|[E _]%andb_true_iff]; lia.
  - apply orb_false_iff in E as [E _]. lia.
Qed.

(** A run of the key that waits. *)
Definition waits_for_place (name : str) (key : option str) (s : store) (kv : str * R.workflow_run)
    : Prop :=
  workflow_runs s !! kv.1 = Some kv.2 /\ Runs.may_be_let_in kv.2 = true
  /\ Runs.of_key s name key kv.2 = true.

(** C12: runs are let in in the order they came, into the room there is.  A pass over a key
    lets in some of its waiting runs: none that was queued after one it leaves waiting, and
    each one only while fewer runs held a place than its own cap says; it stops at a cap
    that is full, at [ADMIT_AT_ONCE] runs, or with none waiting; and every other run stays
    as it was. *)
Theorem admitted_in_order now s admitted name key :
  exists s' got,
    Runs.admit_key now (s, admitted) (name, key) = (s', admitted ++ map fst got)
    /\ NoDup (map fst got)
    /\ holding name key s' = (holding name key s + Z.of_nat (length got))%Z
    /\ (forall i kv, got !! i = Some kv ->
          waits_for_place name key s kv
          /\ workflow_runs s' !! kv.1 = Some (let_in_row now kv.2)
          /\ (holding name key s + Z.of_nat i < cap_of s kv.2)%Z)
    /\ (forall kv, waits_for_place name key s kv -> kv.1 ∉ map fst got ->
          Forall (fun x => no_later x kv) got
          /\ (length got < Runs.ADMIT_AT_ONCE ->
               exists x, waits_for_place name key s x /\ (cap_of s x.2 <= holding name key s')%Z)%nat)
    /\ (forall id, id ∉ map fst got -> workflow_runs s' !! id = workflow_runs s !! id).
Proof.
  set (all := Stops.sort_by Runs.queued_order
                (map_to_list (affected (fun _ r => Runs.may_be_let_in r && Runs.of_key s name key r)
                                (workflow_runs s)))).
  assert (StronglySorted no_later all) as Hsorted
    by (apply sort_by_sorted; [exact no_later_trans|exact queued_order_spec]).
  assert (forall kv, kv ∈ all <-> waits_for_place name key s kv) as Hall.
  { intros [id r]. unfold all, waits_for_place. rewrite sort_by_perm, elem_of_map_to_list, affected_lookup.
    cbn. by rewrite andb_true_iff. }
  assert (NoDup (map fst all)) as Hn.
  { unfold all. rewrite (Permutation_map fst (sort_by_perm _ _)). apply NoDup_fst_map_to_list. }
  assert (Runs.admission_next name key s = take Runs.ADMIT_AT_ONCE all) as Hnext by done.
  destruct (admit_next_spec name key now (take Runs.ADMIT_AT_ONCE all) s (holding name key s) admitted)
    as (n & s' & Hle & E & Hh & Hd & Hin & Hstop & Hout).
  { rewrite <- firstn_map. rewrite <- (take_drop Runs.ADMIT_AT_ONCE (map fst all)) in Hn.
    by apply NoDup_app in Hn as [Hn _]. }
  { intros id r Hir. apply (Hall (id, r)). rewrite <- (take_drop Runs.ADMIT_AT_ONCE all). set_solver. }
  { done. }
  assert (n <= Runs.ADMIT_AT_ONCE)%nat as Hn64 by (rewrite length_take in Hle; lia).
  rewrite take_take, Nat.min_l in E by done. rewrite take_take, Nat.min_l in Hout by done.
  assert (length (take n all) = n) as Hlen by (rewrite length_take in *; lia).
  exists s', (take n all). split; [|split; [|split; [|split; [|split]]]].
  - unfold Runs.admit_key. cbn [fst snd]. rewrite Hnext, <- E. unfold holding.
    by destruct (Runs.runs_in_flight name key None s).
  - rewrite <- firstn_map. rewrite <- (take_drop n (map fst all)) in Hn. by apply NoDup_app in Hn as [Hn _].
  - by rewrite Hlen.
  - intros i [id r] Hi. apply lookup_take_Some in Hi as [Hi Hlt].
    destruct (Hin i id r Hlt) as [H1 H2]; [apply lookup_take_Some; split; [done|lia]|].
    split; [apply Hall; by eapply list_elem_of_lookup_2|]. done.
  - intros kv Hkv Hno. assert (kv ∈ drop n all) as Hdrop.
    { apply Hall in Hkv. rewrite <- (take_drop n all) in Hkv. apply elem_of_app in Hkv as [Hkv|]; [|done].
      exfalso. apply Hno. apply list_elem_of_fmap. by exists kv. }
    split.
    + rewrite <- (take_drop n all) in Hsorted. apply StronglySorted_app in Hsorted as (Hq & _).
      apply Forall_forall. intros x Hx. by apply Hq.
    + rewrite Hlen. intros Hlt. assert (is_Some (take Runs.ADMIT_AT_ONCE all !! n)) as [[j x] Hx].
      { apply lookup_lt_is_Some. rewrite length_take. destruct (decide (n < length all)%nat); [lia|].
        rewrite drop_ge in Hdrop by lia. by apply elem_of_nil in Hdrop. }
      exists (j, x). rewrite Hh. split; [|exact (Hstop j x Hx)]. apply Hall.
      apply lookup_take_Some in Hx as [Hx _]. by eapply list_elem_of_lookup_2.
  - exact Hout.
Qed.

End admission.
End Admission.
