(* ===== verification/Witnesses.v ===== *)
(** * The theorems on concrete stores

    Each theorem that has a hypothesis, applied where the hypotheses hold: on the runs of
    [Sample], and on an approval, a gang, a cancel and an expired lease. *)

From S2P Require Import Tables Cond Stops Scheduler Parks Runs Invariant Preserve Create Reach.
From S2P Require Import Safety Progress Life Claims Sample Gangs RunFacts SpecFacts.

Module Witnesses.

Import Models Sample.

(** ** Reading a concrete store *)

Definition on_row (s : store) (id : str) (P : T.task_run -> bool) : bool :=
  match task_runs s !! id with Some r => P r | None => false end.
Definition on_run (s : store) (id : str) (P : R.workflow_run -> bool) : bool :=
  match workflow_runs s !! id with Some r => P r | None => false end.

Lemma on_row_spec s id P :
  on_row s id P = true -> exists r, task_runs s !! id = Some r /\ P r = true.
Proof. unfold on_row. destruct (task_runs s !! id) as [r|]; [by exists r|done]. Qed.

Lemma on_run_spec s id P :
  on_run s id P = true -> exists r, workflow_runs s !! id = Some r /\ P r = true.
Proof. unfold on_run. destruct (workflow_runs s !! id) as [r|]; [by exists r|done]. Qed.

Lemma rows_all s (P : str -> T.task_run -> bool) :
  forallb (fun kv => P kv.1 kv.2) (map_to_list (task_runs s)) = true ->
  forall id r, task_runs s !! id = Some r -> P id r = true.
Proof.
  rewrite forallb_forall. intros H id r Hr. apply (H (id, r)), list_elem_of_In.
  by apply elem_of_map_to_list.
Qed.

Lemma edges_all s (P : str * str -> bool) :
  forallb P (elements (task_dependencies s)) = true ->
  forall e, e ∈ task_dependencies s -> P e = true.
Proof.
  rewrite forallb_forall. intros H e He. apply (H e), list_elem_of_In. by apply elem_of_elements.
Qed.

Definition has (x : TaskStatus) (r : T.task_run) : bool := bool_decide (T.status r = x).

(** ** Stores *)

(** [w] lets its lease on [u2] lapse; the task is recovered, and [v] claims it. *)
Definition lapsed : store := fst (Scheduler.recover_expired_leases (secs 100) s2).
Definition reclaimed : store :=
  fst (Scheduler.claim_ready_filtered $"v" 10 [] ∅ false (secs 100) lapsed).

Lemma reclaimed_steps : Reach.steps s2 reclaimed.
Proof.
  unfold reclaimed, lapsed. eapply rtc_r; [|apply Reach.claim]. eapply rtc_once, Reach.recover.
Qed.

Lemma spent_old : Safety.spent $"u2" $"w" 1 reclaimed.
Proof.
  destruct (on_row_spec reclaimed $"u2"
              (fun r => (T.version r =? 2)%Z) ltac:(by vm_compute)) as (r & Hr & Hv%Z.eqb_eq).
  exists r. split; [exact Hr|]. split; lia.
Qed.

(** [s2], cancelled while [u2] runs. *)
Definition cancelled : store := fst (Stops.cancel_run $"u1" 3%Z s2).

(** A run of one gate, waiting for its approver. *)
Definition gate : Spec.TaskSpec Z :=
  (Sample.task $"gate" []) <| Spec.task_type := Some $"approval" |>.
Definition gated : store := fst (Scheduler.advance_ready_tasks 1%Z (made (dag [gate]))).
Definition approved : store := fst (Parks.resolve_approval $"u1" $"u2" true None None 2%Z gated).

Lemma gated_reachable : Reach.reachable gated.
Proof.
  eapply rtc_r; [|apply Reach.advance]. apply made_reachable. by vm_compute.
Qed.

Lemma approved_taken : Parks.resolve_approval $"u1" $"u2" true None None 2%Z gated = (approved, true).
Proof.
  assert (snd (Parks.resolve_approval $"u1" $"u2" true None None 2%Z gated) = true) as H
    by (by vm_compute).
  rewrite <- H. apply surjective_pairing.
Qed.

(** The chain, both of its tasks over. *)
Definition s4 : store := fst (Scheduler.claim_ready_filtered $"w" 10 [] ∅ false 4%Z s3).
Definition s5 : store := fst (Scheduler.mark_task_succeeded $"u3" $"w" 1 None 5%Z s4).

(** ** Reachable states *)

Lemma stale_reports_witness :
  Scheduler.mark_task_succeeded_inner $"u2" $"w" 1 None false 9%Z reclaimed = (reclaimed, false)
  /\ Scheduler.mark_task_failed $"u2" $"w" 1 None 9%Z reclaimed = (reclaimed, false).
Proof.
  destruct (Safety.stale_reports reclaimed $"u2" $"w" 1 spent_old) as [H1 H2 _ _ _ _ _].
  split; [apply H1|apply H2].
Defined.

Lemma started_rule_met_witness :
  Forall (fun x => Runs.terminal x = true) (dep_statuses s3 $"u3").
Proof.
  destruct (on_row_spec s3 $"u3" (has Ready) ltac:(by vm_compute))
    as (r & Hr & Hs%bool_decide_eq_true).
  apply (Life.started_rule_met ∅ s3 $"u3" r (Life.reachable_lived _ s3_reachable) Hr); [|by left].
  apply not_elem_of_empty.
Defined.

Lemma count_right_witness :
  exists r, task_runs s0 !! $"u3" = Some r
    /\ (Z.of_nat (length (List.filter (fun x => negb (Runs.terminal x)) (dep_statuses s0 $"u3")))
        + Invariant.run_held s0 (T.run_id r) <= T.remaining_deps r)%Z.
Proof.
  destruct (on_row_spec s0 $"u3" (has Pending) ltac:(by vm_compute))
    as (r & Hr & Hs%bool_decide_eq_true).
  exists r. split; [exact Hr|].
  exact (proj1 (Safety.count_right s0 $"u3" r s0_reachable Hr Hs)).
Defined.

Lemma approval_decided_once_witness :
  Parks.resolve_approval $"u1" $"u2" false (Some $"eve") None 3%Z approved = (approved, false).
Proof.
  apply (Safety.approval_decided_once gated approved approved $"u1" $"u2" true None None 2%Z).
  - exact gated_reachable.
  - exact approved_taken.
  - apply rtc_refl.
Defined.

(** ** Advancing *)

Lemma advance_moves_witness :
  exists r', task_runs s1 !! $"u2" = Some r' /\ T.status r' <> Pending.
Proof.
  destruct (on_row_spec s0 $"u2" Scheduler.unblocked ltac:(by vm_compute)) as (r & Hr & Hu).
  exact (Progress.advance_moves 1%Z s0 $"u2" r s0_reachable Hr Hu).
Defined.

Definition chain_rank (id : str) : nat := if bool_decide (id = $"u3") then 1 else 0.

Lemma run_moves_on_witness :
  exists i x x', task_runs s0 !! i = Some x /\ T.run_id x = $"u1" /\ Scheduler.unblocked x = true
    /\ task_runs s1 !! i = Some x' /\ T.status x' <> Pending.
Proof.
  destruct (on_row_spec s0 $"u3"
              (fun r => has Pending r && bool_decide (T.run_id r = $"u1")) ltac:(by vm_compute))
    as (r & Hr & [Hs%bool_decide_eq_true Hrun%bool_decide_eq_true]%andb_true_iff).
  apply (Life.run_moves_on ∅ 1%Z s0 $"u1" chain_rank $"u3" r (Life.reachable_lived _ s0_reachable)).
  - intros a b He.
    pose proof (edges_all s0 (fun e => (chain_rank e.2 <? chain_rank e.1)%nat)
                  ltac:(by vm_compute) (a, b) He) as H. by apply Nat.ltb_lt in H.
  - intros i x Hx _.
    pose proof (rows_all s0 (fun _ r => is_null (T.gang_id r) && has Pending r)
                  ltac:(by vm_compute) i x Hx) as [Hg Hp%bool_decide_eq_true]%andb_true_iff.
    split; [by destruct (T.gang_id x)|by left].
  - by vm_compute.
  - exact Hr.
  - exact Hrun.
  - exact Hs.
Defined.

(** ** Claiming *)

Lemma class_set_member_witness :
  Stops.in_set (Stops.class_set [$"gpu"; $"cpu"]) $"cpu" = true.
Proof.
  apply (Claims.class_set_member [$"gpu"; $"cpu"] $"cpu").
  - by repeat constructor.
  - done.
  - done.
  - done.
  - set_solver.
Defined.

Lemma claim_takes_witness :
  exists s' got,
    Scheduler.claim_ready_filtered $"w" 1 [] ∅ false 2%Z s1 = (s', got)
    /\ NoDup (map fst got) /\ (Z.of_nat (length got) <= 1)%Z.
Proof.
  destruct (Claims.claim_takes $"w" 1 [] ∅ false 2%Z s1) as (s' & got & E & Hn & Hl & _).
  exists s', got. split; [exact E|]. split; [exact Hn|by apply Hl].
Defined.

(** The gang of [Gangs], ready. *)
Definition mustered : store := fst (Scheduler.advance_ready_tasks 1%Z (made Gangs.flow)).

Definition complete_row (s : store) (g : str) (r : T.task_run) : bool :=
  implb (Gangs.of_gang g r)
    (bool_decide (T.gang_size r
       = Some (Z.of_nat (size (affected (fun _ => Gangs.of_gang g) (task_runs s)))))).

Lemma mustered_complete g : Gangs.gang_complete mustered g.
Proof.
  intros id r Hr Hg.
  pose proof (rows_all mustered
                (fun _ x => match T.gang_id x with Some g => complete_row mustered g x | None => true end)
                ltac:(by vm_compute) id r Hr) as H.
  cbn beta in H. rewrite Hg in H. unfold complete_row in H.
  assert (Gangs.of_gang g r = true) as Hof by (by apply bool_decide_eq_true).
  rewrite Hof in H. by apply bool_decide_eq_true in H.
Qed.

Lemma gang_all_or_nothing_witness :
  exists s' got, Scheduler.claim_ready_gang $"w" 2 [] ∅ 2%Z mustered = (s', got)
    /\ exists g, forall id r, task_runs mustered !! id = Some r -> T.gang_id r = Some g ->
         T.status r = Ready /\ (id, r) ∈ got.
Proof.
  destruct (Gangs.gang_all_or_nothing $"w" 2 [] ∅ 2%Z mustered mustered_complete)
    as (s' & got & E & [[_ Hg]|(g & _ & _ & Hall & _)]).
  - exfalso.
    assert (length (snd (Scheduler.claim_ready_gang $"w" 2 [] ∅ 2%Z mustered)) = 2%nat) as H
      by (by vm_compute).
    rewrite E, Hg in H. clear -H. discriminate H.
  - exists s', got. split; [exact E|]. exists g. intros id r Hr Hid.
    destruct (Hall id r Hr Hid) as (Hs & Hin & _).
    split; [exact Hs|exact Hin].
Defined.

(** ** Runs *)

Lemma create_run_rows_witness :
  exists rows : str -> list str,
    length (rows $"test") = 1%nat
    /\ forall id, id ∈ rows $"test" -> forall d, (id, d) ∈ task_dependencies s0 <->
         exists dep, dep ∈ [$"build"] /\ d ∈ rows dep.
Proof.
  assert (Runs.create_run_full uuid chain request 0 None 0%Z empty_store = Ok (s0, $"u1")) as E
    by (by vm_compute).
  destruct (RunFacts.create_run_rows (W := world) uuid chain request 0 None 0%Z empty_store s0 $"u1")
    as (waits & rows & _ & Ht & _).
  - apply rtc_refl.
  - intros i r H. done.
  - exact E.
  - destruct (Ht (task $"test" [$"build"])) as [Hl Hid].
    { right. apply elem_of_cons. by left. }
    exists rows. split; [exact Hl|]. intros id Hi. exact (proj2 (proj2 (Hid id Hi))).
Defined.

(** A graph whose timeout is the largest a specification can write. *)
Definition forever : Spec.DagGraph Z :=
  chain <| Spec.spec ::= fun sp => sp <| Spec.run_timeout_secs := Some U64_MAX |> |>.

Lemma run_timeout_panics_witness :
  Runs.create_run_full uuid forever request 0 None 0%Z empty_store = Err Runs.Panicked.
Proof.
  apply (RunFacts.run_timeout_panics (W := world) uuid forever request 0 None 0%Z empty_store U64_MAX).
  - reflexivity.
  - reflexivity.
  - left. reflexivity.
Defined.

Lemma cancel_asks_all_witness :
  exists s' counts, Stops.cancel_run $"u1" 3%Z s2 = (s', Some counts)
    /\ forall id t, task_runs s' !! id = Some t -> T.run_id t = $"u1" -> RunFacts.stopped_or_asked t.
Proof.
  destruct (on_run_spec s2 $"u1" (run_is RRunning) ltac:(by vm_compute))
    as (r & Hr & Hs%bool_decide_eq_true).
  destruct (RunFacts.cancel_asks_all $"u1" 3%Z s2 r Hr Hs) as (s' & counts & r' & E & Hall & _).
  exists s', counts. split; [exact E|exact Hall].
Defined.

Lemma last_stop_ends_run_witness :
  exists s' r', Stops.settle_stopped_task $"u2" $"w" 1 5%Z cancelled = (s', true)
    /\ workflow_runs s' !! $"u1" = Some r' /\ R.status r' = RCancelled.
Proof.
  destruct (on_row_spec cancelled $"u2"
              (fun r => Stops.held_by $"u2" $"w" 1 $"u2" r && Stops.asked r
                        && bool_decide (T.run_id r = $"u1")) ltac:(by vm_compute))
    as (t & Ht & [[Hh Ha]%andb_true_iff Hrun%bool_decide_eq_true]%andb_true_iff).
  destruct (on_run_spec cancelled $"u1"
              (fun r => run_is RRunning r && sql_eq (R.stopping_as r) RCancelled) ltac:(by vm_compute))
    as (r & Hr & [Hs%bool_decide_eq_true Hx%bool_decide_eq_true]%andb_true_iff).
  rewrite <- Hrun in Hr.
  destruct (RunFacts.last_stop_ends_run $"u2" $"w" 1 5%Z cancelled t r RCancelled Ht Hh Ha Hr Hs Hx)
    as (s' & t' & r' & E & _ & _ & _ & Hr' & Hend).
  exists s', r'. split; [exact E|]. rewrite <- Hrun. split; [exact Hr'|].
  revert Hend. rewrite Hrun.
  assert (size (affected (fun i y => negb (bool_decide (i = $"u2")) && bool_decide (T.run_id y = $"u1")
                                     && Stops.asked y) (task_runs cancelled)) = 0%nat) as H0
    by (by vm_compute).
  rewrite H0. intros [H _]. exact H.
Defined.

Lemma reap_ends_complete_witness :
  exists r', workflow_runs (fst (Runs.reap [$"u1"] 6%Z s5)) !! $"u1" = Some r'
    /\ R.finished_at r' = Some 6%Z.
Proof.
  destruct (on_run_spec s5 $"u1" Runs.reapable ltac:(by vm_compute)) as (r & Hr & Hp).
  destruct (RunFacts.reap_ends_complete [$"u1"] 6%Z s5 $"u1" r Hr) as (_ & H & _).
  destruct H as (r' & Hr' & Hf & _).
  - apply elem_of_cons. by left.
  - exact Hp.
  - vm_compute. repeat constructor.
  - exists r'. split; [exact Hr'|exact Hf].
Defined.

(** ** Values *)

Lemma substitute_pieces_witness :
  Cond.substitute ($"run " ++ Cond.OPEN ++ $" n " ++ Cond.CLOSE ++ $"!") {[ $"n" := $"7" ]}
  = $"run " ++ CondFacts.filled $" n " {[ $"n" := $"7" ]} ++ Cond.substitute $"!" {[ $"n" := $"7" ]}.
Proof.
  apply (CondFacts.substitute_pieces $"run " $" n " $"!" {[ $"n" := $"7" ]}).
  - reflexivity.
  - reflexivity.
Defined.

Lemma approval_log_lines_witness :
  split_char NL (Spec.approval_log true (Some $"ann") (Some ($"ok" ++ [NL] ++ $"[approval] rejected")) $"now")
  = SpecFacts.decision_lines true (Some $"ann") (Some ($"ok" ++ [NL] ++ $"[approval] rejected")) $"now".
Proof.
  apply (SpecFacts.approval_log_lines true (Some $"ann")
           (Some ($"ok" ++ [NL] ++ $"[approval] rejected")) $"now").
  - reflexivity.
  - reflexivity.
Defined.

Definition two : Policy.AttemptLog.Policy :=
  {| Policy.AttemptLog.bytes := 4096; Policy.AttemptLog.keep := 2 |}.

Lemma attempts_bounded_witness :
  (Z.of_nat (length (Bounds.attempts_of $"t"
     (Scheduler.record_attempt $"t" 1 Policy.AttemptLog.AttemptFailed None two 0%Z empty_store))) <= 2)%Z.
Proof.
  apply (Bounds.attempts_bounded $"t" 1 Policy.AttemptLog.AttemptFailed None two 0%Z empty_store).
  - reflexivity.
  - reflexivity.
  - vm_compute. discriminate.
  - split; vm_compute; discriminate.
  - intros n H. vm_compute in H. by apply elem_of_nil in H.
Defined.

End Witnesses.
