(* ===== verification/CiExpr.v ===== *)
(** * The expression language of workflow files ([dagron-ci-expr/src/lib.rs])

    What stands between [${{] and [}}]: the lexer, the parser with its bounds on nesting and
    height, the contexts an expression reads, its evaluation against a host, texts with
    expressions in them, and the script a step runner is handed.  Texts are bytes; every
    byte the lexer and the scanners look for is ASCII, and no such byte is part of a longer
    character.  Of an error the model has where it is and which it is, not its wording. *)

From S2P Require Import Prelude F64 Json.
From Stdlib Require Import SpecFloat.

Module CiExpr.

(** ** Values *)

Inductive value :=
| Null
| Bool (b : bool)
| Number (n : f64)
| String (s : str)
| Array (items : list value)
| Object (fields : list (str * value)).

(** What the crate uses of [serde_json], and [str::to_lowercase], whose table of cases is
    Unicode's. *)
Class CiWorld := {
  json_num : Type;
  as_f64 : json_num -> option f64;
  of_i64 : Z -> json_num;
  from_f64 : f64 -> option json_num;
  from_str : str -> option (Json.value json_num);
  to_string_pretty : Json.value json_num -> str;
  (** [collect] into a [serde_json::Map]. *)
  map_of : list (str * Json.value json_num) -> list (str * Json.value json_num);
  to_lowercase : str -> str;
}.

(** [f64::NAN] and [f64::INFINITY] *)
Definition NAN : f64 := S754_nan.
Definition INFINITY : f64 := S754_infinity false.
Definition is_nan (n : f64) : bool := match n with S754_nan => true | _ => false end.

(** [From<serde_json::Value> for Value] *)
Fixpoint from_json {W : CiWorld} (j : Json.value json_num) : value :=
  match j with
  | JNull => Null
  | JBool b => Bool b
  | JNumber n => Number (default NAN (as_f64 n))
  | JString s => String s
  | JArray items => Array (map from_json items)
  | JObject m => Object (map (fun kv => (kv.1, from_json kv.2)) m)
  end.

(** [From<&Value> for serde_json::Value]: [n.abs() < 9.0e15] of a whole number. *)
Fixpoint to_json {W : CiWorld} (v : value) : Json.value json_num :=
  match v with
  | Null => JNull
  | Bool b => JBool b
  | Number n =>
      match (let* z := F64.to_whole n in if (Z.abs z <? 9 * 10 ^ 15)%Z then Some z else None) with
      | Some z => JNumber (of_i64 z)
      | None => match from_f64 n with Some n => JNumber n | None => JNull end
      end
  | String s => JString s
  | Array items => JArray (map to_json items)
  | Object fields => JObject (map_of (map (fun kv => (kv.1, to_json kv.2)) fields))
  end.

(** [Value::truthy] *)
Definition truthy (v : value) : bool :=
  match v with
  | Null => false
  | Bool b => b
  | Number n => negb (F64.eqb n F64.zero) && negb (is_nan n)
  | String s => match s with [] => false | _ => true end
  | Array _ | Object _ => true
  end.

(** [number_text] *)
Definition number_text (n : f64) : str :=
  match n with
  | S754_nan => $"NaN"
  | S754_infinity neg => if neg then $"-Infinity" else $"Infinity"
  | _ =>
      match F64.to_whole n with
      | Some z => if (Z.abs z <? 10 ^ 15)%Z then show_Z z else F64.show n
      | None => F64.show n
      end
  end.

(** [Value::text] *)
Definition text (v : value) : str :=
  match v with
  | Null => []
  | Bool b => if b then $"true" else $"false"
  | Number n => number_text n
  | String s => s
  | Array _ => $"Array"
  | Object _ => $"Object"
  end.

(** [u64::from_str_radix(hex, 16)], which takes a leading [+]. *)
Definition hex_val (c : ascii) : N :=
  if is_digit c then digit_val c
  else if in_range 97 102 c then (code c - 87)%N else (code c - 55)%N.
Definition parse_hex (s : str) : option N :=
  let s := match s with c :: s' => if ch c "+" then s' else s | [] => s end in
  match s with
  | [] => None
  | _ =>
      if forallb is_hexdigit s then
        let n := fold_left (fun a c => (a * 16 + hex_val c)%N) s 0%N in
        if (n <=? U64_MAX)%N then Some n else None
      else None
  end.

(** [parse_number] *)
Definition parse_number (t : str) : option f64 :=
  match t with
  | [] => Some F64.zero
  | c :: rest =>
      let '(negative, digits) :=
        if ch c "-" then (true, rest) else if ch c "+" then (false, rest) else (false, t) in
      let sign := F64.normalize negative 1 0 in
      match (match strip_prefix $"0x" digits with
             | Some hex => Some hex
             | None => strip_prefix $"0X" digits
             end) with
      | Some hex => let* n := parse_hex hex in Some (F64.mul sign (F64.normalize false (Z.of_N n) 0))
      | None =>
          let shaped :=
            match digits with d :: _ => is_digit d || ch d "." | [] => false end
            && forallb (fun c => is_digit c || ch c "." || ch c "e" || ch c "E" || ch c "+" || ch c "-")
                 digits in
          if negb shaped then None else let* n := F64.parse digits in Some (F64.mul sign n)
      end
  end.

(** [Value::number] *)
Definition number (v : value) : f64 :=
  match v with
  | Null => F64.zero
  | Bool b => F64.normalize false (if b then 1 else 0) 0
  | Number n => n
  | String s => default NAN (parse_number (trim s))
  | Array _ | Object _ => NAN
  end.

(** [Value::get] *)
Definition get (v : value) (name : str) : value :=
  match v with
  | Object fields =>
      match List.find (fun kv => bool_decide (kv.1 = name)) fields with
      | Some kv => kv.2
      | None =>
          match List.find (fun kv => eq_ignore_case kv.1 name) fields with
          | Some kv => kv.2
          | None => Null
          end
      end
  | _ => Null
  end.

(** ** Errors *)

Inductive problem :=
| NotClosed
| DoubleQuoted
| NotNumber (t : str)
| NotPart (t : str)
| Expected (what : str)
| NestsTooDeeply
| TooTall
| StarAlone
| ExpectedValue
| EndsEarly
| IsEmpty
| GoesOn
| UnknownContext (name : str)
| WrongArguments (name : str)
| FormatNeedsText
| FormatNotClosed
| FormatNotNumber (t : str)
| FormatNoArgument (n : N)
| FormatStray
| NotJson
| HostSaid (name why : str)
| NoFunction (name : str)
| TemplateNotClosed.

Record Error := { at_ : nat; message : problem }.

Definition error {A} (at_ : nat) (message : problem) : result Error A :=
  Err {| at_ := at_; message := message |}.

(** ** Reading *)

Inductive Op :=
| Less | LessOrEqual | Greater | GreaterOrEqual | Equal | NotEqual | And | Or.

#[global] Instance Op_eq : EqDecision Op.
Proof. solve_decision. Defined.

Inductive Token :=
| TNumber (n : f64)
| TText (s : str)
| TName (s : str)
| TOpen | TClose | TOpenIndex | TCloseIndex | TDot | TComma | TStar | TNot
| TOp (op : Op).

(** A string literal, past its opening quote: its value, and what follows it. *)
Fixpoint read_text (s : str) : option (str * str) :=
  match s with
  | [] => None
  | c :: s =>
      if ch c APOS then
        match s with
        | d :: s' => if ch d APOS then let* (v, r) := read_text s' in Some (APOS :: v, r)
                     else Some ([], s)
        | [] => Some ([], [])
        end
      else let* (v, r) := read_text s in Some (c :: v, r)
  end.

(** The rest of a number: [seen] is [text[i..j]], the last byte first. *)
Definition no_hex (seen : str) : bool :=
  negb (contains $"0x" (rev seen)) && negb (contains $"0X" (rev seen)).
Fixpoint scan_number (seen s : str) : str * str :=
  match s with
  | [] => (rev seen, [])
  | b :: s' =>
      let exponent_sign :=
        (ch b "+" || ch b "-")
        && match seen with p :: _ => ch p "e" || ch p "E" | [] => false end && no_hex seen in
      if is_alnum b || ch b "." || exponent_sign then scan_number (b :: seen) s' else (rev seen, s)
  end.

Definition name_byte (c : ascii) : bool := is_alnum c || ch c "_" || ch c "-".
Fixpoint span_name (s : str) : str * str :=
  match s with
  | c :: s' => if name_byte c then let '(n, r) := span_name s' in (c :: n, r) else ([], s)
  | [] => ([], [])
  end.

Definition starts_number (c : ascii) (s : str) : bool :=
  is_digit c
  || ((ch c "-" || ch c "+" || ch c ".")
      && match s with b :: _ => is_digit b || ch b "." | [] => false end).

(** The operators of two bytes, before those of one. *)
Definition two_bytes (c : ascii) (s : str) : option Op :=
  match s with
  | d :: _ =>
      if ch c "=" && ch d "=" then Some Equal
      else if ch c "!" && ch d "=" then Some NotEqual
      else if ch c "<" && ch d "=" then Some LessOrEqual
      else if ch c ">" && ch d "=" then Some GreaterOrEqual
      else if ch c "&" && ch d "&" then Some And
      else if ch c "|" && ch d "|" then Some Or
      else None
  | [] => None
  end.

(** One token at [i], where the text goes on [c :: s]: the token and what follows it. *)
Definition token (i : nat) (c : ascii) (s : str) : result Error (Token * str) :=
  if ch c "(" then Ok (TOpen, s)
  else if ch c ")" then Ok (TClose, s)
  else if ch c "[" then Ok (TOpenIndex, s)
  else if ch c "]" then Ok (TCloseIndex, s)
  else if ch c "," then Ok (TComma, s)
  else if ch c "*" then Ok (TStar, s)
  else if ch c APOS then
    match read_text s with Some (v, r) => Ok (TText v, r) | None => error i NotClosed end
  else if ch c QUOTE then error i DoubleQuoted
  else match two_bytes c s with
  | Some op => Ok (TOp op, tail s)
  | None =>
      if ch c "<" then Ok (TOp Less, s)
      else if ch c ">" then Ok (TOp Greater, s)
      else if ch c "!" then Ok (TNot, s)
      else if starts_number c s then
        let '(t, r) := scan_number [c] s in
        match parse_number t with
        | Some n => Ok (TNumber n, r)
        | None => error i (NotNumber t)
        end
      else if ch c "." then Ok (TDot, s)
      else if is_alpha c || ch c "_" then
        let '(n, r) := span_name s in Ok (TName (c :: n), r)
      else error i (NotPart (take_chars 1 (c :: s)))
  end.

Definition is_space (c : ascii) : bool :=
  ch c " " || ch c "009" || ch c CR || ch c NL.

(** [tokens], from the offset [i] on; every round takes a byte. *)
Fixpoint tokens_from (fuel i : nat) (s : str) : result Error (list (nat * Token)) :=
  match fuel, s with
  | _, [] | O, _ => Ok []
  | S fuel, c :: s =>
      if is_space c then tokens_from fuel (S i) s
      else
        let? (t, r) := token i c s in
        let? ts := tokens_from fuel (i + (S (length s) - length r)) r in
        Ok ((i, t) :: ts)
  end.
Definition tokens (t : str) : result Error (list (nat * Token)) := tokens_from (length t) 0 t.

Inductive Node :=
| Literal (v : value)
| Context (name : str)
| Property (base : Node) (name : str)
| Index (base index : Node)
| Every (base : Node)
| Call (at_ : nat) (name : str) (args : list Node)
| Not (inner : Node)
| Binary (op : Op) (left right : Node).

(** [MAX_DEPTH] and [MAX_HEIGHT] *)
Definition MAX_DEPTH : nat := 50.
Definition MAX_HEIGHT : nat := 100.

Record Tall := { node : Node; height : nat }.
Definition leaf (n : Node) : Tall := {| node := n; height := 0 |}.

(** The parser: the tokens not yet taken; the depth it is at is the argument of the
    functions that look at it, since each takes off what it added. *)
Definition stream : Type := list (nat * Token).
Definition parser : Type := stream -> result Error (Tall * stream).

Section parser.
Context (len : nat).

Definition at_of (ts : stream) : nat := match ts with (i, _) :: _ => i | [] => len end.
Definition peek (ts : stream) : option Token := match ts with (_, t) :: _ => Some t | [] => None end.

(** [expect(CloseIndex)] and [expect(Close)] *)
Definition expect (want : Token -> bool) (what : str) (ts : stream) : result Error stream :=
  match ts with
  | (_, t) :: rest => if want t then Ok rest else error (at_of ts) (Expected what)
  | [] => error len (Expected what)
  end.

(** [over] *)
Definition over (at_ below : nat) (n : Node) : result Error Tall :=
  if (MAX_HEIGHT <=? below)%nat then error at_ TooTall else Ok {| node := n; height := S below |}.

(** [binary] *)
Definition binary (at_ : nat) (op : Op) (l r : Tall) : result Error Tall :=
  over at_ (Nat.max (height l) (height r)) (Binary op (node l) (node r)).

(** The loop of [or], [and], [equality] and [comparison]: operands of [next] joined by the
    operators [takes] has, from the left.  Every round takes an operator. *)
Fixpoint chain (takes : Op -> bool) (next : parser) (fuel : nat) (l : Tall) (ts : stream)
    : result Error (Tall * stream) :=
  match fuel, ts with
  | S fuel, (i, TOp op) :: rest =>
      if takes op then
        let? (r, ts) := next rest in
        let? l := binary i op l r in
        chain takes next fuel l ts
      else Ok (l, ts)
  | _, _ => Ok (l, ts)
  end.

Definition joined (takes : Op -> bool) (next : parser) : parser := fun ts =>
  let? (l, ts) := next ts in chain takes next (length ts) l ts.

Definition takes_or (op : Op) : bool := bool_decide (op = Or).
Definition takes_and (op : Op) : bool := bool_decide (op = And).
Definition takes_equality (op : Op) : bool := bool_decide (op = Equal) || bool_decide (op = NotEqual).
Definition takes_comparison (op : Op) : bool :=
  bool_decide (op = Less) || bool_decide (op = LessOrEqual)
  || bool_decide (op = Greater) || bool_decide (op = GreaterOrEqual).

(** [or], [and], [equality] and [comparison], over [unary]. *)
Definition comparison (unary : parser) : parser := joined takes_comparison unary.
Definition equality (unary : parser) : parser := joined takes_equality (comparison unary).
Definition and_ (unary : parser) : parser := joined takes_and (equality unary).
Definition or_ (unary : parser) : parser := joined takes_or (and_ unary).

(** What a name alone is. *)
Definition name_node (name : str) : Node :=
  if bool_decide (name = $"true") then Literal (Bool true)
  else if bool_decide (name = $"false") then Literal (Bool false)
  else if bool_decide (name = $"null") then Literal Null
  else if bool_decide (name = $"NaN") then Literal (Number NAN)
  else if bool_decide (name = $"Infinity") then Literal (Number INFINITY)
  else Context name.

(** The arguments of a call, to its closing bracket: each takes a token. *)
Fixpoint arguments (nested : parser) (fuel : nat) (below : nat) (args : list Node) (ts : stream)
    : result Error (nat * list Node * stream) :=
  match fuel with
  | O => error (at_of ts) (Expected $"',' or ')' in a call")
  | S fuel =>
      let? (arg, ts) := nested ts in
      let below := Nat.max below (height arg) in
      let args := args ++ [node arg] in
      match ts with
      | (_, TComma) :: rest => arguments nested fuel below args rest
      | (_, TClose) :: rest => Ok (below, args, rest)
      | _ => error (at_of ts) (Expected $"',' or ')' in a call")
      end
  end.

(** What follows a call's opening bracket. *)
Definition call_arguments (nested : parser) (ts : stream) : result Error (nat * list Node * stream) :=
  match ts with
  | (_, TClose) :: rest => Ok (0, [], rest)
  | _ => arguments nested (S (length ts)) 0 [] ts
  end.

(** [primary] *)
Definition primary (nested : parser) : parser := fun ts =>
  match ts with
  | [] => error len EndsEarly
  | (i, t) :: rest =>
      match t with
      | TNumber n => Ok (leaf (Literal (Number n)), rest)
      | TText s => Ok (leaf (Literal (String s)), rest)
      | TOpen =>
          let? (inner, ts) := nested rest in
          let? ts := expect (fun t => match t with TClose => true | _ => false end) $"a ')'" ts in
          Ok (inner, ts)
      | TName name =>
          match rest with
          | (_, TOpen) :: rest =>
              let? (below, args, ts) := call_arguments nested rest in
              let? t := over i below (Call i name args) in Ok (t, ts)
          | _ => Ok (leaf (name_node name), rest)
          end
      | TStar => error i StarAlone
      | _ => error i ExpectedValue
      end
  end.

(** The loop of [postfix]: every round takes a token. *)
Fixpoint suffixes (nested : parser) (fuel : nat) (tall : Tall) (ts : stream)
    : result Error (Tall * stream) :=
  match fuel, ts with
  | S fuel, (i, TDot) :: rest =>
      match rest with
      | (_, TName name) :: rest =>
          let? tall := over i (height tall) (Property (node tall) name) in
          suffixes nested fuel tall rest
      | (_, TStar) :: rest =>
          let? tall := over i (height tall) (Every (node tall)) in suffixes nested fuel tall rest
      | _ => error (at_of rest) (Expected $"a property's name after '.'")
      end
  | S fuel, (i, TOpenIndex) :: rest =>
      let? (index, ts) := nested rest in
      let? ts := expect (fun t => match t with TCloseIndex => true | _ => false end) $"a ']'" ts in
      let? tall := over i (Nat.max (height tall) (height index)) (Index (node tall) (node index)) in
      suffixes nested fuel tall ts
  | _, _ => Ok (tall, ts)
  end.

Definition postfix (nested : parser) : parser := fun ts =>
  let? (tall, ts) := primary nested ts in suffixes nested (length ts) tall ts.

(** [unary], with [room] left of [MAX_DEPTH], and [nested] as it calls it. *)
Fixpoint unary (room : nat) : parser := fun ts =>
  let nested : parser := fun ts =>
    match room with
    | O => error (at_of ts) NestsTooDeeply
    | S room => or_ (unary room) ts
    end in
  match ts with
  | (i, TNot) :: rest =>
      match room with
      | O => error i NestsTooDeeply
      | S room =>
          let? (inner, ts) := unary room rest in
          let? tall := over i (height inner) (Not (node inner)) in Ok (tall, ts)
      end
  | _ => postfix nested ts
  end.
End parser.

Definition Expr : Type := Node.

(** [parse] *)
Definition parse (t : str) : result Error Expr :=
  let? ts := tokens t in
  match ts with
  | [] => error 0 IsEmpty
  | _ =>
      let? (tall, rest) := or_ (unary (length t) MAX_DEPTH) ts in
      match rest with
      | [] => Ok (node tall)
      | _ => error (at_of (length t) rest) GoesOn
      end
  end.
End CiExpr.
