(* ===== verification/CiEval.v ===== *)
(** * Evaluating expressions ([dagron-ci-expr/src/lib.rs])

    What an expression reads and calls, whether its value is an outsider's to choose, and
    its value against a host, which answers for the contexts and for the functions that are
    not the crate's own. *)

From S2P Require Import Prelude F64 Json CiExpr.
From Stdlib Require Import SpecFloat.

Module CiEval.

Import CiExpr.

(** ** What an expression reads *)

(** [contexts] *)
Fixpoint contexts (n : Node) : list (str * option str) :=
  match n with
  | Literal _ => []
  | Context name => [(name, None)]
  | Property base property =>
      match base with
      | Context name => [(name, Some property)]
      | other => contexts other
      end
  | Index base index =>
      match base, index with
      | Context name, Literal (String property) => [(name, Some property)]
      | _, _ => contexts base ++ contexts index
      end
  | Every base | Not base => contexts base
  | Call _ _ args => flat_map contexts args
  | Binary _ l r => contexts l ++ contexts r
  end.

(** [functions] *)
Fixpoint functions (n : Node) : list str :=
  match n with
  | Literal _ | Context _ => []
  | Property base _ | Every base | Not base => functions base
  | Index base index => functions base ++ functions index
  | Call _ name args => name :: flat_map functions args
  | Binary _ l r => functions l ++ functions r
  end.

Definition FUNCTIONS : list str :=
  [$"contains"; $"endsWith"; $"format"; $"fromJSON"; $"join"; $"startsWith"; $"toJSON"].

Definition STATUS_FUNCTIONS : list str := [$"always"; $"cancelled"; $"failure"; $"success"].

Definition NOT_AN_OUTSIDERS : list str :=
  [$"action"; $"api_url"; $"event_name"; $"job"; $"ref_type"; $"repository"; $"repository_owner";
   $"retention_days"; $"run_attempt"; $"run_id"; $"run_number"; $"server_url"; $"sha"; $"workflow";
   $"workspace"].

Definition is_one (l : list str) (s : str) : bool := existsb (fun x => bool_decide (x = s)) l.

(** [Expr::asks_status] *)
Definition asks_status (e : Expr) : bool :=
  existsb (fun f => existsb (fun s => eq_ignore_case s f) STATUS_FUNCTIONS) (functions e).

(** [Expr::pasted] *)
Definition TRUSTED : list str := [$"matrix"; $"strategy"; $"runner"; $"job"; $"vars"].
Definition pasted_read (read : str * option str) : bool :=
  let '(context, property) := read in
  if is_one TRUSTED (to_lower context) then true
  else if bool_decide (to_lower context = $"github") then
    match property with
    | Some property => is_one NOT_AN_OUTSIDERS (to_lower property)
    | None => false
    end
  else false.
Definition pasted (e : Expr) : bool := forallb pasted_read (contexts e).

(** ** Comparing *)

Fixpoint str_compare (a b : str) : Datatypes.comparison :=
  match a, b with
  | [], [] => Datatypes.Eq
  | [], _ :: _ => Datatypes.Lt
  | _ :: _, [] => Datatypes.Gt
  | x :: a, y :: b => match (code x ?= code y)%N with Datatypes.Eq => str_compare a b | c => c end
  end.

Definition bool_compare (a b : bool) : Datatypes.comparison :=
  match a, b with
  | false, true => Datatypes.Lt
  | true, false => Datatypes.Gt
  | _, _ => Datatypes.Eq
  end.

Section eval.
Context {W : CiWorld}.

(** What [compare] orders two values by: [None] where they neither equal nor order. *)
Definition ordering (l r : value) : option Datatypes.comparison :=
  match l, r with
  | String a, String b => Some (str_compare (to_lowercase a) (to_lowercase b))
  | Null, Null => Some Datatypes.Eq
  | Bool a, Bool b => Some (bool_compare a b)
  | Array _, Array _ | Object _, Object _ => None
  | _, _ => SFcompare (number l) (number r)
  end.

(** [compare] *)
Definition compare (op : Op) (l r : value) : bool :=
  match op, ordering l r with
  | NotEqual, None => true
  | _, None => false
  | Equal, Some o => match o with Datatypes.Eq => true | _ => false end
  | NotEqual, Some o => match o with Datatypes.Eq => false | _ => true end
  | Less, Some o => match o with Datatypes.Lt => true | _ => false end
  | LessOrEqual, Some o => match o with Datatypes.Gt => false | _ => true end
  | Greater, Some o => match o with Datatypes.Gt => true | _ => false end
  | GreaterOrEqual, Some o => match o with Datatypes.Lt => false | _ => true end
  | (And | Or), _ => false
  end.

(** ** Calls *)

(** [Host] *)
Record Host := {
  context : str -> option value;
  host_call : str -> list value -> option (result str value);
}.

Definition takes (at_ : nat) (name : str) (least most : nat) (args : list value) : result Error unit :=
  if (least <=? length args)%nat && (length args <=? most)%nat then Ok tt
  else error at_ (WrongArguments name).

Definition arg (args : list value) (i : nat) : value := default Null (args !! i).

(** The offset of the next brace. *)
Fixpoint find_brace (s : str) : option nat :=
  match s with
  | [] => None
  | c :: s => if ch c "{" || ch c "}" then Some 0 else option_map S (find_brace s)
  end.

(** [format]: every round takes a brace. *)
Fixpoint format_go (fuel : nat) (at_ : nat) (rest : str) (args : list value) : result Error str :=
  match fuel with
  | O => Ok rest
  | S fuel =>
      match find_brace rest with
      | None => Ok rest
      | Some i =>
          let before := take i rest in
          let after := drop i rest in
          if starts_with $"{{" after then
            let? out := format_go fuel at_ (drop 2 after) args in Ok (before ++ $"{" ++ out)
          else if starts_with $"}}" after then
            let? out := format_go fuel at_ (drop 2 after) args in Ok (before ++ $"}" ++ out)
          else
            match strip_prefix $"{" after with
            | None => error at_ FormatStray
            | Some inner =>
                match find_char "}" inner with
                | None => error at_ FormatNotClosed
                | Some close =>
                    match parse_u64 (trim (take close inner)) with
                    | None => error at_ (FormatNotNumber (take close inner))
                    | Some n =>
                        match (if (n <? N.of_nat (length args))%N then args !! N.to_nat n else None) with
                        | None => error at_ (FormatNoArgument n)
                        | Some a =>
                            let? out := format_go fuel at_ (drop (S close) inner) args in
                            Ok (before ++ text a ++ out)
                        end
                    end
                end
            end
      end
  end.
Definition format (at_ : nat) (t : str) (args : list value) : result Error str :=
  format_go (S (length t)) at_ t args.

Definition lower_text (v : value) : str := to_lowercase (text v).

(** [call] *)
Definition call (at_ : nat) (name : str) (args : list value) (host : Host) : result Error value :=
  let lowered := to_lower name in
  if bool_decide (lowered = $"contains") then
    let? _ := takes at_ name 2 2 args in
    Ok (Bool (match arg args 0 with
              | Array items => existsb (fun item => compare Equal item (arg args 1)) items
              | search => contains (lower_text (arg args 1)) (lower_text search)
              end))
  else if bool_decide (lowered = $"startswith") then
    let? _ := takes at_ name 2 2 args in
    Ok (Bool (starts_with (lower_text (arg args 1)) (lower_text (arg args 0))))
  else if bool_decide (lowered = $"endswith") then
    let? _ := takes at_ name 2 2 args in
    Ok (Bool (ends_with (lower_text (arg args 1)) (lower_text (arg args 0))))
  else if bool_decide (lowered = $"format") then
    match args with
    | [] => error at_ FormatNeedsText
    | t :: rest => let? s := format at_ (text t) rest in Ok (String s)
    end
  else if bool_decide (lowered = $"join") then
    let? _ := takes at_ name 1 2 args in
    let separator := match args !! 1 with Some v => text v | None => $"," end in
    Ok (String (match arg args 0 with
                | Array items => join separator (map text items)
                | other => text other
                end))
  else if bool_decide (lowered = $"tojson") then
    let? _ := takes at_ name 1 1 args in Ok (String (to_string_pretty (to_json (arg args 0))))
  else if bool_decide (lowered = $"fromjson") then
    let? _ := takes at_ name 1 1 args in
    match from_str (text (arg args 0)) with
    | Some j => Ok (from_json j)
    | None => error at_ NotJson
    end
  else
    match host_call host name args with
    | Some (Ok v) => Ok v
    | Some (Err why) => error at_ (HostSaid name why)
    | None => error at_ (NoFunction name)
    end.

(** ** Values *)

(** What [index] reads of one value. *)
Definition read (index v : value) : value :=
  match v with
  | Array items =>
      match F64.to_whole (number index) with
      | Some z =>
          if (0 <=? z)%Z && (z <? Z.of_nat (length items))%Z then default Null (items !! Z.to_nat z)
          else Null
      | None => Null
      end
  | Object _ => get v (text index)
  | _ => Null
  end.

(** What [.*] makes of one value. *)
Definition spread (v : value) : list value :=
  match v with
  | Object fields => map snd fields
  | Array items => items
  | _ => []
  end.

Definition is_object (v : value) : bool := match v with Object _ => true | _ => false end.

(** [eval]: the value, and whether it is the result of a [.*]. *)
Fixpoint eval (host : Host) (n : Node) : result Error (value * bool) :=
  match n with
  | Literal v => Ok (v, false)
  | Context name =>
      match context host name with
      | Some v => Ok (v, false)
      | None => error 0 (UnknownContext name)
      end
  | Property base name =>
      let? (base, every) := eval host base in
      if every then
        match base with
        | Array items => Ok (Array (map (fun v => get v name) (List.filter is_object items)), true)
        | _ => Ok (Array [], true)
        end
      else Ok (get base name, false)
  | Index base index =>
      let? (base, every) := eval host base in
      let? (index, _) := eval host index in
      match every, base with
      | true, Array items => Ok (Array (map (read index) items), true)
      | _, _ => Ok (read index base, false)
      end
  | Every base =>
      let? (base, every) := eval host base in
      match every, base with
      | true, Array items => Ok (Array (flat_map spread items), true)
      | _, _ => Ok (Array (spread base), true)
      end
  | Not inner =>
      let? (v, _) := eval host inner in Ok (Bool (negb (truthy v)), false)
  | Binary And l r =>
      let? (l, _) := eval host l in
      if truthy l then let? (v, _) := eval host r in Ok (v, false) else Ok (l, false)
  | Binary Or l r =>
      let? (l, _) := eval host l in
      if truthy l then Ok (l, false) else let? (v, _) := eval host r in Ok (v, false)
  | Binary op l r =>
      let? (l, _) := eval host l in
      let? (r, _) := eval host r in
      Ok (Bool (compare op l r), false)
  | Call at_ name args =>
      let fix values (l : list Node) : result Error (list value) :=
        match l with
        | [] => Ok []
        | a :: l =>
            let? (v, _) := eval host a in
            let? vs := values l in
            Ok (v :: vs)
        end in
      let? vs := values args in
      let? v := call at_ name vs host in Ok (v, false)
  end.

(** [Expr::eval] *)
Definition eval_expr (host : Host) (e : Expr) : result Error value :=
  let? (v, _) := eval host e in Ok v.

End eval.
End CiEval.
