(* ===== verification/CiScript.v ===== *)
(** * Texts with expressions in them ([dagron-ci-expr/src/lib.rs])

    A text is cut at each [${{], its expressions read and evaluated in place; and a step's
    script is rewritten so that an expression whose value an outsider may choose is read
    from a variable, and never as the script's own text. *)

From S2P Require Import Prelude CiExpr CiEval.

Module CiScript.

Import CiExpr CiEval.

(** [Part] and [Template] *)
Inductive Part :=
| PText (t : str)
| PExpr (e : Expr).
Definition Template : Type := list Part.

Definition OPEN : str := $"${{".
Definition CLOSE : str := $"}}".

(** [expression_end], from a place inside a string or outside one. *)
Fixpoint end_from (quoted : bool) (s : str) : option nat :=
  match s with
  | [] => None
  | c :: s' =>
      if ch c APOS then option_map S (end_from (negb quoted) s')
      else if ch c "}" && negb quoted && match s' with d :: _ => ch d "}" | [] => false end then Some 0
      else option_map S (end_from quoted s')
  end.
Definition expression_end (body : str) : option nat := end_from false body.

(** [template], from the offset on; every round takes a [${{]. *)
Fixpoint template_from (fuel offset : nat) (rest : str) : result Error Template :=
  match fuel with
  | O => Ok []
  | S fuel =>
      match find OPEN rest with
      | None => Ok (match rest with [] => [] | _ => [PText rest] end)
      | Some open =>
          let before := if (0 <? open)%nat then [PText (take open rest)] else [] in
          let body := drop (open + 3) rest in
          match expression_end body with
          | None => error (offset + open) TemplateNotClosed
          | Some close =>
              match parse (take close body) with
              | Err e => Err {| at_ := offset + open + 3 + at_ e; message := message e |}
              | Ok e =>
                  let consumed := (open + 3 + close + 2)%nat in
                  let? parts := template_from fuel (offset + consumed) (drop consumed rest) in
                  Ok (before ++ PExpr e :: parts)
              end
          end
      end
  end.
Definition template (t : str) : result Error Template := template_from (S (length t)) 0 t.

(** [Template::is_plain], [exprs] *)
Definition is_plain (t : Template) : bool :=
  forallb (fun p => match p with PText _ => true | PExpr _ => false end) t.
Definition exprs (t : Template) : list Expr :=
  omap (fun p => match p with PExpr e => Some e | PText _ => None end) t.

(** [Template::text], [eval] *)
Fixpoint text_of {W : CiWorld} (host : Host) (t : Template) : result Error str :=
  match t with
  | [] => Ok []
  | PText s :: t => let? out := text_of host t in Ok (s ++ out)
  | PExpr e :: t =>
      let? v := eval_expr host e in
      let? out := text_of host t in
      Ok (text v ++ out)
  end.
Definition eval_template {W : CiWorld} (host : Host) (t : Template) : result Error value :=
  match t with
  | [PExpr only] => eval_expr host only
  | _ => let? s := text_of host t in Ok (String s)
  end.

(** [Template::replace], its closure's state threaded. *)
Fixpoint replace {St : Type} (with_ : St -> nat -> Expr -> St * str) (t : Template) (n : nat) (st : St)
    : St * str :=
  match t with
  | [] => (st, [])
  | PText s :: t => let '(st, out) := replace with_ t n st in (st, s ++ out)
  | PExpr e :: t =>
      let '(st, s) := with_ st n e in
      let '(st, out) := replace with_ t (S n) st in
      (st, s ++ out)
  end.

(** [sources]; every round takes a [${{]. *)
Fixpoint sources_from (fuel : nat) (rest : str) : list str :=
  match fuel with
  | O => []
  | S fuel =>
      match find OPEN rest with
      | None => []
      | Some open =>
          let body := drop (open + 3) rest in
          match end_from false body with
          | None => []
          | Some end_ => take end_ body :: sources_from fuel (drop (end_ + 2) body)
          end
      end
  end.
Definition sources (t : str) : list str := sources_from (S (length t)) t.

(** What the closure of [script] captures. *)
Record rewriting := { left_ : list str; kept : list str; refused : bool }.

Definition rewrite_expr (reads_variables : bool) (st : rewriting) (_ : nat) (e : Expr) : rewriting * str :=
  let source := match left_ st with s :: _ => s | [] => [] end in
  let rest := tail (left_ st) in
  if pasted e then
    ({| left_ := rest; kept := kept st; refused := refused st |}, OPEN ++ source ++ CLOSE)
  else
    let kept := kept st ++ [trim source] in
    ({| left_ := rest; kept := kept; refused := refused st || negb reads_variables |},
     $"${__CI_E" ++ show_nat (length kept) ++ $"}").

(** [script] *)
Definition script (run : str) (reads_variables : bool) : result Error (option (str * list str)) :=
  let? read := template run in
  let '(st, rewritten) :=
    replace (rewrite_expr reads_variables) read 0
      {| left_ := sources run; kept := []; refused := false |} in
  Ok (if refused st then None else Some (rewritten, kept st)).

(** [condition] *)
Definition condition (t : str) : result Error Template :=
  let trimmed := trim t in
  if contains OPEN trimmed then template trimmed
  else let? e := parse trimmed in Ok [PExpr e].

End CiScript.
