(* ===== verification/CiHostFacts.v ===== *)
(** * The loops over a text ([dagron-ci-expr/src/lib.rs])

    The lexer's loop and [format]'s take of their text in every round, so that the fuel the
    model gives them never runs out: more of it changes nothing.

    ** What a pasted expression can show ([dagron-ci-expr/src/lib.rs])

    [Expr::pasted] says that an expression's value is no outsider's to choose.  Two hosts
    that differ only in what an outsider may choose give such an expression the same
    outcome, its errors included; so do they a text with no other expression in it. *)

From S2P Require Import Prelude F64 Json CiExpr CiEval CiScript.

Module CiFuel.

Import CiExpr CiEval.

(** ** The lexer *)

Lemma read_text_length n s v r : length s <= n -> read_text s = Some (v, r) -> length r <= length s.
Proof.
  revert s v r; induction n as [|n IH]; intros [|c s] v r Hn; try done; [cbn in Hn; lia|].
  cbn [read_text length] in *. destruct (ch c APOS).
  - destruct s as [|d s]; [intros [= <- <-]; cbn; lia|]. destruct (ch d APOS); [|intros [= <- <-]; cbn; lia].
    destruct (read_text s) as [[w q]|] eqn:E; [|done]. intros [= <- <-].
    apply IH in E; cbn in *; lia.
  - destruct (read_text s) as [[w q]|] eqn:E; [|done]. intros [= <- <-]. apply IH in E; lia.
Qed.

Lemma scan_number_length seen s t r : scan_number seen s = (t, r) -> length r <= length s.
Proof.
  revert seen; induction s as [|c s IH]; intros seen; [intros [= <- <-]; cbn; lia|]. cbn [scan_number length].
  destruct (_ || _); [|intros [= <- <-]; cbn; lia]. intros H%IH. lia.
Qed.

Lemma span_name_length s n r : span_name s = (n, r) -> length r <= length s.
Proof.
  revert n; induction s as [|c s IH]; intros n; [intros [= <- <-]; cbn; lia|]. cbn [span_name length].
  destruct (name_byte c); [|intros [= <- <-]; cbn; lia].
  destruct (span_name s) as [m q]. intros [= <- <-]. specialize (IH m eq_refl). lia.
Qed.

(** The bytes of one token. *)
Lemma token_length i c s t r : token i c s = Ok (t, r) -> length r <= length s.
Proof.
  unfold token. repeat (case_match; try (intros [= <- <-]; lia)); try done.
  - intros [= <- <-]. by eapply read_text_length.
  - intros [= <- <-]. destruct s; cbn; lia.
  - intros [= <- <-]. by eapply scan_number_length.
  - intros [= <- <-]. by eapply span_name_length.
Qed.

Lemma tokens_fuel n m i s :
  length s <= n -> length s <= m -> tokens_from n i s = tokens_from m i s.
Proof.
  revert m i s; induction n as [|n IH]; intros [|m] i [|c s] Hn Hm; try done; cbn [length] in *; try lia.
  cbn [tokens_from]. destruct (is_space c); [apply IH; lia|].
  destruct (token i c s) as [[t r]|] eqn:E; [|done]. apply token_length in E.
  by rewrite (IH m _ r) by lia.
Qed.

(** ** [format] *)

Lemma find_brace_lt s i : find_brace s = Some i -> i < length s.
Proof.
  revert i; induction s as [|c s IH]; intros i; [done|]. cbn [find_brace length].
  destruct (_ || _); [intros [= <-]; lia|]. destruct (find_brace s) as [j|]; [|done].
  intros [= <-]. specialize (IH j eq_refl). lia.
Qed.

Lemma format_fuel n m at_ s args :
  length s < n -> length s < m -> format_go n at_ s args = format_go m at_ s args.
Proof.
  revert m s; induction n as [|n IH]; intros [|m] s Hn Hm; try lia. cbn [format_go].
  destruct (find_brace s) as [i|] eqn:Ef; [|done]. apply find_brace_lt in Ef.
  destruct (starts_with $"{{" _); [by rewrite (IH m) by (rewrite !length_drop; lia)|].
  destruct (starts_with $"}}" _); [by rewrite (IH m) by (rewrite !length_drop; lia)|].
  destruct (strip_prefix $"{" (drop i s)) as [inner|] eqn:Es; [|done].
  apply strip_prefix_Some in Es. apply (f_equal length) in Es. rewrite length_drop in Es. cbn in Es.
  destruct (find_char "}" inner) as [close|]; [|done]. destruct (parse_u64 _); [|done].
  destruct (if (_ <? _)%N then _ else _); [|done]. by rewrite (IH m) by (rewrite length_drop; lia).
Qed.
End CiFuel.

Module CiHostFacts.

Import CiExpr CiEval CiScript.

(** ** Induction on an expression's tree *)

Section node_ind.
Context (P : Node -> Prop).
Context (literal : forall v, P (Literal v)).
Context (context_ : forall name, P (Context name)).
Context (property : forall base name, P base -> P (Property base name)).
Context (index_ : forall base index, P base -> P index -> P (Index base index)).
Context (every_ : forall base, P base -> P (Every base)).
Context (call_ : forall at_ name args, Forall P args -> P (Call at_ name args)).
Context (not_ : forall inner, P inner -> P (Not inner)).
Context (binary_ : forall op l r, P l -> P r -> P (Binary op l r)).

Fixpoint node_ind' (n : Node) : P n :=
  match n with
  | Literal v => literal v
  | Context name => context_ name
  | Property base name => property base name (node_ind' base)
  | Index base index => index_ base index (node_ind' base) (node_ind' index)
  | Every base => every_ base (node_ind' base)
  | Call at_ name args =>
      call_ at_ name args
        ((fix go l : Forall P l :=
            match l with [] => Forall_nil_2 _ | a :: l => Forall_cons_2 _ _ _ (node_ind' a) (go l) end)
           args)
  | Not inner => not_ inner (node_ind' inner)
  | Binary op l r => binary_ op l r (node_ind' l) (node_ind' r)
  end.
End node_ind.

(** ** Evaluation, an equation per form *)

Section eval.
Context {W : CiWorld}.

(** The arguments of a call, in order. *)
Definition eval_args (host : Host) : list Node -> result Error (list value) :=
  fix values l :=
    match l with
    | [] => Ok []
    | a :: l => let? (v, _) := eval host a in let? vs := values l in Ok (v :: vs)
    end.

Lemma eval_call host at_ name args :
  eval host (Call at_ name args)
  = let? vs := eval_args host args in let? v := call at_ name vs host in Ok (v, false).
Proof. reflexivity. Qed.

Definition property_of (name : str) (vb : value * bool) : value * bool :=
  let '(base, every) := vb in
  if every then
    match base with
    | Array items => (Array (map (fun v => get v name) (List.filter is_object items)), true)
    | _ => (Array [], true)
    end
  else (get base name, false).

Lemma eval_property host base name :
  eval host (Property base name) = let? vb := eval host base in Ok (property_of name vb).
Proof. cbn [eval]. destruct (eval host base) as [[[] []]|]; reflexivity. Qed.

(** ** Hosts an outsider cannot tell the expression's value by *)

(** A name of [github] that is in [NOT_AN_OUTSIDERS], whatever its case. *)
Definition trusted_name (p : str) : bool := is_one NOT_AN_OUTSIDERS (to_lower p).

(** Two objects that hold the same under every such name. *)
Definition same_github (v w : value) : Prop :=
  is_object v = true /\ is_object w = true
  /\ forall p, trusted_name p = true -> get v p = get w p.

(** Two hosts that agree on all that no outsider chooses: the trusted contexts, what of
    [github] is in [NOT_AN_OUTSIDERS], and the functions. *)
Record agree (h h' : Host) : Prop := {
  ag_trusted : forall c, is_one TRUSTED (to_lower c) = true -> context h c = context h' c;
  ag_github : forall c, to_lower c = $"github" ->
    match context h c, context h' c with
    | Some v, Some w => same_github v w
    | None, None => True
    | _, _ => False
    end;
  ag_call : forall name args, host_call h name args = host_call h' name args;
}.

Section agree.
Context {h h' : Host} (A : agree h h').

Lemma call_agree at_ name args : call at_ name args h = call at_ name args h'.
Proof. unfold call. by rewrite (ag_call _ _ A). Qed.

(** A context read by a property's name. *)
Lemma read_agree c p :
  pasted_read (c, Some p) = true ->
  match context h c, context h' c with
  | Some v, Some w => get v p = get w p /\ read (String p) v = read (String p) w
  | None, None => True
  | _, _ => False
  end.
Proof.
  unfold pasted_read. destruct (is_one TRUSTED _) eqn:Et.
  - intros _. rewrite (ag_trusted _ _ A c Et). by destruct (context h' c).
  - case_bool_decide as Eg; [|done]. intros Hp. pose proof (ag_github _ _ A c Eg) as Hg.
    destruct (context h c) as [v|], (context h' c) as [w|]; try done.
    destruct Hg as (Hv & Hw & Hg).
    destruct v; try discriminate Hv. destruct w; try discriminate Hw.
    split; [|apply (Hg p Hp)]. exact (Hg p Hp).
Qed.

(** A context read whole. *)
Lemma whole_agree c : pasted_read (c, None) = true -> context h c = context h' c.
Proof.
  unfold pasted_read. destruct (is_one TRUSTED _) eqn:Et.
  - intros _. exact (ag_trusted _ _ A c Et).
  - by case_bool_decide.
Qed.

Lemma property_agree base name :
  (pasted base = true -> eval h base = eval h' base) ->
  pasted (Property base name) = true -> eval h (Property base name) = eval h' (Property base name).
Proof.
  intros IH. destruct base as [v|c|b m|b m|b|i f a|b|o l r];
    try (intros Hp; rewrite (eval_property h _ name), (eval_property h' _ name), (IH Hp); reflexivity).
  unfold pasted. cbn [contexts forallb]. rewrite andb_true_r. intros Hp%read_agree.
  cbn [eval]. destruct (context h c), (context h' c); try done. by destruct Hp as [-> _].
Qed.

Lemma pasted_app a b : forallb pasted_read (a ++ b) = true ->
  forallb pasted_read a = true /\ forallb pasted_read b = true.
Proof. rewrite forallb_app. apply andb_prop. Qed.

Lemma index_agree base index :
  (pasted base = true -> eval h base = eval h' base) ->
  (pasted index = true -> eval h index = eval h' index) ->
  pasted (Index base index) = true -> eval h (Index base index) = eval h' (Index base index).
Proof.
  intros IHb IHi Hp.
  assert (pasted base = true /\ pasted index = true
          \/ exists c p, base = Context c /\ index = Literal (String p)
                         /\ pasted_read (c, Some p) = true) as [[Hb Hi]|(c & p & -> & -> & Hr)].
  { unfold pasted in Hp |- *. cbn [contexts] in Hp.
    destruct base; try (left; by apply pasted_app).
    destruct index as [[]| | | | | | |]; try (left; by apply pasted_app).
    right. eexists _, _. split_and!; [done..|]. by apply andb_prop in Hp as [? _]. }
  - cbn [eval]. by rewrite (IHb Hb), (IHi Hi).
  - apply read_agree in Hr. cbn [eval].
    destruct (context h c), (context h' c); try done. by destruct Hr as [_ ->].
Qed.

Lemma args_agree args :
  Forall (fun n => pasted n = true -> eval h n = eval h' n) args ->
  forallb pasted_read (flat_map contexts args) = true -> eval_args h args = eval_args h' args.
Proof.
  induction 1 as [|n args Hn _ IH]; [done|]. cbn [flat_map]. intros [Hp Hq]%pasted_app.
  cbn [eval_args]. by rewrite (Hn Hp), (IH Hq).
Qed.

Lemma eval_agree n : pasted n = true -> eval h n = eval h' n.
Proof.
  induction n as [v|c|b p IH|b i IHb IHi|b IH|i f args IH|b IH|op l r IHl IHr] using node_ind';
    intros Hp.
  - done.
  - cbn [eval]. rewrite (whole_agree c); [done|]. by apply andb_prop in Hp as [? _].
  - by apply property_agree.
  - by apply index_agree.
  - cbn [eval]. by rewrite (IH Hp).
  - rewrite !eval_call, (args_agree _ IH Hp).
    destruct (eval_args h' args); [|done]. cbn. by rewrite call_agree.
  - cbn [eval]. by rewrite (IH Hp).
  - apply pasted_app in Hp as [Hl Hr]. cbn [eval]. by rewrite (IHl Hl), (IHr Hr).
Qed.

Lemma text_of_agree t : forallb pasted (exprs t) = true -> text_of h t = text_of h' t.
Proof.
  induction t as [|[s|e] t IH]; [done|..]; cbn [text_of exprs omap list_omap forallb].
  - intros Hp. by rewrite (IH Hp).
  - intros [He Ht]%andb_prop. rewrite (IH Ht). unfold eval_expr. by rewrite (eval_agree e He).
Qed.
End agree.

(** C37: The value of an expression that [pasted] accepts is no outsider's to choose: two
    hosts that agree on the trusted contexts, on what of [github] is in [NOT_AN_OUTSIDERS]
    and on the functions give it the same outcome, whatever else the event says, its
    errors included. *)
Theorem pasted_same_value (h h' : Host) (e : Expr) :
  agree h h' -> pasted e = true -> eval_expr h e = eval_expr h' e.
Proof. intros A Hp. unfold eval_expr. by rewrite (eval_agree A e Hp). Qed.
End eval.
End CiHostFacts.
