(* ===== verification/CiScriptFacts.v ===== *)
(** * What a step's script is rewritten to ([dagron-ci-expr/src/lib.rs])

    A text that [template] reads is its pieces: a text without [${{], an expression's source
    and its braces, over and over, and what is left.  From the pieces follows what [sources]
    and [script] make of it; and of the script [script] hands on, read again as the step
    runner reads it, that the expressions in it are the pasted ones and no other. *)

From S2P Require Import Prelude F64 Json CiExpr CiEval CiScript CiHostFacts.

Module CiScriptFacts.

Import CiExpr CiEval CiScript CiHostFacts.

(** ** Texts without [${{] *)

Definition clean (s : str) : Prop := contains OPEN s = false.

Lemma contains_cons p c s : contains p (c :: s) = starts_with p (c :: s) || contains p s.
Proof. unfold contains. cbn [find]. destruct (starts_with _ _); [done|]. by destruct (find p s). Qed.

(** Whether the three bytes a text goes on with are [${{]. *)
Definition opens (c : ascii) (s : str) : bool :=
  match s with d :: e :: _ => ch "$" c && ch "{" d && ch "{" e | _ => false end.

Lemma starts_with_open c s : starts_with OPEN (c :: s) = opens c s.
Proof.
  unfold starts_with, OPEN, opens. cbn [lit String.list_ascii_of_string strip_prefix].
  destruct (ch "$" c); [|by destruct s as [|? []]].
  destruct s as [|d s]; [done|]. destruct (ch "{" d); [|by destruct s].
  destruct s as [|e s]; [done|]. by destruct (ch "{" e).
Qed.

Lemma clean_cons c s : clean (c :: s) <-> opens c s = false /\ clean s.
Proof. unfold clean. by rewrite contains_cons, starts_with_open, orb_false_iff. Qed.

Lemma clean_nil : clean [].
Proof. reflexivity. Qed.

(** A byte that is none of [${{]'s parts two texts. *)
Lemma clean_split a c r :
  ch "$" c = false -> ch "{" c = false -> (clean (a ++ c :: r) <-> clean a /\ clean r).
Proof.
  intros H1 H2. induction a as [|d a IH]; cbn [app].
  - rewrite clean_cons. pose proof clean_nil.
    assert (opens c r = false) as -> by (destruct r as [|? []]; cbn [opens]; by rewrite ?H1). tauto.
  - rewrite !clean_cons, IH.
    assert (opens d (a ++ c :: r) = opens d a) as ->; [|tauto].
    destruct a as [|e [|f a]]; cbn [app opens]; try done.
    + destruct r; rewrite ?H2, ?andb_false_r; done.
    + by rewrite H2, !andb_false_r.
Qed.

(** A [$] begins a variable, and after it no brace of the text is [${{]'s. *)
Lemma clean_dollar a : clean a -> clean (a ++ $"${").
Proof.
  induction a as [|d a IH]; [done|]. cbn [app]. rewrite !clean_cons. intros [Ho Ha].
  split; [|by apply IH]. destruct a as [|e [|f a]]; cbn [app opens lit String.list_ascii_of_string] in *.
  - change (ch "{" "$") with false. by rewrite andb_false_r.
  - change (ch "{" "$") with false. by rewrite andb_false_r.
  - done.
Qed.

Lemma clean_no_dollar s : contains_char "$" s = false -> clean s.
Proof.
  induction s as [|c s IH]; [done|]. cbn [contains_char existsb]. intros [Hc Hs]%orb_false_iff.
  apply clean_cons. split; [|by apply IH]. destruct s as [|d [|e s]]; cbn [opens]; by rewrite ?Hc.
Qed.

Lemma clean_app_l a b : clean (a ++ b) -> clean a.
Proof.
  induction a as [|c a IH]; [done|]. cbn [app]. rewrite !clean_cons. intros [Ho Ha].
  split; [|by apply IH]. by destruct a as [|d [|e a]].
Qed.

(** [find] of [${{] is where the text before it is clean. *)
Lemma find_open a r : clean a -> find OPEN (a ++ OPEN ++ r) = Some (length a).
Proof.
  induction a as [|c a IH]; [done|]. cbn [app length find]. rewrite clean_cons. intros [Ho Ha].
  rewrite starts_with_open, (IH Ha).
  assert (opens c (a ++ OPEN ++ r) = false) as ->; [|done].
  destruct a as [|d [|e a]]; cbn [app opens OPEN lit String.list_ascii_of_string] in *.
  - change (ch "{" "$") with false. by rewrite andb_false_r.
  - change (ch "{" "$") with false. by rewrite andb_false_r.
  - done.
Qed.

Lemma find_open_inv s i :
  find OPEN s = Some i -> clean (take i s) /\ s = take i s ++ OPEN ++ drop (i + 3) s.
Proof.
  intros H. pose proof (find_Some _ _ _ H) as (r & Hr & Hi).
  assert (length (take i s) = i) as Hl by (rewrite length_take; lia). split.
  - unfold clean. destruct (contains OPEN (take i s)) eqn:Ec; [|done].
    apply contains_spec in Ec as (x & y & Ec).
    assert (s = x ++ OPEN ++ (y ++ OPEN ++ r)) as Hx.
    { rewrite Hr at 1. rewrite Ec. by rewrite <- !app_assoc. }
    pose proof (find_first _ _ _ _ _ H Hx) as Hf. apply (f_equal length) in Ec.
    rewrite !length_app, Hl in Ec. cbn in Ec. lia.
  - rewrite Hr at 1. do 2 f_equal. rewrite Hr at 1. rewrite app_assoc, drop_app_ge.
    + rewrite length_app, Hl. change (length OPEN) with 3. by rewrite Nat.sub_diag.
    + rewrite length_app, Hl. reflexivity.
Qed.

Lemma find_open_None s : find OPEN s = None <-> clean s.
Proof. unfold clean, contains. by destruct (find OPEN s). Qed.

(** ** Where an expression ends *)

(** The source of an expression: its braces are the first to end it. *)
Definition closed (s : str) : Prop := expression_end (s ++ CLOSE) = Some (length s).

Lemma end_from_app q s n r : end_from q s = Some n -> end_from q (s ++ r) = Some n.
Proof.
  revert q n; induction s as [|c s IH]; intros q n; [done|]. cbn [end_from app].
  destruct (ch c APOS).
  - destruct (end_from (negb q) s) as [m|] eqn:E; [|done]. by rewrite (IH _ _ E).
  - destruct (ch c "}" && negb q && _) eqn:Eb.
    + assert (match s ++ r with d :: _ => ch d "}" | [] => false end = true) as ->.
      { apply andb_prop in Eb as [_ Eb]. by destruct s. }
      apply andb_prop in Eb as [-> _]. done.
    + destruct (end_from q s) as [m|] eqn:E; [|done]. intros H.
      rewrite (IH _ _ E). destruct s as [|d s]; [done|]. cbn [app]. by rewrite Eb.
Qed.

Lemma end_closed s r : closed s -> expression_end (s ++ CLOSE ++ r) = Some (length s).
Proof. intros H. rewrite app_assoc. by apply end_from_app. Qed.

Lemma end_from_inv q s n :
  end_from q s = Some n ->
  s = take n s ++ CLOSE ++ drop (n + 2) s /\ end_from q (take n s ++ CLOSE) = Some n
  /\ length (take n s) = n.
Proof.
  revert q n; induction s as [|c s IH]; intros q n; [done|]. cbn [end_from].
  destruct (ch c APOS) eqn:Ea.
  - destruct (end_from (negb q) s) as [m|] eqn:E; [|done]. intros [= <-].
    destruct (IH _ _ E) as (H1 & H2 & H3). cbn [take drop app length Nat.add end_from].
    rewrite Ea, H2, H3. split_and!; [by f_equal|done..].
  - destruct (ch c "}" && negb q && _) eqn:Eb.
    + intros [= <-]. apply andb_prop in Eb as [[->%ch_eq Eq]%andb_prop Es].
      destruct s as [|d s]; [done|]. apply ch_eq in Es as ->. cbn. by rewrite Eq.
    + destruct (end_from q s) as [m|] eqn:E; [|done]. intros [= <-].
      destruct (IH _ _ E) as (H1 & H2 & H3). cbn [take drop app length Nat.add end_from].
      rewrite Ea. split_and!; [by f_equal| |by rewrite H3].
      assert (match take m s ++ CLOSE with d :: _ => ch d "}" | [] => false end
              = match s with d :: _ => ch d "}" | [] => false end) as ->.
      { rewrite H1 at 2. by destruct (take m s). }
      by rewrite Eb, H2.
Qed.

(** ** The pieces of a text *)

(** What comes before an expression, its source, and the expression. *)
Definition piece : Type := str * str * Expr.
Definition source (p : piece) : str := p.1.2.

Definition ok (p : piece) : Prop :=
  let '(b, s, e) := p in clean b /\ closed s /\ parse s = Ok e.

Fixpoint glue (l : list piece) (tail : str) : str :=
  match l with
  | [] => tail
  | (b, s, _) :: l => b ++ OPEN ++ s ++ CLOSE ++ glue l tail
  end.

Definition text_part (b : str) : Template := match b with [] => [] | _ => [PText b] end.
Fixpoint parts (l : list piece) (tail : str) : Template :=
  match l with
  | [] => text_part tail
  | (b, _, e) :: l => text_part b ++ PExpr e :: parts l tail
  end.

Lemma exprs_app a b : exprs (a ++ b) = exprs a ++ exprs b.
Proof. apply omap_app. Qed.

Lemma exprs_text b : exprs (text_part b) = [].
Proof. by destruct b. Qed.

Lemma exprs_parts l tail : exprs (parts l tail) = map snd l.
Proof.
  induction l as [|[[b s] e] l IH]; [by destruct tail|]. cbn [parts map snd].
  by rewrite exprs_app, exprs_text, <- IH.
Qed.

(** Past a piece, the rest of the text. *)
Lemma drop_piece b s r : drop (length b + 3 + length s + 2) (b ++ OPEN ++ s ++ CLOSE ++ r) = r.
Proof.
  replace (b ++ OPEN ++ s ++ CLOSE ++ r) with ((b ++ OPEN ++ s ++ CLOSE) ++ r)
    by by rewrite <- !app_assoc.
  apply drop_app_length'. rewrite !length_app. change (length OPEN) with 3.
  change (length CLOSE) with 2. lia.
Qed.

Lemma drop_open b r : drop (length b + 3) (b ++ OPEN ++ r) = r.
Proof. rewrite app_assoc. apply drop_app_length'. by rewrite length_app. Qed.

Lemma length_glue b s e l tail :
  length (glue ((b, s, e) :: l) tail) = length b + 3 + length s + 2 + length (glue l tail).
Proof.
  cbn [glue]. rewrite !length_app. change (length OPEN) with 3. change (length CLOSE) with 2. lia.
Qed.

Lemma template_glue l tail n off :
  Forall ok l -> clean tail -> length (glue l tail) < n ->
  template_from n off (glue l tail) = Ok (parts l tail).
Proof.
  intros Hl Ht. revert n off; induction Hl as [|[[b s] e] l (Hb & Hs & He) _ IH]; intros [|n] off Hn;
    try lia; cbn [template_from].
  - cbn [glue parts]. apply find_open_None in Ht. by rewrite Ht.
  - rewrite length_glue in Hn. cbn [glue].
    rewrite (find_open b _ Hb), drop_open, (end_closed _ _ Hs), take_app_length, take_app_length, He.
    rewrite drop_piece, IH by lia. cbn [parts]. by destruct b.
Qed.

Lemma sources_glue l tail n :
  Forall ok l -> clean tail -> length (glue l tail) < n ->
  sources_from n (glue l tail) = map source l.
Proof.
  intros Hl Ht. revert n; induction Hl as [|[[b s] e] l (Hb & Hs & He) _ IH]; intros [|n] Hn;
    try lia; cbn [sources_from].
  - cbn [glue]. apply find_open_None in Ht. by rewrite Ht.
  - rewrite length_glue in Hn. cbn [glue].
    rewrite (find_open b _ Hb), drop_open.
    change (end_from false) with expression_end.
    rewrite (end_closed _ _ Hs), take_app_length. cbn [map source fst snd]. f_equal.
    rewrite (app_assoc s CLOSE), (drop_app_length' (s ++ CLOSE)) by (by rewrite length_app).
    apply IH. lia.
Qed.

(** Every text that is read is the glue of its pieces. *)
Lemma template_pieces n off t ps :
  template_from n off t = Ok ps -> length t < n ->
  exists l tail, Forall ok l /\ clean tail /\ t = glue l tail /\ ps = parts l tail.
Proof.
  revert off t ps; induction n as [|n IH]; intros off t ps H Hn; [lia|].
  cbn [template_from] in H. destruct (find OPEN t) as [i|] eqn:Ef.
  - apply find_open_inv in Ef as [Hc Ht].
    set (b := take i t) in *. set (body := drop (i + 3) t) in *.
    assert (length b = i) as Hb.
    { subst b body. apply (f_equal length) in Ht. rewrite !length_app, length_drop in Ht.
      rewrite length_take in *. cbn in Ht. lia. }
    destruct (expression_end body) as [k|] eqn:Ee; [|done].
    apply end_from_inv in Ee as (Hs & Hk & Hl). set (s := take k body) in *.
    destruct (parse s) as [e|] eqn:Ep; [|done].
    assert (t = b ++ OPEN ++ s ++ CLOSE ++ drop (k + 2) body) as Ht' by (by rewrite <- Hs).
    assert (drop (i + 3 + k + 2) t = drop (k + 2) body) as Hd.
    { rewrite Ht' at 1. rewrite <- Hb, <- Hl at 1. apply drop_piece. }
    rewrite Hd in H. destruct (template_from n _ _) as [ps'|] eqn:Et; [|done].
    injection H as <-.
    apply IH in Et as (l & tail & Hok & Htl & Hg & ->).
    + exists ((b, s, e) :: l), tail. split_and!.
      * constructor; [|done]. split_and!; [done| |done].
        unfold closed. unfold expression_end. by rewrite Hk, Hl.
      * done.
      * cbn [glue]. by rewrite <- Hg.
      * cbn [parts]. f_equal. rewrite <- Hb. by destruct b.
    + rewrite Ht' in Hn. rewrite !length_app in Hn. cbn in Hn. lia.
  - injection H as <-. exists [], t. split_and!; [done|by apply find_open_None|done|].
    by destruct t.
Qed.

(** ** What [script] makes of the pieces *)

(** The variable an expression is read from. *)
Definition variable (k : nat) : str := $"${__CI_E" ++ show_nat k ++ $"}".

(** The script, [k] expressions of it replaced so far; and their sources. *)
Fixpoint rewritten (k : nat) (l : list piece) (tail : str) : str :=
  match l with
  | [] => tail
  | (b, s, e) :: l =>
      b ++ (if pasted e then OPEN ++ s ++ CLOSE ++ rewritten k l tail
            else variable (S k) ++ rewritten (S k) l tail)
  end.
Definition outside (p : piece) : bool := negb (pasted p.2).
Definition kept_of (l : list piece) : list str := map (fun p => trim (source p)) (List.filter outside l).

Lemma length_kept l : length (kept_of l) = length (List.filter outside l).
Proof. apply length_map. Qed.

Lemma replace_text {St} (w : St -> nat -> Expr -> St * str) b t n st :
  replace w (text_part b ++ t) n st = let '(st, out) := replace w t n st in (st, b ++ out).
Proof. destruct b; [|done]. cbn. by destruct (replace w t n st). Qed.

Lemma replace_expr {St} (w : St -> nat -> Expr -> St * str) e t n st :
  replace w (PExpr e :: t) n st
  = let '(st, s) := w st n e in let '(st, out) := replace w t (S n) st in (st, s ++ out).
Proof. reflexivity. Qed.

Lemma replace_parts rv l tail n st :
  left_ st = map source l ->
  replace (rewrite_expr rv) (parts l tail) n st
  = ({| left_ := []; kept := kept st ++ kept_of l;
        refused := refused st || (negb rv && existsb outside l) |},
     rewritten (length (kept st)) l tail).
Proof.
  revert n st; induction l as [|[[b s] e] l IH]; intros n [lf kp rf] Hl; cbn [left_ kept refused] in *.
  - cbn [parts kept_of map List.filter existsb rewritten]. rewrite andb_false_r, orb_false_r, app_nil_r.
    cbn in Hl. subst lf. by destruct tail; cbn; rewrite ?app_nil_r.
  - cbn [parts rewritten]. rewrite replace_text, replace_expr.
    unfold rewrite_expr at 1. cbn [left_ kept refused]. rewrite Hl. cbn [map list.tail source fst snd].
    unfold kept_of. cbn [List.filter existsb]. change (outside (b, s, e)) with (negb (pasted e)).
    destruct (pasted e) eqn:Ep; cbn [negb].
    + rewrite IH by done. cbn [kept refused orb]. by rewrite <- !app_assoc.
    + rewrite IH by done. cbn [kept refused map]. rewrite length_app. cbn [length].
      replace (length kp + 1) with (S (length kp)) by lia. cbn [orb].
      rewrite andb_true_r, <- app_assoc. cbn [app source fst snd].
      by destruct rf, rv.
Qed.

Lemma script_pieces run rv orig :
  template run = Ok orig ->
  exists l tail, Forall ok l /\ clean tail /\ run = glue l tail /\ orig = parts l tail
    /\ script run rv = Ok (if negb rv && existsb outside l then None
                           else Some (rewritten 0 l tail, kept_of l)).
Proof.
  intros H. unfold script. rewrite H. unfold template in H.
  apply template_pieces in H as (l & tail & Hok & Ht & -> & ->); [|lia].
  exists l, tail. split_and!; try done.
  assert (sources (glue l tail) = map source l) as Hs by (apply sources_glue; [done..|lia]).
  rewrite replace_parts; [done|]. exact Hs.
Qed.

(** ** The script read again *)

(** The pieces of the rewritten script: what stands before the next pasted expression is
    text, [pre] of it already passed. *)
Fixpoint regroup (pre : str) (k : nat) (l : list piece) (tail : str) : list piece * str :=
  match l with
  | [] => ([], pre ++ tail)
  | (b, s, e) :: l =>
      if pasted e then
        let '(l, tail) := regroup [] k l tail in ((pre ++ b, s, e) :: l, tail)
      else regroup (pre ++ b ++ variable (S k)) (S k) l tail
  end.

Lemma regroup_glue pre k l tail :
  glue (regroup pre k l tail).1 (regroup pre k l tail).2 = pre ++ rewritten k l tail.
Proof.
  revert pre k; induction l as [|[[b s] e] l IH]; intros pre k; [done|]. cbn [regroup rewritten].
  destruct (pasted e).
  - specialize (IH [] k). destruct (regroup [] k l tail) as [l' tail']. cbn [fst snd glue] in *.
    rewrite IH. cbn [app]. by rewrite <- !app_assoc.
  - rewrite IH. by rewrite <- !app_assoc.
Qed.

(** A text that may stand before any clean text. *)
Definition joins (pre : str) : Prop := forall b, clean b -> clean (pre ++ b).

Lemma joins_nil : joins [].
Proof. by intros b. Qed.

Lemma digit_joins_none d : is_digit d = true -> ch "$" d = false.
Proof. destruct d as [[] [] [] [] [] [] [] []]; vm_compute; congruence. Qed.

Lemma digits_plain s : forallb is_digit s = true -> contains_char "$" s = false.
Proof.
  induction s as [|d s IH]; [done|]. cbn [forallb]. intros [Hd Hs]%andb_prop.
  unfold contains_char in *. cbn [existsb]. by rewrite (digit_joins_none d Hd), (IH Hs).
Qed.

Lemma show_plain k : contains_char "$" (show_nat k) = false.
Proof. apply digits_plain. unfold show_nat. by destruct (show_N_spec (N.of_nat k)) as (_ & H & _). Qed.

Lemma joins_variable b k : clean b -> joins (b ++ variable k).
Proof.
  intros Hb c Hc. unfold variable.
  assert ((b ++ $"${__CI_E" ++ show_nat k ++ $"}") ++ c
          = (b ++ $"${") ++ "_"%char :: ($"_CI_E" ++ show_nat k) ++ "}"%char :: c) as ->
    by (by rewrite <- !app_assoc).
  rewrite clean_split by done. split; [by apply clean_dollar|].
  rewrite clean_split by done. split; [|done]. apply clean_no_dollar.
  unfold contains_char. rewrite existsb_app. apply show_plain.
Qed.

Lemma regroup_ok pre k l tail :
  joins pre -> Forall ok l -> clean tail ->
  Forall ok (regroup pre k l tail).1 /\ clean (regroup pre k l tail).2
  /\ map snd (regroup pre k l tail).1 = List.filter pasted (map snd l).
Proof.
  intros Hp Hl Ht. revert pre k Hp; induction Hl as [|[[b s] e] l (Hb & Hs & He) _ IH];
    intros pre k Hp; cbn [regroup map snd List.filter].
  - split_and!; [done|by apply Hp|done].
  - destruct (pasted e) eqn:Ee.
    + destruct (IH [] k joins_nil) as (H1 & H2 & H3).
      destruct (regroup [] k l tail) as [l' tail']. cbn [fst snd map] in *.
      split_and!; [|done|by f_equal]. constructor; [|done]. split_and!; [by apply Hp|done..].
    + apply IH. rewrite app_assoc. apply joins_variable. by apply Hp.
Qed.

Lemma template_rewritten l tail :
  Forall ok l -> clean tail ->
  exists t, template (rewritten 0 l tail) = Ok t
            /\ exprs t = List.filter pasted (map snd l).
Proof.
  intros Hl Ht. pose proof (regroup_glue [] 0 l tail) as Hg.
  destruct (regroup_ok [] 0 l tail joins_nil Hl Ht) as (H1 & H2 & H3).
  cbn [app] in Hg. rewrite <- Hg. eexists. split.
  - apply template_glue; [done..|lia].
  - by rewrite exprs_parts.
Qed.

Lemma forallb_filter {A} (f : A -> bool) l : forallb f (List.filter f l) = true.
Proof. induction l as [|x l IH]; [done|]. cbn. destruct (f x) eqn:E; [cbn; by rewrite E|done]. Qed.

Lemma script_again run rv rw kept :
  script run rv = Ok (Some (rw, kept)) ->
  exists orig t, template run = Ok orig /\ template rw = Ok t
                 /\ exprs t = List.filter pasted (exprs orig).
Proof.
  intros H. destruct (template run) as [orig|] eqn:E; [|unfold script in H; by rewrite E in H].
  destruct (script_pieces run rv orig E) as (l & tail & Hok & Ht & -> & -> & Hs).
  rewrite Hs in H. destruct (negb rv && _); [done|]. injection H as <- <-.
  destruct (template_rewritten l tail Hok Ht) as (t & H1 & H2).
  exists (parts l tail), t. by rewrite exprs_parts.
Qed.

(** ** The claims *)

(** C36: No value an outsider chose is read as the script's own text: the script that a step
    runner is handed, read again and with its expressions written into it, is the same text
    against any two hosts that differ only in what an outsider may choose. *)
Theorem script_same_text {W : CiWorld} (h h' : Host) (run : str) (rv : bool) (rw : str)
    (kept : list str) :
  agree h h' -> script run rv = Ok (Some (rw, kept)) ->
  exists t, template rw = Ok t /\ text_of h t = text_of h' t.
Proof.
  intros A (orig & t & _ & Ht & He)%script_again. exists t. split; [done|].
  apply (text_of_agree A). rewrite He. apply forallb_filter.
Qed.

(** What [script] makes of a script that is read, its pieces named: each expression that
    is not pasted gives way to the variable of its number and its trimmed source is kept
    under that number, each that is pasted stays as it was written, the text around them
    is untouched; and where the shell reads no variables, any expression not pasted refuses
    the whole. *)
Theorem script_spec (run : str) (rv : bool) (orig : Template) :
  template run = Ok orig ->
  exists l tail, run = glue l tail /\ orig = parts l tail
    /\ script run rv = Ok (if negb rv && existsb outside l then None
                           else Some (rewritten 0 l tail, kept_of l)).
Proof.
  intros H. destruct (script_pieces run rv orig H) as (l & tail & _ & _ & H1 & H2 & H3).
  by exists l, tail.
Qed.

End CiScriptFacts.
