(* ===== verification/CiGrammar.v ===== *)
(** * The grammar of expressions ([dagron-ci-expr/src/lib.rs])

    The grammar the parser's comments write down, over tokens, with its precedences, its
    operators joined from the left, and the depth a form takes; and that the parser reads
    exactly the texts of the grammar that stay within the bounds on depth and on height. *)

From S2P Require Import Prelude F64 Json CiExpr.

Module CiGrammar.

Import CiExpr.

(** ** The grammar *)

(** From the loosest form to the tightest. *)
Inductive level := LOr | LAnd | LEquality | LComparison | LUnary | LPostfix | LPrimary.

Definition sub (lv : level) : level :=
  match lv with
  | LOr => LAnd
  | LAnd => LEquality
  | LEquality => LComparison
  | LComparison => LUnary
  | LUnary => LPostfix
  | LPostfix | LPrimary => LPrimary
  end.

Definition joins (lv : level) (op : Op) : bool :=
  match lv with
  | LOr => takes_or op
  | LAnd => takes_and op
  | LEquality => takes_equality op
  | LComparison => takes_comparison op
  | _ => false
  end.

(** [gram d lv ts n]: the tokens are a form of the level, its tree is [n], and it nests no
    deeper than [d]. *)
Inductive gram : nat -> level -> stream -> Node -> Prop :=
| g_up d lv ts n : gram d (sub lv) ts n -> gram d lv ts n
| g_join d lv tl tr l r i op :
    joins lv op = true -> gram d lv tl l -> gram d (sub lv) tr r ->
    gram d lv (tl ++ (i, TOp op) :: tr) (Binary op l r)
| g_not d i ts n : gram d LUnary ts n -> gram (S d) LUnary ((i, TNot) :: ts) (Not n)
| g_property d ts n i j name :
    gram d LPostfix ts n ->
    gram d LPostfix (ts ++ [(i, TDot); (j, TName name)]) (Property n name)
| g_every d ts n i j :
    gram d LPostfix ts n -> gram d LPostfix (ts ++ [(i, TDot); (j, TStar)]) (Every n)
| g_index d ts n us m i j :
    gram (S d) LPostfix ts n -> gram d LOr us m ->
    gram (S d) LPostfix (ts ++ (i, TOpenIndex) :: us ++ [(j, TCloseIndex)]) (Index n m)
| g_number d i x : gram d LPrimary [(i, TNumber x)] (Literal (Number x))
| g_text d i s : gram d LPrimary [(i, TText s)] (Literal (String s))
| g_name d i s : gram d LPrimary [(i, TName s)] (name_node s)
| g_brackets d i j ts n :
    gram d LOr ts n -> gram (S d) LPrimary ((i, TOpen) :: ts ++ [(j, TClose)]) n
| g_call_none d i j k f :
    gram d LPrimary [(i, TName f); (j, TOpen); (k, TClose)] (Call i f [])
| g_call d i j k f ts args :
    gram_args d ts args ->
    gram (S d) LPrimary ((i, TName f) :: (j, TOpen) :: ts ++ [(k, TClose)]) (Call i f args)
with gram_args : nat -> stream -> list Node -> Prop :=
| ga_last d ts n : gram d LOr ts n -> gram_args d ts [n]
| ga_more d i ts n us args :
    gram d LOr ts n -> gram_args d us args -> gram_args d (ts ++ (i, TComma) :: us) (n :: args).

Scheme gram_mind := Induction for gram Sort Prop
  with gram_args_mind := Induction for gram_args Sort Prop.
Combined Scheme gram_mutind from gram_mind, gram_args_mind.

(** How tall a tree stands. *)
Fixpoint stands (n : Node) : nat :=
  match n with
  | Literal _ | Context _ => 0
  | Property b _ | Every b | Not b => S (stands b)
  | Index b i => S (Nat.max (stands b) (stands i))
  | Call _ _ args => S (foldr (fun n h => Nat.max (stands n) h) 0 args)
  | Binary _ l r => S (Nat.max (stands l) (stands r))
  end.
Definition stands_all (args : list Node) : nat := foldr (fun n h => Nat.max (stands n) h) 0 args.

Lemma stands_name s : stands (name_node s) = 0.
Proof. unfold name_node. by repeat case_bool_decide. Qed.

(** A node with its height, as the parser holds it. *)
Definition mk (n : Node) : Tall := {| node := n; height := stands n |}.

(** ** What the parser reads is of the grammar *)

Section parser.
Context (len : nat).

(** [nested] at a depth. *)
Definition nested (room : nat) : parser := fun ts =>
  match room with
  | O => error (at_of len ts) NestsTooDeeply
  | S room => or_ (unary len room) ts
  end.

Lemma unary_eq room ts :
  unary len room ts =
  match ts with
  | (i, TNot) :: rest =>
      match room with
      | O => error i NestsTooDeeply
      | S room =>
          let? (inner, ts) := unary len room rest in
          let? tall := over i (height inner) (Not (node inner)) in Ok (tall, ts)
      end
  | _ => postfix len (nested room) ts
  end.
Proof. by destruct room. Qed.

(** What was read: a form of the grammar, its height right and within the bound. *)
Definition reads (d : nat) (lv : level) (used : stream) (t : Tall) : Prop :=
  gram d lv used (node t) /\ height t = stands (node t) /\ height t <= MAX_HEIGHT.

Definition sound (p : parser) (d : nat) (lv : level) : Prop :=
  forall ts t rest, p ts = Ok (t, rest) -> exists used, ts = used ++ rest /\ reads d lv used t.

Lemma over_Ok i below n t :
  over i below n = Ok t -> t = {| node := n; height := S below |} /\ S below <= MAX_HEIGHT.
Proof. unfold over. destruct (Nat.leb_spec MAX_HEIGHT below); [done|]. intros [= <-]. split; [done|lia]. Qed.

Lemma over_mk i below n :
  stands n = S below -> stands n <= MAX_HEIGHT -> over i below n = Ok (mk n).
Proof.
  intros H1 H2. unfold over, mk. destruct (Nat.leb_spec MAX_HEIGHT below); [lia|]. by rewrite H1.
Qed.

Lemma read_none d lv used0 ts t :
  reads d lv used0 t -> exists used, ts = used ++ ts /\ reads d lv (used0 ++ used) t.
Proof. exists []. split; [done|]. by rewrite app_nil_r. Qed.

Lemma chain_sound d lv next fuel l ts t rest used0 :
  sound next d (sub lv) -> reads d lv used0 l ->
  chain (joins lv) next fuel l ts = Ok (t, rest) ->
  exists used, ts = used ++ rest /\ reads d lv (used0 ++ used) t.
Proof.
  intros Hn. revert l ts used0; induction fuel as [|fuel IH]; intros l ts used0 Hl H; cbn [chain] in H.
  - injection H as <- <-. by apply read_none.
  - destruct ts as [|[i tok] ts];
      [injection H as <- <-; by apply read_none|].
    destruct tok; try (injection H as <- <-; by apply read_none).
    destruct (joins lv op) eqn:Ej; [|injection H as <- <-; by apply read_none].
    destruct (next ts) as [[r ts']|] eqn:Er; [|done].
    destruct (binary i op l r) as [b|] eqn:Eb; [|done].
    apply Hn in Er as (ur & -> & Hr1 & Hr2 & Hr3). destruct Hl as (Hl1 & Hl2 & Hl3).
    apply over_Ok in Eb as [-> Hb].
    apply (IH _ _ (used0 ++ (i, TOp op) :: ur)) in H as (u & -> & Hu).
    + exists ((i, TOp op) :: ur ++ u). split; [by cbn; rewrite <- app_assoc|].
      by rewrite <- app_assoc in Hu.
    + split_and!; [by apply g_join|cbn; by rewrite Hl2, Hr2|done].
Qed.

Lemma joined_sound d lv next :
  sound next d (sub lv) -> sound (joined (joins lv) next) d lv.
Proof.
  intros Hn ts t rest H. unfold joined in H. destruct (next ts) as [[l ts']|] eqn:E; [|done].
  apply Hn in E as (u & -> & Hu1 & Hu).
  eapply chain_sound in H as (v & -> & Hv); [|done|split; [by apply g_up, Hu1|exact Hu]].
  exists (u ++ v). by rewrite <- app_assoc.
Qed.

(** The parser of each level from [or] to [unary]. *)
Definition level_parser (lv : level) (u : parser) : parser :=
  match lv with
  | LOr => or_ u
  | LAnd => and_ u
  | LEquality => equality u
  | LComparison => comparison u
  | _ => u
  end.

Lemma levels_sound u d : sound u d LUnary -> sound (or_ u) d LOr.
Proof.
  intros Hu. apply (joined_sound d LOr), (joined_sound d LAnd), (joined_sound d LEquality),
    (joined_sound d LComparison), Hu.
Qed.

Section nested.
Context (room : nat).

(** What [nested] reads stands one deeper. *)
Definition nests : Prop :=
  forall ts t rest, nested room ts = Ok (t, rest) ->
  exists d used, room = S d /\ ts = used ++ rest /\ reads d LOr used t.
Context (N : nests).

Lemma arguments_sound fuel below acc ts b args rest :
  arguments len (nested room) fuel below acc ts = Ok (b, args, rest) ->
  exists d used more k, room = S d /\ ts = used ++ (k, TClose) :: rest /\ args = acc ++ more
    /\ gram_args d used more /\ b = Nat.max below (stands_all more).
Proof.
  revert below acc ts; induction fuel as [|fuel IH]; intros below acc ts H; [done|].
  cbn [arguments] in H. destruct (nested room ts) as [[a ts']|] eqn:E; [|done].
  apply N in E as (d & u & -> & -> & Hg & Ha & _).
  destruct ts' as [|[i tok] ts']; [done|]. destruct tok; try done.
  - injection H as <- <- <-. exists d, u, [node a], i. rewrite Ha. cbn [stands_all foldr].
    split_and!; [done..|by constructor|lia].
  - apply IH in H as (d' & v & more & k & [= <-] & -> & -> & Hm & ->).
    exists d, (u ++ (i, TComma) :: v), (node a :: more), k. rewrite <- !app_assoc.
    split_and!; [done..|by apply ga_more|]. rewrite Ha. cbn [stands_all foldr].
    fold (stands_all more). lia.
Qed.

Lemma expect_Ok want what ts rest :
  expect len want what ts = Ok rest -> exists k t, ts = (k, t) :: rest /\ want t = true.
Proof.
  unfold expect. destruct ts as [|[k t] ts]; [done|]. destruct (want t) eqn:E; [|done].
  intros [= <-]. by exists k, t.
Qed.

Lemma leaf_reads d used n :
  gram d LPrimary used n -> stands n = 0 -> reads d LPrimary used (leaf n).
Proof. intros H E. split_and!; [done|done|cbn; lia]. Qed.

Lemma call_arguments_Ok ts b args rest :
  call_arguments len (nested room) ts = Ok (b, args, rest) ->
  (exists k, ts = (k, TClose) :: rest /\ b = 0 /\ args = [])
  \/ arguments len (nested room) (S (length ts)) 0 [] ts = Ok (b, args, rest).
Proof.
  destruct ts as [|[k []] ts]; try (by right). intros [= <- <- <-]. left. by exists k.
Qed.

Lemma primary_sound : sound (primary len (nested room)) room LPrimary.
Proof.
  intros ts t rest H. unfold primary in H. destruct ts as [|[i tok] ts]; [done|].
  destruct tok as [x|s|s| | | | | | | | |op]; try done.
  - injection H as <- <-. exists [(i, TNumber x)]. split; [done|]. apply leaf_reads; [apply g_number|done].
  - injection H as <- <-. exists [(i, TText s)]. split; [done|]. apply leaf_reads; [apply g_text|done].
  - assert (leaf (name_node s) = t /\ ts = rest -> exists used, (i, TName s) :: ts = used ++ rest /\ reads room LPrimary used t) as Hname.
    { intros [<- <-]. exists [(i, TName s)]. split; [done|]. apply leaf_reads; [apply g_name|apply stands_name]. }
    destruct ts as [|[j tok] ts]; [by apply Hname; injection H as -> ->|].
    destruct tok; try (apply Hname; by injection H as -> ->).
    clear Hname.
    destruct (call_arguments _ _ ts) as [[[b args] ts']|] eqn:Ea; [|done].
    destruct (over i b _) as [t'|] eqn:Ho; [|done]. injection H as -> ->.
    apply call_arguments_Ok in Ea as [(k & -> & -> & ->)|Ha].
    + apply over_Ok in Ho as [-> Ho]. exists [(i, TName s); (j, TOpen); (k, TClose)].
      split; [done|]. split_and!; [apply g_call_none|done|done].
    + apply over_Ok in Ho as [-> Ho].
      apply arguments_sound in Ha as (d & u & more & k' & -> & -> & -> & Hm & ->).
      exists ((i, TName s) :: (j, TOpen) :: u ++ [(k', TClose)]). split; [by cbn; rewrite <- app_assoc|].
      split_and!; [by apply g_call|done|done].
  - destruct (nested room ts) as [[a ts']|] eqn:E; [|done].
    apply N in E as (d & u & -> & -> & Hg & Ha).
    destruct (expect _ _ _ _) as [ts''|] eqn:Ee; [|done]. injection H as <- <-.
    apply expect_Ok in Ee as (k & tok & -> & Hk). destruct tok; try done.
    exists ((i, TOpen) :: u ++ [(k, TClose)]). split; [by cbn; rewrite <- app_assoc|].
    split; [by apply g_brackets|done].
Qed.

Lemma suffixes_sound fuel l ts t rest used0 :
  reads room LPostfix used0 l -> suffixes len (nested room) fuel l ts = Ok (t, rest) ->
  exists used, ts = used ++ rest /\ reads room LPostfix (used0 ++ used) t.
Proof.
  revert l ts used0; induction fuel as [|fuel IH]; intros l ts used0 Hl H; cbn [suffixes] in H.
  - injection H as <- <-. by apply read_none.
  - destruct ts as [|[i tok] ts];
      [injection H as <- <-; by apply read_none|].
    destruct tok; try (injection H as <- <-; by apply read_none);
      destruct Hl as (Hl1 & Hl2 & Hl3).
    + destruct (nested room ts) as [[a ts']|] eqn:E; [|done].
      apply N in E as (d & u & Hd & -> & Hg & Ha & _).
      destruct (expect _ _ _ _) as [ts''|] eqn:Ee; [|done].
      apply expect_Ok in Ee as (k & tok & -> & Hk). destruct tok; try done.
      destruct (over _ _ _) as [l'|] eqn:Eo; [|done]. apply over_Ok in Eo as [-> Ho].
      apply (IH _ _ (used0 ++ (i, TOpenIndex) :: u ++ [(k, TCloseIndex)])) in H as (v & -> & Hv).
      * exists ((i, TOpenIndex) :: u ++ (k, TCloseIndex) :: v). split; [by cbn; rewrite <- app_assoc|].
        rewrite <- app_assoc in Hv. cbn in Hv. by rewrite <- app_assoc in Hv.
      * rewrite Hd in Hl1 |- *. split_and!; [by apply g_index| |done]. cbn. by rewrite Hl2, Ha.
    + destruct ts as [|[j tok] ts]; [done|]. destruct tok; try done;
        (destruct (over _ _ _) as [l'|] eqn:Eo; [|done]); apply over_Ok in Eo as [-> Ho].
      * apply (IH _ _ (used0 ++ [(i, TDot); (j, TName s)])) in H as (v & -> & Hv).
        -- exists ((i, TDot) :: (j, TName s) :: v). split; [done|]. by rewrite <- app_assoc in Hv.
        -- split_and!; [by apply g_property| |done]. cbn. by rewrite Hl2.
      * apply (IH _ _ (used0 ++ [(i, TDot); (j, TStar)])) in H as (v & -> & Hv).
        -- exists ((i, TDot) :: (j, TStar) :: v). split; [done|]. by rewrite <- app_assoc in Hv.
        -- split_and!; [by apply g_every| |done]. cbn. by rewrite Hl2.
Qed.

Lemma postfix_sound : sound (postfix len (nested room)) room LPostfix.
Proof.
  intros ts t rest H. unfold postfix in H.
  destruct (primary _ _ ts) as [[a ts']|] eqn:E; [|done].
  apply primary_sound in E as (u & -> & Hg & Ha).
  eapply suffixes_sound in H as (v & -> & Hv); [|split; [by apply g_up, Hg|exact Ha]].
  exists (u ++ v). by rewrite <- app_assoc.
Qed.
End nested.

Lemma unary_sound room : sound (unary len room) room LUnary.
Proof.
  induction room as [|d IH]; intros ts t rest H; rewrite unary_eq in H.
  - assert (nests 0) as N by (by intros ? ? ?).
    destruct ts as [|[i []] ts]; try done; apply (postfix_sound 0 N) in H as (u & Hu & Hg & Ha);
      exists u; (split; [done|]); (split; [by apply g_up, Hg|done]).
  - assert (nests (S d)) as N.
    { intros us a r Hn. apply (levels_sound _ _ IH) in Hn as (u & -> & Hu). by exists d, u. }
    assert (postfix len (nested (S d)) ts = Ok (t, rest) ->
            exists used, ts = used ++ rest /\ reads (S d) LUnary used t) as Hp.
    { intros (u & Hu & Hg & Ha)%(postfix_sound _ N). exists u. split; [done|].
      split; [by apply g_up, Hg|done]. }
    destruct ts as [|[i []] ts]; try (by apply Hp). clear Hp.
    destruct (unary len d ts) as [[a ts']|] eqn:E; [|done].
    destruct (over _ _ _) as [l'|] eqn:Eo; [|done]. injection H as -> ->.
    apply over_Ok in Eo as [-> Ho]. apply IH in E as (u & -> & Hg & Ha & _).
    exists ((i, TNot) :: u). split; [done|]. split_and!; [by apply g_not| |done].
    cbn. by rewrite Ha.
Qed.

Lemma nested_nests room : nests room.
Proof.
  destruct room as [|d]; intros ts t rest H; [done|].
  apply (levels_sound _ _ (unary_sound d)) in H as (u & -> & Hu). by exists d, u.
Qed.
End parser.
End CiGrammar.
