(* ===== verification/CiParseFacts.v ===== *)
(** * The parser reads its grammar ([dagron-ci-expr/src/lib.rs])

    Every form of the grammar is read to its tree where what follows it could not belong to
    it; with the soundness of [CiGrammar], [parse] accepts exactly the texts of the grammar
    that stay within [MAX_DEPTH] and [MAX_HEIGHT]. *)

From S2P Require Import Prelude F64 Json CiExpr CiGrammar.

Module CiParseFacts.

Import CiExpr CiGrammar.

(** ** What may follow a form *)

(** The token ends a form of the level. *)
Definition ends (lv : level) (t : Token) : bool :=
  match t with
  | TDot | TOpenIndex => match lv with LPostfix | LPrimary => true | _ => false end
  | TOpen => false
  | TOp op =>
      match lv with
      | LOr => negb (takes_or op || takes_and op || takes_equality op || takes_comparison op)
      | LAnd => negb (takes_and op || takes_equality op || takes_comparison op)
      | LEquality => negb (takes_equality op || takes_comparison op)
      | LComparison => negb (takes_comparison op)
      | _ => true
      end
  | _ => true
  end.
Definition stops (lv : level) (ts : stream) : Prop :=
  match ts with (_, t) :: _ => ends lv t = true | [] => True end.

Lemma stops_sub lv ts : stops lv ts -> stops (sub lv) ts.
Proof. destruct ts as [|[i t] ts]; [done|]. cbn. destruct lv, t as [| | | | | | | | | | |[]]; done. Qed.

Lemma stops_primary lv ts : stops lv ts -> stops LPrimary ts.
Proof. destruct ts as [|[i t] ts]; [done|]. cbn. destruct lv, t as [| | | | | | | | | | |[]]; done. Qed.

(** An operator of a level ends the level below, and no other token of the level goes on. *)
Lemma joins_stops lv op i ts : joins lv op = true -> stops (sub lv) ((i, TOp op) :: ts).
Proof. destruct lv, op; done. Qed.

Lemma stops_joins lv ts :
  stops lv ts -> match ts with (_, TOp op) :: _ => joins lv op = false | _ => True end.
Proof. destruct ts as [|[i t] ts]; [done|]. destruct t as [| | | | | | | | | | |[]], lv; done. Qed.

(** ** What a form begins with *)

Definition begins (t : Token) : bool :=
  match t with TNumber _ | TText _ | TName _ | TOpen => true | _ => false end.

Definition begins_with (lv : level) (ts : stream) : Prop :=
  exists i t ts', ts = (i, t) :: ts'
  /\ (begins t = true \/ t = TNot /\ match lv with LPostfix | LPrimary => False | _ => True end).

Lemma begins_app lv ts us : begins_with lv ts -> begins_with lv (ts ++ us).
Proof. intros (i & t & ts' & -> & H). by exists i, t, (ts' ++ us). Qed.

Lemma begins_up lv ts : begins_with (sub lv) ts -> begins_with lv ts.
Proof.
  intros (i & t & ts' & -> & H). exists i, t, ts'. split; [done|].
  destruct H as [H|[-> H]]; [by left|]. right. by destruct lv.
Qed.

Lemma gram_begins d lv ts n : gram d lv ts n -> begins_with lv ts.
Proof.
  induction 1; try (by apply begins_app); try (by apply begins_up);
    try (eexists _, _, _; split; [done|by left]).
  eexists _, _, _. split; [done|by right].
Qed.

Lemma args_begin d ts args : gram_args d ts args -> begins_with LOr ts.
Proof. destruct 1; [|apply begins_app]; by eapply gram_begins. Qed.

(** ** No loop looks at its fuel *)

Section parser.
Context (len : nat).

(** Of what it is given a parser leaves less. *)
Definition eats (p : parser) : Prop :=
  forall ts t rest, p ts = Ok (t, rest) -> length rest < length ts.

Lemma reads_eats p d lv : sound p d lv -> eats p.
Proof.
  intros Hp ts t rest (u & -> & Hg & _)%Hp. rewrite length_app.
  apply gram_begins in Hg as (i & tok & u' & -> & _). cbn. lia.
Qed.

Lemma nested_eats room : eats (nested len room).
Proof.
  intros ts t rest (d & u & _ & -> & Hg & _)%nested_nests. rewrite length_app.
  apply gram_begins in Hg as (i & tok & u' & -> & _). cbn. lia.
Qed.

Lemma chain_fuel takes next n m l ts :
  eats next -> length ts <= n -> length ts <= m ->
  chain takes next n l ts = chain takes next m l ts.
Proof.
  intros He. revert m l ts; induction n as [|n IH]; intros [|m] l ts Hn Hm;
    try (destruct ts; cbn in Hn, Hm; [done|lia]).
  cbn [chain]. destruct ts as [|[i []] ts]; try done. destruct (takes op); [|done].
  destruct (next ts) as [[r ts']|] eqn:E; [|done]. apply He in E. destruct (binary _ _ _ _); [|done].
  cbn in Hn, Hm. apply IH; lia.
Qed.

Lemma chain_0 takes next l ts n : ts = [] -> chain takes next n l ts = Ok (l, ts).
Proof. intros ->. by destruct n. Qed.

Lemma suffixes_fuel room n m l ts :
  length ts <= n -> length ts <= m ->
  suffixes len (nested len room) n l ts = suffixes len (nested len room) m l ts.
Proof.
  revert m l ts; induction n as [|n IH]; intros [|m] l ts Hn Hm;
    try (destruct ts; cbn in Hn, Hm; [done|lia]).
  cbn [suffixes]. destruct ts as [|[i []] ts]; try done; cbn in Hn, Hm.
  - destruct (nested len room ts) as [[a ts']|] eqn:E; [|done]. apply nested_eats in E.
    destruct (expect _ _ _ _) as [ts''|] eqn:Ee; [|done].
    apply expect_Ok in Ee as (k & t & -> & _). destruct (over _ _ _); [|done].
    cbn in E. apply IH; lia.
  - destruct ts as [|[j []] ts]; try done; (destruct (over _ _ _); [|done]); cbn in Hn, Hm; apply IH; lia.
Qed.

(** ** Every form is read *)

(** What the parser does where a form of a level stands first: the loops go on from its
    tree. *)
Definition completes (d : nat) (lv : level) (ts : stream) (n : Node) : Prop :=
  forall rest, stops (sub lv) rest ->
  match lv with
  | LPrimary => primary len (nested len d) (ts ++ rest) = Ok (mk n, rest)
  | LPostfix =>
      postfix len (nested len d) (ts ++ rest)
      = suffixes len (nested len d) (length rest) (mk n) rest
  | LUnary => stops LUnary rest -> unary len d (ts ++ rest) = Ok (mk n, rest)
  | lv =>
      level_parser lv (unary len d) (ts ++ rest)
      = chain (joins lv) (level_parser (sub lv) (unary len d)) (length rest) (mk n) rest
  end.

Lemma level_eats lv d :
  match lv with LPostfix | LPrimary => True | _ => eats (level_parser lv (unary len d)) end.
Proof.
  pose proof (unary_sound len d) as Hu.
  pose proof (joined_sound d LComparison _ Hu) as Hc.
  pose proof (joined_sound d LEquality _ Hc) as He.
  pose proof (joined_sound d LAnd _ He) as Ha.
  pose proof (joined_sound d LOr _ Ha) as Ho.
  destruct lv; try done; by eapply reads_eats.
Qed.

(** A level above [unary], its form done. *)
Lemma chain_done lv next l ts n : stops lv ts -> chain (joins lv) next n l ts = Ok (l, ts).
Proof.
  intros H%stops_joins. destruct n; [done|]. cbn [chain]. destruct ts as [|[i []] ts]; try done.
  by rewrite H.
Qed.

Lemma suffixes_done room l ts n :
  stops LUnary ts -> suffixes len (nested len room) n l ts = Ok (l, ts).
Proof. intros H. destruct n; [done|]. by destruct ts as [|[i []] ts]. Qed.

Lemma completes_level d lv ts n rest :
  completes d lv ts n -> stops lv rest ->
  match lv with
  | LPostfix | LPrimary => True
  | lv => level_parser lv (unary len d) (ts ++ rest) = Ok (mk n, rest)
  end.
Proof.
  intros Hc Hs. pose proof (Hc rest (stops_sub _ _ Hs)) as H.
  destruct lv; try done; try (rewrite H; by apply chain_done). by apply H.
Qed.

Lemma unary_postfix d ts rest :
  begins_with LPostfix ts -> unary len d (ts ++ rest) = postfix len (nested len d) (ts ++ rest).
Proof.
  intros (i & t & ts' & -> & [H|[_ []]]). rewrite unary_eq. cbn [app]. by destruct t.
Qed.

(** One lemma for each rule of the grammar. *)

Lemma c_up d lv ts n :
  gram d (sub lv) ts n -> completes d (sub lv) ts n -> completes d lv ts n.
Proof.
  intros Hg Hc rest Hs. pose proof (completes_level _ _ _ _ rest Hc Hs) as H.
  destruct lv; cbn [sub] in *.
  1-4: (unfold level_parser, or_, and_, equality, comparison, joined in *; by rewrite H).
  - intros Hs'. rewrite unary_postfix by (by eapply gram_begins).
    rewrite (Hc rest (stops_sub _ _ Hs)). by apply suffixes_done.
  - unfold postfix. by rewrite (Hc rest Hs).
  - exact (Hc rest Hs).
Qed.

Lemma c_join d lv tl tr l r i op :
  joins lv op = true -> completes d lv tl l -> completes d (sub lv) tr r ->
  stands (Binary op l r) <= MAX_HEIGHT ->
  completes d lv (tl ++ (i, TOp op) :: tr) (Binary op l r).
Proof.
  intros Hj Hl Hr Hh rest Hs. rewrite <- app_assoc. cbn [app].
  pose proof (joins_stops lv op i (tr ++ rest) Hj) as Hn.
  pose proof (Hl _ Hn) as H. pose proof (completes_level _ _ _ _ _ Hr Hs) as Hr'.
  pose proof (level_eats (sub lv) d) as He.
  destruct lv; try done; cbn [sub] in *; rewrite H; cbn [length chain]; rewrite Hj, Hr';
    unfold binary; cbn [height node mk];
    rewrite (over_mk i _ (Binary op l r)) by done;
    (apply chain_fuel; [done|rewrite length_app; lia|lia]).
Qed.

Lemma c_not d i ts n :
  completes d LUnary ts n -> stands (Not n) <= MAX_HEIGHT ->
  completes (S d) LUnary ((i, TNot) :: ts) (Not n).
Proof.
  intros Hc Hh rest Hs Hs'. cbn [app]. rewrite unary_eq, (Hc rest Hs Hs').
  cbn [height node mk]. by rewrite (over_mk i _ (Not n)).
Qed.

Lemma suffixes_name nst f t i j name rest :
  suffixes len nst (S f) t ((i, TDot) :: (j, TName name) :: rest)
  = let? t := over i (height t) (Property (node t) name) in suffixes len nst f t rest.
Proof. reflexivity. Qed.

Lemma suffixes_star nst f t i j rest :
  suffixes len nst (S f) t ((i, TDot) :: (j, TStar) :: rest)
  = let? t := over i (height t) (Every (node t)) in suffixes len nst f t rest.
Proof. reflexivity. Qed.

Lemma c_property d ts n i j name :
  completes d LPostfix ts n -> stands (Property n name) <= MAX_HEIGHT ->
  completes d LPostfix (ts ++ [(i, TDot); (j, TName name)]) (Property n name).
Proof.
  intros Hc Hh rest Hs. rewrite <- app_assoc. cbn [app]. rewrite Hc by done.
  cbn [length]. rewrite suffixes_name. cbn [height node mk]. rewrite (over_mk i _ (Property n name)) by done.
  apply suffixes_fuel; lia.
Qed.

Lemma c_every d ts n i j :
  completes d LPostfix ts n -> stands (Every n) <= MAX_HEIGHT ->
  completes d LPostfix (ts ++ [(i, TDot); (j, TStar)]) (Every n).
Proof.
  intros Hc Hh rest Hs. rewrite <- app_assoc. cbn [app]. rewrite Hc by done.
  cbn [length]. rewrite suffixes_star. cbn [height node mk]. rewrite (over_mk i _ (Every n)) by done.
  apply suffixes_fuel; lia.
Qed.

Lemma nested_or d ts n rest :
  completes d LOr ts n -> stops LOr rest -> nested len (S d) (ts ++ rest) = Ok (mk n, rest).
Proof. intros Hc Hs. exact (completes_level _ _ _ _ rest Hc Hs). Qed.

Lemma c_index d ts n us m i j :
  completes (S d) LPostfix ts n -> completes d LOr us m -> stands (Index n m) <= MAX_HEIGHT ->
  completes (S d) LPostfix (ts ++ (i, TOpenIndex) :: us ++ [(j, TCloseIndex)]) (Index n m).
Proof.
  intros Hc Hu Hh rest Hs. rewrite <- !app_assoc. cbn [app]. rewrite Hc by done.
  cbn [length suffixes]. rewrite <- app_assoc. rewrite (nested_or _ _ _ _ Hu) by done.
  cbn [app expect height node mk]. rewrite (over_mk i _ (Index n m)) by done.
  apply suffixes_fuel; [|lia]. rewrite length_app. cbn. lia.
Qed.

Lemma c_brackets d i j ts n :
  completes d LOr ts n -> completes (S d) LPrimary ((i, TOpen) :: ts ++ [(j, TClose)]) n.
Proof.
  intros Hc rest Hs. cbn [app primary]. rewrite <- app_assoc, (nested_or _ _ _ _ Hc) by done.
  done.
Qed.

Lemma c_name d i s : completes d LPrimary [(i, TName s)] (name_node s).
Proof.
  intros rest Hs. cbn [app primary]. unfold mk. rewrite stands_name.
  destruct rest as [|[j []] rest]; done.
Qed.

(** The arguments of a call. *)
Definition completes_args (d : nat) (ts : stream) (args : list Node) : Prop :=
  forall fuel below acc k rest, length args <= fuel ->
  arguments len (nested len (S d)) fuel below acc (ts ++ (k, TClose) :: rest)
  = Ok (Nat.max below (stands_all args), acc ++ args, rest).

Lemma ca_last d ts n : completes d LOr ts n -> completes_args d ts [n].
Proof.
  intros Hc [|fuel] below acc k rest Hf; [cbn in Hf; lia|]. cbn [arguments].
  rewrite (nested_or _ _ _ _ Hc) by done. cbn [height node mk stands_all foldr].
  by rewrite Nat.max_0_r.
Qed.

Lemma ca_more d i ts n us args :
  completes d LOr ts n -> completes_args d us args ->
  completes_args d (ts ++ (i, TComma) :: us) (n :: args).
Proof.
  intros Hc Ha [|fuel] below acc k rest Hf; [cbn in Hf; lia|]. cbn [arguments].
  rewrite <- app_assoc. rewrite (nested_or _ _ _ _ Hc) by done. cbn [app height node mk].
  rewrite Ha by (cbn in Hf; lia). rewrite <- app_assoc. cbn [app stands_all foldr].
  fold (stands_all args). do 3 f_equal. lia.
Qed.

Lemma args_length d ts args : gram_args d ts args -> length args <= length ts.
Proof.
  induction 1 as [d ts n Hg|d i ts n us args Hg Ha IH].
  - apply gram_begins in Hg as (? & ? & ? & -> & _). cbn. lia.
  - rewrite length_app. cbn. lia.
Qed.

Lemma c_call_none d i j k f :
  completes d LPrimary [(i, TName f); (j, TOpen); (k, TClose)] (Call i f []).
Proof. intros rest Hs. reflexivity. Qed.

Lemma c_call d i j k f ts args :
  gram_args d ts args -> completes_args d ts args -> stands (Call i f args) <= MAX_HEIGHT ->
  completes (S d) LPrimary ((i, TName f) :: (j, TOpen) :: ts ++ [(k, TClose)]) (Call i f args).
Proof.
  intros Hg Ha Hh rest Hs. cbn [app primary]. rewrite <- app_assoc. cbn [app].
  assert (call_arguments len (nested len (S d)) (ts ++ (k, TClose) :: rest)
          = Ok (stands_all args, args, rest)) as ->.
  { unfold call_arguments.
    pose proof (Ha (S (length (ts ++ (k, TClose) :: rest))) 0 [] k rest) as H.
    rewrite length_app in H at 1. pose proof (args_length _ _ _ Hg). specialize (H ltac:(lia)).
    apply args_begin in Hg as (a & t & ts' & -> & Ht). cbn [app] in *.
    destruct t; try exact H; by destruct Ht as [|[? _]]. }
  by rewrite (over_mk i _ (Call i f args)).
Qed.

(** The trees a tree stands on are no taller than it. *)
Lemma gram_completes :
  (forall d lv ts n, gram d lv ts n -> stands n <= MAX_HEIGHT -> completes d lv ts n)
  /\ (forall d ts args, gram_args d ts args -> stands_all args <= MAX_HEIGHT ->
      completes_args d ts args).
Proof.
  apply gram_mutind.
  - intros d lv ts n Hg IH Hh. by apply c_up; [|apply IH].
  - intros d lv tl tr l r i op Hj _ IHl _ IHr Hh. cbn [stands] in Hh.
    apply c_join; [done|apply IHl; lia|apply IHr; lia|done].
  - intros d i ts n _ IH Hh. cbn [stands] in Hh. apply c_not; [apply IH; lia|done].
  - intros d ts n i j name _ IH Hh. cbn [stands] in Hh. apply c_property; [apply IH; lia|done].
  - intros d ts n i j _ IH Hh. cbn [stands] in Hh. apply c_every; [apply IH; lia|done].
  - intros d ts n us m i j _ IHn _ IHm Hh. cbn [stands] in Hh.
    apply c_index; [apply IHn; lia|apply IHm; lia|done].
  - done.
  - done.
  - intros d i s _. apply c_name.
  - intros d i j ts n _ IH Hh. by apply c_brackets, IH.
  - intros d i j k f _. apply c_call_none.
  - intros d i j k f ts args Hg IH Hh. apply c_call; [done|apply IH|done].
    cbn [stands] in Hh. fold (stands_all args) in Hh. lia.
  - intros d ts n _ IH Hh. apply ca_last, IH. cbn in Hh. lia.
  - intros d i ts n us args _ IHn _ IHa Hh. cbn [stands_all foldr] in Hh.
    fold (stands_all args) in Hh. apply ca_more; [apply IHn; lia|apply IHa; lia].
Qed.
End parser.

(** The whole of the tokens, from the loosest level. *)
Definition whole (len d : nat) (ts : stream) : result Error Node :=
  let? (tall, rest) := or_ (unary len d) ts in
  match rest with [] => Ok (node tall) | _ => error (at_of len rest) GoesOn end.

Lemma whole_grammar len d ts e :
  whole len d ts = Ok e <-> gram d LOr ts e /\ stands e <= MAX_HEIGHT.
Proof.
  unfold whole. split.
  - destruct (or_ _ ts) as [[tall rest]|] eqn:E; [|done].
    apply (levels_sound _ _ (unary_sound _ _)) in E as (u & -> & Hg & Hh & Hb).
    destruct rest; [|done]. intros [= <-]. rewrite app_nil_r, <- Hh. done.
  - intros [Hg Hh]. pose proof (proj1 (gram_completes len) _ _ _ _ Hg Hh) as Hc.
    pose proof (completes_level len _ _ _ _ [] Hc I) as Hp. rewrite app_nil_r in Hp.
    cbn [level_parser] in Hp. by rewrite Hp.
Qed.

Lemma parse_whole t :
  parse t = let? ts := tokens t in
            match ts with [] => error 0 IsEmpty | _ => whole (length t) MAX_DEPTH ts end.
Proof. unfold parse, whole. generalize MAX_DEPTH. intros d. by destruct (tokens t) as [[|]|]. Qed.

(** ** The claim *)

(** C38: [parse] reads exactly the grammar: a text is accepted as a tree where its tokens are
    an expression of the grammar (its precedences, its operators joined from the left) that
    nests no deeper than [MAX_DEPTH], and the tree stands no taller than [MAX_HEIGHT]; so
    that whatever goes down a tree calls itself no more than that often. *)
Theorem parse_grammar (t : str) (e : Expr) :
  parse t = Ok e <->
  exists ts, tokens t = Ok ts /\ gram MAX_DEPTH LOr ts e /\ stands e <= MAX_HEIGHT.
Proof.
  rewrite parse_whole. generalize MAX_DEPTH. intros d.
  destruct (tokens t) as [ts|err]; [|split; [done|by intros (? & ? & _)]].
  destruct ts as [|tok ts].
  - split; [done|]. intros (? & [= <-] & Hg & _). by apply gram_begins in Hg as (? & ? & ? & ? & _).
  - rewrite whole_grammar. split; [intros ?; by exists (tok :: ts)|]. by intros (? & [= <-] & ?).
Qed.
End CiParseFacts.
