(* ===== verification/CiGlob.v ===== *)
(** * The globs of filters and of [hashFiles] ([dagron-ci-expr/src/glob.rs])

    A pattern is compiled to tokens, and a text matched against them by going down both with
    a table of what is already known; a list of patterns is decided by the last that
    matches.  What a pattern means is said beside it, as a relation, and is what the table
    computes.  A [char] is its code point: both sides are [Vec<char>] in the code. *)

From S2P Require Import Prelude.

Module CiGlob.

Definition chr : Type := N.

Definition BACKSLASH : chr := 92%N.
Definition STAR : chr := 42%N.
Definition SLASH : chr := 47%N.
Definition QUESTION : chr := 63%N.
Definition OPEN : chr := 91%N.
Definition CLOSE : chr := 93%N.
Definition BANG : chr := 33%N.
Definition CARET : chr := 94%N.
Definition DASH : chr := 45%N.

(** [char::is_control] *)
Definition is_control (c : chr) : bool := (c <? 32)%N || ((127 <=? c)%N && (c <=? 159)%N).

Inductive Token :=
| Char (c : chr)
| One
| Star
| Globstar (slash : bool)
| Class (negated : bool) (ranges : list (chr * chr)).

Record Glob := { source : list chr; tokens : list Token }.

Inductive problem := EmptyPattern | HoldsControl | LoneBackslash | ThreeStars | UnclosedClass.

(** ** Compiling *)

(** One member of a class, past its first character: [None] where the range is empty. *)
Definition member (c : chr) (rest : list chr) : option ((chr * chr) * list chr) :=
  match rest with
  | d :: e :: rest' =>
      if (d =? DASH)%N && negb (e =? CLOSE)%N then
        if (e <? c)%N then None else Some ((c, e), rest')
      else Some ((c, c), rest)
  | _ => Some ((c, c), rest)
  end.

(** The loop of [class]: every round takes a character. *)
Fixpoint class_from (fuel : nat) (first : bool) (ranges : list (chr * chr)) (cs : list chr)
    : option (list (chr * chr) * list chr) :=
  match fuel, cs with
  | S fuel, c :: rest =>
      if (c =? CLOSE)%N && negb first then Some (ranges, rest)
      else
        let* (c, rest) :=
          if (c =? BACKSLASH)%N then match rest with e :: rest => Some (e, rest) | [] => None end
          else Some (c, rest) in
        let* (r, rest) := member c rest in
        class_from fuel false (ranges ++ [r]) rest
  | _, _ => None
  end.

(** [class], past its bracket. *)
Definition class (cs : list chr) : option (Token * list chr) :=
  let '(negated, cs) :=
    match cs with
    | c :: rest => if (c =? BANG)%N || (c =? CARET)%N then (true, rest) else (false, cs)
    | [] => (false, cs)
    end in
  let* (ranges, rest) := class_from (length cs) true [] cs in
  Some (Class negated ranges, rest).

(** The loop of [Glob::new]: every round takes a character. *)
Fixpoint compile (fuel : nat) (cs : list chr) : result problem (list Token) :=
  match fuel, cs with
  | _, [] | O, _ => Ok []
  | S fuel, c :: rest =>
      if (c =? BACKSLASH)%N then
        match rest with
        | [] => Err LoneBackslash
        | c :: rest => let? ts := compile fuel rest in Ok (Char c :: ts)
        end
      else if (c =? STAR)%N then
        match rest with
        | d :: after =>
            if (d =? STAR)%N then
              match after with
              | e :: after' =>
                  if (e =? STAR)%N then Err ThreeStars
                  else if (e =? SLASH)%N then
                    let? ts := compile fuel after' in Ok (Globstar true :: ts)
                  else let? ts := compile fuel after in Ok (Globstar false :: ts)
              | [] => let? ts := compile fuel after in Ok (Globstar false :: ts)
              end
            else let? ts := compile fuel rest in Ok (Star :: ts)
        | [] => let? ts := compile fuel rest in Ok (Star :: ts)
        end
      else if (c =? QUESTION)%N then let? ts := compile fuel rest in Ok (One :: ts)
      else if (c =? OPEN)%N then
        match class rest with
        | None => Err UnclosedClass
        | Some (token, rest) => let? ts := compile fuel rest in Ok (token :: ts)
        end
      else let? ts := compile fuel rest in Ok (Char c :: ts)
  end.

(** [Glob::new] *)
Definition new (pattern : list chr) : result problem Glob :=
  match pattern with
  | [] => Err EmptyPattern
  | _ =>
      if existsb is_control pattern then Err HoldsControl
      else let? ts := compile (length pattern) pattern in Ok {| source := pattern; tokens := ts |}
  end.

(** ** Matching *)

(** [memo[t][p]]: whether the tokens from [p] on match the text from [t] on, once known.
    [None] of an operation on it is a panic: an index past a row's end. *)
Abbreviation memo := (list (list (option bool))).
Definition recall (m : memo) (t p : nat) : option (option bool) := let* row := m !! t in row !! p.
Definition record (m : memo) (t p : nat) (b : bool) : option memo :=
  let* row := m !! t in let* _ := row !! p in Some (<[t := <[p := Some b]> row]> m).

(** A call that reads and writes the table. *)
Definition asks : Type := memo -> option (bool * memo).
Definition answer (b : bool) : asks := fun m => Some (b, m).
Definition and_then (b : bool) (k : asks) : asks := if b then k else answer false.
Definition or_else (a k : asks) : asks := fun m =>
  let* (b, m) := a m in if b then Some (true, m) else k m.

Definition not_slash (text : list chr) (t : nat) : bool :=
  match text !! t with Some c => negb (c =? SLASH)%N | None => false end.

(** [(t..text.len()).any(…)] of [**/]. *)
Fixpoint any_end (text : list chr) (k : nat -> asks) (ends : list nat) : asks :=
  match ends with
  | [] => answer false
  | e :: ends =>
      or_else (and_then (bool_decide (text !! e = Some SLASH)) (k (S e))) (any_end text k ends)
  end.

Definition in_class (negated : bool) (ranges : list (chr * chr)) (c : chr) : bool :=
  negb (c =? SLASH)%N
  && negb (Bool.eqb (existsb (fun r => (r.1 <=? c)%N && (c <=? r.2)%N) ranges) negated).

Section matches.
Context (ts : list Token) (text : list chr).

(** [matches_at]; the fuel bounds the depth of its calls. *)
Fixpoint matches_at (fuel : nat) (t p : nat) : asks := fun m =>
  match fuel with
  | O => None
  | S fuel =>
      let* cell := recall m t p in
      match cell with
      | Some known => Some (known, m)
      | None =>
          let* (b, m) :=
            match ts !! p with
            | None => answer (bool_decide (t = length text))
            | Some (Char c) =>
                and_then (bool_decide (text !! t = Some c)) (matches_at fuel (S t) (S p))
            | Some One => and_then (not_slash text t) (matches_at fuel (S t) (S p))
            | Some Star =>
                or_else (matches_at fuel t (S p))
                  (and_then (not_slash text t) (matches_at fuel (S t) p))
            | Some (Globstar false) =>
                or_else (matches_at fuel t (S p))
                  (and_then (t <? length text)%nat (matches_at fuel (S t) p))
            | Some (Globstar true) =>
                or_else (matches_at fuel t (S p))
                  (any_end text (fun t' => matches_at fuel t' (S p)) (seq t (length text - t)))
            | Some (Class negated ranges) =>
                and_then
                  (match text !! t with Some c => in_class negated ranges c | None => false end)
                  (matches_at fuel (S t) (S p))
            end m in
          let* m := record m t p b in Some (b, m)
      end
  end.
End matches.

(** [Glob::matches] *)
Definition matches (g : Glob) (text : list chr) : option bool :=
  let n := length (tokens g) in
  let fresh := replicate (S (length text)) (replicate (S n) None) in
  let* (b, _) := matches_at (tokens g) text (S (length text + n)) 0 0 fresh in Some b.

(** ** Lists of patterns *)

Definition Patterns : Type := list (bool * Glob).

Inductive list_problem :=
| BadPattern (p : problem)
| NothingIncluded
| IgnoreExcludes.

(** [raw.strip_prefix('!')] *)
Definition polarity (raw : list chr) : bool * list chr :=
  match raw with
  | c :: rest => if (c =? BANG)%N then (false, rest) else (true, raw)
  | [] => (true, raw)
  end.

Fixpoint read_all (l : list (list chr)) : result list_problem Patterns :=
  match l with
  | [] => Ok []
  | raw :: l =>
      let '(included, pattern) := polarity raw in
      match new pattern with
      | Err e => Err (BadPattern e)
      | Ok g => let? ps := read_all l in Ok ((included, g) :: ps)
      end
  end.

(** [Patterns::include] *)
Definition include (l : list (list chr)) : result list_problem Patterns :=
  let? ps := read_all l in
  if existsb fst ps then Ok ps else Err NothingIncluded.

Fixpoint read_ignored (l : list (list chr)) : result list_problem Patterns :=
  match l with
  | [] => Ok []
  | raw :: l =>
      if negb (polarity raw).1 then Err IgnoreExcludes
      else
        match new raw with
        | Err e => Err (BadPattern e)
        | Ok g => let? ps := read_ignored l in Ok ((false, g) :: ps)
        end
  end.

(** [Patterns::ignore]: the first pattern is [**], which compiles. *)
Definition EVERYTHING : Glob := {| source := [STAR; STAR]; tokens := [Globstar false] |}.
Definition ignore (l : list (list chr)) : result list_problem Patterns :=
  let? ps := read_ignored l in Ok ((true, EVERYTHING) :: ps).

(** [Patterns::matches]: the last pattern that matches decides. *)
Fixpoint find_match (name : list chr) (rev_ps : Patterns) : option bool :=
  match rev_ps with
  | [] => Some false
  | (included, g) :: rest =>
      let* b := matches g name in
      if b then Some included else find_match name rest
  end.
Definition list_matches (ps : Patterns) (name : list chr) : option bool := find_match name (rev ps).

(** [Patterns::any] *)
Fixpoint any (ps : Patterns) (names : list (list chr)) : option bool :=
  match names with
  | [] => Some false
  | n :: names => let* b := list_matches ps n in if b then Some true else any ps names
  end.

(** ** What a pattern means *)

Inductive fits : list Token -> list chr -> Prop :=
| f_end : fits [] []
| f_char c ts s : fits ts s -> fits (Char c :: ts) (c :: s)
| f_one c ts s : c <> SLASH -> fits ts s -> fits (One :: ts) (c :: s)
| f_star a ts s : SLASH ∉ a -> fits ts s -> fits (Star :: ts) (a ++ s)
| f_globstar a ts s : fits ts s -> fits (Globstar false :: ts) (a ++ s)
| f_segments_none ts s : fits ts s -> fits (Globstar true :: ts) s
| f_segments a ts s : fits ts s -> fits (Globstar true :: ts) (a ++ SLASH :: s)
| f_class negated ranges c ts s :
    in_class negated ranges c = true -> fits ts s -> fits (Class negated ranges :: ts) (c :: s).

Lemma fits_nil s : fits [] s <-> s = [].
Proof. split; [by inversion 1|intros ->; constructor]. Qed.

Lemma fits_char c ts s : fits (Char c :: ts) s <-> exists s', s = c :: s' /\ fits ts s'.
Proof. split; [inversion 1; subst; eauto|intros (s' & -> & H); by constructor]. Qed.

Lemma fits_one ts s : fits (One :: ts) s <-> exists c s', s = c :: s' /\ c <> SLASH /\ fits ts s'.
Proof. split; [inversion 1; subst; eauto|intros (c & s' & -> & Hc & H); by constructor]. Qed.

Lemma fits_class n r ts s :
  fits (Class n r :: ts) s <-> exists c s', s = c :: s' /\ in_class n r c = true /\ fits ts s'.
Proof. split; [inversion 1; subst; eauto|intros (c & s' & -> & Hc & H); by constructor]. Qed.

Lemma fits_star ts s :
  fits (Star :: ts) s
  <-> fits ts s \/ exists c s', s = c :: s' /\ c <> SLASH /\ fits (Star :: ts) s'.
Proof.
  split.
  - inversion 1 as [| | |a ts' s' Ha Hs| | | |]; subst. destruct a as [|c a]; [by left|right].
    apply not_elem_of_cons in Ha as [Hc Ha].
    exists c, (a ++ s'). split_and!; [done|congruence|by constructor].
  - intros [H|(c & s' & -> & Hc & H)]; [by apply (f_star [] ts s); [set_solver|]|].
    inversion H as [| | |a ts' s0 Ha Hs| | | |]; subst.
    apply (f_star (c :: a)); [|done]. apply not_elem_of_cons. split; [congruence|done].
Qed.

Lemma fits_globstar ts s :
  fits (Globstar false :: ts) s
  <-> fits ts s \/ exists c s', s = c :: s' /\ fits (Globstar false :: ts) s'.
Proof.
  split.
  - inversion 1 as [| | | |a ts' s' Hs| | |]; subst. destruct a as [|c a]; [by left|right].
    exists c, (a ++ s'). split; [done|by constructor].
  - intros [H|(c & s' & -> & H)]; [by apply (f_globstar [] ts s)|].
    inversion H as [| | | |a ts' s0 Hs| | |]; subst. by apply (f_globstar (c :: a)).
Qed.

Lemma fits_segments ts s :
  fits (Globstar true :: ts) s <-> fits ts s \/ exists a s', s = a ++ SLASH :: s' /\ fits ts s'.
Proof.
  split.
  - inversion 1; subst; eauto.
  - intros [H|(a & s' & -> & H)]; by constructor.
Qed.
End CiGlob.
