(* ===== verification/CiGlobFacts.v ===== *)
(** * A glob matches what its pattern means ([dagron-ci-expr/src/glob.rs])

    The table of what is known never holds a wrong answer and is never read past its end;
    so the matcher computes the relation [fits], and of a list the last pattern that fits a
    name decides. *)

From S2P Require Import Prelude CiGlob.

Module CiGlobFacts.

Import CiGlob.

Section matches.
Context (ts : list Token) (text : list chr).

(** What the tokens from [p] on are to the text from [t] on. *)
Definition here (t p : nat) : Prop := fits (drop p ts) (drop t text).

(** A table of the right size whose answers are right. *)
Record good (m : memo) : Prop := {
  good_rows : length m = S (length text);
  good_row t row : m !! t = Some row -> length row = S (length ts);
  good_known t row p b :
    m !! t = Some row -> row !! p = Some (Some b) -> (b = true <-> here t p);
}.

(** A call that ends, with the right answer and the table still right. *)
Definition answers (k : asks) (P : Prop) : Prop :=
  forall m, good m -> exists b m', k m = Some (b, m') /\ (b = true <-> P) /\ good m'.

Lemma answers_iff k P Q : answers k P -> (P <-> Q) -> answers k Q.
Proof. intros Hk HPQ m Hm. destruct (Hk m Hm) as (b & m' & H1 & H2 & H3). exists b, m'. by rewrite <- HPQ. Qed.

Lemma answers_answer b P : (b = true <-> P) -> answers (answer b) P.
Proof. intros H m Hm. by exists b, m. Qed.

Lemma answers_and_then b k P : (b = true -> answers k P) -> answers (and_then b k) (b = true /\ P).
Proof.
  intros Hk. destruct b; cbn [and_then].
  - eapply answers_iff; [by apply Hk|]. tauto.
  - apply answers_answer. intuition discriminate.
Qed.

Lemma answers_or_else a k P Q : answers a P -> answers k Q -> answers (or_else a k) (P \/ Q).
Proof.
  intros Ha Hk m Hm. unfold or_else. destruct (Ha m Hm) as ([] & m1 & -> & H2 & H3).
  - exists true, m1. intuition.
  - destruct (Hk m1 H3) as (b & m2 & E & H5 & H6). exists b, m2. split_and!; [done| |done].
    rewrite H5. intuition discriminate.
Qed.

Lemma answers_any_end k P ends :
  (forall e, e ∈ ends -> text !! e = Some SLASH -> answers (k (S e)) (P (S e))) ->
  answers (any_end text k ends) (exists e, e ∈ ends /\ text !! e = Some SLASH /\ P (S e)).
Proof.
  induction ends as [|e ends IH]; intros Hk; cbn [any_end].
  - apply answers_answer. split; [done|]. intros (e & He & _). by apply elem_of_nil in He.
  - eapply answers_iff.
    + apply answers_or_else; [|apply IH; intros e' He'; apply Hk; set_solver].
      apply (answers_and_then _ _ (P (S e))). intros H%bool_decide_eq_true. apply Hk; [set_solver|done].
    + rewrite bool_decide_eq_true. split.
      * intros [[H1 H2]|(e' & H1 & H2)]; [exists e|exists e']; rewrite elem_of_cons; tauto.
      * intros (e' & [->|H1]%elem_of_cons & H2 & H3); [by left|right; eauto].
Qed.

(** ** The table *)

Lemma recall_good m t p :
  good m -> t <= length text -> p <= length ts ->
  exists row cell, m !! t = Some row /\ row !! p = Some cell /\ recall m t p = Some cell.
Proof.
  intros Hm Ht Hp. destruct (lookup_lt_is_Some_2 m t) as [row Hr]; [rewrite (good_rows _ Hm); lia|].
  destruct (lookup_lt_is_Some_2 row p) as [cell Hc]; [rewrite (good_row _ Hm _ _ Hr); lia|].
  exists row, cell. unfold recall. by rewrite Hr.
Qed.

Lemma record_good m t p b :
  good m -> t <= length text -> p <= length ts -> (b = true <-> here t p) ->
  exists m', record m t p b = Some m' /\ good m'.
Proof.
  intros Hm Ht Hp Hb. destruct (recall_good m t p Hm Ht Hp) as (row & cell & Hr & Hc & _).
  unfold record. rewrite Hr, Hc. eexists. split; [done|]. split.
  - rewrite length_insert. apply Hm.
  - intros t' row' [(-> & <- & _)|[_ H]]%list_lookup_insert_Some.
    + rewrite length_insert. by eapply good_row.
    + by eapply good_row.
  - intros t' row' p' b' [(-> & <- & _)|[_ H]]%list_lookup_insert_Some Hk.
    + apply list_lookup_insert_Some in Hk as [(-> & [= <-] & _)|[_ Hk]]; [done|].
      by eapply good_known.
    + by eapply good_known.
Qed.

(** ** Going down *)

Lemma drop_token p tok : ts !! p = Some tok -> drop p ts = tok :: drop (S p) ts.
Proof. intros H. by apply drop_S. Qed.

(** The text has a next character. *)
Lemma drop_text t c s : drop t text = c :: s <-> text !! t = Some c /\ drop (S t) text = s.
Proof.
  split.
  - intros H. assert (text !! t = Some c) as Hc.
    { pose proof (f_equal (fun l => l !! 0) H) as H0. cbn in H0.
      rewrite lookup_drop, Nat.add_0_r in H0. done. }
    split; [done|]. rewrite (drop_S _ _ _ Hc) in H. congruence.
  - intros [Hc <-]. by apply drop_S.
Qed.

Lemma drop_end t : t <= length text -> (drop t text = [] <-> t = length text).
Proof.
  intros Ht. split.
  - intros H%(f_equal length). rewrite length_drop in H. cbn in H. lia.
  - intros ->. by apply drop_ge.
Qed.

Lemma not_slash_spec t : not_slash text t = true <-> exists c, text !! t = Some c /\ c <> SLASH.
Proof.
  unfold not_slash. destruct (text !! t) as [c|].
  - rewrite negb_true_iff, N.eqb_neq. split; [eauto|by intros (d & [= <-] & H)].
  - split; [done|by intros (c & ? & _)].
Qed.

(** The text ahead, cut at a slash. *)
Lemma cut_text t (P : list chr -> Prop) :
  (exists a s, drop t text = a ++ SLASH :: s /\ P s)
  <-> exists e, e ∈ seq t (length text - t) /\ text !! e = Some SLASH /\ P (drop (S e) text).
Proof.
  split.
  - intros (a & s & H & HP). exists (t + length a).
    assert (text !! (t + length a) = Some SLASH) as Hc.
    { rewrite <- lookup_drop, H, lookup_app_r, Nat.sub_diag by lia. done. }
    split_and!; [|done|].
    + apply elem_of_seq. apply lookup_lt_Some in Hc. lia.
    + replace (S (t + length a)) with (t + S (length a)) by lia. rewrite <- drop_drop, H.
      rewrite (app_assoc a [SLASH] s : a ++ SLASH :: s = (a ++ [SLASH]) ++ s).
      rewrite drop_app_length'; [done|]. rewrite length_app. cbn. lia.
  - intros (e & He%elem_of_seq & Hc & HP). exists (take (e - t) (drop t text)), (drop (S e) text).
    split; [|done]. rewrite <- (take_drop (e - t) (drop t text)) at 1. f_equal.
    rewrite drop_drop. replace (t + (e - t)) with e by lia. by apply drop_S.
Qed.

(** The text ahead begins with a character that the token takes. *)
Lemma here_one t (ok : chr -> Prop) (P : list chr -> Prop) :
  (exists c s, drop t text = c :: s /\ ok c /\ P s)
  <-> (exists c, text !! t = Some c /\ ok c) /\ P (drop (S t) text).
Proof.
  split.
  - intros (c & s & [Hc <-]%drop_text & Ho & HP). eauto.
  - intros [(c & Hc & Ho) HP]. exists c, (drop (S t) text). split; [by apply drop_text|done].
Qed.


Lemma matches_at_eq fuel t p m :
  good m -> t <= length text -> p <= length ts ->
  (forall k, answers k (here t p) ->
     (forall m0, m0 = m -> recall m t p = Some None ->
        matches_at ts text (S fuel) t p m
        = let* (b, m) := k m0 in let* m := record m t p b in Some (b, m)) ->
     exists b m', matches_at ts text (S fuel) t p m = Some (b, m')
                  /\ (b = true <-> here t p) /\ good m').
Proof.
  intros Hm Ht Hp k Hk E. destruct (recall_good m t p Hm Ht Hp) as (row & cell & Hr & Hc & Hrec).
  destruct cell as [known|].
  - exists known, m. cbn [matches_at]. rewrite Hrec. split_and!; [done| |done].
    by eapply (good_known m Hm).
  - rewrite (E m eq_refl Hrec). destruct (Hk m Hm) as (b & m1 & -> & Hb & Hm1).
    destruct (record_good m1 t p b Hm1 Ht Hp Hb) as (m2 & -> & Hm2). by exists b, m2.
Qed.

(** The calls one token makes, each on less of the text or of the tokens. *)
Lemma token_answers fuel t p tok :
  (forall t' p', t' <= length text -> p' <= length ts ->
     length text - t' + (length ts - p') < fuel -> answers (matches_at ts text fuel t' p') (here t' p')) ->
  t <= length text -> p <= length ts -> length text - t + (length ts - p) < S fuel ->
  ts !! p = Some tok ->
  answers
    match tok with
    | Char c => and_then (bool_decide (text !! t = Some c)) (matches_at ts text fuel (S t) (S p))
    | One => and_then (not_slash text t) (matches_at ts text fuel (S t) (S p))
    | Star =>
        or_else (matches_at ts text fuel t (S p))
          (and_then (not_slash text t) (matches_at ts text fuel (S t) p))
    | Globstar false =>
        or_else (matches_at ts text fuel t (S p))
          (and_then (t <? length text)%nat (matches_at ts text fuel (S t) p))
    | Globstar true =>
        or_else (matches_at ts text fuel t (S p))
          (any_end text (fun t' => matches_at ts text fuel t' (S p)) (seq t (length text - t)))
    | Class negated ranges =>
        and_then (match text !! t with Some c => in_class negated ranges c | None => false end)
          (matches_at ts text fuel (S t) (S p))
    end (here t p).
Proof.
  intros IH Ht Hp Hf Htok. pose proof (lookup_lt_Some _ _ _ Htok) as Hlt.
  assert (forall c, text !! t = Some c -> S t <= length text) as Hnext.
  { intros c Hc%lookup_lt_Some. lia. }
  assert (answers (matches_at ts text fuel t (S p)) (here t (S p))) as Hskip by (apply IH; lia).
  assert (forall c, text !! t = Some c -> answers (matches_at ts text fuel (S t) (S p)) (here (S t) (S p)))
    as Hone by (intros c Hc; pose proof (Hnext c Hc); apply IH; lia).
  assert (forall c, text !! t = Some c -> answers (matches_at ts text fuel (S t) p) (here (S t) p))
    as Hmore.
  { intros c Hc. pose proof (Hnext c Hc). apply IH; lia. }
  unfold here at 1. rewrite (drop_token _ _ Htok). destruct tok as [c| | |[]|negated ranges].
  - eapply answers_iff.
    + apply answers_and_then. intros H%bool_decide_eq_true. by eapply Hone.
    + rewrite bool_decide_eq_true, fits_char. unfold here. split.
      * intros [Hc H]. exists (drop (S t) text). split; [by apply drop_text|done].
      * by intros (s & [Hc <-]%drop_text & H).
  - eapply answers_iff.
    + apply answers_and_then. intros (c & Hc & _)%not_slash_spec. by eapply Hone.
    + rewrite not_slash_spec, fits_one. symmetry. apply (here_one t (fun c => c <> SLASH)).
  - eapply answers_iff.
    + apply answers_or_else; [exact Hskip|]. apply answers_and_then.
      intros (c & Hc & _)%not_slash_spec. by eapply Hmore.
    + rewrite not_slash_spec, fits_star. unfold here. rewrite (drop_token _ _ Htok).
      rewrite <- (here_one t (fun c => c <> SLASH)). done.
  - eapply answers_iff.
    + apply answers_or_else; [exact Hskip|]. apply (answers_any_end _ (fun t' => here t' (S p))).
      intros e He%elem_of_seq Hc%lookup_lt_Some. apply IH; lia.
    + rewrite fits_segments, cut_text. done.
  - eapply answers_iff.
    + apply answers_or_else; [exact Hskip|]. apply answers_and_then.
      intros H%Nat.ltb_lt. destruct (lookup_lt_is_Some_2 text t H) as [c Hc]. by eapply Hmore.
    + rewrite Nat.ltb_lt, fits_globstar. unfold here. rewrite (drop_token _ _ Htok).
      assert (t < length text <-> exists c, text !! t = Some c /\ True) as ->.
      { rewrite <- lookup_lt_is_Some. split; [intros [c Hc]; eauto|intros (c & Hc & _); by exists c]. }
      rewrite <- (here_one t (fun _ => True)).
      split; (intros [H|(c & s & H)]; [by left|right]; exists c, s; tauto).
  - eapply answers_iff.
    + apply answers_and_then. destruct (text !! t) as [c|] eqn:Hc; [|done]. intros _. by eapply Hone.
    + rewrite fits_class. rewrite (here_one t (fun c => in_class negated ranges c = true)).
      assert (match text !! t with Some c => in_class negated ranges c | None => false end = true
              <-> exists c, text !! t = Some c /\ in_class negated ranges c = true) as ->; [|done].
      destruct (text !! t) as [c|]; [split; [eauto|by intros (d & [= <-] & H)]|]. split; [done|by intros (? & ? & _)].
Qed.

Lemma matches_at_answers fuel t p :
  t <= length text -> p <= length ts -> length text - t + (length ts - p) < fuel ->
  answers (matches_at ts text fuel t p) (here t p).
Proof.
  revert t p; induction fuel as [|fuel IH]; intros t p Ht Hp Hf m Hm; [lia|].
  destruct (ts !! p) as [tok|] eqn:Htok.
  - eapply matches_at_eq; [done..|by eapply (token_answers fuel t p tok)|].
    intros m0 -> Hrec. cbn [matches_at]. by rewrite Hrec, Htok.
  - apply lookup_ge_None in Htok as Hge.
    eapply matches_at_eq; [done..| |].
    + apply (answers_answer (bool_decide (t = length text))).
      unfold here. rewrite (drop_ge ts) by lia. rewrite fits_nil, bool_decide_eq_true.
      symmetry. by apply drop_end.
    + intros m0 -> Hrec. cbn [matches_at]. by rewrite Hrec, Htok.
Qed.

Lemma fresh_good :
  good (replicate (S (length text)) (replicate (S (length ts)) None)).
Proof.
  split.
  - by rewrite length_replicate.
  - intros t row [-> _]%lookup_replicate. by rewrite length_replicate.
  - intros t row p b [-> _]%lookup_replicate [? _]%lookup_replicate. done.
Qed.
End matches.

Lemma matches_fits g text :
  exists b, matches g text = Some b /\ (b = true <-> fits (tokens g) text).
Proof.
  destruct (matches_at_answers (tokens g) text (S (length text + length (tokens g))) 0 0
              ltac:(lia) ltac:(lia) ltac:(lia) _ (fresh_good (tokens g) text))
    as (b & m & E & Hb & _).
  exists b. unfold matches. by rewrite E.
Qed.

(** ** Lists of patterns *)

Lemma find_match_spec name l :
  exists b, find_match name l = Some b
  /\ (b = true <-> exists pre g post, l = pre ++ (true, g) :: post /\ fits (tokens g) name
                     /\ Forall (fun x => ~ fits (tokens x.2) name) pre).
Proof.
  induction l as [|[included g] l IH]; cbn [find_match].
  - exists false. split; [done|]. split; [done|]. by intros ([] & ? & ? & ? & _).
  - destruct (matches_fits g name) as ([] & -> & Hg).
    + exists included. split; [done|]. split.
      * intros ->. exists [], g, l. split_and!; [done|by apply Hg|done].
      * intros ([|x pre] & g' & post & Hl & Hf & Hpre); [by injection Hl|].
        apply (f_equal head) in Hl. injection Hl as <-.
        apply Forall_cons in Hpre as [Hn _]. by destruct Hn; apply Hg.
    + destruct IH as (b & -> & Hb). exists b. split; [done|]. rewrite Hb. split.
      * intros (pre & g' & post & -> & Hf & Hpre). exists ((included, g) :: pre), g', post.
        split_and!; [done..|]. constructor; [|done]. cbn. intros H. by apply Hg in H.
      * intros ([|x pre] & g' & post & Hl & Hf & Hpre).
        -- injection Hl as _ -> _. by apply Hg in Hf.
        -- injection Hl as <- ->. exists pre, g', post. split_and!; [done..|]. by apply Forall_cons in Hpre as [_ Hpre].
Qed.

(** ** The claims *)

(** C39: The matcher never reads its table past the end, always ends, and answers what the
    pattern means: [*] is any characters but [/], [**] any characters, [**/] any whole
    segments, [?] and a class one character but [/], and every other itself. *)
Theorem glob_matches (g : Glob) (text : list chr) :
  matches g text = Some true /\ fits (tokens g) text
  \/ matches g text = Some false /\ ~ fits (tokens g) text.
Proof.
  destruct (matches_fits g text) as ([] & -> & Hb); [left|right]; (split; [done|]).
  - by apply Hb.
  - intros H. by apply Hb in H.
Qed.

(** Of a list of patterns the last that fits a name decides: the name is in where an
    including pattern fits it and none after that one does, and else it is out. *)
Theorem last_match_decides (ps : Patterns) (name : list chr) :
  exists b, list_matches ps name = Some b
  /\ (b = true <-> exists pre g post, ps = pre ++ (true, g) :: post /\ fits (tokens g) name
                     /\ Forall (fun x => ~ fits (tokens x.2) name) post).
Proof.
  destruct (find_match_spec name (rev ps)) as (b & E & Hb). exists b. split; [exact E|].
  rewrite Hb. split; intros (pre & g & post & Hl & Hf & Hn).
  - exists (rev post), g, (rev pre). split_and!; [|done|by apply Forall_rev].
    rewrite <- (rev_involutive ps), Hl, rev_app_distr. cbn. by rewrite <- app_assoc.
  - exists (rev post), g, (rev pre). split_and!; [|done|by apply Forall_rev].
    rewrite Hl, rev_app_distr. cbn. by rewrite <- app_assoc.
Qed.

(** ** Compiling *)

(** The first pattern of an [_ignore] list is what [**] compiles to. *)
Lemma everything_new : new [STAR; STAR] = Ok EVERYTHING.
Proof. reflexivity. Qed.

(** No loop of the compiler looks at its fuel. *)
Lemma member_length c rest r after : member c rest = Some (r, after) -> length after <= length rest.
Proof.
  unfold member. destruct rest as [|d [|e rest]]; [by intros [= <- <-]..|].
  destruct (_ && _); [|by intros [= <- <-]]. destruct (e <? c)%N; [done|]. intros [= <- <-]. cbn. lia.
Qed.

Lemma class_fuel n m first rs cs :
  length cs <= n -> length cs <= m -> class_from n first rs cs = class_from m first rs cs.
Proof.
  revert m first rs cs; induction n as [|n IH]; intros [|m] first rs [|c cs] Hn Hm;
    cbn [length] in *; try done; try lia.
  cbn [class_from]. destruct (_ && _); [done|]. destruct (c =? BACKSLASH)%N.
  - destruct cs as [|d cs]; [done|]. destruct (member d cs) as [[r rest]|] eqn:E; [|done].
    apply member_length in E. cbn in *. apply IH; lia.
  - destruct (member c cs) as [[r rest]|] eqn:E; [|done]. apply member_length in E. apply IH; lia.
Qed.

Lemma class_from_length n first rs cs rs' rest :
  class_from n first rs cs = Some (rs', rest) -> length rest < length cs.
Proof.
  revert first rs cs; induction n as [|n IH]; intros first rs [|c cs]; try done.
  cbn [class_from length]. destruct (_ && _); [intros [= <- <-]; lia|].
  destruct (c =? BACKSLASH)%N.
  - destruct cs as [|d cs]; [done|]. destruct (member d cs) as [[r after]|] eqn:E; [|done].
    apply member_length in E. intros H%IH. cbn. lia.
  - destruct (member c cs) as [[r after]|] eqn:E; [|done]. apply member_length in E.
    intros H%IH. lia.
Qed.

Lemma class_length cs tok rest : class cs = Some (tok, rest) -> length rest <= length cs.
Proof.
  unfold class. destruct cs as [|c cs]; [done|].
  destruct (_ || _); (destruct (class_from _ _ _ _) as [[rs after]|] eqn:E; [|done]);
    apply class_from_length in E; intros [= <- <-]; cbn in *; lia.
Qed.

Lemma compile_fuel n m cs :
  length cs <= n -> length cs <= m -> compile n cs = compile m cs.
Proof.
  revert m cs; induction n as [|n IH]; intros [|m] [|c cs] Hn Hm;
    cbn [length] in *; try done; try lia.
  assert (forall rest, length rest <= length cs -> compile n rest = compile m rest) as Hc
    by (intros rest Hr; apply IH; lia).
  cbn [compile]. destruct (c =? BACKSLASH)%N.
  { destruct cs as [|d cs]; [done|]. by rewrite Hc by (cbn; lia). }
  destruct (c =? STAR)%N.
  { destruct cs as [|d [|e cs]]; [by rewrite Hc| |]; (destruct (d =? STAR)%N; [|by rewrite Hc]).
    - by rewrite Hc by (cbn; lia).
    - destruct (e =? STAR)%N; [done|]. destruct (e =? SLASH)%N; by rewrite Hc by (cbn; lia). }
  destruct (c =? QUESTION)%N; [by rewrite Hc|]. destruct (c =? OPEN)%N; [|by rewrite Hc].
  destruct (class cs) as [[tok rest]|] eqn:E; [|done]. apply class_length in E. by rewrite Hc.
Qed.
End CiGlobFacts.
