(* ===== verification/CiUses.v ===== *)
(** * What a step's [uses:] names ([dagron-ci-expr/src/uses.rs])

    An action of another repository, one of the workflow's own, or an image; and the
    directory a repository is fetched into, which is its own and stays under the actions'
    directory. *)

From S2P Require Import Prelude.

Module CiUses.

(** [Remote] *)
Record Remote := { owner : str; repo : str; path : str; git_ref : str }.

Definition repository (r : Remote) : str := owner r ++ $"/" ++ repo r.

(** [git_ref.replace('/', "%2F")] *)
Definition escape (s : str) : str := flat_map (fun c => if ch c "/" then $"%2F" else [c]) s.

(** [Remote::fetched_dir] *)
Definition fetched_dir (r : Remote) : str := owner r ++ $"/" ++ repo r ++ $"/" ++ escape (git_ref r).

(** [Remote::is_pinned] *)
Definition is_pinned (r : Remote) : bool :=
  let n := length (git_ref r) in
  ((n =? 40)%nat || (n =? 64)%nat)
  && forallb (fun b => is_digit b || in_range 97 102 b) (git_ref r).

Definition name_char (c : ascii) : bool := is_alnum c || ch c "-" || ch c "_" || ch c ".".

(** [is_ref] *)
Definition is_ref (name : str) : bool :=
  negb (bool_decide (name = [])) && (length name <=? 255)%nat
  && forallb (fun c => name_char c || ch c "/") name
  && negb (starts_with $"-" name || starts_with $"/" name || starts_with $"." name)
  && negb (ends_with $"/" name || ends_with $"." name)
  && negb (ends_with $".lock" name)
  && negb (contains $".." name) && negb (contains $"//" name) && negb (contains $"/." name).

Definition owner_ok (owner : str) : bool :=
  negb (bool_decide (owner = [])) && (length owner <=? 100)%nat && forallb name_char owner
  && negb (starts_with $"." owner).

(** [named] *)
Definition named (part : str) : bool :=
  negb (bool_decide (part = [])) && (length part <=? 100)%nat
  && negb (bool_decide (part = $".")) && negb (bool_decide (part = $".."))
  && forallb name_char part.

(** [what.splitn(3, '/')]: the owner, the repository and what is left, if there are both. *)
Definition split3 (what : str) : option (str * str * str) :=
  let* (owner, rest) := split_once $"/" what in
  match split_once $"/" rest with
  | Some (repo, path) => Some (owner, repo, path)
  | None => Some (owner, rest, [])
  end.

(** [remote] *)
Definition remote (uses : str) : option Remote :=
  let* (what, git_ref) := split_once $"@" (trim uses) in
  let* (owner, repo, path) := split3 what in
  let path_ok := bool_decide (path = []) || forallb named (split_char "/" path) in
  if owner_ok owner && named repo && path_ok && is_ref git_ref then
    Some {| owner := owner; repo := repo; path := path; git_ref := git_ref |}
  else None.

(** [local] *)
Definition local (uses : str) : option str :=
  let* dir := strip_prefix $"./" (trim uses) in
  let climbs := existsb (fun part => bool_decide (part = $"..")) (split_char "/" dir) in
  if negb climbs && negb (contains_char "000" dir) && negb (starts_with $"/" dir) then Some dir
  else None.

(** [docker] *)
Definition docker (uses : str) : option str :=
  let* image := strip_prefix $"docker://" (trim uses) in
  if negb (bool_decide (image = [])) && (length image <=? 512)%nat
     && negb (any_ws image || any_ctl image) then Some image
  else None.

(** ** The directory of a repository *)

Lemma name_char_plain c : name_char c = true -> ch "/" c = false /\ ch c "%" = false.
Proof. destruct c as [[] [] [] [] [] [] [] []]; vm_compute; intuition congruence. Qed.

Lemma names_plain s : forallb name_char s = true -> contains_char "/" s = false.
Proof.
  induction s as [|c s IH]; [done|]. cbn [forallb contains_char existsb].
  intros [Hc Hs]%andb_prop. rewrite (proj1 (name_char_plain c Hc)). by apply IH.
Qed.

Lemma ch_sym a b : ch a b = ch b a.
Proof. unfold ch. apply Ascii.eqb_sym. Qed.

(** A ref as it is written in a directory's name. *)
Lemma escape_plain s : contains_char "/" (escape s) = false.
Proof.
  induction s as [|c s IH]; [done|]. cbn [escape flat_map]. unfold contains_char in *.
  rewrite existsb_app. fold (escape s). rewrite IH, orb_false_r.
  destruct (ch c "/") eqn:E; [done|]. cbn [existsb]. by rewrite ch_sym, E.
Qed.

Lemma escape_inj s t :
  contains_char "%" s = false -> contains_char "%" t = false -> escape s = escape t -> s = t.
Proof.
  revert t; induction s as [|c s IH]; intros [|d t] Hs Ht; cbn [escape flat_map]; try done.
  - destruct (ch d "/"); done.
  - destruct (ch c "/"); done.
  - cbn [contains_char existsb] in Hs, Ht. apply orb_false_iff in Hs as [Hc Hs], Ht as [Hd Ht].
    fold (escape s) (escape t). rewrite ch_sym in Hc, Hd.
    destruct (ch c "/") eqn:Ec, (ch d "/") eqn:Ed; cbn [app lit String.list_ascii_of_string].
    + intros [= H]. apply ch_eq in Ec as ->, Ed as ->. f_equal. by apply IH.
    + intros [= <- _]. by rewrite ch_refl in Hd.
    + intros [= -> _]. by rewrite ch_refl in Hc.
    + intros [= <- H]. f_equal. by apply IH.
Qed.

Lemma ref_no_percent s : is_ref s = true -> contains_char "%" s = false.
Proof.
  unfold is_ref. rewrite !andb_true_iff. intros [[[[[[[[_ _] Hs] _] _] _] _] _] _].
  induction s as [|c s IH]; [done|]. cbn [forallb contains_char existsb] in *.
  apply andb_prop in Hs as [Hc Hs]. unfold contains_char in IH. rewrite (IH Hs), orb_false_r.
  apply orb_prop in Hc as [Hc|Hc]; [|apply ch_eq in Hc as ->; reflexivity].
  rewrite ch_sym. by destruct (name_char_plain c Hc).
Qed.

(** What [remote] accepts. *)
Record well_named (r : Remote) : Prop := {
  wn_owner : owner_ok (owner r) = true;
  wn_repo : named (repo r) = true;
  wn_ref : is_ref (git_ref r) = true;
}.

Lemma remote_named u r : remote u = Some r -> well_named r.
Proof.
  unfold remote. destruct (split_once _ _) as [[what ref]|]; [|done].
  destruct (split3 what) as [[[o p] q]|]; [|done]. destruct (_ && _) eqn:E; [|done].
  apply andb_prop in E as [[[Ho Hp]%andb_prop _]%andb_prop Hr]. by intros [= <-].
Qed.

Lemma owner_slash s : owner_ok s = true -> contains_char "/" s = false.
Proof. unfold owner_ok. rewrite !andb_true_iff. intros [[_ H] _]. by apply names_plain. Qed.

Lemma named_slash s : named s = true -> contains_char "/" s = false.
Proof. unfold named. rewrite !andb_true_iff. intros [_ H]. by apply names_plain. Qed.

Lemma fetched_pieces r :
  well_named r -> split_char "/" (fetched_dir r) = [owner r; repo r; escape (git_ref r)].
Proof.
  intros [Ho Hp Hr]. change (fetched_dir r) with (join ["/"%char] [owner r; repo r; escape (git_ref r)]).
  apply split_char_join; [done|]. rewrite !Forall_cons, Forall_nil; split_and!; [| | |done].
  - by apply owner_slash.
  - by apply named_slash.
  - apply escape_plain.
Qed.

(** A part of a path that names a directory below the one it is read in. *)
Definition steps_down (part : str) : Prop := part <> [] /\ part <> $"." /\ part <> $"..".

Lemma no_dot_steps s : s <> [] -> starts_with $"." s = false -> steps_down s.
Proof. intros Hs Hd. split_and!; [done|by intros ->..]. Qed.

Lemma escape_head s : s <> [] -> starts_with $"." s = false -> steps_down (escape s).
Proof.
  intros Hs Hd. destruct s as [|c s]; [done|]. cbn [escape flat_map]. destruct (ch c "/") eqn:E.
  - split_and!; done.
  - apply no_dot_steps; [done|]. revert Hd. unfold starts_with. cbn [app lit String.list_ascii_of_string strip_prefix]. by destruct (ch "." c).
Qed.

(** Two refs of repositories are fetched into two directories: what [fetched_dir] makes
    of two actions that [remote] accepts is the same only where owner, repository and ref
    are; and it is three steps down from the actions' directory, none of them [.] or [..]. *)
Theorem fetched_dir_own (u v : str) (r r' : Remote) :
  remote u = Some r -> remote v = Some r' ->
  (fetched_dir r = fetched_dir r' <->
   owner r = owner r' /\ repo r = repo r' /\ git_ref r = git_ref r')
  /\ length (split_char "/" (fetched_dir r)) = 3
  /\ Forall steps_down (split_char "/" (fetched_dir r)).
Proof.
  intros H%remote_named H'%remote_named. split_and!.
  - split; [|by unfold fetched_dir; intros (-> & -> & ->)].
    intros E%(f_equal (split_char "/")). rewrite !fetched_pieces in E by done.
    injection E as Ho Hp Hr. split_and!; [done..|].
    apply escape_inj; [apply ref_no_percent, H|apply ref_no_percent, H'|done].
  - by rewrite fetched_pieces.
  - rewrite fetched_pieces by done. destruct H as [Ho Hp Hr]. rewrite !Forall_cons, Forall_nil; split_and!; [| | |done].
    + unfold owner_ok in Ho. rewrite !andb_true_iff, !negb_true_iff, bool_decide_eq_false in Ho.
      apply no_dot_steps; apply Ho.
    + unfold named in Hp. rewrite !andb_true_iff, !negb_true_iff, !bool_decide_eq_false in Hp.
      split_and!; apply Hp.
    + unfold is_ref in Hr. rewrite !andb_true_iff, !negb_true_iff, bool_decide_eq_false in Hr.
      rewrite !orb_false_iff in Hr. apply escape_head; apply Hr.
Qed.

Lemma fetched_dir_own_witness :
  exists r r', remote $"acme/tool@v1/x" = Some r /\ remote $" acme/tool/sub@v1 " = Some r'
  /\ fetched_dir r <> fetched_dir r'.
Proof.
  exists {| owner := $"acme"; repo := $"tool"; path := []; git_ref := $"v1/x" |},
         {| owner := $"acme"; repo := $"tool"; path := $"sub"; git_ref := $"v1" |}.
  split; [by vm_compute|]. split; [by vm_compute|].
  intros E. apply (fetched_dir_own $"acme/tool@v1/x" $" acme/tool/sub@v1 ") in E as (_ & _ & E).
  - discriminate E.
  - by vm_compute.
  - by vm_compute.
Defined.
End CiUses.
