(* ===== verification/CiMatrix.v ===== *)
(** * A job's matrix ([dagron-ci-expr/src/matrix.rs])

    Every combination of the axes, less those [exclude] takes out, with what [include] adds;
    and a label for each row, which no other row has. *)

From S2P Require Import Prelude Json.

Module CiMatrix.

(** What the module uses of [serde_json]: [==] of two values, and [to_string] of one. *)
Class MatrixWorld := {
  json_num : Type;
  value_eq : Json.value json_num -> Json.value json_num -> bool;
  to_string : Json.value json_num -> str;
}.

Section matrix.
Context {W : MatrixWorld}.

Abbreviation value := (Json.value json_num).
Abbreviation Row := (list (str * value)).

(** [Matrix] *)
Record Matrix := {
  axes : list (str * list value);
  include : list Row;
  exclude : list Row;
}.

(** ** Combinations *)

(** One round of the loop over the axes. *)
Definition spread (rows : list Row) (axis : str) (values : list value) : list Row :=
  flat_map (fun row => map (fun v => row ++ [(axis, v)]) values) rows.

Fixpoint combine_axes (most : nat) (rows : list Row) (l : list (str * list value))
    : result nat (list Row) :=
  match l with
  | [] => Ok rows
  | (axis, values) :: l =>
      let rows := spread rows axis values in
      if (most <? length rows)%nat then Err (length rows) else combine_axes most rows l
  end.

(** [row.iter().any(|(rk, rv)| rk == k && rv == v)] *)
Definition holds (row : Row) (kv : str * value) : bool :=
  existsb (fun r => bool_decide (r.1 = kv.1) && value_eq r.2 kv.2) row.
Definition matches (row wanted : Row) : bool := forallb (holds row) wanted.

Definition is_axis (m : Matrix) (k : str) : bool := existsb (fun a => bool_decide (a.1 = k)) (axes m).

(** What an entry of [include] does to a row it fits. *)
Definition put (row : Row) (kv : str * value) : Row :=
  List.filter (fun r => negb (bool_decide (r.1 = kv.1))) row ++ [kv].
Definition extend (m : Matrix) (extra row : Row) : Row :=
  fold_left put (List.filter (fun kv => negb (is_axis m kv.1)) extra) row.

Definition fits (m : Matrix) (extra was : Row) : bool :=
  forallb (holds was) (List.filter (fun kv => is_axis m kv.1) extra)
  && match was with [] => false | _ => true end.

(** One entry of [include]: [zip] stops at the end of the rows as they were first. *)
Fixpoint extend_all (m : Matrix) (extra : Row) (rows original : list Row) : bool * list Row :=
  match rows, original with
  | row :: rows, was :: original =>
      let '(fitted, rest) := extend_all m extra rows original in
      if fits m extra was then (true, extend m extra row :: rest) else (fitted, row :: rest)
  | rows, _ => (false, rows)
  end.

Definition include_one (m : Matrix) (original rows : list Row) (extra : Row) : list Row :=
  let '(fitted, rows) := extend_all m extra rows original in
  if fitted then rows else rows ++ [extra].

(** [rows] *)
Definition rows (m : Matrix) (most : nat) : result nat (list Row) :=
  let? made := combine_axes most [[]] (axes m) in
  let made := match axes m with [] => [] | _ => made end in
  let original := List.filter (fun row => negb (existsb (matches row) (exclude m))) made in
  let all := fold_left (include_one m original) (include m) original in
  if (most <? length all)%nat then Err (length all) else Ok all.

(** ** Labels *)

Definition is_nested (v : value) : bool := match v with JObject _ | JArray _ => true | _ => false end.
Definition value_text (v : value) : str := match v with JString s => s | v => to_string v end.

(** The characters of a label: of one of several bytes the first stands for all. *)
Definition mask (c : ascii) : str :=
  if is_alnum c || ch c "_" then [c] else if is_cont c then [] else $"-".
Definition wanted (row : Row) : str :=
  take 40 (flat_map mask (join $"-" (map (fun kv => value_text kv.2)
                                       (List.filter (fun kv => negb (is_nested kv.2)) row)))).

(** The places a row may be told apart by: [index], then [index-1], [index-2]. *)
Definition place (index again : nat) : str :=
  match again with O => show_nat index | _ => show_nat index ++ $"-" ++ show_nat again end.

(** The loop that tells a place apart, [again] places tried. *)
Fixpoint tell_apart (fuel : nat) (seen : list str) (index again : nat) : option str :=
  match fuel with
  | O => None
  | S fuel =>
      if bool_decide (place index again ∈ seen) then tell_apart fuel seen index (S again)
      else Some (place index again)
  end.

Definition label (seen : list str) (index : nat) (row : Row) : option str :=
  let l := wanted row in
  if bool_decide (trim_char "-" l = []) || bool_decide (l ∈ seen) then
    tell_apart (S (length seen)) seen index 0
  else Some l.

(** [labelled]: [None] where a loop does not end. *)
Fixpoint labelled_from (seen : list str) (index : nat) (rows : list Row) : option (list (str * Row)) :=
  match rows with
  | [] => Some []
  | row :: rows =>
      let* l := label seen index row in
      let* rest := labelled_from (seen ++ [l]) (S index) rows in
      Some ((l, row) :: rest)
  end.
Definition labelled (rows : list Row) : option (list (str * Row)) := labelled_from [] 0 rows.

(** ** The labels are each row's own *)

Lemma digit_dash c : is_digit c = true -> ch "-" c = false.
Proof. destruct c as [[] [] [] [] [] [] [] []]; vm_compute; congruence. Qed.

Lemma show_no_dash n : contains_char "-" (show_nat n) = false.
Proof.
  unfold show_nat. destruct (show_N_spec (N.of_nat n)) as (_ & H & _).
  induction (show_N (N.of_nat n)) as [|c s IH]; [done|]. cbn [forallb] in H.
  apply andb_prop in H as [Hc Hs]. unfold contains_char in *. cbn [existsb].
  by rewrite (digit_dash c Hc), IH.
Qed.

Lemma place_inj i a b : place i a = place i b -> a = b.
Proof.
  assert (forall k, show_nat i <> show_nat i ++ $"-" ++ show_nat (S k)) as Hne.
  { intros k H%(f_equal length). rewrite !length_app in H. cbn in H. lia. }
  destruct a as [|a], b as [|b]; cbn [place]; [done|by intros H%Hne| |].
  - intros H. symmetry in H. by apply Hne in H.
  - intros H%(app_inv_head (show_nat i))%(app_inv_head $"-")%show_nat_inj. done.
Qed.

(** The loop ends: it tries one place more than there are labels. *)
Lemma tell_apart_none fuel seen i a :
  tell_apart fuel seen i a = None -> forall k, a <= k < a + fuel -> place i k ∈ seen.
Proof.
  revert a; induction fuel as [|fuel IH]; intros a; cbn [tell_apart]; [lia|].
  case_bool_decide as Hin; [|done]. intros H k Hk. destruct (decide (k = a)) as [->|]; [done|].
  apply (IH (S a) H). lia.
Qed.

Lemma tell_apart_ends seen i : exists l, tell_apart (S (length seen)) seen i 0 = Some l.
Proof.
  destruct (tell_apart _ _ _ _) as [l|] eqn:E; [by exists l|exfalso].
  apply (no_room (place i) seen); [intros a b; apply place_inj|].
  intros k Hk. apply (tell_apart_none _ _ _ _ E). lia.
Qed.

Lemma tell_apart_place fuel seen i a l :
  tell_apart fuel seen i a = Some l -> exists k, l = place i k /\ l ∉ seen.
Proof.
  revert a; induction fuel as [|fuel IH]; intros a; cbn [tell_apart]; [done|].
  case_bool_decide as Hin; [apply IH|]. intros [= <-]. by exists a.
Qed.

(** The characters a label is made of. *)
Definition label_char (c : ascii) : Prop := is_alnum c = true \/ c = "_"%char \/ c = "-"%char.

Lemma digits_label s : forallb is_digit s = true -> Forall label_char s.
Proof.
  induction s as [|c s IH]; [done|]. intros [Hc Hs]%andb_prop. constructor; [|by apply IH].
  left. unfold is_alnum. rewrite Hc. apply orb_true_r.
Qed.

Lemma show_label n : Forall label_char (show_nat n).
Proof. apply digits_label. unfold show_nat. apply show_N_spec. Qed.

Lemma place_label i a : Forall label_char (place i a) /\ place i a <> [].
Proof.
  assert (show_nat i <> []) as Hne by (unfold show_nat; apply show_N_spec).
  destruct a as [|a]; cbn [place]; split; [apply show_label|done| |by destruct (show_nat i)].
  apply Forall_app; split; [apply show_label|]. constructor; [by right; right|apply show_label].
Qed.

Lemma wanted_label row : Forall label_char (wanted row).
Proof.
  apply Forall_take, Forall_forall. intros c Hc%list_elem_of_In.
  apply in_flat_map in Hc as (d & _ & Hc). unfold mask in Hc.
  destruct (is_alnum d || ch d "_") eqn:E.
  - destruct Hc as [<-|[]]. apply orb_prop in E as [E|E]; [by left|].
    right; left. by apply ch_eq in E.
  - destruct (is_cont d); [done|]. destruct Hc as [<-|[]]. by right; right.
Qed.

Lemma label_spec seen i row :
  exists l, label seen i row = Some l /\ (l ∉ seen) /\ Forall label_char l /\ l <> [].
Proof.
  unfold label. destruct (_ || _) eqn:E.
  - destruct (tell_apart_ends seen i) as [l Hl]. exists l. split; [done|].
    apply tell_apart_place in Hl as (k & -> & Hn). split; [done|]. apply place_label.
  - apply orb_false_iff in E as [E1%bool_decide_eq_false E2%bool_decide_eq_false].
    exists (wanted row). split_and!; [done..|apply wanted_label|]. intros Hw. by rewrite Hw in E1.
Qed.

Lemma labelled_from_spec seen i rs :
  exists l, labelled_from seen i rs = Some l /\ map snd l = rs /\ NoDup (map fst l)
            /\ (forall x, x ∈ map fst l -> x ∉ seen)
            /\ Forall (fun x => Forall label_char x /\ x <> []) (map fst l).
Proof.
  revert seen i; induction rs as [|row rs IH]; intros seen i; cbn [labelled_from].
  - exists []. split_and!; [done..|constructor|set_solver|done].
  - destruct (label_spec seen i row) as (l & -> & Hn & Hc).
    destruct (IH (seen ++ [l]) (S i)) as (rest & -> & H1 & H2 & H3 & H4).
    exists ((l, row) :: rest). cbn [map fst snd]. split_and!.
    + done.
    + by f_equal.
    + constructor; [|done]. intros Hin%H3. set_solver.
    + intros x [->|Hx]%elem_of_cons; [done|]. apply H3 in Hx. set_solver.
    + by constructor.
Qed.

(** Every row has a label, and no two rows have one: [labelled] always ends, keeps the
    rows in their order, and gives them distinct labels of letters, digits, [_] and [-],
    none of them empty. *)
Theorem labels_distinct (rs : list Row) :
  exists l, labelled rs = Some l /\ map snd l = rs /\ NoDup (map fst l)
            /\ Forall (fun x => Forall label_char x /\ x <> []) (map fst l).
Proof.
  destruct (labelled_from_spec [] 0 rs) as (l & H1 & H2 & H3 & _ & H4). by exists l.
Qed.

(** ** The rows are the combinations *)

(** Every choice of a value for each axis, the last axis varying first. *)
Fixpoint product (l : list (str * list value)) : list Row :=
  match l with
  | [] => [[]]
  | (axis, values) :: l => flat_map (fun v => map (cons (axis, v)) (product l)) values
  end.

Lemma flat_map_map {A B C} (f : A -> B) (g : B -> list C) l :
  flat_map g (map f l) = flat_map (fun x => g (f x)) l.
Proof. induction l as [|x l IH]; [done|]. cbn. by rewrite IH. Qed.

Lemma flat_map_flat {A B C} (f : A -> list B) (g : B -> list C) l :
  flat_map g (flat_map f l) = flat_map (fun x => flat_map g (f x)) l.
Proof. induction l as [|x l IH]; [done|]. cbn. by rewrite flat_map_app, IH. Qed.

Lemma map_flat {A B C} (f : A -> list B) (g : B -> C) l :
  map g (flat_map f l) = flat_map (fun x => map g (f x)) l.
Proof. induction l as [|x l IH]; [done|]. cbn. by rewrite map_app, IH. Qed.

Lemma combine_product most rs l made :
  combine_axes most rs l = Ok made -> made = flat_map (fun row => map (app row) (product l)) rs.
Proof.
  revert rs; induction l as [|[a vs] l IH]; intros rs; cbn [combine_axes product].
  - intros [= <-]. induction rs as [|r rs IH]; [done|]. cbn. rewrite app_nil_r. by f_equal.
  - destruct (_ <? _)%nat; [done|]. intros ->%IH. unfold spread. rewrite flat_map_flat.
    apply flat_map_ext. intros row. rewrite flat_map_map, map_flat. apply flat_map_ext. intros v.
    rewrite map_map. apply map_ext. intros x. by rewrite <- app_assoc.
Qed.

(** The combinations that [exclude] leaves. *)
Definition combinations (m : Matrix) : list Row :=
  match axes m with
  | [] => []
  | l => List.filter (fun row => negb (existsb (matches row) (exclude m))) (product l)
  end.

(** What a row holds of the axes. *)
Definition of_axes (m : Matrix) (row : Row) : Row := List.filter (fun kv => is_axis m kv.1) row.

Lemma put_axes m row kv : is_axis m kv.1 = false -> of_axes m (put row kv) = of_axes m row.
Proof.
  intros Hk. unfold of_axes, put. rewrite List.filter_app. cbn [List.filter]. rewrite Hk, app_nil_r.
  induction row as [|r row IH]; [done|]. cbn [List.filter]. case_bool_decide as Hr; cbn [negb].
  - rewrite Hr, Hk. exact IH.
  - cbn [List.filter]. by rewrite IH.
Qed.

Lemma extend_axes m extra row : of_axes m (extend m extra row) = of_axes m row.
Proof.
  unfold extend. revert row; induction extra as [|kv extra IH]; intros row; [done|].
  cbn [List.filter]. destruct (is_axis m kv.1) eqn:E; cbn [negb]; [apply IH|].
  cbn [fold_left]. rewrite IH. by apply put_axes.
Qed.

(** The rows as they go: the combinations, their axes as they were, then entries of
    [include]. *)
Definition grown (m : Matrix) (original : list Row) (l : list Row) (rs : list Row) : Prop :=
  exists kept extras, rs = kept ++ extras
  /\ Forall2 (fun row was => of_axes m row = of_axes m was) kept original
  /\ extras `sublist_of` l.

Lemma extend_all_grown m extra kept extras original :
  Forall2 (fun row was => of_axes m row = of_axes m was) kept original ->
  exists b kept', extend_all m extra (kept ++ extras) original = (b, kept' ++ extras)
  /\ Forall2 (fun row was => of_axes m row = of_axes m was) kept' original.
Proof.
  induction 1 as [|row was kept original Hr _ (b & kept' & E & Hk)].
  - exists false, []. by destruct extras.
  - cbn [app extend_all]. rewrite E. destruct (fits m extra was).
    + exists true, (extend m extra row :: kept'). split; [done|]. constructor; [|done].
      by rewrite extend_axes.
    + exists b, (row :: kept'). split; [done|]. by constructor.
Qed.

Lemma include_grown m original seen l rs :
  grown m original seen rs -> grown m original (seen ++ l) (fold_left (include_one m original) l rs).
Proof.
  revert seen rs; induction l as [|extra l IH]; intros seen rs Hg; cbn [fold_left].
  - by rewrite app_nil_r.
  - change (extra :: l) with ([extra] ++ l). rewrite app_assoc. apply IH.
    destruct Hg as (kept & extras & -> & Hk & Hs). unfold include_one.
    destruct (extend_all_grown m extra kept extras original Hk) as (b & kept' & -> & Hk').
    destruct b.
    + exists kept', extras. split_and!; [done..|]. by apply sublist_inserts_r.
    + exists kept', (extras ++ [extra]). split_and!; [by rewrite <- app_assoc|done|].
      by apply sublist_app.
Qed.

(** A matrix comes to its combinations: the rows are, in the order they are written,
    every choice of the axes' values that [exclude] leaves, each with the values of its axes
    as they were whatever [include] adds to it, and then entries of [include] in their
    order; and they are never more than [most]. *)
Theorem rows_combinations (m : Matrix) (most : nat) (rs : list Row) :
  rows m most = Ok rs ->
  length rs <= most
  /\ exists kept extras, rs = kept ++ extras
     /\ Forall2 (fun row was => of_axes m row = of_axes m was) kept (combinations m)
     /\ extras `sublist_of` include m.
Proof.
  unfold rows. destruct (combine_axes _ _ _) as [made|] eqn:E; [|done].
  apply combine_product in E. cbn [flat_map] in E. rewrite app_nil_r in E.
  assert (List.filter (fun row => negb (existsb (matches row) (exclude m)))
            (match axes m with [] => [] | _ => made end) = combinations m) as ->.
  { unfold combinations. destruct (axes m); [done|]. rewrite E. f_equal. by rewrite map_id. }
  destruct (Nat.ltb_spec most (length (fold_left (include_one m (combinations m)) (include m)
                                         (combinations m)))); [done|].
  intros [= <-]. split; [done|].
  apply (include_grown m (combinations m) [] (include m)). exists (combinations m), [].
  split_and!; [by rewrite app_nil_r| |done]. clear. by induction (combinations m); constructor.
Qed.

End matrix.
End CiMatrix.
