(* ===== verification/CiWitnesses.v ===== *)
(** * The workflow language's theorems at work

    A concrete [serde_json] and two hosts that differ in the branch a pull request comes
    from; each theorem with a hypothesis applied to them. *)

From S2P Require Import Prelude F64 Json CiExpr CiEval CiScript CiHostFacts CiScriptFacts CiMatrix.

Module CiWitnesses.

Import CiExpr CiEval CiScript CiHostFacts CiScriptFacts.

(** A stand-in for [serde_json] whose numbers are the integers. *)
#[local] Instance json : CiWorld := {|
  json_num := Z;
  as_f64 z := Some (F64.normalize (z <? 0)%Z (Z.abs z) 0);
  of_i64 z := z;
  from_f64 _ := None;
  from_str _ := None;
  to_string_pretty _ := [];
  map_of m := m;
  to_lowercase := to_lower;
|}.

(** An event from a branch of this name. *)
Definition event (branch : str) : value :=
  Object [($"sha", String $"0a1b"); ($"head_ref", String branch)].
Definition host (branch : str) : Host := {|
  context c := if bool_decide (to_lower c = $"github") then Some (event branch) else None;
  host_call _ _ := None;
|}.

Lemma event_get a b p : trusted_name p = true -> get (event a) p = get (event b) p.
Proof.
  intros Hp. unfold get, event. cbn [List.find].
  change (?k, ?v).1 with k. repeat case_bool_decide; try done.
  - subst p. discriminate Hp.
  - destruct (eq_ignore_case $"sha" p); [done|]. destruct (eq_ignore_case $"head_ref" p) eqn:E; [|done].
    apply bool_decide_eq_true in E. unfold trusted_name in Hp. rewrite <- E in Hp. discriminate Hp.
Qed.

Lemma hosts_agree a b : agree (host a) (host b).
Proof.
  split; cbn [context host host_call].
  - intros c Hc. case_bool_decide as E; [|done]. rewrite E in Hc. discriminate Hc.
  - intros c E. rewrite E. split_and!; [done..|]. apply event_get.
  - done.
Qed.

Lemma pasted_same_value_witness :
  eval_expr (host $"main") (Property (Context $"github") $"sha")
  = eval_expr (host $"$(rm -rf)") (Property (Context $"github") $"sha").
Proof. apply pasted_same_value; [apply hosts_agree|vm_compute; reflexivity]. Defined.

Definition run : str := $"echo ${{ github.sha }} ${{ github.head_ref }}".
Definition handed : str := $"echo ${{ github.sha }} ${__CI_E1}".

Lemma script_same_text_witness :
  exists t, template handed = Ok t
            /\ text_of (host $"main") t = text_of (host $"$(rm -rf)") t.
Proof.
  apply (script_same_text (host $"main") (host $"$(rm -rf)") run true handed [$"github.head_ref"]).
  - apply hosts_agree.
  - vm_compute. reflexivity.
Defined.

Lemma script_spec_witness :
  exists l tail, run = glue l tail
    /\ script run false = Ok (if negb false && existsb outside l then None
                              else Some (rewritten 0 l tail, kept_of l)).
Proof.
  destruct (template run) as [orig|e] eqn:E; [|vm_compute in E; discriminate E].
  destruct (script_spec run false orig E) as (l & tail & H1 & _ & H2). by exists l, tail.
Defined.

#[local] Instance matrix_json : CiMatrix.MatrixWorld := {|
  CiMatrix.json_num := Z;
  CiMatrix.value_eq a b :=
    match a, b with
    | JString s, JString t => bool_decide (s = t)
    | JNumber x, JNumber y => (x =? y)%Z
    | _, _ => false
    end;
  CiMatrix.to_string v := match v with JNumber z => show_Z z | _ => [] end;
|}.

(** Two systems and two versions, one pair left out, a note on one system and a row of its
    own. *)
Definition matrix : CiMatrix.Matrix := {|
  CiMatrix.axes := [($"os", [JString $"linux"; JString $"mac"]); ($"node", [JNumber 18%Z; JNumber 20%Z])];
  CiMatrix.include := [[($"os", JString $"mac"); ($"note", JString $"slow")]; [($"os", JString $"bsd")]];
  CiMatrix.exclude := [[($"os", JString $"mac"); ($"node", JNumber 18%Z)]];
|}.

Lemma rows_combinations_witness :
  exists rs kept extras, CiMatrix.rows matrix 10 = Ok rs /\ length rs <= 10 /\ rs = kept ++ extras.
Proof.
  destruct (CiMatrix.rows matrix 10) as [rs|n] eqn:E; [|vm_compute in E; discriminate E].
  destruct (CiMatrix.rows_combinations matrix 10 rs E) as (H1 & kept & extras & H2 & _).
  by exists rs, kept, extras.
Defined.

(** What they come to. *)
Example matrix_rows :
  option_map (map fst) (match CiMatrix.rows matrix 10 with
                        | Ok rs => CiMatrix.labelled rs
                        | Err _ => None
                        end)
  = Some [$"linux-18"; $"linux-20"; $"mac-20-slow"; $"bsd"].
Proof. vm_compute. reflexivity. Qed.
End CiWitnesses.
