(* ===== verification/Expand.v ===== *)
(** * The expansion of templates and fan-outs ([dagron-core/src/expand.rs])

    A workflow that calls its templates, fans tasks out over lists and guards them with
    conditions becomes a flat list of leaf tasks, wired together; and a task that fans out
    at run time becomes its instances once the list is known.  The budget of tasks is
    threaded; the depth left bounds the calls of templates in templates. *)

From S2P Require Import Prelude Json Spec Cond.
From coqutil Require Import Datatypes.RecordSettersUsingExistingGetters.

Module Expand.

Import Spec.

(** [MAX_DEPTH], [MAX_TASKS], [max_tasks_per_run] *)
Definition MAX_DEPTH : nat := 64.
Definition MAX_TASKS : N := 100000.
Definition max_tasks_per_run (env : str -> option str) : N :=
  match (let* v := env $"DAGRON_MAX_TASKS_PER_RUN" in parse_u64 v) with
  | Some n => if (0 <? n)%N && (n <=? MAX_TASKS)%N then n else MAX_TASKS
  | None => MAX_TASKS
  end.

(** ** Errors *)

(** Where a task says what does not go together. *)
Inductive conflict :=
| GateCalls | GateRuns | TriggerCalls | TriggerRuns | SensorCalls | SensorRuns
| NeitherOrBoth
| CallDefers | CallPulls | CallRepeats | CallForgeToken | CallPrivileged
| TwoLists | OutputAndList | OutputOfCall | OutputOfGang | OutputOfType
| NothingToLabel.

Inductive expand_error :=
| UsesUnresolved
| DuplicateTemplate (n : str)
| DuplicateTask (n : str)
| UnknownDependency (task dep : str)
| UnknownTemplate (task n : str)
| TooDeep (task : str)
| TooMany
| Conflict (task : str) (c : conflict)
| ParamNotJson (task : str)
| ParamNotArray (task : str)
| EmptyList (task : str)
| BadCondition (task : str) (e : Cond.cond_error)
| CallRuntimeWhen (task : str)
| EmptyLabel (task : str) (i : nat)
| DuplicateLabel (task label : str)
| BadHook (task hook : str)
| OutputNotJson (task row why : str)
| OutputNotArray (task row got : str).

Section expand.
Context {Num : Type} {J : SerdeJson Num}.

Abbreviation value := (Json.value Num).
Abbreviation TaskSpec := (Spec.TaskSpec Num).
Abbreviation TemplateSpec := (Spec.TemplateSpec Num).
Abbreviation DagSpec := (Spec.DagSpec Num).

(** [Expanded] *)
Record Expanded := { roots : list str; exits : list str; ex_tasks : list TaskSpec }.
Definition empty : Expanded := {| roots := []; exits := []; ex_tasks := [] |}.

(** ** Values in templates *)

(** [plain] *)
Definition plain (v : value) : str :=
  match v with
  | JString s => s
  | JNumber n => num_to_string n
  | JBool b => bool_to_string b
  | JNull => []
  | other => json_to_string other
  end.

(** [bind_item] *)
Definition bind_item (c : Cond.ctx) (item : value) : Cond.ctx :=
  let c := <[ $"item" := plain item ]> c in
  match item with
  | JObject members => fold_left (fun c kv => <[ $"item." ++ kv.1 := plain kv.2 ]> c) members c
  | _ => c
  end.

(** The scope of one instance. *)
Definition bind_instance (c : Cond.ctx) (i : nat) (item : value) : Cond.ctx :=
  <[ $"index" := show_nat i ]> (bind_item c item).

(** [resolve_items] *)
Definition resolve_items (task : TaskSpec) (c : Cond.ctx) : result expand_error (list (option value)) :=
  match with_items task with
  | Some items => Ok (map Some items)
  | None =>
      match with_param task with
      | Some param =>
          match json_from_str (Cond.substitute param c) with
          | Ok (JArray items) => Ok (map Some items)
          | Ok _ => Err (ParamNotArray (name task))
          | Err _ => Err (ParamNotJson (name task))
          end
      | None => Ok [None]
      end
  end.

(** [MAX_LABEL], and the loop of [sanitize_label]: [n] bytes are out already. *)
Definition MAX_LABEL : nat := 64.
Fixpoint sanitize_from (n : nat) (last_dash : bool) (s : str) : str :=
  match s with
  | [] => []
  | c :: s =>
      if (MAX_LABEL <=? n)%nat then []
      else if is_alnum c || ch c "_" || ch c "-" then c :: sanitize_from (S n) false s
      else if is_cont c then sanitize_from n last_dash s
      else if last_dash then sanitize_from n true s
      else "-"%char :: sanitize_from (S n) true s
  end.
Definition sanitize_label (raw : str) : str := trim_char "-" (sanitize_from 0 false raw).

(** The label of one instance: [instance_key] filled in, or its place. *)
Definition instance_label (task : TaskSpec) (c : Cond.ctx) (i : nat) (seen : list str)
    : result expand_error (list str * str) :=
  match instance_key task with
  | Some key =>
      let label := sanitize_label (Cond.substitute key c) in
      if bool_decide (label = []) then Err (EmptyLabel (name task) i)
      else if bool_decide (label ∈ seen) then Err (DuplicateLabel (name task) label)
      else Ok (seen ++ [label], label)
  | None => Ok (seen, show_nat i)
  end.

(** ** Leaves *)

Definition fill_env (c : Cond.ctx) (e : EnvVar) : EnvVar :=
  {| ev_name := ev_name e; ev_value := Cond.substitute (ev_value e) c; value_from := value_from e |}.

(** [Ready::filled] and [ServiceSpec::filled] *)
Definition filled_ready (fill : str -> str) (r : ServiceReady) : ServiceReady :=
  match r with Shell line => Shell (fill line) | Exec argv => Exec (map fill argv) end.
Definition filled_service (fill : str -> str) (s : ServiceSpec) : ServiceSpec :=
  {| sv_name := sv_name s; image := fill (image s); args := map fill (args s);
     sv_env := map (fun e => {| ev_name := ev_name e; ev_value := fill (ev_value e);
                                value_from := value_from e |}) (sv_env s);
     sv_ready := option_map (filled_ready fill) (sv_ready s);
     ready_timeout_secs := ready_timeout_secs s; sv_resources := sv_resources s;
     daemon := daemon s |}.

Definition fill_http (f : str -> str) (h : DeferHttpSpec) : DeferHttpSpec :=
  {| dh_url := f (dh_url h);
     headers := map (fun e => {| ev_name := ev_name e; ev_value := f (ev_value e);
                                 value_from := value_from e |}) (headers h);
     succeed_when := f (succeed_when h);
     fail_when := option_map f (fail_when h);
     error_from := option_map f (error_from h);
     cancel := option_map (fun c => {| dc_url := f (dc_url c); dc_method := dc_method c;
                                       dc_body := option_map f (dc_body c) |}) (cancel h) |}.

Definition fill_defer (f : str -> str) (d : DeferSpec) : DeferSpec :=
  {| df_kind := f (df_kind d); poll_secs := poll_secs d; cost := cost d;
     max_wait_secs := max_wait_secs d; http := option_map (fill_http f) (http d);
     connection := option_map f (connection d) |}.

(** A base that comes out empty is none. *)
Definition fill_path_cache (f : str -> str) (p : PathCacheSpec) : PathCacheSpec :=
  {| prefix := f (prefix p); key_files := map f (key_files p); paths := map f (paths p);
     restore_from :=
       let* r := option_map f (restore_from p) in
       if bool_decide (trim r = []) then None else Some r |}.

Definition fill_workspace (f : str -> str) (w : WorkspaceSpec) : WorkspaceSpec :=
  {| ws_size := ws_size w;
     checkout := option_map (fun c => {| co_repository := f (co_repository c);
                                         commit := f (commit c); depth := depth c;
                                         patched := patched c |}) (checkout w);
     ws_cache := map (fill_path_cache f) (ws_cache w);
     actions := actions w; tools := tools w |}.

Definition fill_wait (f : str -> str) (w : WaitSpec) : WaitSpec :=
  {| wait_for := option_map f (wait_for w); wait_until := option_map f (wait_until w);
     wait_spec_url := option_map f (wait_spec_url w);
     wait_spec_dataset := option_map f (wait_spec_dataset w) |}.

(** [build_leaf] *)
Definition build_leaf (task : TaskSpec) (n : str) (c : Cond.ctx) (runtime_when : option str) : TaskSpec :=
  let f := fun s => Cond.substitute s c in
  {| name := n;
     command := map f (command task);
     depends_on := [];
     input := input task;
     template := None;
     arguments := if bool_decide (task_type task = Some $"workflow")
                  then f <$> arguments task else arguments task;
     with_items := None;
     with_param := None;
     with_output_of := with_output_of task;
     when := runtime_when;
     instance_key := match with_output_of task with Some _ => instance_key task | None => None end;
     trigger_rule := trigger_rule task;
     hook := hook task;
     allow_failure := allow_failure task;
     task_type := task_type task;
     workflow := workflow task;
     wait := option_map (fill_wait f) (wait task);
     approval_timeout_secs := approval_timeout_secs task;
     approval_on_timeout := approval_on_timeout task;
     approval_message := option_map f (approval_message task);
     approval_show := map f (approval_show task);
     binds := map f (binds task);
     approvers := map f (approvers task);
     not_triggerer := not_triggerer task;
     max_attempts := max_attempts task;
     retry_delay_secs := retry_delay_secs task;
     retry_max_delay_secs := retry_max_delay_secs task;
     retry_on_timeout := retry_on_timeout task;
     retry_budgets := retry_budgets task;
     timeout_secs := timeout_secs task;
     docker_image := option_map f (docker_image task);
     image_pull_policy := image_pull_policy task;
     env := map (fill_env c) (env task);
     environment := environment task;
     resources := resources task;
     service_account := option_map f (service_account task);
     runner_class := option_map f (runner_class task);
     priority := priority task;
     pool := pool task;
     cache := option_map (fun k => {| cache_key := f (cache_key k); max_age_secs := max_age_secs k |})
                (cache task);
     repeat := option_map (fun r => {| until := f (until r); max_iterations := max_iterations r;
                                       delay_secs := delay_secs r |}) (repeat task);
     defer := option_map (fill_defer f) (defer task);
     produces := map f (produces task);
     gang := gang task;
     gang_member := None;
     isolation := isolation task;
     workspace := option_map (fill_workspace f) (workspace task);
     services := map (filled_service f) (services task);
     env_from := env_from task;
     identity := identity task;
     forge_token := forge_token task;
     docker_daemon := docker_daemon task;
     privileged := privileged task;
     tokens := tokens task;
     artifact_api := artifact_api task |}.

(** ** One task *)

Definition is_some {A} (o : option A) : bool := match o with Some _ => true | None => false end.
Definition is_call (t : TaskSpec) : bool := is_some (template t).
Definition has_command (t : TaskSpec) : bool := negb (bool_decide (command t = [])).

(** What [expand_one] refuses before anything resolves, in its order. *)
Definition conflicts (t : TaskSpec) : list (bool * conflict) :=
  (if is_approval t then [(is_call t, GateCalls); (has_command t, GateRuns)]
   else if is_workflow t then [(is_call t, TriggerCalls); (has_command t, TriggerRuns)]
   else if is_wait t then [(is_call t, SensorCalls); (has_command t, SensorRuns)]
   else [(Bool.eqb (is_call t) (has_command t), NeitherOrBoth)])
  ++ [(is_call t && is_some (defer t), CallDefers);
      (is_call t && is_some (image_pull_policy t), CallPulls);
      (is_call t && is_some (repeat t), CallRepeats);
      (is_call t && is_some (forge_token t), CallForgeToken);
      (is_call t && privileged t, CallPrivileged);
      (is_some (with_items t) && is_some (with_param t), TwoLists)]
  ++ (if is_some (with_output_of t) then
        [(is_some (with_items t) || is_some (with_param t), OutputAndList);
         (is_call t, OutputOfCall);
         (is_some (gang t), OutputOfGang);
         (negb (bool_decide (task_type t = None) || bool_decide (task_type t = Some $"task")),
           OutputOfType)]
      else [])
  ++ [(is_some (instance_key t) && negb (is_some (with_items t)) && negb (is_some (with_param t))
       && negb (is_some (with_output_of t)), NothingToLabel)].

Definition first_conflict (t : TaskSpec) : option conflict :=
  option_map snd (List.find fst (conflicts t)).

(** What a guard makes of an instance: nothing, or a leaf with what is left for run time. *)
Inductive guarded := Skipped | Kept (runtime : option str).

(** The parts of an [and] chain: those that wait for run time, and whether the rest hold. *)
Fixpoint split_parts (parts : list str) (runtime : list str) (keep : bool)
    : result Cond.cond_error (list str * bool) :=
  match parts with
  | [] => Ok (runtime, keep)
  | p :: parts =>
      if Cond.when_refs_task_outputs p then split_parts parts (runtime ++ [p]) keep
      else
        let? b := Cond.eval_when p in
        split_parts parts runtime (keep && b)
  end.

Definition guard_parts (resolved : str) : result Cond.cond_error (option str) :=
  if Cond.when_refs_task_outputs resolved
     && (length (Cond.split_word resolved $"or") =? 1)%nat then
    let parts := Cond.split_word resolved $"and" in
    if (1 <? length parts)%nat then
      let? (runtime, keep) := split_parts parts [] true in
      Ok (if keep then Some (join $" and " runtime) else None)
    else Ok (Some resolved)
  else Ok (Some resolved).

Definition guard (t : TaskSpec) (c : Cond.ctx) : result expand_error guarded :=
  match when t with
  | None => Ok (Kept None)
  | Some cond =>
      match guard_parts (Cond.substitute cond c) with
      | Err e => Err (BadCondition (name t) e)
      | Ok None => Ok Skipped
      | Ok (Some resolved) =>
          if Cond.when_refs_task_outputs resolved then
            if is_call t then Err (CallRuntimeWhen (name t)) else Ok (Kept (Some resolved))
          else
            match Cond.eval_when resolved with
            | Err e => Err (BadCondition (name t) e)
            | Ok b => Ok (if b then Kept None else Skipped)
            end
      end
  end.

Definition fanned (t : TaskSpec) : bool := is_some (with_items t) || is_some (with_param t).

(** What a call becomes: its base name, its scope, the budget. *)
Definition caller : Type :=
  TaskSpec -> str -> Cond.ctx -> N -> result expand_error (Expanded * N).

(** One instance, past its guard. *)
Definition expand_instance (call : caller) (t : TaskSpec) (base : str) (c : Cond.ctx)
    (runtime : option str) (budget : N) : result expand_error (Expanded * N) :=
  if is_call t then call t base c budget
  else if (budget =? 0)%N then Err TooMany
  else Ok ({| roots := [base]; exits := [base]; ex_tasks := [build_leaf t base c runtime] |},
           (budget - 1)%N).

Definition also (a b : Expanded) : Expanded :=
  {| roots := roots a ++ roots b; exits := exits a ++ exits b; ex_tasks := ex_tasks a ++ ex_tasks b |}.

(** The loop over the items, [i] of them behind. *)
Fixpoint expand_items (call : caller) (t : TaskSpec) (pre : str) (c : Cond.ctx) (i : nat)
    (seen : list str) (items : list (option value)) (budget : N) : result expand_error (Expanded * N) :=
  match items with
  | [] => Ok (empty, budget)
  | item :: items =>
      let scope := match item with Some v => bind_instance c i v | None => c end in
      let? g := guard t scope in
      match g with
      | Skipped => expand_items call t pre c (S i) seen items budget
      | Kept runtime =>
          let? (seen, base) :=
            (if fanned t then
               let? (seen, label) := instance_label t scope i seen in
               Ok (seen, pre ++ name t ++ $"." ++ label)
             else Ok (seen, pre ++ name t)) in
          let? (inst, budget) := expand_instance call t base scope runtime budget in
          let? (rest, budget) := expand_items call t pre c (S i) seen items budget in
          Ok (also inst rest, budget)
      end
  end.

(** [expand_one] *)
Definition expand_one (call : caller) (t : TaskSpec) (pre : str) (c : Cond.ctx) (budget : N)
    : result expand_error (Expanded * N) :=
  match first_conflict t with
  | Some k => Err (Conflict (name t) k)
  | None =>
      let? items := resolve_items t c in
      if fanned t && bool_decide (length items = 0) then Err (EmptyList (name t))
      else expand_items call t pre c 0 [] items budget
  end.

(** ** A list of tasks *)

(** The first pass: each task on its own. *)
Fixpoint expand_each (call : caller) (pre : str) (c : Cond.ctx) (per : gmap str Expanded)
    (tasks : list TaskSpec) (budget : N) : result expand_error (gmap str Expanded * N) :=
  match tasks with
  | [] => Ok (per, budget)
  | t :: tasks =>
      if bool_decide (is_Some (per !! name t)) then Err (DuplicateTask (name t))
      else
        let? (e, budget) := expand_one call t pre c budget in
        expand_each call pre c (<[ name t := e ]> per) tasks budget
  end.

(** The siblings that became one row of another name. *)
Definition renamed_rows (per : gmap str Expanded) : gmap str str :=
  map_imap (fun n e => match exits e with
                       | [only] => if bool_decide (only = n) then None else Some only
                       | _ => None
                       end) per.

(** The rows a task waits for. *)
Fixpoint dep_exits (per : gmap str Expanded) (t : str) (deps : list str) : result expand_error (list str) :=
  match deps with
  | [] => Ok []
  | d :: deps =>
      match per !! d with
      | None => Err (UnknownDependency t d)
      | Some e => let? rest := dep_exits per t deps in Ok (exits e ++ rest)
      end
  end.

Definition rename_env (renamed : gmap str str) (e : EnvFrom) : EnvFrom :=
  match renamed !! ef_task e with
  | Some row => {| ef_name := ef_name e; ef_task := row; ef_read := ef_read e |}
  | None => e
  end.

(** One row of a task, wired. *)
Definition wire (renamed : gmap str str) (t : TaskSpec) (roots : list str) (deps : list str)
    (row : TaskSpec) : TaskSpec :=
  let row := if bool_decide (name row ∈ roots) then row <| depends_on := deps |> else row in
  if negb (is_call t) && negb (bool_decide (renamed = ∅)) then
    row <| when ::= option_map (fun w => Cond.rename_output_refs w renamed) |>
        <| env_from ::= map (rename_env renamed) |>
  else row.

(** The second pass. *)
Fixpoint wire_each (per : gmap str Expanded) (renamed : gmap str str) (depended : list str)
    (tasks : list TaskSpec) : result expand_error Expanded :=
  match tasks with
  | [] => Ok empty
  | t :: tasks =>
      let? deps := dep_exits per (name t) (depends_on t) in
      let e := default empty (per !! name t) in
      let here :=
        {| roots := if bool_decide (depends_on t = []) then roots e else [];
           exits := if bool_decide (name t ∈ depended) then [] else exits e;
           ex_tasks := map (wire renamed t (roots e) deps) (ex_tasks e) |} in
      let? rest := wire_each per renamed depended tasks in
      Ok (also here rest)
  end.

(** [expand_list] *)
Definition expand_list (call : caller) (tasks : list TaskSpec) (pre : str) (c : Cond.ctx) (budget : N)
    : result expand_error (Expanded * N) :=
  let? (per, budget) := expand_each call pre c ∅ tasks budget in
  let? e := wire_each per (renamed_rows per) (flat_map depends_on tasks) tasks in
  Ok (e, budget).

(** [expand_call], with [room] left of [MAX_DEPTH]: the template's tasks in a scope of its
    own. *)
Definition call_scope (tmpl : TemplateSpec) (t : TaskSpec) (c : Cond.ctx) : Cond.ctx :=
  ((fun v => Cond.substitute v c) <$> arguments t) ∪ tm_parameters tmpl.

Fixpoint expand_call (templates : gmap str TemplateSpec) (room : nat) : caller :=
  fun t base c budget =>
    match room with
    | O => Err (TooDeep (name t))
    | S room =>
        match (let* n := template t in Some (n, templates !! n)) with
        | Some (_, Some tmpl) =>
            expand_list (expand_call templates room) (tm_tasks tmpl) (base ++ $".")
              (call_scope tmpl t c) budget
        | Some (n, None) => Err (UnknownTemplate (name t) n)
        | None => Err (UnknownTemplate (name t) [])
        end
    end.

(** ** A workflow *)

(** [apply_task_defaults], of one task. *)
Definition or_default {A} (own def : option A) : option A :=
  match own with Some v => Some v | None => def end.
Definition with_defaults (d : TaskDefaults) (t : TaskSpec) : TaskSpec :=
  t <| max_attempts := if (max_attempts t =? 1)%N then default 1%N (td_max_attempts d)
                       else max_attempts t |>
    <| retry_delay_secs := if (retry_delay_secs t =? 0)%N then default 0%N (td_retry_delay_secs d)
                           else retry_delay_secs t |>
    <| retry_max_delay_secs := or_default (retry_max_delay_secs t) (td_retry_max_delay_secs d) |>
    <| retry_on_timeout := or_default (retry_on_timeout t) (td_retry_on_timeout d) |>
    <| retry_budgets := retry_budgets t ∪ td_retry_budgets d |>
    <| timeout_secs := or_default (timeout_secs t) (td_timeout_secs d) |>
    <| docker_image := or_default (docker_image t) (td_docker_image d) |>
    <| image_pull_policy := if is_call t then image_pull_policy t
                            else or_default (image_pull_policy t) (td_image_pull_policy d) |>
    <| runner_class := or_default (runner_class t) (td_runner_class d) |>
    <| priority := if (priority t =? 0)%Z then default 0%Z (td_priority d) else priority t |>
    <| pool := or_default (pool t) (td_pool d) |>
    <| env := td_env d ++ env t |>.
Definition apply_task_defaults (d : option TaskDefaults) (ts : list TaskSpec) : list TaskSpec :=
  match d with Some d => map (with_defaults d) ts | None => ts end.

(** The templates by name. *)
Fixpoint index_templates (d : option TaskDefaults) (m : gmap str TemplateSpec) (l : list TemplateSpec)
    : result expand_error (gmap str TemplateSpec) :=
  match l with
  | [] => Ok m
  | t :: l =>
      let t := {| tm_name := tm_name t; tm_parameters := tm_parameters t;
                  tm_tasks := apply_task_defaults d (tm_tasks t) |} in
      if bool_decide (is_Some (m !! tm_name t)) then Err (DuplicateTemplate (tm_name t))
      else index_templates d (<[ tm_name t := t ]> m) l
  end.

(** [wire_hooks] *)
Definition hook_rule (h : str) : option str :=
  if bool_decide (h = $"on_exit") then Some $"all_done"
  else if bool_decide (h = $"on_failure") then Some $"one_failed"
  else None.
Fixpoint wire_hooks_from (others : list str) (ts : list TaskSpec) : result expand_error (list TaskSpec) :=
  match ts with
  | [] => Ok []
  | t :: ts =>
      let? t :=
        match hook t with
        | None => Ok t
        | Some h =>
            match hook_rule h with
            | None => Err (BadHook (name t) h)
            | Some rule =>
                Ok (t <| depends_on := List.filter (fun n => negb (bool_decide (n = name t))) others |>
                      <| trigger_rule := Some rule |>)
            end
        end in
      let? ts := wire_hooks_from others ts in
      Ok (t :: ts)
  end.
Definition wire_hooks (ts : list TaskSpec) : result expand_error (list TaskSpec) :=
  wire_hooks_from (map name (List.filter (fun t => negb (is_some (hook t))) ts)) ts.

(** [expand] *)
Definition expand (env : str -> option str) (s : DagSpec) : result expand_error DagSpec :=
  if negb (bool_decide (uses s = [])) then Err UsesUnresolved
  else
    let tasks := apply_task_defaults (task_defaults s) (tasks s) in
    let? templates := index_templates (task_defaults s) ∅ (templates s) in
    let? (e, _) :=
      expand_list (expand_call templates MAX_DEPTH) tasks [] (parameters s) (max_tasks_per_run env) in
    let? rows := wire_hooks (ex_tasks e) in
    Ok (s <| parameters := ∅ |> <| param_schema := ∅ |> <| Spec.templates := [] |> <| uses := [] |>
          <| concurrency_key := option_map (fun k => Cond.substitute k (parameters s)) (concurrency_key s) |>
          <| task_defaults := None |> <| Spec.tasks := rows |>).

(** ** A fan-out at run time *)

(** [fanout_producer_rows] *)
Definition fanout_producer_rows (producer : str) (deps : list str) : list str :=
  match List.find (fun d => bool_decide (d = producer)) deps with
  | Some exact => [exact]
  | None => List.filter (starts_with (producer ++ $".")) deps
  end.

(** [json_kind] *)
Definition json_kind (v : value) : str :=
  match v with
  | JNull => $"null"
  | JBool _ => $"a boolean"
  | JNumber _ => $"a number"
  | JString _ => $"a string"
  | JArray _ => $"an array"
  | JObject _ => $"an object"
  end.

(** The items of every producer, in order. *)
Fixpoint fanout_items (barrier : TaskSpec) (producers : list (str * str)) : result expand_error (list value) :=
  match producers with
  | [] => Ok []
  | (row, output) :: producers =>
      let raw := trim output in
      if bool_decide (raw = []) then fanout_items barrier producers
      else
        match json_from_str raw with
        | Err e => Err (OutputNotJson (name barrier) row e)
        | Ok (JArray items) => let? rest := fanout_items barrier producers in Ok (items ++ rest)
        | Ok parsed => Err (OutputNotArray (name barrier) row (json_kind parsed))
        end
  end.

(** [FanoutInstance], and the loop over the items. *)
Record FanoutInstance := { fi_name : str; fi_spec : TaskSpec }.

Fixpoint instances_from (barrier : TaskSpec) (i : nat) (seen : list str) (items : list value)
    : result expand_error (list FanoutInstance) :=
  match items with
  | [] => Ok []
  | item :: items =>
      let scope := bind_instance ∅ i item in
      let? (seen, label) := instance_label barrier scope i seen in
      let n := name barrier ++ $"." ++ label in
      let spec := (build_leaf barrier n scope None) <| with_output_of := None |> <| instance_key := None |> in
      let? rest := instances_from barrier (S i) seen items in
      Ok ({| fi_name := n; fi_spec := spec |} :: rest)
  end.

(** [fanout_instances] *)
Definition fanout_instances (barrier : TaskSpec) (producers : list (str * str))
    : result expand_error (list FanoutInstance) :=
  let? items := fanout_items barrier producers in instances_from barrier 0 [] items.

(** The text of what it refuses. *)
Definition fanout_refusal (barrier : TaskSpec) (e : expand_error) : str :=
  let task := $"task '" ++ name barrier ++ $"'" in
  let key := $" instance_key '" ++ default [] (instance_key barrier) ++ $"'" in
  match e with
  | OutputNotJson _ row why =>
      task ++ $" fans out over '" ++ row ++ $"' output, which is not valid JSON: " ++ why
  | OutputNotArray _ row got =>
      task ++ $" fans out over '" ++ row ++ $"' output, which is " ++ got ++ $" rather than a JSON array"
  | EmptyLabel _ i =>
      task ++ key ++ $" rendered empty for item " ++ show_nat i
      ++ $" (after sanitizing to [A-Za-z0-9_.-])"
  | DuplicateLabel _ label =>
      task ++ key ++ $" rendered duplicate label '" ++ label
      ++ $"' — labels must be unique within the fan-out"
  | _ => []
  end.

End expand.
End Expand.
