(* ===== verification/ExpandFacts.v ===== *)
(** * What an expansion comes to ([dagron-core/src/expand.rs])

    An expansion is flat: leaves, no more of them than the budget, each waiting only for
    rows that are there.  What a task waits for, all of what it became waits for, where no
    guard left a task out; where one did, the order around it is lost.  A fan-out at run
    time has distinct names. *)

From S2P Require Import Prelude Json Spec Cond Expand.
From coqutil Require Import Datatypes.RecordSettersUsingExistingGetters.

Module ExpandFacts.

Import Spec Expand.

Section facts.
Context {Num : Type} {J : SerdeJson Num}.

Abbreviation TaskSpec := (Spec.TaskSpec Num).
Abbreviation TemplateSpec := (Spec.TemplateSpec Num).
Abbreviation DagSpec := (Spec.DagSpec Num).
Abbreviation Expanded := (Expand.Expanded (Num := Num)).

(** ** An invariant of expansions *)

(** A task that runs as it stands: no call, nothing left to fan out at expansion. *)
Definition leaf (t : TaskSpec) : Prop :=
  template t = None /\ with_items t = None /\ with_param t = None /\ gang_member t = None.

Definition names (ts : list TaskSpec) : list str := map name ts.

(** Boundaries and dependencies are names of rows that are there. *)
Record flat (e : Expanded) : Prop := {
  fl_leaf : Forall leaf (ex_tasks e);
  fl_roots : forall x, x ∈ roots e -> x ∈ names (ex_tasks e);
  fl_exits : forall x, x ∈ exits e -> x ∈ names (ex_tasks e);
  fl_deps : forall r x, r ∈ ex_tasks e -> x ∈ depends_on r -> x ∈ names (ex_tasks e);
}.

(** The rows made are the budget spent. *)
Definition spends (e : Expanded) (b b' : N) : Prop := (N.of_nat (length (ex_tasks e)) + b' = b)%N.

Definition good_caller (call : caller) : Prop :=
  forall t base c b e b', call t base c b = Ok (e, b') -> flat e /\ spends e b b'.

Lemma names_app a b : names (a ++ b) = names a ++ names b.
Proof. apply map_app. Qed.

Lemma flat_empty : flat empty.
Proof. split; cbn; [done|set_solver..]. Qed.

Lemma flat_also a b : flat a -> flat b -> flat (also a b).
Proof.
  intros [La Ra Ea Da] [Lb Rb Eb Db]. split; cbn [also roots exits ex_tasks]; rewrite ?names_app.
  - by apply Forall_app.
  - set_solver.
  - set_solver.
  - intros r x [Hr|Hr]%elem_of_app Hx; apply elem_of_app; [left; by eapply Da|right; by eapply Db].
Qed.

Lemma spends_also a b x y z : spends a x y -> spends b y z -> spends (also a b) x z.
Proof. unfold spends. cbn [also ex_tasks]. rewrite length_app. lia. Qed.

Lemma leaf_build t n c w : leaf (build_leaf t n c w).
Proof. done. Qed.

(** One row, its own boundary. *)
Lemma flat_leaf t n c w :
  flat {| roots := [n]; exits := [n]; ex_tasks := [build_leaf t n c w] |}.
Proof.
  split; cbn [roots exits ex_tasks names map build_leaf name]; [|done..|].
  - by constructor.
  - intros r x ->%list_elem_of_singleton Hx. by apply elem_of_nil in Hx.
Qed.

Section caller.
Context (call : caller (Num := Num)).

Section good.
Context (G : good_caller call).

Lemma instance_good t base c w b e b' :
  expand_instance call t base c w b = Ok (e, b') -> flat e /\ spends e b b'.
Proof.
  unfold expand_instance. destruct (is_call t); [apply G|].
  destruct (N.eqb_spec b 0); [done|]. intros [= <- <-]. split; [apply flat_leaf|].
  unfold spends. cbn. lia.
Qed.

Lemma items_good t pre c i seen items b e b' :
  expand_items call t pre c i seen items b = Ok (e, b') -> flat e /\ spends e b b'.
Proof.
  revert i seen b e b'; induction items as [|item items IH]; intros i seen b e b'; cbn [expand_items].
  - intros [= <- <-]. split; [apply flat_empty|]. unfold spends. cbn. lia.
  - destruct (guard _ _) as [[|w]|]; [apply IH| |done].
    destruct (if fanned t then _ else _) as [[seen' base]|]; [|done].
    destruct (expand_instance _ _ _ _ _ _) as [[inst b1]|] eqn:Ei; [|done].
    destruct (expand_items _ _ _ _ _ _ items b1) as [[rest b2]|] eqn:Er; [|done].
    intros [= <- <-]. apply instance_good in Ei as [H1 H2]. apply IH in Er as [H3 H4].
    split; [by apply flat_also|by eapply spends_also].
Qed.

Lemma one_good t pre c b e b' :
  expand_one call t pre c b = Ok (e, b') -> flat e /\ spends e b b'.
Proof.
  unfold expand_one. destruct (first_conflict t); [done|].
  destruct (resolve_items t c) as [items|]; [|done]. destruct (_ && _); [done|]. apply items_good.
Qed.

End good.

(** ** A list, task by task *)

(** What each task became, in order. *)
Inductive each (pre : str) (c : Cond.ctx) : list TaskSpec -> N -> list Expanded -> N -> Prop :=
| each_nil b : each pre c [] b [] b
| each_cons t ts b e b1 es b2 :
    expand_one call t pre c b = Ok (e, b1) -> each pre c ts b1 es b2 ->
    each pre c (t :: ts) b (e :: es) b2.

Lemma expand_each_each pre c per ts b per' b' :
  expand_each call pre c per ts b = Ok (per', b') ->
  exists es, each pre c ts b es b' /\ NoDup (names ts)
    /\ (forall n e, per !! n = Some e -> per' !! n = Some e)
    /\ Forall2 (fun t e => per' !! name t = Some e) ts es
    /\ (forall n, is_Some (per' !! n) -> is_Some (per !! n) \/ n ∈ names ts)
    /\ (forall t, t ∈ ts -> per !! name t = None).
Proof.
  revert per b; induction ts as [|t ts IH]; intros per b; cbn [expand_each].
  - intros [= <- <-]. exists []. split_and!; [constructor|constructor|done|constructor|by left|set_solver].
  - case_bool_decide as Hd; [done|]. destruct (expand_one _ _ _ _ _) as [[e b1]|] eqn:E; [|done].
    intros (es & H1 & H2 & H3 & H4 & H5 & H6)%IH. rewrite <- eq_None_not_Some in Hd.
    assert (forall t', t' ∈ ts -> name t' <> name t /\ per !! name t' = None) as Hne.
    { intros t' Ht'. specialize (H6 t' Ht'). apply lookup_insert_None in H6 as [H6 Hn]. done. }
    exists (e :: es). split_and!.
    + by econstructor.
    + cbn. constructor; [|done]. intros (t' & Hn & Ht')%list_elem_of_fmap. by destruct (Hne t' Ht').
    + intros n e' Hn. apply H3. rewrite lookup_insert_ne; [done|]. intros <-. congruence.
    + constructor; [|done]. apply H3. by rewrite lookup_insert_eq.
    + intros n Hn%H5. destruct Hn as [Hn|Hn]; [|right; set_solver].
      destruct (decide (n = name t)) as [->|]; [right; set_solver|left].
      by rewrite lookup_insert_ne in Hn.
    + intros t' [->|Ht']%elem_of_cons; [done|]. by destruct (Hne t' Ht').
Qed.

(** What the second pass makes of one task. *)
Definition here (per : gmap str Expanded) (depended : list str) (t : TaskSpec) (e : Expanded)
    (deps : list str) : Expanded :=
  {| roots := if bool_decide (depends_on t = []) then roots e else [];
     exits := if bool_decide (name t ∈ depended) then [] else exits e;
     ex_tasks := map (wire (renamed_rows per) t (roots e) deps) (ex_tasks e) |}.

Inductive wired (per : gmap str Expanded) (depended : list str)
    : list TaskSpec -> list Expanded -> Expanded -> Prop :=
| wired_nil : wired per depended [] [] empty
| wired_cons t ts e es deps rest :
    dep_exits per (name t) (depends_on t) = Ok deps -> wired per depended ts es rest ->
    wired per depended (t :: ts) (e :: es) (also (here per depended t e deps) rest).

Lemma wire_each_wired per depended ts es out :
  Forall2 (fun t e => per !! name t = Some e) ts es ->
  wire_each per (renamed_rows per) depended ts = Ok out -> wired per depended ts es out.
Proof.
  intros H. revert out; induction H as [|t e ts es Hp _ IH]; intros out; cbn [wire_each].
  - intros [= <-]. constructor.
  - destruct (dep_exits _ _ _) as [deps|] eqn:Ed; [|done].
    destruct (wire_each _ _ _ ts) as [rest|] eqn:Er; [|done].
    rewrite Hp. cbn [default]. intros [= <-]. by constructor; [|apply IH].
Qed.

(** The list's expansion, by the two passes. *)
Lemma list_passes ts pre c b out b' :
  expand_list call ts pre c b = Ok (out, b') ->
  exists per es, each pre c ts b es b' /\ NoDup (names ts)
    /\ Forall2 (fun t e => per !! name t = Some e) ts es
    /\ (forall n, is_Some (per !! n) -> n ∈ names ts)
    /\ wired per (flat_map depends_on ts) ts es out.
Proof.
  unfold expand_list. destruct (expand_each _ _ _ _ _ _) as [[per b1]|] eqn:E; [|done].
  destruct (wire_each _ _ _ _) as [e|] eqn:Ew; [|done]. intros [= <- <-].
  apply expand_each_each in E as (es & H1 & H2 & _ & H4 & H5 & _). exists per, es.
  split_and!; [done..| |by apply wire_each_wired].
  intros n [Hn|Hn]%H5; [|done]. destruct Hn as [x Hx]. by rewrite lookup_empty in Hx.
Qed.

Lemma wire_name (rn : gmap str str) (t : TaskSpec) rs deps (r : TaskSpec) : name (wire rn t rs deps r) = name r.
Proof. unfold wire. by destruct (bool_decide (name r ∈ rs)), (_ && _). Qed.

Lemma wire_deps (rn : gmap str str) (t : TaskSpec) rs deps (r : TaskSpec) :
  depends_on (wire rn t rs deps r) = if bool_decide (name r ∈ rs) then deps else depends_on r.
Proof. unfold wire. by destruct (bool_decide (name r ∈ rs)), (_ && _). Qed.

Lemma wire_leaf (rn : gmap str str) (t : TaskSpec) rs deps (r : TaskSpec) : leaf r -> leaf (wire rn t rs deps r).
Proof. unfold wire, leaf. by destruct (bool_decide (name r ∈ rs)), (_ && _). Qed.

Lemma names_wire (rn : gmap str str) (t : TaskSpec) rs deps rows : names (map (wire rn t rs deps) rows) = names rows.
Proof. unfold names. rewrite map_map. apply map_ext. intros r. apply wire_name. Qed.

Lemma wired_names per dd ts es out :
  wired per dd ts es out -> names (ex_tasks out) = flat_map (fun e => names (ex_tasks e)) es.
Proof.
  induction 1 as [|t ts e es deps rest _ _ IH]; [done|]. cbn [also here ex_tasks flat_map].
  by rewrite names_app, names_wire, IH.
Qed.

Lemma dep_exits_in (per : gmap str Expanded) t deps xs x :
  dep_exits per t deps = Ok xs -> (x ∈ xs <-> exists d e, d ∈ deps /\ per !! d = Some e /\ x ∈ exits e).
Proof.
  revert xs; induction deps as [|d deps IH]; intros xs; cbn [dep_exits].
  - intros [= <-]. split; [set_solver|]. intros (d & e & Hd & _). by apply elem_of_nil in Hd.
  - destruct (per !! d) as [e|] eqn:E; [|done]. destruct (dep_exits per t deps) as [rest|]; [|done].
    intros [= <-]. rewrite elem_of_app, (IH rest eq_refl). split.
    + intros [Hx|(d' & e' & H1 & H2)]; [exists d, e|exists d', e']; set_solver.
    + intros (d' & e' & [->|Hd]%elem_of_cons & H2 & H3); [left; congruence|right; eauto].
Qed.

(** What the map holds for a task of the list is in the list's expansions. *)
Lemma sibling_in (per : gmap str Expanded) ts es n e :
  Forall2 (fun (t : TaskSpec) e => per !! name t = Some e) ts es ->
  n ∈ names ts -> per !! n = Some e -> e ∈ es.
Proof.
  intros Hp Hn He. induction Hp as [|t0 e0 ts es H0 _ IH]; [by apply elem_of_nil in Hn|].
  cbn in Hn. apply elem_of_cons in Hn as [->|Hn]; apply elem_of_cons; [left; congruence|right; by apply IH].
Qed.

(** The rows of a sibling are rows of the list. *)
Lemma sibling_row (per : gmap str Expanded) ts es out dd n e x :
  wired per dd ts es out -> Forall2 (fun (t : TaskSpec) e => per !! name t = Some e) ts es ->
  n ∈ names ts -> per !! n = Some e -> x ∈ names (ex_tasks e) -> x ∈ names (ex_tasks out).
Proof.
  intros Hw Hp Hn He Hx. rewrite (wired_names _ _ _ _ _ Hw).
  apply list_elem_of_In, in_flat_map. exists e. split; apply list_elem_of_In; [|done].
  by eapply sibling_in.
Qed.

Lemma wired_flat per ts es out all ae aout :
  wired per all ts es out -> Forall (fun e => flat e) es ->
  (forall x, x ∈ names (ex_tasks out) -> x ∈ names (ex_tasks aout)) ->
  (forall n e x, per !! n = Some e -> x ∈ exits e -> x ∈ names (ex_tasks aout)) ->
  ae = out ->
  Forall leaf (ex_tasks ae)
  /\ (forall x, x ∈ roots ae -> x ∈ names (ex_tasks ae))
  /\ (forall x, x ∈ exits ae -> x ∈ names (ex_tasks ae))
  /\ (forall r x, r ∈ ex_tasks ae -> x ∈ depends_on r -> x ∈ names (ex_tasks aout)).
Proof.
  intros Hw Hf Hsub Hper ->. revert Hf Hsub.
  induction Hw as [|t ts e es deps rest Hd _ IH]; intros Hf Hsub; cbn [also here roots exits ex_tasks].
  - split_and!; [constructor|set_solver..].
  - apply Forall_cons in Hf as [He Hes]. rewrite names_app, names_wire.
    cbn [also here ex_tasks] in Hsub. rewrite names_app, names_wire in Hsub.
    destruct (IH Hes) as (I1 & I2 & I3 & I4); [intros x Hx; apply Hsub; set_solver|].
    destruct He as [L R E D]. split_and!.
    + apply Forall_app. split; [|done]. apply Forall_map. eapply Forall_impl; [exact L|].
      intros r. apply wire_leaf.
    + intros x [Hx|Hx]%elem_of_app; [|set_solver]. case_bool_decide; set_solver.
    + intros x [Hx|Hx]%elem_of_app; [|set_solver]. case_bool_decide; set_solver.
    + intros r x [Hr|Hr]%elem_of_app; [|by apply I4].
      apply list_elem_of_fmap in Hr as (r0 & -> & Hr0). rewrite wire_deps. case_bool_decide as Hroot.
      * intros (d & e' & _ & He' & Hx)%(dep_exits_in _ _ _ _ x Hd). by eapply Hper.
      * intros Hx. apply Hsub, elem_of_app. left. by eapply D.
Qed.

Lemma each_flat pre c ts b es b' :
  good_caller call -> each pre c ts b es b' ->
  Forall (fun e => flat e) es /\ (N.of_nat (length (flat_map ex_tasks es)) + b' = b)%N.
Proof.
  intros G. induction 1 as [b|t ts b e b1 es b2 H _ [IH1 IH2]]; [split; [done|cbn; lia]|].
  apply (one_good G) in H as [H1 H2]. split; [by constructor|].
  unfold spends in H2. cbn [flat_map]. rewrite length_app. lia.
Qed.

Lemma wired_length per dd ts es out :
  wired per dd ts es out -> length (ex_tasks out) = length (flat_map ex_tasks es).
Proof.
  induction 1 as [|t ts e es deps rest _ _ IH]; [done|]. cbn [also here ex_tasks flat_map].
  by rewrite !length_app, length_map, IH.
Qed.

Lemma list_good ts pre c b e b' :
  good_caller call -> expand_list call ts pre c b = Ok (e, b') -> flat e /\ spends e b b'.
Proof.
  intros G (per & es & He & Hn & Hp & Hdom & Hw)%list_passes.
  destruct (each_flat _ _ _ _ _ _ G He) as [Hf Hs].
  assert (forall n e' x, per !! n = Some e' -> x ∈ exits e' -> x ∈ names (ex_tasks e)) as Hex.
  { intros n e' x Hn' Hx. eapply sibling_row; [done|done|by apply Hdom|done|].
    apply fl_exits; [|done]. rewrite Forall_forall in Hf. apply Hf.
    eapply sibling_in; [done|by apply Hdom|done]. }
  destruct (wired_flat per ts es e _ e e Hw Hf (fun _ H => H) Hex eq_refl) as (H1 & H2 & H3 & H4).
  split; [by split|]. unfold spends. by rewrite (wired_length _ _ _ _ _ Hw).
Qed.
End caller.

Lemma call_good templates room : good_caller (expand_call templates room).
Proof.
  induction room as [|room IH]; intros t base c b e b'; cbn [expand_call]; [done|].
  destruct (template t) as [n|]; [|done]. destruct (templates !! n) as [tm|]; [|done].
  by apply list_good.
Qed.

(** ** The whole *)

Lemma hooks_spec others ts ts' :
  wire_hooks_from others ts = Ok ts' ->
  names ts' = names ts /\ (Forall leaf ts -> Forall leaf ts')
  /\ (forall r' x, r' ∈ ts' -> x ∈ depends_on r' ->
       x ∈ others \/ exists r, r ∈ ts /\ x ∈ depends_on r).
Proof.
  revert ts'; induction ts as [|t ts IH]; intros ts'; cbn [wire_hooks_from].
  - intros [= <-]. split_and!; [done..|]. intros r x Hr. by apply elem_of_nil in Hr.
  - destruct (match hook t with None => _ | Some _ => _ end) as [t'|] eqn:Et; [|done].
    destruct (wire_hooks_from others ts) as [rest|]; [|done]. intros [= <-].
    destruct (IH rest eq_refl) as (H1 & H2 & H3).
    assert (name t' = name t /\ (leaf t -> leaf t')
            /\ (forall x, x ∈ depends_on t' -> x ∈ others \/ x ∈ depends_on t)) as (N1 & N2 & N3).
    { destruct (hook t) as [h|]; [|injection Et as <-; auto].
      destruct (hook_rule h); [|done]. injection Et as <-. split_and!; [done..|].
      intros x Hx. left. apply list_elem_of_In, filter_In in Hx as [Hx _]. by apply list_elem_of_In. }
    cbn [names map]. split_and!.
    + unfold names in H1. by rewrite N1, H1.
    + intros [L Ls]%Forall_cons. constructor; auto.
    + intros r x [->|Hr]%elem_of_cons Hx.
      * destruct (N3 x Hx); [by left|]. right. exists t. split; [left|done].
      * destruct (H3 r x Hr Hx) as [|(r0 & Hr0 & Hx0)]; [by left|]. right. exists r0. split; [by right|done].
Qed.

(** C19: What a workflow expands to is flat: leaf tasks only (no template call, nothing left
    to fan out at expansion), no more of them than the ceiling, and none waiting for a task
    that is not there. *)
Theorem expand_flat (env : str -> option str) (s s' : DagSpec) :
  expand env s = Ok s' ->
  Forall leaf (tasks s')
  /\ (N.of_nat (length (tasks s')) <= max_tasks_per_run env)%N
  /\ (max_tasks_per_run env <= MAX_TASKS)%N
  /\ templates s' = []
  /\ forall r x, r ∈ tasks s' -> x ∈ depends_on r -> exists r', r' ∈ tasks s' /\ name r' = x.
Proof.
  unfold expand. destruct (negb _); [done|].
  destruct (index_templates _ _ _) as [tms|]; [|done].
  destruct (expand_list _ _ _ _ _) as [[e b]|] eqn:E; [|done].
  destruct (wire_hooks _) as [rows|] eqn:Eh; [|done]. intros [= <-].
  apply (list_good _ _ _ _ _ _ _ (call_good tms MAX_DEPTH)) in E as [[L R X D] S].
  apply hooks_spec in Eh as (H1 & H2 & H3). cbn. unfold const.
  assert (length rows = length (ex_tasks e)) as Hl.
  { apply (f_equal length) in H1. unfold names in H1. by rewrite !length_map in H1. }
  split_and!; [by apply H2| | |done|].
  - unfold spends in S. rewrite Hl. lia.
  - unfold max_tasks_per_run. destruct (let* v := _ in parse_u64 v) as [n|]; [|lia].
    destruct (_ && _) eqn:En; [|lia]. apply andb_prop in En as [_ En%N.leb_le]. done.
  - intros r x Hr Hx. assert (x ∈ names rows) as Hin.
    { rewrite H1. destruct (H3 r x Hr Hx) as [Ho|(r0 & Hr0 & Hx0)]; [|by eapply D].
      apply list_elem_of_fmap in Ho as (t & -> & Ht%list_elem_of_In).
      apply filter_In in Ht as [Ht%list_elem_of_In _]. apply list_elem_of_fmap. eauto. }
    apply list_elem_of_fmap in Hin as (r' & -> & Hr'). by exists r'.
Qed.
(** ** A fan-out at run time *)

Definition labelled (pre : str) (fi : FanoutInstance (Num := Num)) (label : str) : Prop :=
  fi_name fi = pre ++ $"." ++ label.

(** What one instance is. *)
Record instance_of (barrier : TaskSpec) (fi : FanoutInstance (Num := Num)) : Prop := {
  io_leaf : leaf (fi_spec fi);
  io_name : name (fi_spec fi) = fi_name fi;
  io_settled : with_output_of (fi_spec fi) = None /\ instance_key (fi_spec fi) = None
               /\ when (fi_spec fi) = None /\ depends_on (fi_spec fi) = [];
}.

Lemma instance_built barrier n c :
  instance_of barrier {| fi_name := n;
    fi_spec := (build_leaf barrier n c None) <| with_output_of := None |> <| instance_key := None |> |}.
Proof. done. Qed.

(** The labels are the places of the items, or new and not empty. *)
Lemma instances_labels barrier i seen items l :
  instances_from barrier i seen items = Ok l ->
  exists labels, Forall2 (labelled (name barrier)) l labels /\ NoDup labels
    /\ length l = length items /\ Forall (instance_of barrier) l
    /\ forall x, x ∈ labels ->
           match instance_key barrier with
         | Some _ => (x ∉ seen) /\ x <> []
         | None => exists j, (i <= j)%nat /\ x = show_nat j
         end.
Proof.
  revert i seen l; induction items as [|item items IH]; intros i seen l; cbn [instances_from].
  - intros [= <-]. exists []. split_and!; [constructor|constructor|done|constructor|].
    intros x Hx. by apply elem_of_nil in Hx.
  - destruct (instance_label _ _ _ _) as [[seen' label]|] eqn:El; [|done].
    destruct (instances_from _ _ _ items) as [rest|] eqn:Er; [|done]. intros [= <-].
    destruct (IH _ _ _ Er) as (labels & H1 & H2 & H3 & H4 & H5).
    exists (label :: labels). unfold instance_label in El. destruct (instance_key barrier) as [key|].
    + case_bool_decide as Hne; [done|]. case_bool_decide as Hin; [done|]. injection El as <- <-.
      split_and!; [by constructor| |cbn; lia|by constructor; [apply instance_built|]|].
      * constructor; [|done]. intros Hl. destruct (H5 _ Hl) as [Hn _]. apply Hn, elem_of_app.
        right. by apply list_elem_of_singleton.
      * intros x [->|Hx]%elem_of_cons; [done|]. destruct (H5 x Hx) as [Hn ?]. split; [|done].
        intros ?. apply Hn, elem_of_app. by left.
    + injection El as <- <-. split_and!; [by constructor| |cbn; lia|by constructor; [apply instance_built|]|].
      * constructor; [|done]. intros Hl. destruct (H5 _ Hl) as (j & Hj & E%show_nat_inj). lia.
      * intros x [->|Hx]%elem_of_cons; [by exists i|]. destruct (H5 x Hx) as (j & Hj & ->). exists j.
        split; [lia|done].
Qed.

(** Distinct labels make distinct names. *)
Lemma labelled_distinct n l labels :
  Forall2 (labelled n) l labels -> NoDup labels -> NoDup (map fi_name l).
Proof.
  intros H1 H2. induction H1 as [|fi label l labels Hl Hr IH]; [constructor|].
  apply NoDup_cons in H2 as [Hn Hd]. cbn. constructor; [|by apply IH].
  intros (fi' & E & Hfi)%list_elem_of_fmap. apply Hn. clear -Hr Hl E Hfi.
  induction Hr as [|fi0 label0 l labels H0 _ IHr]; [by apply elem_of_nil in Hfi|].
  apply elem_of_cons in Hfi as [->|Hfi]; apply elem_of_cons; [left|right; by apply IHr].
  unfold labelled in *. rewrite Hl, H0 in E. by apply app_inv_head, app_inv_head in E.
Qed.

Lemma fanout_names barrier producers l :
  fanout_instances barrier producers = Ok l -> NoDup (map fi_name l).
Proof.
  unfold fanout_instances. destruct (fanout_items barrier producers) as [items|]; [|done].
  intros (labels & H1 & H2 & _)%instances_labels. by eapply labelled_distinct.
Qed.

(** A fan-out at run time makes one instance for each item its producers printed, in
    order; every instance is a leaf under its own name, with nothing left to fan out and
    nothing to wait for, and no two of them share a name. *)
Theorem fanout_distinct (barrier : TaskSpec) (producers : list (str * str)) l :
  fanout_instances barrier producers = Ok l ->
  exists items, fanout_items barrier producers = Ok items
    /\ length l = length items
    /\ NoDup (map fi_name l)
    /\ Forall (fun fi => instance_of barrier fi /\ starts_with (name barrier ++ $".") (fi_name fi) = true) l.
Proof.
  unfold fanout_instances. destruct (fanout_items barrier producers) as [items|]; [|done].
  intros (labels & H1 & H2 & H3 & H4 & _)%instances_labels. exists items. split_and!; [done|done| |].
  - by eapply labelled_distinct.
  - apply Forall_and. split; [done|]. clear -H1. induction H1 as [|fi label l labels Hl _ IH]; constructor; [|done].
    rewrite starts_with_spec, Hl, app_assoc. by eexists.
Qed.
End facts.
End ExpandFacts.
