(* ===== verification/ExpandOrder.v ===== *)
(** * Order across an expansion ([dagron-core/src/expand.rs])

    Where no guard leaves a task out and no list of tasks is empty or goes round in a
    circle, what a task becomes waits for all of what its dependencies became, however deep
    the calls of templates; where a guard does leave one out, the order around it is lost.

    ** Expansions of concrete workflows

    What the theorems of [ExpandFacts] and [ExpandOrder] ask for holds of workflows as one
    writes them; and two workflows whose guards take the order with them. *)

From stdpp Require Import relations.
From coqutil Require Import Datatypes.RecordSettersUsingExistingGetters.
From S2P Require Import Prelude Json Spec Cond Expand ExpandFacts Sample.

Module ExpandOrder.

Import Spec Expand ExpandFacts.

(** ** Lists *)

Lemma NoDup_part {A B} (f : A -> list B) l i a : NoDup (flat_map f l) -> l !! i = Some a -> NoDup (f a).
Proof.
  revert i; induction l as [|b l IH]; intros [|i]; cbn [flat_map]; [done|done| |];
    intros (Hb & _ & Hl)%NoDup_app; [by intros [= ->]|by apply IH].
Qed.

Lemma elem_of_part {A B} (f : A -> list B) l i a x : l !! i = Some a -> x ∈ f a -> x ∈ flat_map f l.
Proof.
  intros Hi Hx. apply list_elem_of_In, in_flat_map. exists a.
  split; apply list_elem_of_In; [by eapply list_elem_of_lookup_2|done].
Qed.

Lemma NoDup_parts {A B} (f : A -> list B) l i j a b x :
  NoDup (flat_map f l) -> l !! i = Some a -> l !! j = Some b -> x ∈ f a -> x ∈ f b -> i = j.
Proof.
  revert i j; induction l as [|c l IH]; intros [|i] [|j]; cbn [flat_map]; [done..| | |];
    intros (Hc & Hd & Hl)%NoDup_app; cbn.
  - intros [= ->] Hj Ha Hb. destruct (Hd x Ha). by eapply elem_of_part.
  - intros Hi [= ->] Ha Hb. destruct (Hd x Hb). by eapply elem_of_part.
  - intros. f_equal. by eapply IH.
Qed.

Section order.
Context {Num : Type} {J : SerdeJson Num}.

Abbreviation TaskSpec := (Spec.TaskSpec Num).
Abbreviation TemplateSpec := (Spec.TemplateSpec Num).
Abbreviation Expanded := (Expand.Expanded (Num := Num)).

(** One row names another among those it waits for. *)
Definition waits (rows : list TaskSpec) (y x : str) : Prop :=
  exists r, r ∈ rows /\ name r = y /\ x ∈ depends_on r.

(** From every row the roots are reached, every row is reached from the exits, and the
    roots wait for nothing yet. *)
Record whole (e : Expanded) : Prop := {
  wh_roots : forall y, y ∈ names (ex_tasks e) -> exists r, r ∈ roots e /\ rtc (waits (ex_tasks e)) y r;
  wh_exits : forall x, x ∈ names (ex_tasks e) -> exists z, z ∈ exits e /\ rtc (waits (ex_tasks e)) z x;
  wh_free : forall r, r ∈ ex_tasks e -> name r ∈ roots e -> depends_on r = [];
}.

Lemma waits_mono rows rows' y x : rows ⊆ rows' -> waits rows y x -> waits rows' y x.
Proof. intros H (r & Hr & Hy). exists r. split; [by apply H|done]. Qed.

Lemma whole_empty : whole empty.
Proof. split; cbn; intros x Hx; by apply elem_of_nil in Hx. Qed.

Lemma whole_also a b :
  flat a -> flat b -> NoDup (names (ex_tasks (also a b))) -> whole a -> whole b -> whole (also a b).
Proof.
  intros Fa Fb Hn [Ra Xa Za] [Rb Xb Zb]. cbn [also ex_tasks] in Hn. rewrite names_app in Hn.
  apply NoDup_app in Hn as (_ & Hd & _).
  assert (forall x y, rtc (waits (ex_tasks a)) x y -> rtc (waits (ex_tasks (also a b))) x y) as Ma.
  { intros x y. apply rtc_subrel. intros ? ?. apply waits_mono. cbn. set_solver. }
  assert (forall x y, rtc (waits (ex_tasks b)) x y -> rtc (waits (ex_tasks (also a b))) x y) as Mb.
  { intros x y. apply rtc_subrel. intros ? ?. apply waits_mono. cbn. set_solver. }
  split; cbn [also roots exits ex_tasks] in *; rewrite ?names_app.
  - intros y [Hy|Hy]%elem_of_app; [destruct (Ra y Hy) as (r & H1 & H2)|destruct (Rb y Hy) as (r & H1 & H2)];
      exists r; (split; [apply elem_of_app; auto|auto]).
  - intros y [Hy|Hy]%elem_of_app; [destruct (Xa y Hy) as (r & H1 & H2)|destruct (Xb y Hy) as (r & H1 & H2)];
      exists r; (split; [apply elem_of_app; auto|auto]).
  - intros r Hr Hx. assert (forall e, r ∈ ex_tasks e -> name r ∈ names (ex_tasks e)) as Hin.
    { intros e He. apply list_elem_of_fmap. eauto. }
    apply elem_of_app in Hr as [Hr|Hr]; apply elem_of_app in Hx as [Hx|Hx]; auto.
    + destruct (Hd (name r)); [by apply Hin|by apply fl_roots].
    + destruct (Hd (name r)); [by apply fl_roots|by apply Hin].
Qed.

Lemma whole_leaf t n c w : whole {| roots := [n]; exits := [n]; ex_tasks := [build_leaf t n c w] |}.
Proof.
  split; cbn [roots exits ex_tasks names map build_leaf name].
  - intros y ->%list_elem_of_singleton. exists n. split; [by apply list_elem_of_singleton|done].
  - intros y ->%list_elem_of_singleton. exists n. split; [by apply list_elem_of_singleton|done].
  - by intros r ->%list_elem_of_singleton _.
Qed.

Definition has_rows (e : Expanded) : Prop := ex_tasks e <> [].

Definition whole_caller (call : caller) : Prop :=
  forall t base c b e b', call t base c b = Ok (e, b') ->
    NoDup (names (ex_tasks e)) -> whole e /\ has_rows e.

(** ** A list of tasks *)

(** Each task is unguarded, and the dependencies go down. *)
Definition unguarded (ts : list TaskSpec) : Prop := Forall (fun t => when t = None) ts.
Definition acyclic (ts : list TaskSpec) : Prop :=
  exists rk : str -> nat, forall t d, t ∈ ts -> d ∈ depends_on t -> (rk d < rk (name t))%nat.

Record sound (ts : list TaskSpec) : Prop := {
  so_some : ts <> [];
  so_unguarded : unguarded ts;
  so_acyclic : acyclic ts;
}.

Section caller.
Context (call : caller) (G : good_caller call) (W : whole_caller call).

Lemma instance_whole t base c w b e b' :
  expand_instance call t base c w b = Ok (e, b') -> NoDup (names (ex_tasks e)) -> whole e /\ has_rows e.
Proof.
  unfold expand_instance. destruct (is_call t); [apply W|].
  destruct (N.eqb_spec b 0); [done|]. intros [= <- <-] _. split; [apply whole_leaf|done].
Qed.

Lemma items_whole t pre c i seen items b e b' :
  when t = None -> expand_items call t pre c i seen items b = Ok (e, b') ->
  NoDup (names (ex_tasks e)) -> whole e /\ (items <> [] -> has_rows e).
Proof.
  intros Ht. revert i seen b e b'; induction items as [|item items IH]; intros i seen b e b';
    cbn [expand_items].
  - intros [= <- <-] _. split; [apply whole_empty|done].
  - unfold guard. rewrite Ht.
    destruct (if fanned t then _ else _) as [[seen' base]|]; [|done].
    destruct (expand_instance _ _ _ _ _ _) as [[inst b1]|] eqn:Ei; [|done].
    destruct (expand_items _ _ _ _ _ _ items b1) as [[rest b2]|] eqn:Er; [|done].
    intros [= <- <-] Hn. pose proof Hn as Hp. cbn [also ex_tasks] in Hp. rewrite names_app in Hp.
    apply NoDup_app in Hp as (Hi & _ & Hr).
    apply instance_whole in Ei as Wi; [|done]. apply (instance_good _ G) in Ei as [Fi _].
    apply IH in Er as Wr; [|done]. apply (items_good _ G) in Er as [Fr _].
    destruct Wi as [Wi Si], Wr as [Wr _]. split; [by apply whole_also|]. intros _.
    unfold has_rows in *. cbn [also ex_tasks]. by destruct (ex_tasks inst).
Qed.

Lemma resolve_one t c : fanned t = false -> resolve_items t c = Ok [None].
Proof. unfold fanned, resolve_items. by destruct (with_items t), (with_param t). Qed.

Lemma one_whole t pre c b e b' :
  when t = None -> expand_one call t pre c b = Ok (e, b') ->
  NoDup (names (ex_tasks e)) -> whole e /\ has_rows e.
Proof.
  intros Ht. unfold expand_one. destruct (first_conflict t); [done|].
  destruct (resolve_items t c) as [items|] eqn:Er; [|done]. destruct (_ && _) eqn:Ee; [done|].
  intros H Hn. destruct (items_whole _ _ _ _ _ _ _ _ _ Ht H Hn) as [H1 H2]. split; [done|]. apply H2.
  intros ->. destruct (fanned t) eqn:Ef; [done|]. by rewrite (resolve_one t c Ef) in Er.
Qed.

(** *** What the passes leave, task by task *)

Section wired.
Context (per : gmap str Expanded) (dd : list str).

(** The [i]th task and what it became. *)
Definition sib (ts : list TaskSpec) (es : list Expanded) (i : nat) (t : TaskSpec) (e : Expanded) : Prop :=
  ts !! i = Some t /\ es !! i = Some e.

Lemma wired_at ts es out i t e :
  wired per dd ts es out -> sib ts es i t e ->
  exists deps, dep_exits per (name t) (depends_on t) = Ok deps
    /\ (forall r, r ∈ ex_tasks e -> wire (renamed_rows per) t (roots e) deps r ∈ ex_tasks out)
    /\ (depends_on t = [] -> roots e ⊆ roots out)
    /\ (name t ∉ dd -> exits e ⊆ exits out).
Proof.
  intros Hw. revert i; induction Hw as [|t0 ts e0 es deps rest Hd _ IH]; intros i [Ht He]; [done|].
  cbn [also here roots exits ex_tasks]. destruct i as [|i]; cbn in Ht, He.
  - injection Ht as ->. injection He as ->. exists deps. split_and!; [done| | |].
    + intros r Hr. apply elem_of_app. left. apply list_elem_of_fmap. eauto.
    + intros E x Hx. rewrite bool_decide_eq_true_2 by done. apply elem_of_app. by left.
    + intros E x Hx. rewrite bool_decide_eq_false_2 by done. apply elem_of_app. by left.
  - destruct (IH i (conj Ht He)) as (deps' & H1 & H2 & H3 & H4). exists deps'. split_and!; [done|..].
    + intros r Hr. apply elem_of_app. right. by apply H2.
    + intros E x Hx. apply elem_of_app. right. by apply H3.
    + intros E x Hx. apply elem_of_app. right. by apply H4.
Qed.

Lemma wired_row ts es out r :
  wired per dd ts es out -> r ∈ ex_tasks out ->
  exists i t e deps r0, sib ts es i t e /\ r0 ∈ ex_tasks e
    /\ dep_exits per (name t) (depends_on t) = Ok deps
    /\ r = wire (renamed_rows per) t (roots e) deps r0.
Proof.
  induction 1 as [|t ts e es deps rest Hd _ IH]; [intros Hr; by apply elem_of_nil in Hr|].
  cbn [also here ex_tasks]. intros [Hr|Hr]%elem_of_app.
  - apply list_elem_of_fmap in Hr as (r0 & -> & Hr0). by exists 0%nat, t, e, deps, r0.
  - destruct (IH Hr) as (i & t' & e' & deps' & r0 & H1 & H2). by exists (S i), t', e', deps', r0.
Qed.

Lemma wired_root ts es out x :
  wired per dd ts es out -> x ∈ roots out ->
  exists i t e, sib ts es i t e /\ depends_on t = [] /\ x ∈ roots e.
Proof.
  induction 1 as [|t ts e es deps rest Hd _ IH]; [intros Hx; by apply elem_of_nil in Hx|].
  cbn [also here roots]. intros [Hx|Hx]%elem_of_app.
  - case_bool_decide as Ed; [|by apply elem_of_nil in Hx]. by exists 0%nat, t, e.
  - destruct (IH Hx) as (i & t' & e' & H1). by exists (S i), t', e'.
Qed.
End wired.

(** *** A list keeps the order *)

Section list.
Context (ts : list TaskSpec) (S : sound ts) (per : gmap str Expanded) (es : list Expanded) (out : Expanded).
Context (Hper : Forall2 (fun t e => per !! name t = Some e) ts es).
Context (Hdom : forall n, is_Some (per !! n) -> n ∈ names ts).
Context (Hw : wired per (flat_map depends_on ts) ts es out).
Context (Hes : Forall (fun e => flat e /\ whole e /\ has_rows e) es).
Context (Hn : NoDup (names (ex_tasks out))).

Abbreviation sib := (sib ts es).

Lemma sib_per i t e : sib i t e -> per !! name t = Some e.
Proof. intros [Ht He]. by destruct (Forall2_lookup_lr _ _ _ _ _ _ Hper Ht He). Qed.

Lemma sib_good i t e : sib i t e -> flat e /\ whole e /\ has_rows e.
Proof. intros [_ He]. exact (Forall_lookup_1 _ _ _ _ Hes He). Qed.

(** A dependency is a sibling. *)
Lemma sib_dep n e : per !! n = Some e -> exists i t, sib i t e /\ name t = n.
Proof.
  intros Hp. assert (n ∈ names ts) as Hin by by apply Hdom.
  apply list_elem_of_fmap in Hin as (t & -> & [i Ht]%list_elem_of_lookup).
  destruct (Forall2_lookup_l _ _ _ _ _ Hper Ht) as (e' & He & Hp'). exists i, t.
  assert (e' = e) as -> by congruence. by split.
Qed.

Lemma sib_same i j t t' e e' x :
  sib i t e -> sib j t' e' -> x ∈ names (ex_tasks e) -> x ∈ names (ex_tasks e') -> i = j.
Proof.
  intros [_ Hi] [_ Hj]. rewrite (wired_names _ _ _ _ _ Hw) in Hn.
  exact (NoDup_parts (fun e => names (ex_tasks e)) es i j e e' x Hn Hi Hj).
Qed.

(** What waits inside a part waits in the whole. *)
Lemma lift i t e y x : sib i t e -> waits (ex_tasks e) y x -> waits (ex_tasks out) y x.
Proof.
  intros Hs (r & Hr & <- & Hx). destruct (wired_at _ _ _ _ _ _ _ _ Hw Hs) as (deps & _ & Hrow & _).
  exists (wire (renamed_rows per) t (roots e) deps r). split_and!; [by apply Hrow|apply wire_name|].
  rewrite wire_deps, bool_decide_eq_false_2; [done|]. intros Hroot.
  destruct (sib_good _ _ _ Hs) as (_ & Wh & _). rewrite (wh_free _ Wh r Hr Hroot) in Hx.
  by apply elem_of_nil in Hx.
Qed.

Lemma lift_rtc i t e y x : sib i t e -> rtc (waits (ex_tasks e)) y x -> rtc (waits (ex_tasks out)) y x.
Proof. intros Hs. apply rtc_subrel. intros ? ?. by eapply lift. Qed.

(** The roots of a task wait for the exits of what it depends on. *)
Lemma cross i t e d ed y z :
  sib i t e -> d ∈ depends_on t -> per !! d = Some ed -> y ∈ roots e -> z ∈ exits ed ->
  waits (ex_tasks out) y z.
Proof.
  intros Hs Hd Hp Hy Hz. destruct (wired_at _ _ _ _ _ _ _ _ Hw Hs) as (deps & Hdeps & Hrow & _).
  destruct (sib_good _ _ _ Hs) as (Fl & _). apply (fl_roots _ Fl) in Hy as Hin.
  apply list_elem_of_fmap in Hin as (r & -> & Hr).
  exists (wire (renamed_rows per) t (roots e) deps r). split_and!; [by apply Hrow|apply wire_name|].
  rewrite wire_deps, bool_decide_eq_true_2 by done.
  eapply dep_exits_in; [exact Hdeps|]. by exists d, ed.
Qed.

(** A task's dependencies all are siblings. *)
Lemma dep_sib i t e d :
  sib i t e -> d ∈ depends_on t -> exists j t' ed, sib j t' ed /\ name t' = d /\ per !! d = Some ed.
Proof.
  intros Hs Hd. destruct (wired_at _ _ _ _ _ _ _ _ Hw Hs) as (deps & Hdeps & _).
  assert (is_Some (per !! d)) as [ed Hp].
  { clear -Hdeps Hd. revert deps Hdeps; induction (depends_on t) as [|d' l IH]; intros deps;
      [by apply elem_of_nil in Hd|]. cbn [dep_exits].
    destruct (per !! d') eqn:E; [|done]. destruct (dep_exits per (name t) l) eqn:El; [|done].
    intros _. apply elem_of_cons in Hd as [->|Hd]; [by rewrite E|by eapply IH]. }
  destruct (sib_dep _ _ Hp) as (j & t' & Hj & Hn'). by exists j, t', ed.
Qed.

Lemma some_row i t e : sib i t e -> exists x, x ∈ names (ex_tasks e).
Proof.
  intros (_ & _ & H)%sib_good. unfold has_rows in H. destruct (ex_tasks e) as [|r l]; [done|].
  exists (name r). by left.
Qed.

(** All of a task waits for all of what it depends on. *)
Lemma part_order i t e d ed x y :
  sib i t e -> d ∈ depends_on t -> per !! d = Some ed ->
  x ∈ names (ex_tasks ed) -> y ∈ names (ex_tasks e) -> tc (waits (ex_tasks out)) y x.
Proof.
  intros Hs Hd Hp Hx Hy. destruct (sib_dep _ _ Hp) as (j & t' & Hj & _).
  destruct (sib_good _ _ _ Hs) as (_ & Wt & _), (sib_good _ _ _ Hj) as (_ & Wd & _).
  destruct (wh_roots _ Wt y Hy) as (r & Hr & Hyr), (wh_exits _ Wd x Hx) as (z & Hz & Hzx).
  eapply tc_rtc_l; [exact (lift_rtc _ _ _ _ _ Hs Hyr)|].
  eapply tc_rtc_r; [|exact (lift_rtc _ _ _ _ _ Hj Hzx)].
  apply tc_once. exact (cross _ _ _ _ _ _ _ Hs Hd Hp Hr Hz).
Qed.
(** Down from any task to one with no dependency. *)
Lemma down_to_root i t e y :
  sib i t e -> y ∈ names (ex_tasks e) -> exists r, r ∈ roots out /\ rtc (waits (ex_tasks out)) y r.
Proof.
  destruct (so_acyclic _ S) as [rk Hrk].
  remember (rk (name t)) as n eqn:En. revert i t e y En.
  induction n as [n IH] using lt_wf_ind; intros i t e y -> Hs Hy.
  destruct (sib_good _ _ _ Hs) as (_ & Wt & _), (wh_roots _ Wt y Hy) as (r & Hr & Hyr).
  apply (lift_rtc _ _ _ _ _ Hs) in Hyr. destruct (depends_on t) as [|d l] eqn:Ed.
  - exists r. split; [|done]. destruct (wired_at _ _ _ _ _ _ _ _ Hw Hs) as (deps & _ & _ & H & _).
    by apply H.
  - assert (d ∈ depends_on t) as Hd by (rewrite Ed; left).
    destruct (dep_sib _ _ _ _ Hs Hd) as (j & t' & ed & Hj & Hj' & Hp).
    destruct (some_row _ _ _ Hj) as [x Hx].
    assert (t ∈ ts) as Ht by (destruct Hs; by eapply list_elem_of_lookup_2).
    destruct (IH (rk (name t'))) with (i := j) (t := t') (e := ed) (y := x) as (r' & Hr' & Hxr');
      [rewrite Hj'; by apply Hrk|done..|].
    exists r'. split; [done|]. etrans; [|exact Hxr'].
    apply tc_rtc. exact (part_order _ _ _ _ _ _ _ Hs Hd Hp Hx Hy).
Qed.

(** Up from any task to one nothing depends on. *)
Lemma up_to_exit i t e x :
  sib i t e -> x ∈ names (ex_tasks e) -> exists z, z ∈ exits out /\ rtc (waits (ex_tasks out)) z x.
Proof.
  destruct (so_acyclic _ S) as [rk Hrk].
  remember (max_list (map rk (names ts)) - rk (name t))%nat as n eqn:En. revert i t e x En.
  induction n as [n IH] using lt_wf_ind; intros i t e x -> Hs Hx.
  destruct (sib_good _ _ _ Hs) as (_ & Wt & _), (wh_exits _ Wt x Hx) as (z & Hz & Hzx).
  apply (lift_rtc _ _ _ _ _ Hs) in Hzx.
  destruct (decide (name t ∈ flat_map depends_on ts)) as [Hdd|Hdd].
  - apply list_elem_of_In, in_flat_map in Hdd as (t' & Ht' & Hd).
    apply list_elem_of_In in Ht', Hd. apply list_elem_of_lookup in Ht' as Hi. destruct Hi as [j Hj].
    destruct (Forall2_lookup_l _ _ _ _ _ Hper Hj) as (e' & He' & Hp').
    assert (sib j t' e') as Hs' by done. destruct (some_row _ _ _ Hs') as [y Hy].
    assert (rk (name t) < rk (name t'))%nat as Hlt by by apply Hrk.
    assert (rk (name t') <= max_list (map rk (names ts)))%nat as Hle.
    { apply max_list_elem_of_le, list_elem_of_fmap. eexists; split; [done|].
      apply list_elem_of_fmap. by eexists. }
    destruct (IH (max_list (map rk (names ts)) - rk (name t'))%nat) with (i := j) (t := t') (e := e') (x := y)
      as (z' & Hz' & Hzy); [lia|done..|].
    exists z'. split; [done|]. etrans; [exact Hzy|]. apply tc_rtc.
    exact (part_order _ _ _ _ _ _ _ Hs' Hd (sib_per _ _ _ Hs) Hx Hy).
  - exists z. split; [|done]. destruct (wired_at _ _ _ _ _ _ _ _ Hw Hs) as (deps & _ & _ & _ & H).
    by apply H.
Qed.

Lemma list_whole : whole out /\ has_rows out.
Proof.
  assert (forall x, x ∈ names (ex_tasks out) -> exists i t e, sib i t e /\ x ∈ names (ex_tasks e)) as Hrow.
  { intros x Hx. apply list_elem_of_fmap in Hx as (r & -> & Hr).
    destruct (wired_row _ _ _ _ _ _ Hw Hr) as (i & t & e & deps & r0 & Hs & Hr0 & _ & ->).
    exists i, t, e. split; [done|]. rewrite wire_name. apply list_elem_of_fmap. eauto. }
  split; [split|].
  - intros y (i & t & e & Hs & Hy)%Hrow. by eapply down_to_root.
  - intros x (i & t & e & Hs & Hx)%Hrow. by eapply up_to_exit.
  - intros r Hr (j & t' & e' & Hs' & Hd' & Hx)%(wired_root _ _ _ _ _ _ Hw).
    destruct (wired_row _ _ _ _ _ _ Hw Hr) as (i & t & e & deps & r0 & Hs & Hr0 & Hdeps & ->).
    rewrite wire_name in Hx. destruct (sib_good _ _ _ Hs') as (Fl & _).
    assert (i = j) as <-.
    { apply (sib_same _ _ _ _ _ _ (name r0) Hs Hs'); [apply list_elem_of_fmap; eauto|by apply fl_roots]. }
    destruct Hs as [Ht He], Hs' as [Ht' He']. assert (t' = t) as -> by congruence.
    assert (e' = e) as -> by congruence. rewrite wire_deps, bool_decide_eq_true_2 by done.
    rewrite Hd' in Hdeps. by injection Hdeps as <-.
  - destruct (list_elem_of_lookup_1 ts (default (Spec.task_named []) (head ts))) as [i0 Ht].
    { pose proof (so_some _ S) as Hne. clear -Hne. destruct ts as [|t l]; [done|]. left. }
    destruct (Forall2_lookup_l _ _ _ _ _ Hper Ht) as (e & He & _). set (t := default _ _) in Ht.
    assert (sib i0 t e) as Hs by done. destruct (some_row _ _ _ Hs) as [x Hx].
    apply list_elem_of_fmap in Hx as (r & -> & Hr).
    destruct (wired_at _ _ _ _ _ _ _ _ Hw Hs) as (deps & _ & H & _). apply H in Hr.
    unfold has_rows. intros E. rewrite E in Hr. by apply elem_of_nil in Hr.
Qed.
End list.

Lemma each_whole pre c ts b es b' :
  each call pre c ts b es b' -> unguarded ts -> (forall i e, es !! i = Some e -> NoDup (names (ex_tasks e))) ->
  Forall (fun e => flat e /\ whole e /\ has_rows e) es.
Proof.
  induction 1 as [b|t ts b e b1 es b2 H _ IH]; [constructor|]. intros [Ht Hts]%Forall_cons Hn. constructor.
  - destruct (one_good _ G _ _ _ _ _ _ H) as [Hf _]. split; [done|].
    exact (one_whole _ _ _ _ _ _ Ht H (Hn 0%nat e eq_refl)).
  - apply IH; [done|]. intros i. apply (Hn (S i)).
Qed.

(** The list, as its passes leave it. *)
Lemma list_parts ts pre c b out b' :
  sound ts -> expand_list call ts pre c b = Ok (out, b') -> NoDup (names (ex_tasks out)) ->
  exists per es b1,
    expand_each call pre c ∅ ts b = Ok (per, b1)
    /\ Forall2 (fun t e => per !! name t = Some e) ts es
    /\ (forall n, is_Some (per !! n) -> n ∈ names ts)
    /\ wired per (flat_map depends_on ts) ts es out
    /\ Forall (fun e => flat e /\ whole e /\ has_rows e) es.
Proof.
  intros Hs H Hn. destruct (expand_each call pre c ∅ ts b) as [[per b1]|] eqn:E;
    [|unfold expand_list in H; by rewrite E in H].
  pose proof E as E'. apply expand_each_each in E' as (es & He & _ & _ & Hp & Hd & _).
  assert (wired per (flat_map depends_on ts) ts es out) as Hw.
  { unfold expand_list in H. rewrite E in H. destruct (wire_each _ _ _ _) as [e|] eqn:Ew; [|done].
    injection H as -> _. by apply wire_each_wired. }
  exists per, es, b1. split_and!; [done|done| |done|].
  - intros n [Hx|Hx]%Hd; [|done]. rewrite lookup_empty in Hx. by destruct Hx.
  - eapply each_whole; [exact He|by apply so_unguarded|]. intros i e Hi.
    rewrite (wired_names _ _ _ _ _ Hw) in Hn.
    exact (NoDup_part (fun e => names (ex_tasks e)) es i e Hn Hi).
Qed.

Lemma expand_list_whole ts pre c b out b' :
  sound ts -> expand_list call ts pre c b = Ok (out, b') -> NoDup (names (ex_tasks out)) ->
  whole out /\ has_rows out.
Proof.
  intros Hs H Hn. destruct (list_parts _ _ _ _ _ _ Hs H Hn) as (per & es & b1 & _ & Hp & Hd & Hw & He).
  exact (list_whole ts Hs per es out Hp Hd Hw He Hn).
Qed.
End caller.

(** *** Calls of templates, however deep *)

Definition sound_templates (templates : gmap str TemplateSpec) : Prop :=
  forall n tm, templates !! n = Some tm -> sound (tm_tasks tm).

Lemma call_whole templates room : sound_templates templates -> whole_caller (expand_call templates room).
Proof.
  intros Ht. induction room as [|room IH]; intros t base c b e b'; cbn [expand_call]; [done|].
  destruct (template t) as [n|]; [|done]. destruct (templates !! n) as [tm|] eqn:E; [|done].
  intros H Hn. eapply expand_list_whole; [by apply call_good|exact IH|by eapply Ht|exact H|exact Hn].
Qed.

(** C18: An expansion keeps the order, however deep its calls, where no list of tasks is
    empty: in a list of one or more unguarded tasks whose dependencies do not go round in a
    circle, calling templates whose lists are the same (one task at least, unguarded, in no
    circle), every task becomes at least one row; and when a task depends on another, every
    row it became waits, directly or through other rows, for every row the other became.
    That rows have names of their own is what is asked of the result.  (A template whose
    list is empty is expanded, to nothing: [empty_template_loses_order].) *)
Theorem order_kept (templates : gmap str TemplateSpec) (room : nat) (ts : list TaskSpec)
    (pre : str) (c : Cond.ctx) (b b' : N) (out : Expanded) :
  sound ts -> sound_templates templates ->
  expand_list (expand_call templates room) ts pre c b = Ok (out, b') ->
  NoDup (names (ex_tasks out)) ->
  exists per b1, expand_each (expand_call templates room) pre c ∅ ts b = Ok (per, b1)
    /\ forall t, t ∈ ts -> exists e, per !! name t = Some e /\ ex_tasks e <> []
       /\ names (ex_tasks e) ⊆ names (ex_tasks out)
       /\ forall d ed x y, d ∈ depends_on t -> per !! d = Some ed ->
            x ∈ names (ex_tasks ed) -> y ∈ names (ex_tasks e) -> tc (waits (ex_tasks out)) y x.
Proof.
  intros Hs Ht H Hn.
  destruct (list_parts _ (call_good _ _) (call_whole _ _ Ht) _ _ _ _ _ _ Hs H Hn)
    as (per & es & b1 & He & Hp & Hd & Hw & Hes).
  exists per, b1. split; [done|]. intros t [i Hi]%list_elem_of_lookup.
  destruct (Forall2_lookup_l _ _ _ _ _ Hp Hi) as (e & Hei & Hpe). assert (sib ts es i t e) as Hsib by done.
  destruct (Forall_lookup_1 _ _ _ _ Hes Hei) as (_ & _ & Hrows). exists e. split_and!; [done|done| |].
  - rewrite (wired_names _ _ _ _ _ Hw). intros x Hx.
    exact (elem_of_part (fun e => names (ex_tasks e)) es i e x Hei Hx).
  - intros d ed x y Hdep Hped Hx Hy. exact (part_order ts per es out Hp Hd Hw Hes _ _ _ _ _ _ _ Hsib Hdep Hped Hx Hy).
Qed.
End order.
End ExpandOrder.

Module ExpandWitnesses.

Import Spec Expand ExpandFacts ExpandOrder.

(** Two documents, and numbers as their digits. *)
#[local] Instance two_documents : SerdeJson Z := {
  num_to_string := fun n => show_N (Z.to_N n);
  json_from_str := fun s => if bool_decide (s = $"[1,2]") then Ok (JArray [JNumber 1%Z; JNumber 2%Z])
                            else if bool_decide (s = $"[3]") then Ok (JArray [JNumber 3%Z])
                            else Err [];
  json_to_string := fun _ => [];
}.

Definition runs (n : str) (deps : list str) : Spec.TaskSpec Z :=
  (Sample.task n deps) <| command := [$"true"] |>.
Definition calls (n tm : str) (args : list (str * str)) (deps : list str) : Spec.TaskSpec Z :=
  (Sample.task n deps) <| template := Some tm |> <| arguments := list_to_map args |>.
Definition flow (tmpls : list (Spec.TemplateSpec Z)) (ts : list (Spec.TaskSpec Z)) : Spec.DagSpec Z :=
  (Spec.spec (Sample.dag ts)) <| Spec.templates := tmpls |>.
Definition no_env : str -> option str := fun _ => None.

(** The rows of an expansion, and what each waits for. *)
Definition rows_of (r : result expand_error (Spec.DagSpec Z)) : option (list (str * list str)) :=
  match r with Ok s => Some (map (fun t => (name t, depends_on t)) (tasks s)) | Err _ => None end.

(** ** A call between two tasks *)

Definition pair_template : Spec.TemplateSpec Z :=
  {| tm_name := $"pair"; tm_parameters := ∅; tm_tasks := [runs $"a" []; runs $"b" [$"a"]] |}.
Definition pair_tasks : list (Spec.TaskSpec Z) :=
  [runs $"first" []; calls $"mid" $"pair" [] [$"first"]; runs $"last" [$"mid"]].
Definition pair_flow : Spec.DagSpec Z := flow [pair_template] pair_tasks.

Definition pair_rows : Spec.DagSpec Z :=
  match expand no_env pair_flow with Ok s => s | Err _ => pair_flow end.

Lemma pair_rows_eq : expand no_env pair_flow = Ok pair_rows.
Proof. vm_compute. reflexivity. Qed.

Lemma expand_flat_witness :
  rows_of (Ok pair_rows)
  = Some [($"first", []); ($"mid.a", [$"first"]); ($"mid.b", [$"mid.a"]); ($"last", [$"mid.b"])]
  /\ Forall leaf (tasks pair_rows) /\ templates pair_rows = [].
Proof.
  split; [by vm_compute|].
  destruct (expand_flat no_env pair_flow pair_rows pair_rows_eq) as (H1 & _ & _ & H2 & _). by split.
Defined.

Lemma ok_parts {E A} (r : result E (A * N)) (d : A) (n : N) :
  match r with Ok (_, m) => (m =? n)%N | Err _ => false end = true ->
  r = Ok (match r with Ok (x, _) => x | Err _ => d end, n).
Proof. destruct r as [[x m]|]; [|done]. by intros ->%N.eqb_eq. Qed.

(** The dependencies of a list whose tasks come after what they wait for go down. *)
Definition place (ts : list (Spec.TaskSpec Z)) (n : str) : nat :=
  match list_find (fun t => name t = n) ts with Some (i, _) => i | None => 0 end.
Definition in_order (ts : list (Spec.TaskSpec Z)) : bool :=
  forallb (fun t => forallb (fun d => (place ts d <? place ts (name t))%nat) (depends_on t)) ts.

Lemma in_order_acyclic ts : in_order ts = true -> acyclic ts.
Proof.
  intros H. exists (place ts). intros t d Ht Hd. unfold in_order in H. rewrite forallb_forall in H.
  apply list_elem_of_In in Ht, Hd. specialize (H t Ht). rewrite forallb_forall in H.
  by apply Nat.ltb_lt, H.
Qed.

Definition pair_templates : gmap str (Spec.TemplateSpec Z) := {[ $"pair" := pair_template ]}.
Definition pair_result : result expand_error (Expanded (Num := Z) * N) :=
  expand_list (expand_call pair_templates 2) pair_tasks [] ∅ 100.
Definition pair_out : Expanded (Num := Z) :=
  match pair_result with Ok (e, _) => e | Err _ => empty end.

Lemma pair_out_eq : expand_list (expand_call pair_templates 2) pair_tasks [] ∅ 100 = Ok (pair_out, 96%N).
Proof. apply ok_parts. by vm_compute. Qed.

Definition pair_per : gmap str (Expanded (Num := Z)) :=
  match expand_each (expand_call pair_templates 2) [] ∅ ∅ pair_tasks 100 with
  | Ok (per, _) => per
  | Err _ => ∅
  end.
Lemma pair_per_eq : expand_each (expand_call pair_templates 2) [] ∅ ∅ pair_tasks 100 = Ok (pair_per, 96%N).
Proof. apply ok_parts. by vm_compute. Qed.
Definition pair_part (n : str) : Expanded (Num := Z) := default empty (pair_per !! n).
Lemma pair_at n : is_some (pair_per !! n) = true -> pair_per !! n = Some (pair_part n).
Proof. unfold pair_part. by destruct (pair_per !! n). Qed.
Lemma pair_parts :
  names (ex_tasks (pair_part $"mid")) = [$"mid.a"; $"mid.b"] /\ names (ex_tasks (pair_part $"last")) = [$"last"].
Proof. split; vm_compute; reflexivity. Qed.

Lemma sound_tasks (ts : list (Spec.TaskSpec Z)) :
  ts <> [] -> forallb (fun t => bool_decide (when t = None)) ts = true -> in_order ts = true -> sound ts.
Proof.
  intros H1 H2 H3. split; [done| |by apply in_order_acyclic]. apply Forall_forall. intros t Ht.
  rewrite forallb_forall in H2. apply list_elem_of_In, H2 in Ht. by apply bool_decide_eq_true in Ht.
Qed.

Lemma order_kept_witness :
  names (ex_tasks pair_out) = [$"first"; $"mid.a"; $"mid.b"; $"last"]
  /\ tc (waits (ex_tasks pair_out)) $"last" $"mid.a".
Proof.
  split; [by vm_compute|].
  destruct (order_kept pair_templates 2 pair_tasks [] ∅ 100 96 pair_out) as (per & b1 & He & H).
  - apply sound_tasks; [done|by vm_compute|by vm_compute].
  - intros n tm. unfold pair_templates. intros [<- <-]%lookup_singleton_Some.
    apply sound_tasks; [done|by vm_compute|by vm_compute].
  - apply pair_out_eq.
  - by apply (bool_decide_unpack _); vm_compute.
  - rewrite pair_per_eq in He. injection He as <- _. destruct pair_parts as [Hmid Hlast].
    assert (runs $"last" [$"mid"] ∈ pair_tasks) as Hin by (right; right; left).
    destruct (H _ Hin) as (e & Hper & _ & _ & Ho).
    change (name (runs $"last" [$"mid"])) with ($"last") in Hper. rewrite pair_at in Hper by (vm_compute; reflexivity).
    assert (e = pair_part $"last") as -> by congruence. apply (Ho $"mid" (pair_part $"mid")); [left|by apply pair_at; vm_compute|rewrite Hmid; left|].
    rewrite Hlast. left.
Defined.

(** ** A fan-out *)

Definition shards : Spec.TaskSpec Z :=
  (runs $"shard" [$"plan"]) <| with_output_of := Some $"plan" |>
    <| instance_key := Some $"n {{ item }}" |>.
Definition shard_list : list (FanoutInstance (Num := Z)) :=
  match fanout_instances shards [($"plan.0", $"[1,2]"); ($"plan.1", $" "); ($"plan.2", $"[3]")] with
  | Ok l => l
  | Err _ => []
  end.

Lemma fanout_distinct_witness :
  map fi_name shard_list = [$"shard.n-1"; $"shard.n-2"; $"shard.n-3"] /\ NoDup (map fi_name shard_list).
Proof.
  split; [by vm_compute|].
  destruct (fanout_distinct shards [($"plan.0", $"[1,2]"); ($"plan.1", $" "); ($"plan.2", $"[3]")] shard_list)
    as (items & _ & _ & H & _); [by vm_compute|exact H].
Defined.

(** ** Guards that take the order with them *)

(** The countdown of [examples/templates/06_recursion_countdown.yaml], and a task that
    waits for it. *)
Definition countdown : Spec.TemplateSpec Z :=
  {| tm_name := $"countdown"; tm_parameters := {[ $"n" := $"0" ]};
     tm_tasks :=
       [runs $"tick" [];
        (calls $"recurse" $"countdown" [($"n", $"{{ n - 1 }}")] [$"tick"])
          <| when := Some $"{{ n }} > 0" |>] |}.
Definition after_countdown : Spec.DagSpec Z :=
  flow [countdown]
    [calls $"launch" $"countdown" [($"n", $"1")] []; runs $"after" [$"launch"]].

(** A recursion has no end to wait for.  The call its guard skips leaves the template's list
    without an exit, since the task before it is one that something depends on; so what
    depends on the call waits for nothing, and starts at once. *)
Theorem guarded_tail_loses_order :
  rows_of (expand no_env after_countdown)
  = Some [($"launch.tick", []); ($"launch.recurse.tick", [$"launch.tick"]); ($"after", [])].
Proof. by vm_compute. Qed.

(** A skipped head, the same at the other end: what depends on it alone is no root of the
    list, and does not wait for what the call waits for. *)
Definition skipped_head : Spec.TemplateSpec Z :=
  {| tm_name := $"stage"; tm_parameters := ∅;
     tm_tasks := [(runs $"gate" []) <| when := Some $"1 > 2" |>; runs $"ship" [$"gate"]] |}.
Theorem guarded_head_loses_order :
  rows_of (expand no_env (flow [skipped_head] [runs $"build" []; calls $"prod" $"stage" [] [$"build"]]))
  = Some [($"build", []); ($"prod.ship", [])].
Proof. by vm_compute. Qed.

(** A template of no tasks is no row, and what waits for its call waits for nothing: the
    same, of a list that is empty as written. *)
Definition no_tasks : Spec.TemplateSpec Z :=
  {| tm_name := $"nothing"; tm_parameters := ∅; tm_tasks := [] |}.
Theorem empty_template_loses_order :
  rows_of (expand no_env (flow [no_tasks]
             [runs $"build" []; calls $"mid" $"nothing" [] [$"build"]; runs $"ship" [$"mid"]]))
  = Some [($"build", []); ($"ship", [])].
Proof. by vm_compute. Qed.
End ExpandWitnesses.
