(* ===== verification/Fanout.v ===== *)
(** * Fan-outs at run time ([reconcile_fanouts] of [dagron-core/src/db/sqlite.rs])

    A task with [with_output_of:] is made as one row, a barrier, which parks once its
    dependencies are over.  The sweep reads what its producer printed, makes one task of
    each item and has the barrier wait for them; once they are all over, the barrier is too.
    The reads and the writes are separate transactions, so that each write is a definition
    of its own, over the store it finds, and says again what was read. *)

From S2P Require Import Tables Cond Stops Parks Runs Expand.

Module Fanout.

Import Models Runs.

Definition SWEEP_BATCH : nat := 256.

(** [FANOUT_TERMINAL] *)
Definition FANOUT_TERMINAL : list TaskStatus := [Succeeded; Failed; Skipped; Cancelled].
Definition ended (r : T.task_run) : bool := bool_decide (T.status r ∈ FANOUT_TERMINAL).

Definition instance_of (barrier : str) (r : T.task_run) : bool := sql_eq (T.fanout_parent r) barrier.
Definition instances (barrier : str) (s : store) : gmap str T.task_run :=
  affected (fun _ i => instance_of barrier i) (task_runs s).

(** The parked shape. *)
Definition parked (r : T.task_run) : bool :=
  is_status Running r && not_null (T.fanout_of r) && is_null (T.claimed_by r).

(** An instance of the barrier's generation, or of a later one, that has not ended. *)
Definition unfinished (barrier : str) (version : Z) (i : T.task_run) : bool :=
  instance_of barrier i && (version <=? T.fanout_epoch i)%Z && negb (ended i).

(** [PARKED_FANOUTS] *)
Definition due (s : store) (id : str) (b : T.task_run) : bool :=
  parked b && (size (affected (fun _ i => unfinished id (T.version b) i) (task_runs s)) =? 0)%nat.

(** ** Older generations *)

Definition stale (barrier : str) (version : Z) (i : T.task_run) : bool :=
  instance_of barrier i && (T.fanout_epoch i <? version)%Z.
Definition is_stale (barrier : str) (version : Z) (s : store) (id : str) : bool :=
  match task_runs s !! id with Some i => stale barrier version i | None => false end.

(** The two DELETEs: the barrier's edges on them, and the rows.  An edge that is left on one
    of them is a foreign key without its row. *)
Definition drop_stale_edges (barrier : str) (version : Z) (s : store) : store :=
  s <| task_dependencies ::=
         filter (fun e => bool_decide (e.1 = barrier) && is_stale barrier version s e.2 = false) |>.
Definition drop_stale_rows (barrier : str) (version : Z) (s : store) : result create_error store :=
  let gone := is_stale barrier version s in
  if existsb (fun e => gone e.1 || gone e.2) (elements (task_dependencies s)) then Err ConstraintViolated
  else Ok (delete_tasks gone s).

(** ** Resolving *)

(** [{}] of a count *)
Definition entry (k : str) (n : nat) : str := [QUOTE] ++ k ++ [QUOTE] ++ $":" ++ show_nat n.

(** [fanout_summary]: the members of an object, in the order of their names. *)
Definition count (x : TaskStatus) (statuses : list TaskStatus) : nat :=
  length (List.filter (fun y => bool_decide (y = x)) statuses).
Definition fanout_summary (statuses : list TaskStatus) : str :=
  $"{" ++ join $"," [entry $"failed" (count Failed statuses + count Cancelled statuses);
                     entry $"instances" (length statuses);
                     entry $"skipped" (count Skipped statuses);
                     entry $"succeeded" (count Succeeded statuses)] ++ $"}".

(** [finish_fanout] *)
Definition finish_fanout (task_id : str) (succeeded : bool) (output : str) (now : time) (s : store)
    : store * bool :=
  Parks.resolve task_id parked
    (Parks.finished (if succeeded then Succeeded else Failed) now (Some output)) s.

(** The phase [join]: [None] while an instance runs, or where another pass resolved it. *)
Definition broken (r : T.task_run) : bool := is_status Failed r || is_status Cancelled r.
Definition join_fanout (task_id : str) (b : T.task_run) (now : time) (s : store)
    : store * option FanoutOutcome :=
  let rows := map snd (map_to_list (instances task_id s)) in
  if existsb (fun i => negb (ended i)) rows then (s, None)
  else
    let succeeded := negb (existsb broken rows) || T.allow_failure b in
    let '(s, won) := finish_fanout task_id succeeded (fanout_summary (map T.status rows)) now s in
    (s, if won then Some (Joined succeeded (length rows)) else None).

(** ** Expanding *)

Section fanout.
Context {W : World} {J : SerdeJson num}.

(** The rows the sweep meets first, up to a batch. *)
Definition parked_fanouts (s : store) : list (str * T.task_run) :=
  take SWEEP_BATCH (scan (affected (due s) (task_runs s))).

(** What each producer printed, in the order of [depends_on]; read through the edges. *)
Definition printed (task_id : str) (s : store) : gmap str str :=
  fold_left (fun m d => <[ T.name d.2 := default [] (T.output d.2) ]> m)
    (dependency_rows s task_id) ∅.
Definition producers (spec : Spec.TaskSpec num) (want : list str) (task_id : str) (s : store)
    : list (str * str) :=
  map (fun n => (n, default [] (printed task_id s !! n))) want.

Definition tasks_in (run_id : str) (s : store) : nat :=
  size (affected (fun _ r => bool_decide (T.run_id r = run_id)) (task_runs s)).

(** The reads of the phase [expand]: the instances to make, or why the barrier fails. *)
Definition fanout_plan (task_id : str) (b : T.task_run) (s : store)
    : result str (list (Expand.FanoutInstance (Num := num))) :=
  match T.input b ≫= task_from_json with
  | None => Err $"the task's stored spec could not be read"
  | Some spec =>
      let producer := default [] (Spec.with_output_of spec) in
      let want := Expand.fanout_producer_rows producer (Spec.depends_on spec) in
      if bool_decide (want = []) then
        Err ($"with_output_of names '" ++ producer
             ++ $"', which is not among this task's dependencies — nothing to read")
      else
        match Expand.fanout_instances spec (producers spec want task_id s) with
        | Err e => Err (Expand.fanout_refusal spec e)
        | Ok made =>
            let existing := tasks_in (T.run_id b) s in
            let ceiling := Expand.max_tasks_per_run env in
            if (ceiling <? N.of_nat existing + N.of_nat (length made))%N then
              Err ($"runtime fan-out over '" ++ producer ++ $"' would add " ++ show_nat (length made)
                   ++ $" tasks to a run that already has " ++ show_nat existing ++ $", exceeding "
                   ++ show_N ceiling ++ $" (DAGRON_MAX_TASKS_PER_RUN)")
            else Ok made
        end
  end.

(** The row of one instance, of the generation [epoch]. *)
Definition instance_row (task_id : str) (b : T.task_run) (epoch : Z) (now : time)
    (i : Expand.FanoutInstance (Num := num)) : T.task_run :=
  {| T.run_id := T.run_id b;
     T.name := Expand.fi_name i;
     T.status := Ready;
     T.attempt := 0;
     T.attempt_base := 0;
     T.remaining_deps := 0;
     T.input := Some (task_to_json (Expand.fi_spec i));
     T.output := None;
     T.log := None;
     T.log_fence := None;
     T.log_gen := None;
     T.claimed_by := None;
     T.lease_expires_at := None;
     T.version := 0;
     T.scheduled_at := Some now;
     T.finished_at := None;
     T.trigger_rule := $"all_success";
     T.allow_failure := T.allow_failure b;
     T.is_approval := false;
     T.approval_timeout_secs := None;
     T.approval_on_timeout := None;
     T.runner_class := T.runner_class b;
     T.gang_id := None;
     T.gang_rank := None;
     T.gang_size := None;
     T.priority := T.priority b;
     T.pool := T.pool b;
     T.fanout_of := None;
     T.fanout_parent := Some task_id;
     T.fanout_epoch := epoch;
     T.stop_requested_at := None;
     T.session_id := None;
     T.sub_run_id := None;
     T.wake_at := None;
     T.wait_url := None;
     T.wait_dataset := None;
     T.wait_dataset_cursor := None;
     T.next_poll_at := None;
     T.external_kind := None;
     T.external_handle := None;
     T.external_endpoint := None;
     T.external_epoch := 0;
     T.external_deadline_at := None;
     T.cache_hit := false;
     T.decided_by := None;
     T.decision_comment := None;
     T.fault_class := None;
     T.fault_detail := None;
     T.fault_confidence := None;
     T.quota_wait_since := None;
     T.quota_waits := 0;
     T.quota_wait_version := None;
     T.quota_wait_detail := None;
     T.checkpoint_uri := None;
     T.checkpoint_marker := None;
     T.reset_by := None |}.

(** The inserts, each a row and the barrier's edge on it, under fresh ids. *)
Fixpoint insert_instances (uuid : nat -> str) (next : nat) (task_id : str) (b : T.task_run)
    (epoch : Z) (now : time) (made : list (Expand.FanoutInstance (Num := num))) (s : store)
    : result create_error (store * nat) :=
  match made with
  | [] => Ok (s, next)
  | i :: made =>
      let? s := insert_task (uuid next) (instance_row task_id b epoch now i) s in
      let? s := insert_edge s (task_id, uuid next) in
      insert_instances uuid (S next) task_id b epoch now made s
  end.

(** The CAS that one of the schedulers wins. *)
Definition unexpanded (version : Z) (r : T.task_run) : bool :=
  (T.version r =? version)%Z && is_status Running r && is_null (T.claimed_by r).

(** The transaction of an expansion, for a barrier read as [b]: [None] where another was
    first. *)
Definition expand_fanout (uuid : nat -> str) (next : nat) (task_id : str) (b : T.task_run)
    (now : time) (made : list (Expand.FanoutInstance (Num := num))) (s : store)
    : result create_error (option (store * nat)) :=
  let '(s, rows) :=
    update_tasks (fun id r => bool_decide (id = task_id) && unexpanded (T.version b) r)
      (fun r => r <| T.version ::= Z.succ |>) s in
  match task_runs s !! task_id, (rows =? 0)%nat with
  | Some r, false =>
      let? r := insert_instances uuid next task_id b (T.version r) now made s in Ok (Some r)
  | _, _ => Ok None
  end.

(** ** A pass *)

(** One barrier of a pass: the store, the next fresh id and what became of it. *)
Definition fail_fanout (task_id why : str) (now : time) (s : store) : store * option FanoutOutcome :=
  let '(s, won) := finish_fanout task_id false why now s in
  (s, if won then Some (FanoutFailed why) else None).

Definition begin_fanout (uuid : nat -> str) (next : nat) (task_id : str) (b : T.task_run) (now : time)
    (s : store) : result create_error (store * nat * option FanoutOutcome) :=
  match fanout_plan task_id b s with
  | Err why => Ok (let '(s, out) := fail_fanout task_id why now s in (s, next, out))
  | Ok [] =>
      let '(s, won) := finish_fanout task_id true $"[]" now s in
      Ok (s, next, if won then Some (Joined true 0) else None)
  | Ok made =>
      let? r := expand_fanout uuid next task_id b now made s in
      match r with
      | Some (s, next) => Ok (s, next, Some (Models.Expanded (length made)))
      | None => Ok (s, next, None)
      end
  end.

Definition reconcile_fanout (uuid : nat -> str) (next : nat) (task_id : str) (b : T.task_run)
    (now : time) (s : store) : store * result create_error (nat * option FanoutOutcome) :=
  let s := drop_stale_edges task_id (T.version b) s in
  match drop_stale_rows task_id (T.version b) s with
  | Err e => (s, Err e)
  | Ok s =>
      if bool_decide (instances task_id s = ∅) then
        match begin_fanout uuid next task_id b now s with
        | Err e => (s, Err e)
        | Ok (s, next, out) => (s, Ok (next, out))
        end
      else let '(s, out) := join_fanout task_id b now s in (s, Ok (next, out))
  end.

(** The loop over the barriers read: an error ends it, and what was written stays. *)
Fixpoint reconcile_each (uuid : nat -> str) (next : nat) (now : time) (l : list (str * T.task_run))
    (s : store) (out : list (str * FanoutOutcome))
    : store * result create_error (list (str * FanoutOutcome)) :=
  match l with
  | [] => (s, Ok out)
  | (id, b) :: l =>
      match reconcile_fanout uuid next id b now s with
      | (s, Err e) => (s, Err e)
      | (s, Ok (next, None)) => reconcile_each uuid next now l s out
      | (s, Ok (next, Some o)) => reconcile_each uuid next now l s (out ++ [(id, o)])
      end
  end.

(** [reconcile_fanouts]: what it resolved, and whether it read a whole batch. *)
Definition reconcile_fanouts (uuid : nat -> str) (now : time) (s : store)
    : store * result create_error (list (str * FanoutOutcome) * bool) :=
  let l := parked_fanouts s in
  let '(s, r) := reconcile_each uuid 0 now l s [] in
  (s, let? out := r in Ok (out, (SWEEP_BATCH <=? length l)%nat)).
End fanout.
End Fanout.
