(* ===== verification/FanoutFacts.v ===== *)
(** * What a sweep of the parked fan-outs does ([Fanout])

    Which barriers move, what an expansion writes and how a barrier ends, and that either
    loses to another that was first.  ([History] has that each is done once.) *)

From S2P Require Import Tables Cond Stops Parks Runs Expand ExpandFacts Invariant Create Admission Fanout.

Module FanoutFacts.

Import Models Runs Invariant Fanout.

(** ** Resolving *)

Lemma update_tasks_one p f s id r :
  task_runs s !! id = Some r -> p r = true ->
  update_tasks (fun i r => bool_decide (i = id) && p r) f s
  = (s <| task_runs := <[ id := f r ]> (task_runs s) |>, 1%nat).
Proof.
  intros Hr Hp. unfold update_tasks. rewrite affected_one, Hr, Hp, map_size_singleton.
  unfold set. cbn. by rewrite (Admission.update_one p f _ id r).
Qed.

Lemma update_tasks_lost p f s id :
  (forall r, task_runs s !! id = Some r -> p r = false) ->
  update_tasks (fun i r => bool_decide (i = id) && p r) f s = (s, 0%nat).
Proof.
  intros H. destruct (update_tasks _ f s) as [s' n] eqn:E.
  assert (n = 0%nat) as ->.
  { change n with (snd (s', n)). rewrite <- E, Invariant.update_tasks_rows, affected_one.
    destruct (task_runs s !! id) as [r|] eqn:Er; [|done]. by rewrite (H r). }
  f_equal. change s' with (fst (s', 0%nat)). rewrite <- E. apply Invariant.update_tasks_none. by rewrite E.
Qed.

Lemma resolve_won id p f s r :
  task_runs s !! id = Some r -> p r = true ->
  Parks.resolve id p f s
  = (decrement_dependents id (s <| task_runs := <[ id := f r ]> (task_runs s) |>), true).
Proof. intros Hr Hp. unfold Parks.resolve. by rewrite (update_tasks_one p f s id r). Qed.

Lemma resolve_lost id p f s :
  (forall r, task_runs s !! id = Some r -> p r = false) -> Parks.resolve id p f s = (s, false).
Proof. intros H. unfold Parks.resolve. by rewrite update_tasks_lost. Qed.

(** The rows of a read. *)
Lemma rows_in (m : gmap str T.task_run) r : In r (map snd (map_to_list m)) <-> exists i, m !! i = Some r.
Proof.
  rewrite <- list_elem_of_In, list_elem_of_fmap. split.
  - intros ([i y] & -> & Hy%elem_of_map_to_list). by exists i.
  - intros [i Hi]. exists (i, r). split; [done|by apply elem_of_map_to_list].
Qed.

Lemma ended_terminal r : ended r = Invariant.terminal r.
Proof. unfold ended, Invariant.terminal, FANOUT_TERMINAL. by destruct (T.status r). Qed.

(** ** Older generations *)

Lemma is_stale_at b v s i r : task_runs s !! i = Some r -> is_stale b v s i = stale b v r.
Proof. unfold is_stale. by intros ->. Qed.

(** The store without them. *)
Definition fresh_only (b : str) (v : Z) (s : store) : store :=
  delete_tasks (is_stale b v s) (drop_stale_edges b v s).

Lemma drop_stale_spec b v s s1 :
  drop_stale_rows b v (drop_stale_edges b v s) = Ok s1 -> s1 = fresh_only b v s.
Proof. unfold drop_stale_rows, fresh_only. destruct (existsb _ _); [done|]. by intros [= <-]. Qed.

Lemma fresh_lookup b v s i :
  task_runs (fresh_only b v s) !! i
  = match task_runs s !! i with Some r => if stale b v r then None else Some r | None => None end.
Proof.
  unfold fresh_only, delete_tasks, drop_stale_edges. cbn. rewrite map_lookup_filter. unfold is_stale.
  destruct (task_runs s !! i) as [r|] eqn:E; cbn; [|done]. rewrite E.
  destruct (stale b v r); [by rewrite option_guard_False|by rewrite option_guard_True].
Qed.

Lemma fresh_instances b v s i r :
  instances b (fresh_only b v s) !! i = Some r
  <-> task_runs s !! i = Some r /\ instance_of b r = true /\ (v <= T.fanout_epoch r)%Z.
Proof.
  unfold instances. rewrite affected_lookup, fresh_lookup. unfold stale.
  destruct (task_runs s !! i) as [x|] eqn:E; [|naive_solver].
  destruct (instance_of b x) eqn:Ei, (T.fanout_epoch x <? v)%Z eqn:El; cbn.
  - split; [by intros [? _]|]. intros ([= <-] & _ & H). lia.
  - split; [intros [[= <-] _]; split_and!; [done|done|lia]|naive_solver].
  - split; [intros [[= <-] ?]; congruence|naive_solver congruence].
  - split; [intros [[= <-] ?]; congruence|naive_solver congruence].
Qed.

(** A barrier is due exactly where what is left of its instances has ended. *)
Lemma due_ended b s r :
  parked r = true ->
  due s b r = true
  <-> forall i x, instances b (fresh_only b (T.version r) s) !! i = Some x -> ended x = true.
Proof.
  intros Hp. unfold due. rewrite Hp. cbn. rewrite Nat.eqb_eq, affected_none. unfold unfinished.
  setoid_rewrite fresh_instances. split.
  - intros H i x (Hx & Hi & Hv). specialize (H i x Hx). rewrite Hi in H.
    apply Z.leb_le in Hv. rewrite Hv in H. by destruct (ended x).
  - intros H i x Hx. destruct (instance_of b x) eqn:Ei; [|done].
    destruct (T.version r <=? T.fanout_epoch x)%Z eqn:Ev; [|done]. cbn.
    rewrite (H i x); [done|]. split_and!; [done|done|]. by apply Z.leb_le.
Qed.

(** ** Expanding *)

Section fanout.
Context {W : World} {J : Json.SerdeJson num}.

Abbreviation FanoutInstance := (Expand.FanoutInstance (Num := num)).

Definition new_ids (uuid : nat -> str) (next n : nat) : list str := map uuid (seq next n).
Arguments new_ids : simpl never.

(** What an expansion adds. *)
Record grown (uuid : nat -> str) (next : nat) (task_id : str) (b : T.task_run) (epoch : Z) (now : time)
    (made : list FanoutInstance) (s s' : store) : Prop := {
  gr_rows : forall k i, made !! k = Some i ->
    task_runs s' !! uuid (next + k)%nat = Some (instance_row task_id b epoch now i);
  gr_old : forall id, id ∉ new_ids uuid next (length made) -> task_runs s' !! id = task_runs s !! id;
  gr_edges : forall e, e ∈ task_dependencies s'
    <-> e ∈ task_dependencies s \/ (e.1 = task_id /\ e.2 ∈ new_ids uuid next (length made));
  gr_runs : workflow_runs s' = workflow_runs s;
}.

Lemma new_ids_cons {A} uuid next (x : A) l :
  new_ids uuid next (length (x :: l)) = uuid next :: new_ids uuid (S next) (length l).
Proof. done. Qed.

Definition name_taken (run_id n : str) (s : store) : Prop :=
  exists id r, task_runs s !! id = Some r /\ T.run_id r = run_id /\ T.name r = n.

Lemma insert_task_fails id r s :
  is_ok (insert_task id r s) = false <-> is_Some (task_runs s !! id) \/ name_taken (T.run_id r) (T.name r) s.
Proof.
  unfold insert_task. destruct (task_runs s !! id) as [x|] eqn:E; cbn.
  - split; [intros _; left; by eexists|done].
  - destruct (size _ =? 0)%nat eqn:Es; cbn.
    + apply Nat.eqb_eq in Es. rewrite affected_none in Es. split; [done|].
      intros [[? ?]|(i & y & Hy & H1 & H2)]; [done|]. specialize (Es i y Hy).
      by rewrite H1, H2, !bool_decide_true in Es.
    + split; [intros _; right|done]. apply Nat.eqb_neq, map_size_ne_0_lookup in Es as (i & y & Hy).
      apply affected_lookup in Hy as [Hy Hp]. apply andb_true_iff in Hp as [H1 H2].
      rewrite bool_decide_eq_true in H1, H2. by exists i, y.
Qed.

Lemma insert_instances_sound uuid next task_id b epoch now made s s' next' :
  NoDup (new_ids uuid next (length made)) ->
  insert_instances uuid next task_id b epoch now made s = Ok (s', next') ->
  next' = (next + length made)%nat /\ grown uuid next task_id b epoch now made s s'.
Proof.
  revert next s; induction made as [|i made IH]; intros next s Hd; cbn [insert_instances].
  - intros [= <- <-]. cbn. split; [lia|]. split; [done|done| |done]. intros e. set_solver.
  - rewrite new_ids_cons in Hd. apply NoDup_cons in Hd as [Hn Hd].
    destruct (insert_task _ _ s) as [s1|] eqn:E1; [|done]. apply Create.insert_task_spec in E1 as [_ ->].
    unfold insert_edge at 1. case_bool_decide as He; [done|]. intros [-> [G1 G2 G3 G4]]%IH; [|done].
    split; [cbn; lia|]. cbn in *. split.
    + intros [|k] i0 Hi; cbn in Hi.
      * injection Hi as <-. rewrite Nat.add_0_r, G2 by done. apply lookup_insert_eq.
      * rewrite Nat.add_succ_r. by apply G1.
    + intros id Hid. rewrite new_ids_cons, not_elem_of_cons in Hid. destruct Hid as [H1 H2].
      rewrite G2 by done. by apply lookup_insert_ne.
    + intros [x y]. rewrite G3, new_ids_cons, elem_of_cons. cbn. set_solver.
    + done.
Qed.

Lemma insert_instances_ok uuid next task_id b epoch now made s :
  NoDup (new_ids uuid next (length made)) ->
  (forall x, x ∈ new_ids uuid next (length made) ->
     task_runs s !! x = None /\ (task_id, x) ∉ task_dependencies s) ->
  NoDup (map Expand.fi_name made) ->
  (forall i, i ∈ made -> ~ name_taken (T.run_id b) (Expand.fi_name i) s) ->
  is_ok (insert_instances uuid next task_id b epoch now made s) = true.
Proof.
  revert next s; induction made as [|i made IH]; intros next s Hd Hf Hn Ht; cbn [insert_instances]; [done|].
  rewrite new_ids_cons in *. cbn [map] in Hn. apply NoDup_cons in Hd as [Hu Hd].
  apply NoDup_cons in Hn as [Hi Hn]. destruct (Hf (uuid next)) as [Hf1 Hf2]; [left|].
  destruct (insert_task _ _ s) as [s1|] eqn:E1.
  - apply Create.insert_task_spec in E1 as [_ ->]. unfold insert_edge. cbn.
    rewrite bool_decide_false by done. apply IH; [done| |done|].
    + intros x Hx. cbn. destruct (Hf x) as [H1 H2]; [by right|]. split; [|set_solver].
      rewrite lookup_insert_ne; [done|congruence].
    + intros j Hj (id & r & Hr & H1 & H2). cbn in Hr.
      destruct (decide (id = uuid next)) as [->|Hne].
      * rewrite lookup_insert_eq in Hr. injection Hr as <-. cbn in H2. apply Hi, list_elem_of_fmap.
        by exists j.
      * rewrite lookup_insert_ne in Hr by done. apply (Ht j); [by right|]. by exists id, r.
  - exfalso. assert (is_ok (insert_task (uuid next) (instance_row task_id b epoch now i) s) = false) as H
      by by rewrite E1. apply insert_task_fails in H as [[x Hx]|H]; [congruence|].
    apply (Ht i); [left|done].
Qed.

(** ** One barrier of a pass *)

(** A parked barrier: it is no instance itself, and its instances are joined to it alone. *)
Record barrier_at (s : store) (id : str) (b : T.task_run) : Prop := {
  at_row : task_runs s !! id = Some b;
  at_parked : parked b = true;
  at_parent : T.fanout_parent b = None;
  at_edges : forall x y, (x, y) ∈ task_dependencies s ->
    (forall r, task_runs s !! x = Some r -> instance_of id r = false)
    /\ (forall r, task_runs s !! y = Some r -> instance_of id r = true -> x = id);
}.

Lemma no_instance_of id b : T.fanout_parent b = None -> instance_of id b = false.
Proof. unfold instance_of, sql_eq. intros ->. done. Qed.

Lemma barrier_fresh s id b v : barrier_at s id b -> task_runs (fresh_only id v s) !! id = Some b.
Proof. intros [H _ Hp _]. rewrite fresh_lookup, H. unfold stale. by rewrite no_instance_of. Qed.

Lemma barrier_drops s id b v :
  barrier_at s id b -> drop_stale_rows id v (drop_stale_edges id v s) = Ok (fresh_only id v s).
Proof.
  intros [_ _ _ He]. unfold drop_stale_rows. destruct (existsb _ _) eqn:E; [exfalso|done].
  apply existsb_exists in E as ([x y] & Hin & Hg). apply list_elem_of_In, elem_of_elements in Hin.
  cbn in Hin. apply elem_of_filter in Hin as [Hk Hin]. cbn in Hk, Hg.
  destruct (He x y Hin) as [H1 H2].
  change (is_stale id v (drop_stale_edges id v s)) with (is_stale id v s) in Hg.
  assert (is_stale id v s x = false) as Hx.
  { unfold is_stale, stale. destruct (task_runs s !! x) as [r|] eqn:Er; [|done]. by rewrite (H1 r eq_refl). }
  rewrite Hx in Hg. cbn in Hg. rewrite Hg, andb_true_r in Hk. apply bool_decide_eq_false in Hk. apply Hk.
  unfold is_stale, stale in Hg. destruct (task_runs s !! y) as [r|] eqn:Er; [|done].
  apply (H2 r eq_refl). by apply andb_true_iff in Hg as [? _].
Qed.

Lemma finish_wins id b ok out now s :
  task_runs s !! id = Some b -> parked b = true ->
  finish_fanout id ok out now s
  = (decrement_dependents id
       (s <| task_runs := <[ id := Parks.finished (if ok then Succeeded else Failed) now (Some out) b ]>
                            (task_runs s) |>), true).
Proof. apply resolve_won. Qed.

(** The store an expansion inserts into: the barrier is a version further. *)
Definition bumped (id : str) (b : T.task_run) (s : store) : store :=
  s <| task_runs := <[ id := b <| T.version ::= Z.succ |> ]> (task_runs s) |>.

Lemma expand_wins uuid next id b now made s :
  task_runs s !! id = Some b -> parked b = true ->
  expand_fanout uuid next id b now made s
  = (let? r := insert_instances uuid next id b (Z.succ (T.version b)) now made (bumped id b s) in Ok (Some r)).
Proof.
  intros Hr Hp. unfold expand_fanout. rewrite (update_tasks_one _ _ s id b Hr).
  - cbn. unfold const at 1. by rewrite lookup_insert_eq.
  - unfold parked in Hp. apply andb_true_iff in Hp as [[H1 _]%andb_true_iff H2].
    unfold unexpanded. by rewrite Z.eqb_refl, H1, H2.
Qed.

(** What a pass makes of a barrier that is as it was read. *)
Lemma reconcile_at uuid next id b now s :
  barrier_at s id b ->
  reconcile_fanout uuid next id b now s
  = (let s := fresh_only id (T.version b) s in
     if bool_decide (instances id s = ∅) then
       match begin_fanout uuid next id b now s with
       | Err e => (s, Err e)
       | Ok (s, next, out) => (s, Ok (next, out))
       end
     else let '(s, out) := join_fanout id b now s in (s, Ok (next, out))).
Proof. intros H. unfold reconcile_fanout. by rewrite (barrier_drops s id b). Qed.

Lemma join_waits id b now s i x :
  instances id s !! i = Some x -> ended x = false -> join_fanout id b now s = (s, None).
Proof.
  intros Hx He. unfold join_fanout. destruct (existsb _ _) eqn:E; [done|exfalso].
  apply not_true_iff_false in E. apply E, existsb_exists. exists x. rewrite He.
  split; [apply rows_in; by exists i|done].
Qed.

Lemma begin_outcome uuid next id b now s s' next' out :
  task_runs s !! id = Some b -> parked b = true ->
  begin_fanout uuid next id b now s = Ok (s', next', out) -> out <> None.
Proof.
  intros Hr Hp. unfold begin_fanout. destruct (fanout_plan id b s) as [[|i made]|why].
  - rewrite (finish_wins id b) by done. by intros [= <- <- <-].
  - rewrite (expand_wins _ _ _ _ _ _ _ Hr Hp). destruct (insert_instances _ _ _ _ _ _ _ _) as [[s2 n2]|]; [|done].
    by intros [= <- <- <-].
  - unfold fail_fanout. rewrite (finish_wins id b) by done. by intros [= <- <- <-].
Qed.

(** The sweep reads exactly the barriers it can move.  Of a parked barrier a pass makes
    something, an expansion or an end, exactly where [PARKED_FANOUTS] selects it; one that
    is left out a pass would read and pass over, an instance of it still running. *)
Theorem due_exact uuid next id b now s s' next' out :
  barrier_at s id b ->
  reconcile_fanout uuid next id b now s = (s', Ok (next', out)) ->
  out <> None <-> due s id b = true.
Proof.
  intros Hb. rewrite reconcile_at by done. cbn zeta.
  rewrite (due_ended id s b (at_parked _ _ _ Hb)).
  pose proof (barrier_fresh s id b (T.version b) Hb) as Hr.
  generalize dependent (fresh_only id (T.version b) s). intros s1 Hr.
  pose proof (at_parked _ _ _ Hb) as Hp. case_bool_decide as Hi.
  - destruct (begin_fanout _ _ _ _ _ _) as [[[s2 n2] o2]|] eqn:E; [|done]. intros [= <- <- <-].
    split; [|by intros _; eapply begin_outcome]. intros _ i x Hx. by rewrite Hi, lookup_empty in Hx.
  - destruct (join_fanout id b now s1) as [s2 o2] eqn:E. intros [= <- <- <-]. split.
    + intros Ho i x Hx. destruct (ended x) eqn:Ex; [done|].
      rewrite (join_waits id b now s1 i x) in E by done. by injection E as <- <-.
    + intros H. unfold join_fanout in E. rewrite (finish_wins id b) in E by done.
      destruct (existsb _ _) eqn:Ee; [exfalso|by injection E as <- <-].
      apply existsb_exists in Ee as (x & [i Hx]%rows_in & Hn). by rewrite (H i x Hx) in Hn.
Qed.

(** ** What an expansion leaves *)

(** Ids nothing bears, in the store or in its edges. *)
Definition unused (uuid : nat -> str) (next n : nat) (s : store) : Prop :=
  NoDup (new_ids uuid next n)
  /\ forall x, x ∈ new_ids uuid next n ->
       task_runs s !! x = None /\ forall y, (y, x) ∉ task_dependencies s.

Lemma bumped_lookup id b s i :
  task_runs (bumped id b s) !! i
  = if bool_decide (i = id) then Some (b <| T.version ::= Z.succ |>) else task_runs s !! i.
Proof.
  unfold bumped. cbn. unfold const. case_bool_decide as E; [subst; apply lookup_insert_eq|].
  apply lookup_insert_ne. congruence.
Qed.

Lemma name_taken_bumped id b s run n :
  task_runs s !! id = Some b -> name_taken run n (bumped id b s) -> name_taken run n s.
Proof.
  intros Hb (i & r & Hr & H1 & H2). rewrite bumped_lookup in Hr. case_bool_decide as E.
  - injection Hr as <-. subst i. by exists id, b.
  - by exists i, r.
Qed.

Lemma new_ids_at uuid next n x : x ∈ new_ids uuid next n <-> exists k, (k < n)%nat /\ x = uuid (next + k)%nat.
Proof.
  unfold new_ids. rewrite list_elem_of_fmap. setoid_rewrite elem_of_seq. split.
  - intros (j & -> & Hj). exists (j - next)%nat. split; [lia|]. f_equal. lia.
  - intros (k & Hk & ->). exists (next + k)%nat. split; [done|lia].
Qed.

Lemma plan_names id b s made : fanout_plan id b s = Ok made -> NoDup (map Expand.fi_name made).
Proof.
  unfold fanout_plan. destruct (T.input b ≫= task_from_json) as [spec|]; [|done].
  case_bool_decide; [done|]. destruct (Expand.fanout_instances _ _) as [l|] eqn:E; [|done].
  destruct (_ <? _)%N; [done|]. intros [= <-]. by eapply ExpandFacts.fanout_names.
Qed.

Lemma grown_instances uuid next id b now made s s' :
  instances id s = ∅ -> T.fanout_parent b = None ->
  unused uuid next (length made) s -> task_runs s !! id = Some b ->
  grown uuid next id b (Z.succ (T.version b)) now made (bumped id b s) s' ->
  forall i r, instances id s' !! i = Some r
    <-> exists k x, made !! k = Some x /\ i = uuid (next + k)%nat
                    /\ r = instance_row id b (Z.succ (T.version b)) now x.
Proof.
  intros Hi Hp [_ Hu] Hb [G1 G2 G3 _] i r. unfold instances. rewrite affected_lookup. split.
  - intros [Hr Hin]. destruct (decide (i ∈ new_ids uuid next (length made))) as [Hx|Hx].
    + apply new_ids_at in Hx as (k & Hk & ->). apply lookup_lt_is_Some in Hk as [x Hx].
      exists k, x. split_and!; [done|done|]. rewrite (G1 k x Hx) in Hr. congruence.
    + exfalso. rewrite (G2 i Hx), bumped_lookup in Hr. case_bool_decide.
      * injection Hr as <-. unfold instance_of, sql_eq in Hin. cbn in Hin. by rewrite Hp in Hin.
      * assert (instances id s !! i = Some r) as H' by by apply affected_lookup. by rewrite Hi, lookup_empty in H'.
  - intros (k & x & Hk & -> & ->). split; [by apply G1|].
    unfold instance_of, sql_eq. cbn. by apply bool_decide_eq_true_2.
Qed.

(** C21: An expansion makes what was planned, and the barrier waits for just that, where no
    task of the run has an instance's name already and the ids drawn are unused.  A parked
    barrier with no instance of its generation, whose producers printed items the run has
    room for, becomes a version older and gets one ready task for each, in order, under
    those ids, stamped with that version, on each of which it has an edge; nothing else of
    the tasks but instances of older generations changes, and the sweep does not select it
    again.  (Where a task of the run does have an instance's name, the insert is refused and
    the sweep stops: [clash_stops_sweep].) *)
Theorem fanout_expands uuid next id b now s made :
  barrier_at s id b ->
  let s0 := fresh_only id (T.version b) s in
  instances id s0 = ∅ -> fanout_plan id b s0 = Ok made -> made <> [] ->
  unused uuid next (length made) s0 ->
  (forall x, x ∈ made -> ~ name_taken (T.run_id b) (Expand.fi_name x) s0) ->
  exists s',
    reconcile_fanout uuid next id b now s
    = (s', Ok ((next + length made)%nat, Some (Models.Expanded (length made))))
    /\ grown uuid next id b (Z.succ (T.version b)) now made (bumped id b s0) s'
    /\ (forall i r, instances id s' !! i = Some r
          <-> exists k x, made !! k = Some x /\ i = uuid (next + k)%nat
                          /\ r = instance_row id b (Z.succ (T.version b)) now x)
    /\ due s' id (b <| T.version ::= Z.succ |>) = false.
Proof.
  intros Hb s0 Hi Hplan Hne Hu Ht. rewrite reconcile_at by done. fold s0. cbn zeta.
  pose proof (barrier_fresh s id b (T.version b) Hb) as Hr. fold s0 in Hr. clearbody s0.
  rewrite bool_decide_true by done. unfold begin_fanout. rewrite Hplan.
  destruct made as [|m made]; [done|]. rewrite (expand_wins _ _ _ _ _ _ _ Hr (at_parked _ _ _ Hb)).
  assert (is_ok (insert_instances uuid next id b (Z.succ (T.version b)) now (m :: made) (bumped id b s0)) = true) as Hok.
  { destruct Hu as [Hu1 Hu2]. apply insert_instances_ok; [done| |by eapply plan_names|].
    - intros x Hx. destruct (Hu2 x Hx) as [H1 H2]. split; [|apply H2]. rewrite bumped_lookup.
      case_bool_decide; [congruence|done].
    - intros x Hx Hn. by eapply (Ht x Hx), name_taken_bumped. }
  destruct (insert_instances _ _ _ _ _ _ _ _) as [[s' n']|] eqn:E; [|done].
  apply insert_instances_sound in E as [-> Hg]; [|apply Hu].
  exists s'. pose proof (grown_instances _ _ _ _ _ _ _ _ Hi (at_parent _ _ _ Hb) Hu Hr Hg) as Hin.
  split_and!; [done|done|done|].
  destruct (due s' id _) eqn:Ed; [exfalso|done].
  unfold due in Ed. apply andb_true_iff in Ed as [_ Ed]. apply Nat.eqb_eq in Ed.
  rewrite affected_none in Ed. specialize (Ed _ _ (gr_rows _ _ _ _ _ _ _ _ _ Hg 0%nat m eq_refl)).
  unfold unfinished, instance_of, sql_eq in Ed. cbn in Ed.
  rewrite bool_decide_eq_true_2, Z.leb_refl in Ed by done. done.
Qed.

(** ** How a barrier ends *)

Definition joined_ok (id : str) (b : T.task_run) (s : store) : bool :=
  negb (existsb broken (map snd (map_to_list (instances id s)))) || T.allow_failure b.

Lemma joined_ok_spec id b s :
  joined_ok id b s = true
  <-> T.allow_failure b = true
      \/ forall i r, instances id s !! i = Some r -> T.status r <> Failed /\ T.status r <> Cancelled.
Proof.
  unfold joined_ok. rewrite orb_true_iff, negb_true_iff, (Logic.or_comm _ (T.allow_failure b = true)). f_equiv.
  rewrite <- not_true_iff_false, existsb_exists. unfold broken, is_status. split.
  - intros H i r Hr. split; intros E; apply H; exists r; rewrite E; (split; [apply rows_in; by exists i|done]).
  - intros H (r & [i Hi]%rows_in & Hb). destruct (H i r Hi). by destruct (T.status r).
Qed.

(** C40: A fan-out ends when and as its instances do.  Of a parked barrier that has instances of
    its generation, a pass drops what is left of older generations, and while one of the
    instances is not over it changes nothing else; once all are over, the barrier succeeds
    where none of them failed or was cancelled, or its failure is allowed, and fails
    otherwise, with a summary of their statuses for its output, and each task that waits for
    it has one dependency less, whichever way it ended.  Nothing else changes. *)
Theorem fanout_joins uuid next id b now s :
  barrier_at s id b ->
  let s0 := fresh_only id (T.version b) s in
  instances id s0 <> ∅ ->
  (due s id b = false -> reconcile_fanout uuid next id b now s = (s0, Ok (next, None)))
  /\ (due s id b = true ->
      let rows := map snd (map_to_list (instances id s0)) in
      exists ok : bool,
        reconcile_fanout uuid next id b now s
        = (decrement_dependents id
             (s0 <| task_runs :=
                      <[ id := Parks.finished (if ok then Succeeded else Failed) now
                                 (Some (fanout_summary (map T.status rows))) b ]> (task_runs s0) |>),
           Ok (next, Some (Joined ok (size (instances id s0)))))
        /\ (ok = true <-> T.allow_failure b = true
            \/ forall i r, instances id s0 !! i = Some r -> T.status r <> Failed /\ T.status r <> Cancelled)).
Proof.
  intros Hb s0 Hne. rewrite reconcile_at by done. fold s0. cbn zeta. rewrite bool_decide_false by done.
  pose proof (barrier_fresh s id b (T.version b) Hb) as Hr. fold s0 in Hr.
  pose proof (due_ended id s b (at_parked _ _ _ Hb)) as Hd. fold s0 in Hd. clearbody s0.
  assert (existsb (fun i => negb (ended i)) (map snd (map_to_list (instances id s0))) = negb (due s id b)) as Hx.
  { destruct (due s id b); cbn.
    - apply not_true_iff_false. intros (x & [i Hx]%rows_in & Hn)%existsb_exists.
      by rewrite (proj1 Hd eq_refl i x Hx) in Hn.
    - apply not_false_iff_true. intros Hf. enough (false = true) by done. apply Hd. intros i x Hx.
      destruct (ended x) eqn:Ex; [done|]. exfalso. apply not_true_iff_false in Hf. apply Hf, existsb_exists.
      exists x. rewrite Ex. split; [apply rows_in; by exists i|done]. }
  unfold join_fanout. rewrite Hx. split; intros E; rewrite E; cbn [negb]; [done|].
  cbn zeta. rewrite (finish_wins id b) by (done || apply Hb). exists (joined_ok id b s0).
  split; [|apply joined_ok_spec]. unfold joined_ok. by rewrite length_map, length_map_to_list.
Qed.

(** ** Once *)

Lemma expand_loses uuid next id b now made s :
  (forall r, task_runs s !! id = Some r -> (T.version b < T.version r)%Z \/ T.status r <> Running) ->
  expand_fanout uuid next id b now made s = Ok None.
Proof.
  intros H. unfold expand_fanout. rewrite update_tasks_lost; [by destruct (_ !! _)|].
  intros r Hr. unfold unexpanded. destruct (H r Hr) as [Hv|Hs].
  - by destruct (Z.eqb_spec (T.version r) (T.version b)); [lia|].
  - unfold is_status. by rewrite bool_decide_false, andb_false_r.
Qed.

End fanout.
End FanoutFacts.
