(* ===== verification/History.v ===== *)
(** * Everything that may happen to a task's row

    [Reach] and [Life] have histories in which the store's invariant holds.  Here is every
    history: the steps of [Reach], tasks put back whatever the state they are in, the
    fan-outs' sweep, a transaction at a time, and the writes of the other sweeps whatever
    they read before.  Of so much less is kept, but what fences a task is: a row is never
    another task's, its version only grows, a claim on it is only ever taken with a new
    version, and what has ended stays as it ended until it is put back. *)

From S2P Require Import Tables Cond Stops Scheduler Parks Runs Ops Invariant Preserve PreserveRuns.
From S2P Require Import Create Reach Safety Progress AgainFacts Fanout FanoutFacts.

Module History.

Create HintDb went discriminated.

Import Models Invariant Preserve.

Section history.
Context {W : World}.

(** ** One row *)

(** The row's text is that of a task the store was given. *)
Definition written (r : T.task_run) : Prop :=
  forall j, T.input r = Some j -> exists t, j = task_to_json t.

(** Over, and nobody's. *)
Definition at_rest (r : T.task_run) : Prop := terminal r = true /\ T.claimed_by r = None.

Definition same_end (r r' : T.task_run) : Prop :=
  T.status r' = T.status r /\ T.output r' = T.output r /\ T.finished_at r' = T.finished_at r.

(** What becomes of a row.  Where [back], it may have been put back. *)
Record moved (back : Prop) (r r' : T.task_run) : Prop := {
  mv_run : T.run_id r' = T.run_id r;
  mv_name : T.name r' = T.name r;
  mv_parent : T.fanout_parent r' = T.fanout_parent r;
  mv_input : T.input r' = T.input r;
  mv_version : (T.version r <= T.version r')%Z;
  mv_claim : T.version r' = T.version r ->
             T.claimed_by r' = T.claimed_by r \/ T.claimed_by r' = None;
  mv_rest : at_rest r ->
            (at_rest r' /\ T.version r' = T.version r /\ same_end r r')
            \/ (back /\ (T.version r < T.version r')%Z);
}.

Lemma moved_refl back r : moved back r r.
Proof. split; auto; [lia|]. by left. Qed.

Lemma same_end_trans a b c : same_end a b -> same_end b c -> same_end a c.
Proof. unfold same_end. intuition congruence. Qed.

Lemma moved_trans back a b c : moved back a b -> moved back b c -> moved back a c.
Proof.
  intros [] []. split; try congruence; try lia.
  - intros H. destruct (mv_claim1 ltac:(lia)) as [E|E]; [|by right]. rewrite E. apply mv_claim0. lia.
  - intros Ht. destruct (mv_rest0 Ht) as [(H1 & E1 & E2)|[Hb E1]]; [|right; split; [done|lia]].
    destruct (mv_rest1 H1) as [(G & F1 & F2)|[Hb F1]].
    + left. split; [done|]. split; [congruence|by eapply same_end_trans].
    + right. split; [done|lia].
Qed.

Lemma moved_weaken (P Q : Prop) r r' : (P -> Q) -> moved P r r' -> moved Q r r'.
Proof. intros H []. split; auto. intros Ht. destruct (mv_rest0 Ht) as [E|[Hp E]]; auto. Qed.

(** ** The table

    [old] is the ids in use when the history began: the ids drawn in it are none of them, so
    that a row that is gone stays gone.  Where [del], a fan-out's instances may go. *)

Section table.
Context (old : str -> Prop) (back del : Prop).

Definition row_went (o o' : option T.task_run) : Prop :=
  match o, o' with
  | Some r, Some r' => moved back r r'
  | Some r, None => del /\ T.fanout_parent r <> None
  | None, Some _ => False
  | None, None => True
  end.

Definition all_written (s : store) : Prop := forall id r, task_runs s !! id = Some r -> written r.

Definition went (s s' : store) : Prop :=
  all_written s -> all_written s' /\ forall id, old id -> row_went (task_runs s !! id) (task_runs s' !! id).

Lemma row_went_refl o : row_went o o.
Proof. destruct o; [apply moved_refl|done]. Qed.

Lemma row_went_trans a b c : row_went a b -> row_went b c -> row_went a c.
Proof.
  destruct a, b, c; cbn; try done; [by apply moved_trans|].
  intros [] [? ?]. split; [done|congruence].
Qed.

Lemma went_refl s : went s s.
Proof. intros H. split; [done|]. intros. apply row_went_refl. Qed.

Lemma went_trans b a c : went a b -> went b c -> went a c.
Proof.
  intros H1 H2 Ha. destruct (H1 Ha) as [Hb Rb]. destruct (H2 Hb) as [Hc Rc].
  split; [done|]. intros id Hid. eapply row_went_trans; auto.
Qed.

Lemma went_fold {B S} (g : S -> store) (f : S -> B -> S) (l : list B) (acc : S) :
  (forall acc x, went (g acc) (g (f acc x))) -> went (g acc) (g (fold_left f l acc)).
Proof.
  intros H. revert acc; induction l as [|x l IH]; intros acc; [apply went_refl|].
  eapply went_trans; [apply H|apply IH].
Qed.

Lemma went_same s s' : task_runs s' = task_runs s -> went s s'.
Proof. intros E H. unfold all_written. rewrite E. split; [done|]. intros. apply row_went_refl. Qed.


Lemma went_update s p f :
  (forall id r, task_runs s !! id = Some r -> p id r = true -> moved back r (f r)) ->
  went s (update p f s).
Proof.
  intros H Hs. split.
  - intros id r'. rewrite update_tasks_lookup. destruct (task_runs s !! id) as [r|] eqn:E; [|done].
    intros [= <-]. destruct (p id r) eqn:Ep; [|by eapply Hs].
    unfold written. rewrite (mv_input _ _ _ (H id r E Ep)). by eapply Hs.
  - intros id _. rewrite update_tasks_lookup. destruct (task_runs s !! id) as [r|] eqn:E; [|done].
    cbn. destruct (p id r) eqn:Ep; [|apply moved_refl]. by apply (H id r E).
Qed.

Lemma went_delete s gone :
  (forall id r, task_runs s !! id = Some r -> gone id = true -> del /\ T.fanout_parent r <> None) ->
  went s (delete_tasks gone s).
Proof.
  intros H Hs.
  assert (forall id, task_runs (delete_tasks gone s) !! id = if gone id then None else task_runs s !! id)
    as Hl.
  { intros id. unfold delete_tasks, set. cbn. destruct (gone id) eqn:Eg.
    - apply map_lookup_filter_None. right. intros r _ E. cbn in E. congruence.
    - destruct (task_runs s !! id) as [r|] eqn:Er; [by apply map_lookup_filter_Some|].
      apply map_lookup_filter_None. by left. }
  split.
  - intros id r. rewrite Hl. destruct (gone id); [done|]. apply Hs.
  - intros id _. rewrite Hl. destruct (gone id) eqn:Eg; [|apply row_went_refl].
    destruct (task_runs s !! id) as [r|] eqn:E; [|done]. by apply (H id).
Qed.

(** A row made under an id nothing bears. *)
Lemma went_insert s id r :
  task_runs s !! id = None -> ~ old id -> written r -> went s (s <| task_runs ::= <[ id := r ]> |>).
Proof.
  intros Hn Ho Hr Hs. unfold set. cbn. split.
  - intros i x. cbn. destruct (decide (i = id)) as [->|E].
    + rewrite lookup_insert_eq. by intros [= <-].
    + rewrite lookup_insert_ne by done. apply Hs.
  - intros i Hi. cbn. rewrite lookup_insert_ne by congruence. apply row_went_refl.
Qed.

End table.

Lemma went_weaken (old old' : str -> Prop) (P Q D : Prop) s s' :
  (forall id, old' id -> old id) -> (P -> Q) -> went old P D s s' -> went old' Q D s s'.
Proof.
  intros Ho Hb H Hs. destruct (H Hs) as [Hs' Hr]. split; [done|]. intros id Hid.
  specialize (Hr id (Ho id Hid)). destruct (task_runs s !! id), (task_runs s' !! id); try done.
  by eapply moved_weaken.
Qed.

(** ** Statements *)

(** One row, and what its WHERE clause says of it: decide each field. *)
Ltac decide_moved r :=
  repeat match goal with H : T.status r = _ |- _ => rewrite H in * end;
  repeat match goal with H : context [r] |- _ => revert H end;
  destruct r; row_fields; intros; subst; split; unfold at_rest, same_end; row_fields;
    [reflexivity..|lia|close|
     intros [? ?]; first [exfalso; done|exfalso; congruence|left; repeat split; done]].

Section statements.
Context (old : str -> Prop) (back del : Prop).
#[local] Abbreviation wt := (went old back del).

Lemma decrement_went id s : wt s (decrement_dependents id s).
Proof. apply went_update. intros i r Hr Hp. clear Hp. decide_moved r. Qed.

Lemma decrements_went l s : wt s (fold_left (fun s id => decrement_dependents id s) l s).
Proof. apply (went_fold _ _ _ (fun s => s) (fun s id => decrement_dependents id s)).
  intros. apply decrement_went. Qed.

Lemma update_runs_went p f s : wt s (fst (update_runs p f s)).
Proof. by apply went_same. Qed.

Lemma finish_stopped_went run_id now s : wt s (fst (Stops.finish_stopped_run run_id now s)).
Proof. apply went_same, Create.finish_stopped_run_tasks. Qed.

Lemma cancelled_set now r :
  Stops.unheld r = true -> moved back r (Stops.cancelled_row now r).
Proof.
  intros Hp. pose proof (unheld_open r Hp) as Ho. clear Hp.
  unfold Stops.cancelled_row. decide_moved r.
Qed.

Lemma stop_run_tasks_went run_id now s : wt s (fst (Stops.stop_run_tasks run_id now s)).
Proof.
  unfold Stops.stop_run_tasks. statement E1. statement E2. cbn [fst].
  eapply went_trans; apply went_update; intros id r Hr Hp.
  - apply andb_true_iff in Hp as [_ Hp]. by apply cancelled_set.
  - where_ Hp. unfold Stops.asked_row. decide_moved r.
Qed.

Lemma stop_and_finish_went now s run_id : wt s (Stops.stop_and_finish now s run_id).
Proof. eapply went_trans; [apply stop_run_tasks_went|apply finish_stopped_went]. Qed.

Lemma cancel_run_went run_id now s : wt s (fst (Stops.cancel_run run_id now s)).
Proof.
  unfold Stops.cancel_run. destruct (update_runs _ _ s) as [s1 n] eqn:E.
  assert (wt s s1) as H1 by (injection E as <- <-; by apply went_same).
  case_match; [done|]. pose proof (stop_run_tasks_went run_id now s1) as H2.
  destruct (Stops.stop_run_tasks run_id now s1) as [s2 did].
  do 2 (eapply went_trans; [eassumption|]). apply finish_stopped_went.
Qed.

Lemma cancel_overdue_runs_went now s : wt s (fst (Stops.cancel_overdue_runs now s)).
Proof.
  unfold Stops.cancel_overdue_runs. destruct (update_runs _ _ s) as [s1 n] eqn:E.
  assert (wt s s1) as H1 by (injection E as <- <-; by apply went_same).
  eapply went_trans; [exact H1|]. apply (went_fold _ _ _ id). apply stop_and_finish_went.
Qed.

Lemma end_stopped_run_went now acc run_id : wt acc.1 (Stops.end_stopped_run now acc run_id).1.
Proof.
  destruct acc as [s ended]. unfold Stops.end_stopped_run.
  pose proof (stop_run_tasks_went run_id now s) as H1.
  destruct (Stops.stop_run_tasks run_id now s) as [s1 n1]. statement E.
  match goal with |- context [update ?p ?f s1] => assert (wt s1 (update p f s1)) as H2 end.
  { apply went_update. intros id r Hr Hp. where_ Hp. clear Hw0. decide_moved r. }
  match goal with |- context [Stops.finish_stopped_run run_id now ?x] =>
    pose proof (finish_stopped_went run_id now x) as H3 end.
  destruct (Stops.finish_stopped_run run_id now _) as [s3 [x|]];
    (eapply went_trans; [exact H1|]); by eapply went_trans.
Qed.

Lemma end_stopped_runs_went now s : wt s (fst (Stops.end_stopped_runs now s)).
Proof. apply (went_fold _ _ _ fst _ _ (s, 0%nat)). apply end_stopped_run_went. Qed.

Lemma settle_went task_id worker fence now s :
  wt s (fst (Stops.settle_stopping task_id worker fence now s)).
Proof.
  unfold Stops.settle_stopping. statement E.
  match goal with |- context [update ?p ?f s] => assert (wt s (update p f s)) as H1 end.
  { apply went_update. unfold Stops.held_by, Stops.asked. intros id r Hr Hp. where_ Hp.
    unfold Stops.cancelled_row. decide_moved r. }
  case_match; [done|]. case_match; [|done].
  eapply went_trans; [exact H1|apply finish_stopped_went].
Qed.

Lemma release_went task_id worker fence secs now s :
  wt s (fst (Stops.release_stopping_task task_id worker fence secs now s)).
Proof.
  apply went_update. unfold Stops.held_by, Stops.asked. intros id r Hr Hp. where_ Hp. decide_moved r.
Qed.

Lemma claim_teardowns_went worker limit classes held now s :
  wt s (fst (Stops.claim_teardowns worker limit classes held now s)).
Proof.
  apply (went_fold _ _ _ fst _ _ (s, [])). intros [s1 l] task. unfold Stops.claim_teardown. statement E.
  apply went_update. unfold Stops.asked. intros id r Hr Hp. where_ Hp. decide_moved r.
Qed.

(** *** Advancing and claiming *)

Lemma recover_went now s : wt s (fst (Scheduler.recover_expired_leases now s)).
Proof. apply went_update. unfold Scheduler.lease_expired. intros id r Hr Hp. where_ Hp. decide_moved r. Qed.

Lemma ready_set now r : T.status r = Pending -> moved back r (Scheduler.ready_row now r).
Proof. intros Hs. unfold Scheduler.ready_row. decide_moved r. Qed.

Lemma skipped_set now r : T.status r = Pending -> moved back r (Scheduler.skipped_row now r).
Proof. intros Hs. unfold Scheduler.skipped_row. decide_moved r. Qed.

Lemma unblocked_pending r : Scheduler.unblocked r = true -> T.status r = Pending.
Proof. unfold Scheduler.unblocked. intros H. by where_ H. Qed.

Lemma ready_shaped_went now s : wt s (fst (Scheduler.ready_default_shaped now s)).
Proof.
  apply went_update. unfold Scheduler.fast_ready. intros id r Hr Hp.
  do 3 apply andb_true_iff in Hp as [Hp _]. by apply ready_set, unblocked_pending.
Qed.

Lemma skip_shaped_went now s : wt s (fst (Scheduler.skip_default_shaped now s)).
Proof.
  unfold Scheduler.skip_default_shaped. statement E. cbn [fst].
  eapply went_trans; [apply went_update|apply decrements_went]. unfold Scheduler.fast_skip.
  intros id r Hr Hp. do 2 apply andb_true_iff in Hp as [Hp _]. by apply skipped_set, unblocked_pending.
Qed.

Lemma advance_default_shaped_went now s : wt s (fst (Scheduler.advance_default_shaped now s)).
Proof.
  unfold Scheduler.advance_default_shaped. pose proof (ready_shaped_went now s) as H1.
  destruct (Scheduler.ready_default_shaped now s) as [s1 n1].
  pose proof (skip_shaped_went now s1) as H2.
  destruct (Scheduler.skip_default_shaped now s1) as [s2 n2]. by eapply went_trans.
Qed.

Lemma end_pending_went task_id f s :
  (forall r, T.status r = Pending -> moved back r (f r)) ->
  wt s (fst (Scheduler.end_pending task_id f s)).
Proof.
  intros Hf. unfold Scheduler.end_pending. statement E. cbn [fst].
  match goal with |- context [update ?p ?f s] => assert (wt s (update p f s)) as H1 end.
  { apply went_update. unfold Scheduler.pending_row. intros id r Hr Hp. where_ Hp. by apply Hf. }
  case_match; [|done]. eapply went_trans; [exact H1|apply decrement_went].
Qed.

Lemma settle_candidate_went now id cand v s : wt s (fst (Scheduler.settle_candidate now id cand v s)).
Proof.
  destruct v as [msg| |]; cbn [Scheduler.settle_candidate].
  - apply end_pending_went. intros r Hs. decide_moved r.
  - apply went_update. unfold Scheduler.pending_row. intros i r Hr Hp. where_ Hp.
    unfold Scheduler.advanced_row. case_match; [|case_match; [|by apply ready_set]]; decide_moved r.
  - apply end_pending_went. intros r. apply skipped_set.
Qed.

Lemma advance_candidate_went now acc cand : wt acc.1 (Scheduler.advance_candidate now acc cand).1.
Proof.
  destruct acc as [s n], cand as [id cand]. unfold Scheduler.advance_candidate.
  set (v := Scheduler.decide_candidate _ _ _). pose proof (settle_candidate_went now id cand v s) as H.
  by destruct (Scheduler.settle_candidate now id cand v s).
Qed.

Lemma advance_rounds_went k now s n : wt s (fst (Scheduler.advance_rounds k now s n)).
Proof.
  revert s n; induction k as [|k IH]; intros s n; [apply went_refl|].
  cbn [Scheduler.advance_rounds]. case_match; [apply went_refl|].
  pose proof (advance_default_shaped_went now s) as H1.
  destruct (Scheduler.advance_default_shaped now s) as [s1 fast].
  pose proof (went_fold old back del fst (Scheduler.advance_candidate now) (Scheduler.advance_candidates s1)
    (s1, 0%nat) ltac:(intros; apply advance_candidate_went)) as H2.
  change (fold_left _ _ _) with (Scheduler.advance_exotic_once now s1) in H2.
  destruct (Scheduler.advance_exotic_once now s1) as [s2 slow].
  assert (wt s s2) as H12 by (by eapply went_trans).
  case_match; [done|]. eapply went_trans; [exact H12|apply IH].
Qed.

Lemma claimed_set worker lease r :
  T.status r = Ready -> moved back r (Scheduler.claimed_row worker lease r).
Proof. intros Hs. unfold Scheduler.claimed_row. decide_moved r. Qed.

Lemma claim_ready_filtered_went worker limit classes caps nongang now s :
  wt s (fst (Scheduler.claim_ready_filtered worker limit classes caps nongang now s)).
Proof.
  unfold Scheduler.claim_ready_filtered. match goal with |- context [fold_left ?f ?l ?a] =>
    pose proof (went_fold old back del (fun acc => acc.1.1) f l a) as H;
    destruct (fold_left f l a) as [[s1 av] cl] end.
  cbn [fst] in *. apply H. clear. intros [[s avail] claimed] task. unfold Scheduler.claim_candidate.
  case_match; [apply went_refl|]. statement E.
  enough (wt s (update (fun id r => bool_decide (id = task.1) && is_status Ready r
            && (T.version r =? T.version task.2)%Z)
            (Scheduler.claimed_row worker (now + secs Stops.lease_secs)%Z) s)) by (by case_match).
  apply went_update. intros id r Hr Hp. where_ Hp. by apply claimed_set.
Qed.

Lemma claim_ready_gang_went worker capacity classes caps now s :
  wt s (fst (Scheduler.claim_ready_gang worker capacity classes caps now s)).
Proof.
  unfold Scheduler.claim_ready_gang. case_match; [apply went_refl|].
  case_match; [|apply went_refl]. apply went_update.
  intros id r Hr Hp. where_ Hp. by apply claimed_set.
Qed.

Lemma cancel_gang_siblings_went member_id now s :
  wt s (fst (Scheduler.cancel_gang_siblings member_id now s)).
Proof.
  unfold Scheduler.cancel_gang_siblings. statement E1. statement E2. cbn [fst].
  eapply went_trans; apply went_update; intros id r Hr Hp.
  - where_ Hp. clear Hp Hw. unfold Stops.asked_row. decide_moved r.
  - apply andb_true_iff in Hp as [_ Hp].
    assert (Stops.unheld r = true) as Hu.
    { unfold Stops.unheld. destruct (is_status AwaitingApproval r); [by rewrite orb_true_r|].
      by rewrite orb_false_r. }
    pose proof (unheld_open r Hu) as Ho. clear Hp Hu. unfold Stops.cancelled_row. decide_moved r.
Qed.

Lemma reclass_went from to age att now s :
  wt s (fst (Scheduler.reclass_ready_tasks from to age att now s)).
Proof. apply went_update. intros id r Hr Hp. where_ Hp. decide_moved r. Qed.

(** *** Reports *)

Lemma mark_succeeded_went task_id worker fence output cached now s :
  wt s (fst (Scheduler.mark_task_succeeded_inner task_id worker fence output cached now s)).
Proof.
  unfold Scheduler.mark_task_succeeded_inner. statement E.
  match goal with |- context [update ?p ?f s] => assert (wt s (update p f s)) as H1 end.
  { apply went_update. intros id r Hr Hp. apply fenced_held in Hp as (_ & Hc & _). decide_moved r. }
  case_match; cbn [fst]; (eapply went_trans; [exact H1|]); [apply settle_went|].
  eapply went_trans; [apply decrement_went|apply went_update].
  unfold Scheduler.promoted, Scheduler.fast_ready. intros id r Hr Hp.
  do 4 apply andb_true_iff in Hp as [Hp _]. by apply ready_set, unblocked_pending.
Qed.

Lemma mark_failed_went task_id worker fence error now s :
  wt s (fst (Scheduler.mark_task_failed task_id worker fence error now s)).
Proof.
  unfold Scheduler.mark_task_failed. statement E.
  match goal with |- context [update ?p ?f s] => assert (wt s (update p f s)) as H1 end.
  { apply went_update. intros id r Hr Hp. apply fenced_held in Hp as (_ & Hc & _). decide_moved r. }
  case_match; cbn [fst]; (eapply went_trans; [exact H1|]); [apply settle_went|apply decrement_went].
Qed.

Lemma retry_task_went task_id worker fence error at_ end_ now s :
  wt s (fst (Scheduler.retry_task task_id worker fence error at_ end_ now s)).
Proof.
  unfold Scheduler.retry_task. statement E.
  match goal with |- context [update ?p ?f s] => assert (wt s (update p f s)) as H1 end.
  { apply went_update. intros id r Hr Hp. apply fenced_held in Hp as (_ & Hc & _). decide_moved r. }
  case_match; cbn [fst]; [eapply went_trans; [exact H1|apply settle_went]|].
  case_match; [|done]. cbn [fst]. eapply went_trans; [exact H1|apply went_same].
  unfold Scheduler.record_attempt. case_match; [done|]. by case_match.
Qed.

Lemma requeue_quota_went task_id worker fence detail wait now s :
  wt s (fst (Scheduler.requeue_quota_wait task_id worker fence detail wait now s)).
Proof.
  unfold Scheduler.requeue_quota_wait. case_match; [|apply settle_went].
  case_match; [|apply went_refl]. statement E.
  match goal with |- context [update ?p ?f s] => assert (wt s (update p f s)) as H1 end;
    [|by case_match].
  apply went_update. unfold Scheduler.quota_held, Stops.held_by. intros i r Hr Hp. where_ Hp.
  decide_moved r.
Qed.

Lemma renew_went task_id worker fence extend now s :
  wt s (fst (Scheduler.renew_task_lease task_id worker fence extend now s)).
Proof. apply went_update. unfold Stops.held_by. intros id r Hr Hp. where_ Hp. decide_moved r. Qed.

Lemma note_went task_id fence text s : wt s (Scheduler.note_task_log task_id fence text s).
Proof. apply went_update. intros id r Hr Hp. where_ Hp. decide_moved r. Qed.

Lemma append_went task_id fence chunk reset s :
  wt s (Scheduler.append_task_output task_id fence chunk reset s).
Proof. apply went_update. intros id r Hr Hp. where_ Hp. destruct reset; decide_moved r. Qed.

Lemma checkpoint_went run_id task_id uri marker s :
  wt s (fst (Scheduler.record_task_checkpoint run_id task_id uri marker s)).
Proof. apply went_update. intros id r Hr Hp. where_ Hp. decide_moved r. Qed.

(** *** Parks *)

Lemma resolve_went id p f s :
  (forall r, p r = true -> moved back r (f r)) -> wt s (fst (Parks.resolve id p f s)).
Proof.
  intros Hf. unfold Parks.resolve. statement E.
  match goal with |- context [update ?p ?f s] => assert (wt s (update p f s)) as H1 end.
  { apply went_update. intros i r Hr Hp. apply andb_true_iff in Hp as [_ Hp]. by apply Hf. }
  case_match; [done|]. cbn [fst]. eapply went_trans; [exact H1|apply decrement_went].
Qed.

(** The resolutions are guarded on a status, and change no claim. *)
Ltac resolved := intros r Hp; where_ Hp; unfold Parks.finished, Parks.settled_job; decide_moved r.

Lemma resolve_approval_went run_id id ok by_ comment now s :
  wt s (fst (Parks.resolve_approval run_id id ok by_ comment now s)).
Proof. apply resolve_went. destruct ok; resolved. Qed.

Lemma expire_approval_went now acc cand : wt acc.1 (Parks.expire_approval now acc cand).1.
Proof.
  destruct acc as [s1 l], cand as [id r]. unfold Parks.expire_approval.
  repeat (case_match; try apply went_refl); subst;
    match goal with E : Parks.resolve_approval ?a ?b ?c ?d ?e ?f s1 = _ |- _ =>
      pose proof (resolve_approval_went a b c d e f s1) as Hk; by rewrite E in Hk end.
Qed.

Lemma resolve_expired_went now s : wt s (fst (Parks.resolve_expired_approvals now s)).
Proof. apply (went_fold _ _ _ fst _ _ (s, [])). apply expire_approval_went. Qed.

Lemma park_went task_id fence f s :
  (forall r, T.status r = Running -> moved back r (Parks.unclaimed (f r))) ->
  wt s (fst (Parks.park task_id fence f s)).
Proof.
  intros Hf. unfold Parks.park. statement E. cbn [fst]. apply went_update.
  unfold Parks.parkable. intros id r Hr Hp. where_ Hp. by apply Hf.
Qed.

Ltac parks := apply park_went; intros r Hs; unfold Parks.unclaimed; decide_moved r.

Lemma park_sub_went task_id fence child s : wt s (fst (Parks.park_subworkflow task_id fence child s)).
Proof. parks. Qed.
Lemma park_wait_went task_id fence wake s : wt s (fst (Parks.park_wait task_id fence wake s)).
Proof. parks. Qed.
Lemma park_url_went task_id fence url poll s : wt s (fst (Parks.park_wait_url task_id fence url poll s)).
Proof. parks. Qed.
Lemma park_dataset_went task_id fence uri s : wt s (fst (Parks.park_wait_dataset task_id fence uri s)).
Proof. parks. Qed.
Lemma park_job_went task_id fence kind handle endpoint poll deadline s :
  wt s (fst (Parks.park_external task_id fence kind handle endpoint poll deadline s)).
Proof. parks. Qed.

Lemma release_sub_went task_id fence s : wt s (fst (Parks.release_subworkflow_task task_id fence s)).
Proof. apply went_update. unfold Parks.parkable. intros id r Hr Hp. where_ Hp. decide_moved r. Qed.

Lemma resolve_sub_went id child ok now s : wt s (fst (Parks.resolve_subworkflow id child ok now s)).
Proof. apply resolve_went. unfold Parks.parked_on. destruct ok; resolved. Qed.

Lemma fail_sub_went id child reason now s :
  wt s (fst (Parks.fail_parked_subworkflow id child reason now s)).
Proof. apply resolve_went. unfold Parks.parked_on. resolved. Qed.

Lemma requeue_sub_went id child out at_ s :
  wt s (fst (Parks.requeue_parked_subworkflow id child out at_ s)).
Proof. apply went_update. unfold Parks.parked_on. intros i r Hr Hp. where_ Hp. decide_moved r. Qed.

Lemma reconcile_sub_went now acc p : wt acc.1 (Parks.reconcile_subworkflow now acc p).1.
Proof.
  destruct acc as [s l], p as [[[id child] status] out]. unfold Parks.reconcile_subworkflow.
  set (ok := bool_decide (status = RSucceeded)).
  assert (wt s (match Parks.resolve_subworkflow id child ok now s with
                | (s, true) => (s, l ++ [(id, ok)]) | (s, false) => (s, l) end).1) as H1.
  { pose proof (resolve_sub_went id child ok now s) as Hk.
    by destruct (Parks.resolve_subworkflow id child ok now s) as [s1 [|]]. }
  destruct ok; [|done]. destruct (Parks.repeat_spec_of id s); [|done].
  destruct (Parks.decide _ _ _) as [|delay|reason]; [done|apply requeue_sub_went|].
  pose proof (fail_sub_went id child reason now s) as Hk.
  by destruct (Parks.fail_parked_subworkflow id child reason now s) as [s2 [|]].
Qed.

Lemma resolve_wait_went now acc due : wt acc.1 (Parks.resolve_wait now acc due).1.
Proof.
  destruct acc as [s l]. unfold Parks.resolve_wait.
  match goal with |- context [Parks.resolve ?i ?p ?f s] =>
    pose proof (resolve_went i p f s ltac:(unfold Parks.wait_due; resolved)) as H;
    by destruct (Parks.resolve i p f s) as [s1 [|]] end.
Qed.

Lemma resolve_dataset_went now acc due : wt acc.1 (Parks.resolve_dataset_wait now acc due).1.
Proof.
  destruct acc as [s l]. unfold Parks.resolve_dataset_wait.
  match goal with |- context [Parks.resolve ?i ?p ?f s] =>
    pose proof (resolve_went i p f s ltac:(unfold Parks.waits_dataset; resolved)) as H;
    by destruct (Parks.resolve i p f s) as [s1 [|]] end.
Qed.

Lemma claim_url_went until acc due : wt acc.1 (Parks.claim_url_wait until acc due).1.
Proof.
  destruct acc as [s l]. unfold Parks.claim_url_wait. statement E. cbn [fst].
  apply went_update. unfold Parks.waits_url. intros id r Hr Hp.
  apply andb_true_iff in Hp as [Hp _]. where_ Hp. decide_moved r.
Qed.

Lemma claim_job_went until acc due : wt acc.1 (Parks.claim_external_poll until acc due).1.
Proof.
  destruct acc as [s l]. unfold Parks.claim_external_poll. statement E. cbn [fst].
  apply went_update. unfold Parks.parked_job. intros id r Hr Hp.
  apply andb_true_iff in Hp as [Hp _]. where_ Hp. decide_moved r.
Qed.

Lemma repark_url_went id at_ s : wt s (fst (Parks.repark_url_wait id at_ s)).
Proof. apply went_update. unfold Parks.waits_url. intros i r Hr Hp. where_ Hp. decide_moved r. Qed.

Lemma resolve_url_went id now s : wt s (fst (Parks.resolve_url_wait id now s)).
Proof. apply resolve_went. unfold Parks.waits_url. resolved. Qed.

Lemma repark_job_went id handle at_ s : wt s (fst (Parks.repark_external id handle at_ s)).
Proof. apply went_update. unfold Parks.parked_job. intros i r Hr Hp. where_ Hp. decide_moved r. Qed.

Lemma resolve_job_went id handle out now s : wt s (fst (Parks.resolve_external id handle out now s)).
Proof. apply resolve_went. unfold Parks.parked_job. resolved. Qed.

Lemma fail_job_went id handle reason keep now s :
  wt s (fst (Parks.fail_external_impl id handle reason keep now s)).
Proof. apply resolve_went. unfold Parks.parked_job. destruct keep; resolved. Qed.

Lemma clear_job_went id handle s : wt s (fst (Parks.clear_external_handle id handle s)).
Proof.
  apply went_update. intros i r Hr Hp. where_ Hp. unfold Parks.settled_job.
  clear Hp. decide_moved r.
Qed.

(** *** Runs *)

Lemma finalize_went now acc run : wt acc.1 (Runs.finalize now acc run).1.
Proof.
  destruct acc as [s l], run as [run_id status]. unfold Runs.finalize.
  destruct (update_runs _ _ s) as [s1 n] eqn:E1. injection E1 as <- <-.
  case_match; by apply went_same.
Qed.

Lemma reap_went runs now s : wt s (fst (Runs.reap runs now s)).
Proof. apply (went_fold _ _ _ fst _ _ (s, [])). apply finalize_went. Qed.

Lemma reap_all_went fuel after now s l : wt s (fst (Runs.reap_all fuel after now s l)).
Proof.
  revert after s l; induction fuel as [|fuel IH]; intros after s l; [apply went_refl|].
  cbn [Runs.reap_all].
  assert (wt s (Runs.reap_slice after Runs.REAP_ALL_SLICE now s).1.1) as H1.
  { unfold Runs.reap_slice. case_match; [apply went_refl|].
    match goal with |- context [Runs.reap ?l now s] => pose proof (reap_went l now s) as H1 end.
    by destruct (Runs.reap _ now s). }
  destruct (Runs.reap_slice after Runs.REAP_ALL_SLICE now s) as [[s1 swept] [n|]]; [|done].
  eapply went_trans; [exact H1|apply IH].
Qed.

Lemma reap_woken_went woken now s : wt s (fst (Runs.reap_woken woken now s)).
Proof. destruct woken as [|[|r runs]]; [apply reap_all_went|apply went_refl|apply reap_went]. Qed.

Lemma is_run_complete_went run_id now s : wt s (fst (Runs.is_run_complete run_id now s)).
Proof. unfold Runs.is_run_complete. case_match; [apply went_refl|]. by apply went_same. Qed.

Lemma let_in_went run_id deadline now s : wt s (fst (Runs.let_in run_id deadline now s)).
Proof.
  unfold Runs.let_in. destruct (update_runs _ _ s) as [s1 n] eqn:E1. injection E1 as <- <-.
  case_match; [by apply went_same|]. cbn [fst].
  match goal with |- wt s (update ?p ?f ?m) => apply (went_trans old back del m); [by apply went_same|] end.
  apply went_update. intros id r Hr Hp. clear Hp. decide_moved r.
Qed.

Lemma admit_next_went next running now s l : wt s (fst (Runs.admit_next next running now s l)).
Proof.
  revert running s l; induction next as [|[run_id r] next IH]; intros running s l; [apply went_refl|].
  cbn [Runs.admit_next]. cbv zeta. case_match; [apply went_refl|].
  match goal with |- context [Runs.let_in ?a ?b ?c s] =>
    pose proof (let_in_went a b c s) as H1; destruct (Runs.let_in a b c s) as [s1 [|]] end;
    (eapply went_trans; [exact H1|apply IH]).
Qed.

Lemma admit_keys_went keys now s : wt s (fst (fold_left (Runs.admit_key now) keys (s, []))).
Proof.
  apply (went_fold _ _ _ fst _ _ (s, [])). intros [s1 l] k. unfold Runs.admit_key.
  destruct (Runs.runs_in_flight _ _ _ _) as [a b]. apply admit_next_went.
Qed.

Lemma take_place_went dag run_id own now s s' waits :
  Runs.take_place dag run_id own now s = Ok (s', waits) -> wt s s'.
Proof.
  unfold Runs.take_place. destruct (Spec.max_active_runs dag) as [max|];
    [|intros [= <- <-]; apply went_refl].
  destruct (max =? 0)%N; [intros [= <- <-]; apply went_refl|].
  set (s0 := match default Spec.Refuse (Spec.when_full dag) with
             | Spec.Supersede => _ | _ => s end).
  assert (wt s s0) as H0.
  { unfold s0. destruct (default _ _); try apply went_refl.
    apply (went_fold _ _ _ fst _ _ (s, 0%nat)). intros [s1 n] i. unfold Runs.supersede_run.
    destruct (update_runs _ _ s1) as [s2 m] eqn:E1. injection E1 as <- <-.
    case_match; [by apply went_same|]. cbn [fst].
    match goal with |- wt s1 (Stops.stop_and_finish _ ?m _) =>
      apply (went_trans old back del m); [by apply went_same|apply stop_and_finish_went] end. }
  clearbody s0. cbv zeta. destruct (Runs.runs_in_flight _ _ _ s0) as [a w].
  destruct (Z.of_N max <=? a)%Z; [destruct (_ || _); [done|]|]; by intros [= <- <-].
Qed.

End statements.

Section more.
Context (old : str -> Prop) (back del : Prop).
#[local] Abbreviation wt := (went old back del).

(** Making room for a run takes no row away. *)
Lemma take_place_went_all dag run_id own now s s' waits :
  Runs.take_place dag run_id own now s = Ok (s', waits) -> went (fun _ => True) False False s s'.
Proof. apply take_place_went. Qed.

(** Rows under ids that nothing bore. *)
Lemma built_went dag run_id now held ts s s' ids :
  Create.built dag run_id now held s ts s' ids ->
  (forall id, old id -> task_runs s !! id = None -> task_runs s' !! id = None) -> wt s s'.
Proof.
  intros Hb Hold Hw. split.
  - intros id r Hr. destruct (Create.bt_rows _ _ _ _ _ _ _ _ Hb id) as [(x & l & Hx & Hid)|E];
      [|rewrite E in Hr; by eapply Hw].
    destruct (Create.bt_ids _ _ _ _ _ _ _ _ Hb x l Hx) as (_ & (t & Ht & <-) & _).
    destruct (Create.bt_done _ _ _ _ _ _ _ _ Hb t Ht) as (l' & gid & Hl & _ & Hrow).
    assert (l' = l) as -> by congruence. apply list_elem_of_lookup_1 in Hid as [i Hi].
    rewrite (Hrow i id Hi) in Hr. injection Hr as <-. intros j [= <-]. by eexists.
  - intros id Hid. destruct (Create.bt_rows _ _ _ _ _ _ _ _ Hb id) as [(x & l & Hx & Hin)|E];
      [|rewrite E; apply row_went_refl].
    destruct (Create.bt_ids _ _ _ _ _ _ _ _ Hb x l Hx) as (_ & _ & Hn).
    by rewrite (Hn id Hin), (Hold id Hid (Hn id Hin)).
Qed.

Lemma create_run_went uuid dag rq floor free now s s' run_id :
  Runs.create_run_full uuid dag rq floor free now s = Ok (s', run_id) ->
  (forall id, old id -> task_runs s !! id = None -> task_runs s' !! id = None) -> wt s s'.
Proof.
  intros (-> & sa & s0 & waits & s1 & s2 & ids & s3 & Hp & E1 & _ & _ & F1 & _ & _ & Hb & Hwire & G & _)%Create.create_run_stages
    Hold Hw.
  assert (all_written sa) as Hwa by (unfold all_written; by rewrite E1).
  assert (task_runs s3 = task_runs s2) as E3.
  { assert (forall x l, ids !! x = Some l -> NoDup l) as Hn
      by (intros x l Hx; by destruct (Create.bt_ids _ _ _ _ _ _ _ _ Hb x l Hx)).
    destruct (Create.wire_tasks_wired ids Hn _ _ _ Hwire) as [[_ _ H] _]. by rewrite H. }
  revert Hw. change (wt s s'). apply (went_trans old back del s0).
  - apply (went_trans old back del sa); [by apply went_same|by eapply take_place_went].
  - apply (went_trans old back del s1); [by apply went_same|].
    apply (went_trans old back del s2); [|apply went_same; congruence].
    eapply built_went; [exact Hb|]. intros id Hid Hn. rewrite <- E3, <- G. apply Hold; [done|].
    rewrite F1 in Hn.
    destruct (task_runs s !! id) as [r|] eqn:E; [exfalso|done]. rewrite <- E1 in E.
    destruct (take_place_went_all _ _ _ _ _ _ _ Hp Hwa) as [_ Hrow].
    specialize (Hrow id I). rewrite E, Hn in Hrow. by destruct Hrow.
Qed.

(** *** A step of [Reach] *)

Lemma reconcile_subs_went now s : wt s (Parks.reconcile_subworkflows now s).1.1.
Proof. apply (went_fold _ _ _ fst _ _ (s, [])), reconcile_sub_went. Qed.
Lemma reconcile_waits_went now s : wt s (Parks.reconcile_waits now s).1.1.
Proof. apply (went_fold _ _ _ fst _ _ (s, [])), resolve_wait_went. Qed.
Lemma reconcile_datasets_went now s : wt s (Parks.reconcile_dataset_waits now s).1.1.
Proof. apply (went_fold _ _ _ fst _ _ (s, [])), resolve_dataset_went. Qed.
Lemma claim_urls_went limit secs now s : wt s (fst (Parks.claim_due_url_waits limit secs now s)).
Proof. apply (went_fold _ _ _ fst _ _ (s, [])), claim_url_went. Qed.
Lemma claim_jobs_went limit secs now s : wt s (fst (Parks.claim_due_external_polls limit secs now s)).
Proof. apply (went_fold _ _ _ fst _ _ (s, [])), claim_job_went. Qed.
Lemma advance_went now s : wt s (fst (Scheduler.advance_ready_tasks now s)).
Proof. apply advance_rounds_went. Qed.
Lemma settle_stopped_went id worker fence now s :
  wt s (fst (Stops.settle_stopped_task id worker fence now s)).
Proof. apply settle_went. Qed.
Lemma admit_waiting_went now s : wt s (fst (Runs.admit_waiting_runs now s)).
Proof. apply admit_keys_went. Qed.

#[local] Hint Constants Opaque : went.
#[local] Hint Resolve admit_keys_went admit_waiting_went reap_woken_went is_run_complete_went
  cancel_run_went cancel_overdue_runs_went end_stopped_runs_went settle_stopped_went release_went
  claim_teardowns_went recover_went advance_went claim_ready_filtered_went claim_ready_gang_went
  reclass_went mark_succeeded_went mark_failed_went retry_task_went requeue_quota_went
  cancel_gang_siblings_went renew_went note_went append_went checkpoint_went ready_shaped_went
  skip_shaped_went settle_candidate_went park_sub_went release_sub_went park_wait_went park_url_went
  park_dataset_went park_job_went resolve_approval_went resolve_expired_went repark_url_went
  resolve_url_went repark_job_went resolve_job_went fail_job_went clear_job_went
  reconcile_subs_went reconcile_waits_went reconcile_datasets_went claim_urls_went claim_jobs_went : went.

Lemma reach_step_went s s' :
  Reach.step s s' -> (forall id, old id -> task_runs s !! id = None -> task_runs s' !! id = None) ->
  wt s s'.
Proof.
  intros [] Hold; first [by auto with went nocore|idtac]; lazymatch goal with
  | H : Runs.create_run_full _ _ _ _ _ _ _ = _ |- _ => by eapply create_run_went
  | |- context [Runs.finalize] => apply (finalize_went _ _ _ _ (s, []))
  | |- context [Stops.end_stopped_run] => apply (end_stopped_run_went _ _ _ _ (s, 0%nat))
  | |- context [Parks.expire_approval] => apply (expire_approval_went _ _ _ _ (s, []))
  | |- context [Parks.reconcile_subworkflow] => apply (reconcile_sub_went _ _ _ _ (s, []))
  | |- context [Parks.resolve_wait] => apply (resolve_wait_went _ _ _ _ (s, []))
  | |- context [Parks.resolve_dataset_wait] => apply (resolve_dataset_went _ _ _ _ (s, []))
  | |- context [Parks.claim_url_wait] => apply (claim_url_went _ _ _ _ (s, []))
  | |- context [Parks.claim_external_poll] => apply (claim_job_went _ _ _ _ (s, []))
  end.
Qed.

End more.
(** ** Putting back *)

(** What putting tasks back makes of a row: nothing but its count, or a new version that
    nobody holds. *)
Definition put_row (r r' : T.task_run) : Prop :=
  r' = r <| T.remaining_deps := T.remaining_deps r' |>
  \/ (terminal r = true /\ T.version r' = (T.version r + 1)%Z /\ T.claimed_by r' = None
      /\ moved True r r').

Definition puts (s s' : store) : Prop :=
  (forall id r, task_runs s !! id = Some r ->
     match task_runs s' !! id with Some r' => put_row r r' | None => T.fanout_parent r <> None end)
  /\ forall id, task_runs s !! id = None -> task_runs s' !! id = None.

Inductive put_back (s : store) : store -> Prop :=
| retry task_id who now s' ok :
    Ops.retry_task_from_ui_by task_id who now s = Ok (s', ok) -> put_back s s'
| rerun run_id by_ who now s' n :
    Ops.rerun_from_failed_in run_id by_ who now s = Ok (s', n) -> put_back s s'
| rerun_all run_id who now s' n :
    Ops.rerun_all_in run_id who now s = Ok (s', n) -> put_back s s'
| clear run_id task_id who now s' n :
    Ops.clear_task_with_downstream_by run_id task_id who now s = Ok (s', n) -> put_back s s'.

Lemma count_moved back r z : moved back r (r <| T.remaining_deps := z |>).
Proof. decide_moved r. Qed.

Lemma put_row_refl r : put_row r r.
Proof. left. by destruct r. Qed.

Lemma puts_refl s : puts s s.
Proof. split; [|done]. intros id r ->. apply put_row_refl. Qed.

Lemma puts_same s s2 s' : task_runs s2 = task_runs s' -> puts s s2 -> puts s s'.
Proof. unfold puts. by intros ->. Qed.

(** The statement that resets, and the recount. *)
Lemma reset_puts s s2 run (gone : str -> bool) p f fin :
  (forall id, task_runs s2 !! id = if gone id then None else task_runs s !! id) ->
  (forall id r, task_runs s !! id = Some r -> gone id = true -> T.fanout_parent r <> None) ->
  (forall id r, task_runs s !! id = Some r -> p id r = true ->
     terminal r = true /\ T.version (f r) = (T.version r + 1)%Z /\ T.claimed_by (f r) = None
     /\ moved True r (f r)) ->
  puts s (Ops.recount run fin (update p f s2)).
Proof.
  intros H2 Hg Hp. split.
  - intros id r Hr. rewrite (AgainFacts.reset_lookup s s2 run gone p f fin H2), Hr.
    destruct (gone id) eqn:Eg; [by apply (Hg id)|]. cbn [fmap option_fmap option_map].
    destruct (p id r) eqn:Ep.
    + destruct (Hp id r Hr Ep) as (Ht & Hv & Hc & Hm). right. case_match; [|done].
      split_and!; try done. eapply moved_trans; [exact Hm|apply count_moved].
    + left. case_match; by destruct r.
  - intros id Hn. rewrite (AgainFacts.reset_lookup s s2 run gone p f fin H2), Hn. by destruct (gone id).
Qed.

Lemma same_rows s s2 :
  task_runs s2 = task_runs s -> forall id, task_runs s2 !! id = if (fun _ : str => false) id then None else task_runs s !! id.
Proof. by intros ->. Qed.

Ltac row_back r :=
  cbv zeta; destruct r; split; [done|]; split; [done|]; split; row_fields;
    [done..|lia|intros; lia|intros _; right; split; [done|lia]].

Lemma rerun_row_back now who r :
  let r' := Ops.rerun_row now who r in
  T.version r' = (T.version r + 1)%Z /\ T.claimed_by r' = None /\ moved True r r'.
Proof. unfold Ops.rerun_row, Ops.no_result. row_back r. Qed.

Lemma cleared_row_back now who r :
  let r' := Ops.cleared_row now who r in
  T.version r' = (T.version r + 1)%Z /\ T.claimed_by r' = None /\ moved True r r'.
Proof. unfold Ops.cleared_row, Ops.rerun_row, Ops.no_result. row_back r. Qed.

Lemma retried_row_back now who r :
  let r' := Ops.retried_row now who r in
  T.version r' = (T.version r + 1)%Z /\ T.claimed_by r' = None /\ moved True r r'.
Proof. unfold Ops.retried_row, Ops.no_result. row_back r. Qed.

Lemma rearmed_rows run_id takes more cap now s s4 k s5 :
  Ops.arm run_id takes more s = (s4, k) ->
  (if (k =? 1)%nat then
     let? _ := Ops.refuse_if_full run_id cap s4 in Ok (Ops.rearm_deadlines run_id now s4)
   else Ok s4) = Ok s5 -> task_runs s5 = task_runs s.
Proof.
  intros Ea E5. pose proof (AgainFacts.arm_tasks run_id takes more s) as [A1 _].
  rewrite Ea in A1. cbn in A1. destruct (k =? 1)%nat; [|congruence].
  destruct (Ops.refuse_if_full _ _ _); [|done]. injection E5 as <-.
  destruct (AgainFacts.rearm_tasks run_id now s4). congruence.
Qed.

Lemma rerun_puts run_id by_ who now s s' n :
  Ops.rerun_from_failed_in run_id by_ who now s = Ok (s', n) -> puts s s'.
Proof.
  destruct n as [n|].
  - intros (s2 & [[Ht _] _ _ _ _] & -> & _)%AgainFacts.rerun_from_failed_shape.
    eapply puts_same; [reflexivity|].
    eapply (reset_puts s s2 run_id (fun _ => false)); [by apply same_rows|done|].
    intros id r _ [_ Hb]%andb_true_iff. split; [by apply AgainFacts.broken_terminal|apply rerun_row_back].
  - unfold Ops.rerun_from_failed_in. destruct (Ops.arm _ _ _ s) as [s1 k] eqn:Ea.
    destruct (k =? 0)%nat eqn:Ek; [intros [= <-]|by destruct (Ops.refuse_if_full _ _ _)].
    injection Ea as <- _. by eapply puts_same, puts_refl.
Qed.

Lemma rerun_all_puts run_id who now s s' n :
  Ops.rerun_all_in run_id who now s = Ok (s', n) -> puts s s'.
Proof.
  unfold Ops.rerun_all_in. destruct (Ops.arm _ _ _ s) as [s1 k] eqn:Ea.
  assert (task_runs s1 = task_runs s) as E1 by (by injection Ea as <- _).
  destruct (k =? 0)%nat; [intros [= <- <-]; by eapply puts_same, puts_refl|].
  destruct (Ops.refuse_if_full _ _ _); [|done]. destruct (Ops.refuse_if_teardown_owed _ _); [|done].
  set (s2 := Ops.keep_replaced _ _ _ _).
  assert (task_runs s2 = task_runs s) as E2.
  { unfold s2. destruct (AgainFacts.keep_replaced_tasks (Ops.Whole run_id) (again_reason RerunAll) now
      (Ops.rearm_deadlines run_id now s1)) as ([-> _] & _).
    destruct (AgainFacts.rearm_tasks run_id now s1) as [-> _]. exact E1. }
  statement E. intros [= <- _]. eapply puts_same; [reflexivity|].
  eapply (reset_puts s (Ops.drop_instances run_id s2) run_id (Ops.is_instance s2 run_id)).
  - intros id. unfold Ops.drop_instances, delete_tasks, set. cbn. rewrite <- E2.
    destruct (Ops.is_instance s2 run_id id) eqn:Eg.
    + apply map_lookup_filter_None. right. intros r _ H. cbn in H. congruence.
    + destruct (task_runs s2 !! id) as [r|] eqn:Er; [by apply map_lookup_filter_Some|].
      apply map_lookup_filter_None. by left.
  - intros id r Hr Hg. unfold Ops.is_instance in Hg. rewrite E2, Hr in Hg. by where_ Hg.
  - intros id r _ Hp. apply andb_true_iff in Hp as [_ Hp]. split; [exact Hp|apply cleared_row_back].
Qed.

Lemma clear_puts run_id task_id who now s s' n :
  Ops.clear_task_with_downstream_by run_id task_id who now s = Ok (s', n) -> puts s s'.
Proof.
  unfold Ops.clear_task_with_downstream_by.
  destruct (task_runs s !! task_id) as [r0|]; [|intros [= <- _]; apply puts_refl].
  destruct (negb (bool_decide _)); [intros [= <- _]; apply puts_refl|].
  destruct (negb (Ops.over r0)); [intros [= <- _]; apply puts_refl|].
  set (s2 := Ops.keep_replaced _ _ _ _).
  assert (task_runs s2 = task_runs s) as E2
    by (destruct (AgainFacts.keep_replaced_tasks (Ops.Cone run_id task_id) (again_reason Clear) now s)
          as ([? _] & _); done).
  statement E. destruct (Ops.arm _ _ _ _) as [s4 k] eqn:Ea.
  destruct (if (k =? 1)%nat then _ else _) as [s5|] eqn:E5; [|done]. intros [= <- _].
  apply rearmed_rows with (1 := Ea) in E5. eapply puts_same; [symmetry; exact E5|].
  eapply (reset_puts s s2 run_id (fun _ => false)); [by apply same_rows|done|].
  intros id r _ [_ Hp]%andb_true_iff. split; [exact Hp|apply cleared_row_back].
Qed.

Lemma retry_puts task_id who now s s' ok :
  Ops.retry_task_from_ui_by task_id who now s = Ok (s', ok) -> puts s s'.
Proof.
  unfold Ops.retry_task_from_ui_by. destruct (T.run_id <$> _) as [run_id|]; [|intros [= <- _]; apply puts_refl].
  set (s2 := Ops.keep_replaced _ _ _ _).
  assert (task_runs s2 = task_runs s) as E2
    by (destruct (AgainFacts.keep_replaced_tasks (Ops.Task task_id) (again_reason Retry) now s)
          as ([? _] & _); done).
  statement E. destruct (_ =? 0)%nat; [intros [= <- _]; apply puts_refl|].
  destruct (Ops.arm _ _ _ _) as [s4 k] eqn:Ea.
  destruct (if (k =? 1)%nat then _ else _) as [s5|] eqn:E5; [|done]. intros [= <- _].
  apply rearmed_rows with (1 := Ea) in E5. eapply puts_same; [symmetry; exact E5|]. split.
  - intros id r Hr. rewrite update_tasks_lookup, E2, Hr. cbn [fmap option_fmap option_map].
    case_match eqn:Ep; [|apply put_row_refl]. right. split; [|apply retried_row_back].
    unfold Ops.retryable, is_status, terminal in *. where_ Ep. by destruct (T.status r).
  - intros id Hn. by rewrite update_tasks_lookup, E2, Hn.
Qed.

Lemma put_back_puts s s' : put_back s s' -> puts s s'.
Proof.
  intros []; eauto using retry_puts, rerun_puts, rerun_all_puts, clear_puts.
Qed.

Lemma puts_went old s s' : puts s s' -> went old True True s s'.
Proof.
  intros [Hp Hn] Hw. assert (forall r r', put_row r r' -> moved True r r') as Hm.
  { intros r r' [-> |(_ & _ & _ & H)]; [apply count_moved|done]. }
  split.
  - intros id r' Hr'. destruct (task_runs s !! id) as [r|] eqn:E; [|apply Hn in E; congruence].
    specialize (Hp id r E). rewrite Hr' in Hp. apply Hm in Hp. unfold written.
    rewrite (mv_input _ _ _ Hp). by eapply Hw.
  - intros id _. destruct (task_runs s !! id) as [r|] eqn:E; [|by rewrite (Hn id E)].
    specialize (Hp id r E). destruct (task_runs s' !! id) as [r'|]; cbn; [by apply Hm|done].
Qed.

(** ** Fan-outs *)

Section fanouts.
Context (old : str -> Prop) (back : Prop).

(** One statement or transaction of [reconcile_fanouts], of whatever barrier and whatever it
    read; the rows it makes are under ids never drawn before. *)
Inductive fan (s : store) : store -> Prop :=
| drop_edges id v : fan s (Fanout.drop_stale_edges id v s)
| drop_rows id v s' : Fanout.drop_stale_rows id v s = Ok s' -> fan s s'
| expand uuid next id b now made s' next' :
    (forall n, ~ old (uuid n)) ->
    Fanout.expand_fanout uuid next id b now made s = Ok (Some (s', next')) -> fan s s'
| finish id ok out now : fan s (fst (Fanout.finish_fanout id ok out now s)).

#[local] Abbreviation wt := (went old back True).

Lemma insert_instances_went uuid next id b epoch now made s s' next' :
  (forall n, ~ old (uuid n)) ->
  Fanout.insert_instances uuid next id b epoch now made s = Ok (s', next') -> wt s s'.
Proof.
  intros Hu. revert next s; induction made as [|i made IH]; intros next s; cbn [Fanout.insert_instances].
  { intros [= <- _]. apply went_refl. }
  destruct (Runs.insert_task _ _ s) as [s1|] eqn:E1; [|done].
  apply Create.insert_task_spec in E1 as [Hn ->]. unfold Runs.insert_edge at 1.
  case_bool_decide; [done|]. intros Hi%IH.
  eapply went_trans; [apply (went_insert old back True s (uuid next) (Fanout.instance_row id b epoch now i)); [done|by apply Hu|]|].
  - intros j Hj. injection Hj as <-. by eexists.
  - eapply went_trans; [|exact Hi]. by apply went_same.
Qed.

Lemma fan_went s s' : fan s s' -> wt s s'.
Proof.
  intros [id v|id v s'' H|uuid next id b now made s'' next' Hu H|id ok out now].
  - by apply went_same.
  - unfold Fanout.drop_stale_rows in H. destruct (existsb _ _); [done|]. injection H as <-.
    apply went_delete. intros i r Hr Hg. split; [done|].
    unfold Fanout.is_stale in Hg. rewrite Hr in Hg. unfold Fanout.stale, Fanout.instance_of, sql_eq in Hg.
    apply andb_true_iff in Hg as [Hg%bool_decide_eq_true _]. congruence.
  - unfold Fanout.expand_fanout in H. revert H. statement E.
    match goal with |- context [update ?p ?f s] => assert (wt s (update p f s)) as H1 end.
    { apply went_update. intros i r Hr Hp. unfold Fanout.unexpanded in Hp. where_ Hp. decide_moved r. }
    destruct (_ !! id) as [r|]; [|done]. destruct (_ =? 0)%nat; [done|].
    destruct (Fanout.insert_instances _ _ _ _ _ _ _ _) as [[s2 n2]|] eqn:E2; [|done].
    intros [= <- _]. eapply went_trans; [exact H1|]. by eapply insert_instances_went.
  - apply resolve_went. intros r Hp. unfold Fanout.parked in Hp. where_ Hp.
    unfold Parks.finished. destruct ok; decide_moved r.
Qed.

End fanouts.

(** ** Histories *)

Section histories.
Context (old : str -> Prop).

(** No row comes to be under an id in use before. *)
Definition none_born (s s' : store) : Prop :=
  forall id, old id -> task_runs s !! id = None -> task_runs s' !! id = None.

Inductive step (s : store) : store -> Prop :=
| works s' : Reach.step s s' -> none_born s s' -> step s s'
(* What a sweep writes of a row or a run, whatever it read of it and whenever *)
| settles id cand v now : step s (fst (Scheduler.settle_candidate now id cand v s))
| ends run x now : step s (fst (Runs.finalize now (s, []) (run, x)))
| stops run now : step s (fst (Stops.end_stopped_run now (s, 0%nat) run))
| fans s' : fan old s s' -> step s s'
| backs s' : put_back s s' -> step s s'.

Definition steps : store -> store -> Prop := rtc step.


Lemma step_moved id s s' :
  step s s' -> all_written s -> old id ->
  all_written s' /\ (row_went False True (task_runs s !! id) (task_runs s' !! id)
                     \/ (put_back s s' /\ row_went True True (task_runs s !! id) (task_runs s' !! id))).
Proof.
  intros Hst Hw Hid.
  assert (went old False True s s' \/ put_back s s') as [H|H].
  { destruct Hst as [s' H Hb|i cand v now|run x now|run now|s' H|s' H].
    - left. by apply reach_step_went.
    - left. apply settle_candidate_went.
    - left. apply (finalize_went _ _ _ _ (s, [])).
    - left. apply (end_stopped_run_went _ _ _ _ (s, 0%nat)).
    - left. by apply fan_went.
    - by right. }
  - destruct (H Hw) as [Hw' Hr]. split; [done|]. left. by apply Hr.
  - destruct (puts_went old s s' (put_back_puts _ _ H) Hw) as [Hw' Hr]. split; [done|].
    right. split; [done|]. by apply Hr.
Qed.

Lemma step_went s s' : step s s' -> all_written s ->
  all_written s' /\ forall id, old id -> row_went True True (task_runs s !! id) (task_runs s' !! id).
Proof.
  intros Hst Hw. split.
  - destruct Hst as [s' H Hb|id cand v now|run x now|run now|s' H|s' H].
    + by apply (reach_step_went old True True s s' H Hb Hw).
    + by apply (settle_candidate_went old True True now id cand v s Hw).
    + by apply (finalize_went old True True now (s, []) (run, x) Hw).
    + by apply (end_stopped_run_went old True True now (s, 0%nat) run Hw).
    + by apply (fan_went old True s s' H Hw).
    + by apply (puts_went old s s' (put_back_puts _ _ H) Hw).
  - intros id Hid. destruct (step_moved id s s' Hst Hw Hid) as [_ [H|[_ H]]]; [|done].
    destruct (task_runs s !! id), (task_runs s' !! id); try done. by eapply moved_weaken.
Qed.

Lemma steps_went s s' : steps s s' -> went old True True s s'.
Proof.
  induction 1 as [s|s t u H _ IH]; [apply went_refl|]. eapply went_trans; [|exact IH].
  intros Hw. by apply step_went.
Qed.


End histories.

(** Every store the system can come to. *)
Definition reachable (s : store) : Prop := steps (fun _ => False) empty_store s.

Lemma reachable_written s : reachable s -> all_written s.
Proof. intros H. apply (steps_went _ _ _ H). intros id r Hr. done. Qed.

(** The histories of [Reach] are among them. *)
Lemma reach_history s : Reach.reachable s -> reachable s.
Proof.
  unfold reachable, steps, Reach.reachable, Reach.steps.
  induction 1 as [|a b c H _ IH]; [done|]. eapply rtc_l; [|exact IH]. apply works; [exact H|]. by intros id [].
Qed.

Lemma reachable_step s s' : reachable s -> step (fun _ => False) s s' -> reachable s'.
Proof. intros H Hs. eapply rtc_r; [exact H|exact Hs]. Qed.

(** ** What holds of every history *)

(** A claim that is spent, after anything: spent still, or gone with its task. *)
Lemma spent_went id worker fence s s' :
  went (fun i => i = id) True True s s' -> all_written s -> Safety.spent id worker fence s ->
  Safety.spent id worker fence s'
  \/ (task_runs s' !! id = None
      /\ exists r, task_runs s !! id = Some r /\ T.fanout_parent r <> None).
Proof.
  intros H Hw (r & Hr & Hle & Hc). destruct (H Hw) as [_ Hrow]. specialize (Hrow id eq_refl).
  rewrite Hr in Hrow. destruct (task_runs s' !! id) as [r'|] eqn:Hr'.
  - left. exists r'. destruct Hrow. split; [done|]. split; [lia|]. intros E.
    destruct (mv_claim0 ltac:(lia)) as [-> | ->]; [|done]. apply Hc. lia.
  - right. split; [done|]. exists r. by destruct Hrow.
Qed.

Lemma spent_or_gone_refused id worker fence s s' :
  went (fun i => i = id) True True s s' -> all_written s -> Safety.spent id worker fence s ->
  Safety.refused id worker fence s'.
Proof.
  intros H Hw Hs. apply Safety.unheld_refused.
  destruct (spent_went _ _ _ _ _ H Hw Hs) as [?|[? _]]; [by apply Safety.spent_unheld|by apply Safety.gone_unheld].
Qed.



(** C5: a task put back is nobody's.  In every history (the steps of C3's), whatever a
    retry, a rerun from the failed tasks, a rerun of the whole run or a clear does to a task,
    in whatever state the run is, is nothing but to its count of dependencies, or it ends
    every claim on the task for good: whoever held it before, its reports are refused from
    then on, however the run goes on and however often the task is put back again. *)
Theorem put_back_fences s s' id r :
  reachable s -> put_back s s' -> task_runs s !! id = Some r ->
  task_runs s' !! id = Some (r <| T.remaining_deps :=
                                    default 0%Z (T.remaining_deps <$> task_runs s' !! id) |>)
  \/ (forall s'' worker fence, steps (fun i => i = id) s' s'' -> (fence <= T.version r)%Z ->
        Safety.refused id worker fence s'').
Proof.
  intros Hw%reachable_written Hp Hr. pose proof (put_back_puts _ _ Hp) as Hput.
  destruct (puts_went (fun i => i = id) s s' Hput Hw) as [Hw' _]. destruct Hput as [Hput _].
  specialize (Hput id r Hr). destruct (task_runs s' !! id) as [r'|] eqn:Hr'.
  - destruct Hput as [E|(_ & Hv & Hc & _)]; [left; by rewrite E|right].
    intros s'' worker fence Hs%steps_went Hf. eapply spent_or_gone_refused; [exact Hs|done|].
    exists r'. split; [done|]. split; [lia|]. congruence.
  - right. intros s'' worker fence Hs%steps_went Hf. apply Safety.unheld_refused, Safety.gone_unheld.
    destruct (Hs Hw') as [_ Hrow]. specialize (Hrow id eq_refl). rewrite Hr' in Hrow.
    by destruct (task_runs s'' !! id).
Qed.

(** ** A fan-out, once *)






(** ** The fast path is the slow path *)

Lemma no_when_row {HW : WhenLaw W} r :
  written r -> Scheduler.no_when r = true -> Scheduler.row_when r = None.
Proof.
  unfold Scheduler.no_when, Scheduler.row_when, written. intros Hw.
  destruct (T.input r) as [j|]; [|done]. destruct (Hw j eq_refl) as [t ->].
  intros H%negb_true_iff. cbn. destruct (task_from_json (task_to_json t)) as [t'|] eqn:Ej; [|done].
  cbn. rewrite (when_read t t' Ej). destruct (Spec.when t) eqn:Ew; [|done]. exfalso.
  unfold Scheduler.like_when in H. rewrite when_written in H; [done|congruence].
Qed.

(** C15: the fast path is the slow path.  On a row the system has made (in any history), a
    task of the default shape: the one statement that readies and the one that skips do to
    it what the general path, which parses the row's [when] and evaluates its trigger rule,
    would have done; and exactly one of the two takes a task that is no fan-out's barrier.
    Of serde_json it uses that a task's text has its [when] under that name and reads back
    with the same one; the row's text is one the store was given by it. *)
Theorem fast_path_agrees {HW : WhenLaw W} now s n id r :
  reachable s -> task_runs s !! id = Some r ->
  Scheduler.unblocked r = true -> Scheduler.default_shaped r = true ->
  (Scheduler.fast_ready s id r = true ->
     Scheduler.advance_candidate now (s, n) (id, r)
     = let '(s', rows) := update_tasks (Scheduler.pending_row id) (Scheduler.ready_row now) s in
       (s', (n + rows)%nat))
  /\ (Scheduler.fast_skip s id r = true ->
     Scheduler.advance_candidate now (s, n) (id, r)
     = let '(s', rows) := Scheduler.end_pending id (Scheduler.skipped_row now) s in
       (s', (n + rows)%nat))
  /\ (T.fanout_of r = None -> Scheduler.fast_skip s id r = negb (Scheduler.fast_ready s id r)).
Proof.
  intros Hw%reachable_written Hr Hu Hd. specialize (Hw id r Hr).
  pose proof Hd as Hd'. unfold Scheduler.default_shaped in Hd'. where_ Hd'.
  assert (Scheduler.eval_row_when s r = Ok true) as Hev
    by (unfold Scheduler.eval_row_when; by rewrite no_when_row).
  unfold Scheduler.fast_ready, Scheduler.fast_skip. rewrite Hu, Hd. cbn [andb].
  unfold Scheduler.advance_candidate, Scheduler.decide_candidate, Scheduler.settle_candidate.
  rewrite Hev, Hd', Progress.unsuccessful_rule. cbn [andb].
  split; [|split].
  - intros [Hf ->%negb_true_iff]%andb_true_iff. cbn [negb].
    unfold Scheduler.advanced_row. unfold not_null. rewrite Hf. cbn [negb].
    by rewrite Hw1.
  - intros ->. cbn [negb]. done.
  - intros ->. cbn. by rewrite negb_involutive.
Qed.

End history.
End History.
