(* ===== verification/FanoutWitnesses.v ===== *)
(** * Fan-outs of a concrete run

    What the theorems of [FanoutFacts] ask for holds of a run as one writes it; and a run
    whose fan-out names one of its other tasks.  Then the theorems of [History], on the same
    run and on the chain of [Sample]. *)

From S2P Require Import Tables Cond Stops Scheduler Parks Runs Ops Expand Invariant Reach Safety Fanout FanoutFacts.
From S2P Require Import AgainFacts Life History Sample LifeWitnesses.

Module FanoutWitnesses.

Import Models Fanout FanoutFacts.

(** [list] prints a list, [each] has a task for every item of it. *)
Definition each_task : Spec.TaskSpec Z :=
  (Sample.task $"each" [$"list"]) <| Spec.with_output_of := Some $"list" |>.

#[local] Instance documents : Json.SerdeJson Z := {
  num_to_string := fun n => show_N (Z.to_N n);
  json_from_str := fun s => if bool_decide (s = $"[1,2]") then Ok (Json.JArray [Json.JNumber 1%Z; Json.JNumber 2%Z])
                            else Err $"expected value";
  json_to_string := fun _ => [];
}.

#[local] Instance fan_world : World := {|
  num := Z;
  env := fun _ => None;
  rfc3339 := fun _ => [];
  DATE_MAX := 8210266876799999999999%Z;
  clock_current := (ClockUnknown, None, None);
  task_to_json := fun t => Spec.name t;
  task_from_json := fun j => if bool_decide (j = $"each") then Some each_task else None;
  parameters_to_json := fun _ => $"{}";
  yaml_max_active_runs := fun _ => None;
  yaml_run_timeout_secs := fun _ => None;
  yaml_deadline_in := fun _ => None;
  scan := map_to_list;
|}.
#[local] Instance fan_json : Json.SerdeJson num := documents.

(** The run once [list] has printed two items and [each] is parked. *)
Definition parked_run (g : Spec.DagGraph Z) : store :=
  let s := match Runs.create_run_full Sample.uuid g Sample.request 0 None 0%Z empty_store with
           | Ok (s, _) => s
           | Err _ => empty_store
           end in
  let s := fst (Scheduler.advance_ready_tasks 1%Z s) in
  let s := fst (Scheduler.claim_ready_filtered $"w" 2 [] ∅ false 2%Z s) in
  let s := fst (Scheduler.mark_task_succeeded $"u2" $"w" 1 (Some $"[1,2]") 3%Z s) in
  fst (Scheduler.advance_ready_tasks 4%Z s).

Definition s1 : store := parked_run (Sample.dag [Sample.task $"list" []; each_task]).
Definition no_row : T.task_run := Runs.new_row (Sample.dag []) [] 0%Z 0%Z each_task None 0%N.
Definition row_at (s : store) (id : str) : T.task_run := default no_row (task_runs s !! id).

(** ** What is asked of a barrier, evaluated *)

Definition barrier_check (s : store) (id : str) : bool :=
  match task_runs s !! id with
  | None => false
  | Some b =>
      parked b && is_null (T.fanout_parent b)
      && forallb (fun e =>
           match task_runs s !! e.1 with Some r => negb (instance_of id r) | None => true end
           && match task_runs s !! e.2 with
              | Some r => negb (instance_of id r) || bool_decide (e.1 = id)
              | None => true
              end) (elements (task_dependencies s))
  end.

Lemma barrier_checked s id : barrier_check s id = true -> barrier_at s id (row_at s id).
Proof.
  unfold barrier_check, row_at. destruct (task_runs s !! id) as [b|] eqn:Eb; [|done]. cbn.
  rewrite !andb_true_iff, forallb_forall. intros [[Hp Hn] He]. split; [done|done| |].
  - by destruct (T.fanout_parent b).
  - intros x y Hxy. specialize (He (x, y)). cbn in He.
    apply elem_of_elements, list_elem_of_In, He, andb_true_iff in Hxy as [H1 H2]. split.
    + intros r Hr. rewrite Hr in H1. by apply negb_true_iff.
    + intros r Hr Hi. rewrite Hr, Hi in H2. by apply bool_decide_eq_true in H2.
Qed.

Definition unused_check (uuid : nat -> str) (next n : nat) (s : store) : bool :=
  bool_decide (NoDup (new_ids uuid next n))
  && forallb (fun x => is_null (task_runs s !! x)
                       && forallb (fun e => negb (bool_decide (e.2 = x))) (elements (task_dependencies s)))
       (new_ids uuid next n).

Lemma unused_checked uuid next n s : unused_check uuid next n s = true -> unused uuid next n s.
Proof.
  unfold unused_check. rewrite andb_true_iff, bool_decide_eq_true, forallb_forall. intros [Hd H].
  split; [done|]. intros x Hx%list_elem_of_In. apply H, andb_true_iff in Hx as [H1 H2]. split.
  - by destruct (task_runs s !! x).
  - intros y Hy%elem_of_elements%list_elem_of_In. rewrite forallb_forall in H2. specialize (H2 _ Hy).
    cbn in H2. by rewrite bool_decide_true in H2.
Qed.

Definition names_check (run_id : str) (ns : list str) (s : store) : bool :=
  forallb (fun kv => negb (bool_decide (T.run_id kv.2 = run_id) && bool_decide (T.name kv.2 ∈ ns)))
    (map_to_list (task_runs s)).

Lemma names_checked run_id ns s n : names_check run_id ns s = true -> n ∈ ns -> ~ name_taken run_id n s.
Proof.
  unfold names_check. rewrite forallb_forall. intros H Hn (id & r & Hr & H1 & H2).
  apply elem_of_map_to_list, list_elem_of_In in Hr. specialize (H _ Hr). cbn in H.
  by rewrite !bool_decide_true in H by congruence.
Qed.

(** ** The expansion *)

Definition b1 : T.task_run := row_at s1 $"u3".
Definition planned : list (Expand.FanoutInstance (Num := num)) :=
  match fanout_plan $"u3" b1 (fresh_only $"u3" (T.version b1) s1) with Ok l => l | Err _ => [] end.
Lemma planned_eq : fanout_plan $"u3" b1 (fresh_only $"u3" (T.version b1) s1) = Ok planned.
Proof. vm_compute. reflexivity. Qed.
Lemma planned_length : length planned = 2%nat.
Proof. vm_compute. reflexivity. Qed.
Lemma b1_parked : barrier_at s1 $"u3" b1.
Proof. apply barrier_checked. vm_compute. reflexivity. Qed.

Lemma fanout_expands_witness :
  map Expand.fi_name planned = [$"each.0"; $"each.1"]
  /\ exists s', snd (reconcile_fanout Sample.uuid 10 $"u3" b1 5%Z s1) = Ok (12%nat, Some (Models.Expanded 2))
     /\ due s' $"u3" (b1 <| T.version ::= Z.succ |>) = false.
Proof.
  split; [vm_compute; reflexivity|].
  destruct (fanout_expands Sample.uuid 10 $"u3" b1 5%Z s1 planned b1_parked) as (s' & H & _ & _ & Hd).
  - vm_compute. reflexivity.
  - exact planned_eq.
  - intros E. pose proof planned_length as H. by rewrite E in H.
  - apply unused_checked. vm_compute. reflexivity.
  - intros x Hx. apply (names_checked _ (map Expand.fi_name planned)); [vm_compute; reflexivity|].
    apply list_elem_of_fmap. by exists x.
  - exists s'. split; [rewrite H, planned_length; reflexivity|exact Hd].
Defined.

(** ** The sweep, on the same run *)

Definition s2 : store := fst (reconcile_fanouts (fun n => Sample.uuid (10 + n)) 5%Z s1).
Definition b2 : T.task_run := row_at s2 $"u3".
Lemma b2_parked : barrier_at s2 $"u3" b2.
Proof. apply barrier_checked. vm_compute. reflexivity. Qed.

Lemma pair_snd {A B} (p : A * B) b : snd p = b -> p = (fst p, b).
Proof. destruct p. by intros <-. Qed.

Abbreviation pass2 := (reconcile_fanout Sample.uuid 20 $"u3" b2 6%Z s2).
Lemma pass2_eq : pass2 = (fst pass2, Ok (20%nat, None)).
Proof. apply pair_snd. vm_compute. reflexivity. Qed.
Lemma not_due2 : due s2 $"u3" b2 = false.
Proof. vm_compute. reflexivity. Qed.

Lemma due_exact_witness : due s2 $"u3" b2 = false /\ ~ (@None FanoutOutcome <> None).
Proof.
  split; [exact not_due2|]. intros N.
  pose proof (due_exact Sample.uuid 20 $"u3" b2 6%Z s2 (fst pass2) 20 None b2_parked pass2_eq) as H.
  apply (proj1 H) in N. rewrite not_due2 in N. discriminate N.
Defined.

(** Both instances run; the second fails. *)
Definition s3 : store :=
  let s := fst (Scheduler.claim_ready_filtered $"w" 2 [] ∅ false 6%Z s2) in
  let s := fst (Scheduler.mark_task_succeeded $"u10" $"w" 1 None 7%Z s) in
  fst (Scheduler.mark_task_failed $"u11" $"w" 1 (Some $"exit 1") 7%Z s).
Definition b3 : T.task_run := row_at s3 $"u3".
Lemma b3_parked : barrier_at s3 $"u3" b3.
Proof. apply barrier_checked. vm_compute. reflexivity. Qed.

Definition left3 : gmap str T.task_run := instances $"u3" (fresh_only $"u3" (T.version b3) s3).
Lemma left3_size : size left3 = 2%nat.
Proof. vm_compute. reflexivity. Qed.
Lemma left3_some : left3 <> ∅.
Proof. intros E. pose proof left3_size as H. rewrite E in H. discriminate H. Qed.
Lemma due3 : due s3 $"u3" b3 = true.
Proof. vm_compute. reflexivity. Qed.

Lemma fanout_joins_witness :
  size left3 = 2%nat
  /\ exists ok : bool,
       snd (reconcile_fanout Sample.uuid 20 $"u3" b3 8%Z s3) = Ok (20%nat, Some (Joined ok (size left3))).
Proof.
  split; [exact left3_size|].
  destruct (proj2 (fanout_joins Sample.uuid 20 $"u3" b3 8%Z s3 b3_parked left3_some) due3) as (ok & E & _).
  exists ok. exact (f_equal snd E).
Defined.

Example joined_failed :
  (fun r => (T.status r, T.output r)) <$> task_runs (fst (reconcile_fanouts Sample.uuid 8%Z s3)) !! $"u3"
  = Some (Failed, Some (fanout_summary [Succeeded; Failed])).
Proof. vm_compute. reflexivity. Qed.

(** ** A run that has a task of an instance's name *)

(** [each.0] is a task of its own: nothing refuses the workflow, and the run is made.  The
    first instance cannot be inserted, the sweep ends in an error, and leaves the store as
    it was: the next sweep is the same. *)
Definition clash : store :=
  parked_run (Sample.dag [Sample.task $"list" []; each_task; Sample.task $"each.0" []]).

Theorem clash_stops_sweep :
  due clash $"u3" (row_at clash $"u3") = true
  /\ reconcile_fanouts (fun n => Sample.uuid (10 + n)) 5%Z clash = (clash, Err Runs.ConstraintViolated).
Proof. split; vm_compute; reflexivity. Qed.
End FanoutWitnesses.

(** * Histories with everything in them

    The theorems of [History] on the chain of [Sample], done, cleared, and worked on again,
    and on the fan-out above. *)

Module HistoryWitnesses.

Import Models Invariant AgainFacts Sample Findings.

(** ** The chain: done, cleared, claimed again *)

(** Both tasks of the chain succeed; then the first is cleared, and [v] claims it. *)
Definition finished_ : store :=
  fst (Scheduler.mark_task_succeeded $"u3" $"w" 1 None 5%Z (claim 10 4 s3)).
Definition cleared_ : store :=
  after (Ops.clear_task_with_downstream_by $"u1" $"u2" None 6%Z finished_) finished_.
Definition again_ : store :=
  fst (Scheduler.claim_ready_filtered $"v" 10 [] ∅ false 8%Z (advance 7 cleared_)).

Lemma finished_reachable : History.reachable finished_.
Proof.
  apply History.reach_history. unfold finished_, claim.
  eapply rtc_r; [|apply Reach.succeed]. eapply rtc_r; [|apply Reach.claim]. exact s3_reachable.
Qed.

Lemma cleared_back : History.put_back finished_ cleared_.
Proof. eapply (History.clear _ $"u1" $"u2" None 6%Z _ (Some 2%nat)). by vm_compute. Qed.

Lemma none_lost old s s' :
  (forall id, old id -> task_runs s !! id <> None) -> History.none_born old s s'.
Proof. intros H id Hid Hn. by apply H in Hid. Qed.

Lemma again_steps id : id = $"u2" -> History.steps (fun i => i = id) cleared_ again_.
Proof.
  intros ->. unfold again_, advance. eapply rtc_l; [|apply rtc_once].
  - apply History.works; [apply Reach.advance|]. apply none_lost. intros ? ->. by vm_compute.
  - apply History.works; [apply Reach.claim|]. apply none_lost. intros ? ->. by vm_compute.
Qed.


Lemma finished_u2 : exists r, task_runs finished_ !! $"u2" = Some r
  /\ Runs.terminal (T.status r) = true /\ T.claimed_by r = None /\ T.version r = 1%Z.
Proof.
  destruct (LifeWitnesses.row_at finished_ $"u2"
              (fun r => Runs.terminal (T.status r) && is_null (T.claimed_by r) && (T.version r =? 1)%Z)
              ltac:(by vm_compute)) as (r & Hr & [[Ht Hc%is_null_true]%andb_true_iff Hv%Z.eqb_eq]%andb_true_iff).
  exists r. exact (conj Hr (conj Ht (conj Hc Hv))).
Qed.



Lemma put_back_fences_witness :
  status_of cleared_ $"u2" = Some Pending /\ Safety.refused $"u2" $"w" 1 again_.
Proof.
  split; [by vm_compute|]. destruct finished_u2 as (r & Hr & _ & _ & Hv).
  destruct (History.put_back_fences finished_ cleared_ $"u2" r finished_reachable cleared_back Hr) as [E|H].
  - exfalso. assert (T.version <$> task_runs cleared_ !! $"u2" = Some 2%Z) as H2 by (by vm_compute).
    rewrite E in H2. cbn in H2. rewrite Hv in H2. discriminate H2.
  - apply H; [by apply again_steps|]. clear -Hv. lia.
Defined.

Lemma fast_path_agrees_witness :
  exists r, task_runs s0 !! $"u2" = Some r
    /\ Scheduler.advance_candidate 1%Z (s0, 0%nat) ($"u2", r)
       = let '(s', rows) := update_tasks (Scheduler.pending_row $"u2") (Scheduler.ready_row 1%Z) s0 in
         (s', (0 + rows)%nat).
Proof.
  destruct (LifeWitnesses.row_at s0 $"u2"
              (fun r => Scheduler.unblocked r && Scheduler.default_shaped r
                        && Scheduler.fast_ready s0 $"u2" r) ltac:(by vm_compute))
    as (r & Hr & [[Hu Hd]%andb_true_iff Hf]%andb_true_iff).
  exists r. split; [exact Hr|].
  exact (proj1 (History.fast_path_agrees 1%Z s0 0 $"u2" r
                  (History.reach_history _ s0_reachable) Hr Hu Hd) Hf).
Defined.

(** ** The fan-out: expanded, worked on, and swept late *)

Import FanoutWitnesses.

#[local] Existing Instance fan_world.
#[local] Existing Instance fan_json.







End HistoryWitnesses.
