(* ===== verification/State.v ===== *)
(** * State plans compiled into workflows ([dagron-state]: [wire.rs], [spec.rs], [compile.rs])

    A planner says which models to rebuild, why and after what; [compile] makes of that a
    workflow of one task for each model.  An ordered map of the wire is its entries in key
    order, each key once; a map that is only looked up is a finite map. *)

From stdpp Require Import sorting.
From S2P Require Import Prelude Json.

Module State.

(** ** The wire ([wire.rs]) *)

Inductive ReplaceStrategy := InsertOverwrite | DeleteInsert | Merge | ReplaceWhere | FullRefresh.

(** [ReplaceStrategy::as_str] *)
Definition strategy_str (s : ReplaceStrategy) : str :=
  match s with
  | InsertOverwrite => $"insert_overwrite"
  | DeleteInsert => $"delete_insert"
  | Merge => $"merge"
  | ReplaceWhere => $"replace_where"
  | FullRefresh => $"full_refresh"
  end.

Inductive ReplaceTarget := Whole | TargetPartitions (ps : list str).

Inductive Widening :=
| NotIncremental (materialization : str)
| WholeModelInPlan
| NoPartitionColumn (declared : ReplaceStrategy)
| NoUniqueKey.

(** [Widening::explain] *)
Definition explain_widening (w : Widening) : str :=
  match w with
  | NotIncremental m => $"the model is a " ++ m ++ $", so it has no partitions to replace in place"
  | WholeModelInPlan => $"the plan rebuilds this model in full, so there is nothing to scope to"
  | NoPartitionColumn d =>
      $"`" ++ strategy_str d ++ $"` needs a partition_column and the project declares none"
  | NoUniqueKey => $"`merge` needs a unique_key and the project declares none"
  end.

Record Replace := {
  strategy : ReplaceStrategy;
  partition_column : option str;
  unique_key : list str;
  target : ReplaceTarget;
  widened : option Widening;
}.

Record Sql := { dialect : str; statements : list str; atomic : bool }.

Definition terminated (s : str) : str := s ++ $";".

(** [Sql::script] *)
Definition script (s : Sql) : str :=
  match statements s with
  | [one] => one
  | many => join [NL] (map terminated many)
  end.

Inductive Reason := DirectlyChanged | Downstream (because_of : str) (via_columns : list str).
Inductive Unit := FullModel | Partitions (ps : list str).

Record PlanModel := {
  pm_name : str;
  reason : Reason;
  unit : Unit;
  pm_depends_on : option (list str);
  replace : option Replace;
  sql : option Sql;
}.

Record PlanError := { pe_code : str; message : str }.

(** [next_state] is handed on unread, and is left out. *)
Record PlanResponse := { models : list PlanModel; error : option PlanError }.

(** [PlanResponse::attribution] *)
Definition attribution (m : PlanModel) : option str :=
  match reason m with DirectlyChanged => None | Downstream because_of _ => Some because_of end.

(** ** The workflow it emits ([spec.rs]) *)

Record EnvVar := { ev_name : str; ev_value : str; ev_secret : option str }.

Section spec.
Context {Num : Type}.

Record TaskSpec := {
  ts_name : str;
  command : list str;
  depends_on : list str;
  input : option (Json.value Num);
  max_attempts : option N;
  timeout_secs : option N;
  env : list EnvVar;
}.
Record DagSpec := { dg_name : str; tags : list str; tasks : list TaskSpec }.

(** [TaskSpec::env_value] and [TaskSpec::env_secret] *)
Definition env_value (t : TaskSpec) (n : str) : option str :=
  option_map ev_value
    (List.find (fun e => bool_decide (ev_name e = n) && bool_decide (ev_secret e = None)) (env t)).
Definition env_secret (t : TaskSpec) (n : str) : option str :=
  let* e := List.find (fun e => bool_decide (ev_name e = n)) (env t) in ev_secret e.
End spec.
Arguments TaskSpec Num : clear implicits.
Arguments DagSpec Num : clear implicits.

(** ** Options ([compile.rs]) *)

Inductive Ordering := Derived | Sequential.

Record CompileOptions := {
  workflow_name : str;
  command_template : list str;
  ordering : Ordering;
  op_max_attempts : option N;
  op_timeout_secs : option N;
  op_env : list (str * str);
  secret_env : list (str * str);
  op_tags : list str;
}.

(** [CompileOptions::default] *)
Definition default_options : CompileOptions :=
  {| workflow_name := $"state-plan"; command_template := []; ordering := Derived;
     op_max_attempts := None; op_timeout_secs := None; op_env := []; secret_env := [];
     op_tags := [$"state-plan"] |}.

Record PlanEnvelope := {
  plan : PlanResponse;
  graph : option (list (str * list str));
  options : CompileOptions;
}.

Inductive CompileError :=
| PlannerFailed (c msg : str)
| EmptyPlan
| NoCommand
| MissingSql (model : str)
| EnvConflict (n : str).

(** Its text. *)
Definition error_text (e : CompileError) : str :=
  match e with
  | PlannerFailed c msg => $"planner failed [" ++ c ++ $"]: " ++ msg
  | EmptyPlan => $"plan is empty: nothing to rebuild"
  | NoCommand => $"options.command_template is required"
  | MissingSql m =>
      $"the command or env uses {{ sql }} but model `" ++ m ++ $"` carries no runnable SQL — "
      ++ $"plan with a dialect (e.g. `freshet submit --sql postgres`)"
  | EnvConflict n => $"`" ++ n ++ $"` is in both options.env and options.secret_env: set it one way"
  end.

(** [compile_status] of [router.rs]: an empty plan is well formed, with no run in it. *)
Definition compile_status (e : CompileError) : N * str :=
  (match e with EmptyPlan => 422%N | _ => 400%N end, error_text e).

(** ** Placeholders *)

Definition values : Type := list (str * str).

(** The two spellings of a placeholder, in the order they are tried. *)
Definition spellings (n : str) : list str := [$"{{ " ++ n ++ $" }}"; $"{{" ++ n ++ $"}}"].

(** The first placeholder that a text begins with. *)
Fixpoint hit (vs : values) (tail : str) : option (nat * str) :=
  match vs with
  | [] => None
  | (n, v) :: vs =>
      match List.find (fun sp => starts_with sp tail) (spellings n) with
      | Some sp => Some (length sp, v)
      | None => hit vs tail
      end
  end.

(** [expand], by its loop: every round takes at least the two braces it found. *)
Fixpoint expand_from (fuel : nat) (rest : str) (vs : values) : str :=
  match fuel with
  | O => rest
  | S fuel =>
      match find $"{{" rest with
      | None => rest
      | Some at_ =>
          let tail := drop at_ rest in
          take at_ rest ++
          match hit vs tail with
          | Some (len, v) => v ++ expand_from fuel (drop len tail) vs
          | None => $"{{" ++ expand_from fuel (drop 2 tail) vs
          end
      end
  end.
Definition expand (template : str) (vs : values) : str := expand_from (S (length template)) template vs.

(** [placeholder_values], in the order of their names. *)
Definition placeholder_values (m : PlanModel) : values :=
  let '(u, partitions) := match unit m with
                          | FullModel => ($"full_model", [])
                          | Partitions ps => ($"partitions", join $"," ps)
                          end in
  [($"dialect", match sql m with Some s => dialect s | None => [] end);
   ($"model", pm_name m);
   ($"partition_column", default [] (let* r := replace m in partition_column r));
   ($"partitions", partitions);
   ($"replace", match replace m with Some r => strategy_str (strategy r) | None => [] end);
   ($"sql", match sql m with Some s => script s | None => [] end);
   ($"unique_key", match replace m with Some r => join $"," (unique_key r) | None => [] end);
   ($"unit", u)].

(** ** Names *)

Definition name_char (c : ascii) : bool := is_alnum c || ch c "_" || ch c "-".

(** By characters: what is not ASCII is one underscore, not one for each byte. *)
Fixpoint mask (s : str) : str :=
  match s with
  | [] => []
  | c :: s => if name_char c then c :: mask s
              else if is_cont c then mask s
              else "_"%char :: mask s
  end.

(** The names it tries, from the second on. *)
Fixpoint free_suffix (fuel : nat) (taken : gset str) (base : str) (n : nat) : option str :=
  match fuel with
  | O => None
  | S fuel =>
      let candidate := base ++ $"_" ++ show_nat n in
      if bool_decide (candidate ∈ taken) then free_suffix fuel taken base (S n) else Some candidate
  end.

(** [unique_task_name]: the name, and what is taken after it.  One more try than there are
    names taken is enough. *)
Definition unique_task_name (model : str) (taken : gset str) : option (str * gset str) :=
  let base := mask model in
  let base := if bool_decide (base = []) then $"model" else base in
  if bool_decide (base ∈ taken) then
    let* candidate := free_suffix (S (size taken)) taken base 2 in
    Some (candidate, {[ candidate ]} ∪ taken)
  else Some (base, {[ base ]} ∪ taken).

(** ** Edges *)

(** [Vec::dedup] *)
Fixpoint dedup (l : list str) : list str :=
  match l with
  | [] => []
  | x :: l => match dedup l with
              | y :: r => if bool_decide (x = y) then y :: r else x :: y :: r
              | [] => [x]
              end
  end.

Fixpoint entry {A} (k : str) (m : list (str * A)) : option A :=
  match m with
  | [] => None
  | (k', v) :: m => if bool_decide (k' = k) then Some v else entry k m
  end.

(** What a model waits for, by the best source there is. *)
Definition upstreams (m : PlanModel) (e : PlanEnvelope) : list str :=
  match pm_depends_on m, (let* g := graph e in entry (pm_name m) g) with
  | Some deps, _ => deps
  | None, Some ups => ups
  | None, None => match attribution m with Some up => [up] | None => [] end
  end.

Definition earlier (position : gmap str nat) (idx : nat) (up : str) : bool :=
  match position !! up with Some p => (p <? idx)%nat | None => false end.

(** [derived_edges] *)
Definition derived_edges (m : PlanModel) (idx : nat) (e : PlanEnvelope)
    (task_names : gmap str str) (position : gmap str nat) : list str :=
  dedup (merge_sort str_le
    (omap (fun up => task_names !! up) (List.filter (earlier position idx) (upstreams m e)))).

(** ** Compiling *)

(** The first pass: names and places. *)
Fixpoint name_models (i : nat) (taken : gset str) (task_names : gmap str str)
    (position : gmap str nat) (ms : list PlanModel) : option (gmap str str * gmap str nat) :=
  match ms with
  | [] => Some (task_names, position)
  | m :: ms =>
      let* nt := unique_task_name (pm_name m) taken in
      name_models (S i) nt.2 (<[ pm_name m := nt.1 ]> task_names) (<[ pm_name m := i ]> position) ms
  end.

Definition uses_sql (t : str) : bool := contains $"{{ sql }}" t || contains $"{{sql}}" t.
Definition wants_sql (o : CompileOptions) : bool :=
  existsb uses_sql (command_template o ++ map snd (op_env o)).
Definition runnable (s : Sql) : bool := existsb (fun st => negb (bool_decide (trim st = []))) (statements s).
Definition has_sql (m : PlanModel) : bool := match sql m with Some s => runnable s | None => false end.

Definition has_key {A} (k : str) (m : list (str * A)) : bool := existsb (fun kv => bool_decide (kv.1 = k)) m.

(** What [compile] refuses, in its order. *)
Definition refused (e : PlanEnvelope) : option CompileError :=
  match error (plan e) with
  | Some err => Some (PlannerFailed (pe_code err) (message err))
  | None =>
      if bool_decide (length (models (plan e)) = 0) then Some EmptyPlan
      else if bool_decide (command_template (options e) = []) then Some NoCommand
      else
        match List.find (fun kv => has_key kv.1 (op_env (options e))) (secret_env (options e)) with
        | Some kv => Some (EnvConflict kv.1)
        | None =>
            if wants_sql (options e) then
              option_map (fun m => MissingSql (pm_name m))
                (List.find (fun m => negb (has_sql m)) (models (plan e)))
            else None
        end
  end.

Section compile.
Context {Num : Type}.

(** Members of an object, in key order. *)
Fixpoint put (k : str) (v : Json.value Num) (m : list (str * Json.value Num)) : list (str * Json.value Num) :=
  match m with
  | [] => [(k, v)]
  | (k', v') :: m =>
      if bool_decide (k = k') then (k, v) :: m
      else if str_leb k k' then (k, v) :: (k', v') :: m
      else (k', v') :: put k v m
  end.
Definition strings (l : list str) : Json.value Num := JArray (map JString l).

(** [task_input], of a plan's model *)
Definition task_input (m : PlanModel) : Json.value Num :=
  let o := put $"model" (JString (pm_name m)) [] in
  let o := match reason m with
           | DirectlyChanged => put $"reason" (JString $"directly_changed") o
           | Downstream because_of via_columns =>
               put $"via_columns" (strings via_columns)
                 (put $"because_of" (JString because_of) (put $"reason" (JString $"downstream") o))
           end in
  let o := match unit m with
           | FullModel => put $"unit" (JString $"full_model") o
           | Partitions ps => put $"partitions" (strings ps) (put $"unit" (JString $"partitions") o)
           end in
  let o := match replace m with
           | None => o
           | Some r =>
               let o := put $"replace" (JString (strategy_str (strategy r))) o in
               let o := match partition_column r with
                        | Some c => put $"partition_column" (JString c) o
                        | None => o
                        end in
               let o := if bool_decide (unique_key r = []) then o
                        else put $"unique_key" (strings (unique_key r)) o in
               match widened r with
               | Some w => put $"replace_widened" (JString (explain_widening w)) o
               | None => o
               end
           end in
  let o := match sql m with
           | None => o
           | Some s => put $"sql_atomic" (JBool (atomic s))
                         (put $"sql_statements" (strings (statements s))
                            (put $"sql_dialect" (JString (dialect s)) o))
           end in
  JObject o.

Definition plain_var (vs : values) (kv : str * str) : EnvVar :=
  {| ev_name := kv.1; ev_value := expand kv.2 vs; ev_secret := None |}.
Definition secret_var (kv : str * str) : EnvVar :=
  {| ev_name := kv.1; ev_value := []; ev_secret := Some kv.2 |}.

(** What one model waits for. *)
Definition edges (e : PlanEnvelope) (task_names : gmap str str) (position : gmap str nat)
    (i : nat) (m : PlanModel) : list str :=
  match ordering (options e) with
  | Sequential =>
      match i with
      | O => []
      | S i => option_list (let* prev := models (plan e) !! i in task_names !! pm_name prev)
      end
  | Derived => derived_edges m i e task_names position
  end.

(** One model's task.  [task_names[model.name]] is always there. *)
Definition task_of (e : PlanEnvelope) (task_names : gmap str str) (position : gmap str nat)
    (i : nat) (m : PlanModel) : TaskSpec Num :=
  let vs := placeholder_values m in
  {| ts_name := default [] (task_names !! pm_name m);
     command := map (fun arg => expand arg vs) (command_template (options e));
     depends_on := edges e task_names position i m;
     input := Some (task_input m);
     max_attempts := op_max_attempts (options e);
     timeout_secs := op_timeout_secs (options e);
     env := map (plain_var vs) (op_env (options e)) ++ map secret_var (secret_env (options e)) |}.

(** [compile]; [None] inside it would be a name search without end. *)
Definition compile (e : PlanEnvelope) : result CompileError (option (DagSpec Num)) :=
  match refused e with
  | Some err => Err err
  | None =>
      Ok (let* tp := name_models 0 ∅ ∅ ∅ (models (plan e)) in
          Some {| dg_name := workflow_name (options e); tags := op_tags (options e);
                  tasks := imap (task_of e tp.1 tp.2) (models (plan e)) |})
  end.

(** The models [compile_to_yaml] of [router.rs] answers with: the names recorded on the
    tasks. *)
Definition recorded_model (t : TaskSpec Num) : str :=
  match input t with
  | Some (JObject o) => match member $"model" o with Some (JString s) => s | _ => ts_name t end
  | _ => ts_name t
  end.
Definition recorded_models (s : DagSpec Num) : list str := map recorded_model (tasks s).
End compile.
End State.
