(* ===== verification/StateMove.v ===== *)
(** * Warehouse moves compiled into workflows ([dagron-state/src/moves.rs])

    A move copies units, partitions or whole relations, from one warehouse to another; each
    becomes an unload, a load and a parity check, one after the other, and units wait for
    nothing of each other. *)

From S2P Require Import Prelude Json State.

Module StateMove.

Import State.

(** ** The wire *)

Definition MOVE_CONTRACT_VERSION : str := $"freshet-move/1".

Record Partition := { pt_column : str; pt_key : str; partition_type : str }.
Record Step := { engine : str; st_statements : list str; st_atomic : bool }.

(** [Step::script] *)
Definition step_script (s : Step) : str := join [NL] (map terminated (st_statements s)).

Record ParitySide := {
  ps_engine : str;
  schema : option str;
  table : str;
  relation : str;
  predicate : option str;
}.
Record Parity := { source : ParitySide; pr_target : ParitySide }.

Record MoveUnit := {
  mu_model : str;
  partition : option Partition;
  location : str;
  unload : Step;
  load : Step;
  parity : Parity;
}.

Record Move := {
  contract : str;
  from : str;
  to : str;
  stage : str;
  units : list MoveUnit;
  not_moved : list (str * str);
}.

Record TaskEnv := { te_env : list (str * str); te_secret_env : list (str * str) }.

Record MoveOptions := {
  mo_workflow_name : str;
  mo_tags : list str;
  mo_max_attempts : option N;
  mo_timeout_secs : option N;
  check_only : bool;
  sql_command : list str;
  parity_command : list str;
  mo_unload : TaskEnv;
  mo_load : TaskEnv;
  mo_parity : TaskEnv;
}.

(** [MoveOptions::default] *)
Definition no_env : TaskEnv := {| te_env := []; te_secret_env := [] |}.
Definition default_move_options : MoveOptions :=
  {| mo_workflow_name := $"warehouse-move"; mo_tags := [$"warehouse-move"]; mo_max_attempts := None;
     mo_timeout_secs := None; check_only := false; sql_command := [$"dagron-step-sql"];
     parity_command := [$"dagron-step-sql"; $"parity"];
     mo_unload := no_env; mo_load := no_env; mo_parity := no_env |}.

Record MoveEnvelope := { moved : Move; mv_options : MoveOptions }.

Inductive kind := Unload | Load | ParityCheck.
Definition kind_str (k : kind) : str :=
  match k with Unload => $"unload" | Load => $"load" | ParityCheck => $"parity" end.

Inductive MoveCompileError :=
| EmptyMove
| Contract (got : str)
| Reserved (k : kind) (n : str)
| MoveEnvConflict (k : kind) (n : str)
| EmptyStep (label : str) (k : kind).

(** The status a refusal answers with ([compile_move_to_yaml] of [router.rs]). *)
Definition move_status (e : MoveCompileError) : N := match e with EmptyMove => 422%N | _ => 400%N end.

(** ** What the options may not set *)

Definition SQL_RESERVED : list str :=
  [$"SQL_ENGINE"; $"SQL_MODE"; $"SQL_STATEMENT"; $"SQL_STATEMENT_FILE"].
Definition PARITY_RESERVED : list str :=
  [$"ENGINE"; $"SCHEMA"; $"TABLE"; $"RELATION"; $"WHERE"].

Definition reserved (k : kind) (n : str) : bool :=
  match k with
  | ParityCheck =>
      existsb (fun p => match strip_prefix p n with
                        | Some rest => bool_decide (rest ∈ PARITY_RESERVED)
                        | None => false
                        end) [$"PARITY_SOURCE_"; $"PARITY_TARGET_"]
  | _ => bool_decide (n ∈ SQL_RESERVED)
  end.

Definition check_env (k : kind) (t : TaskEnv) : result MoveCompileError Datatypes.unit :=
  match List.find (fun kv => has_key kv.1 (te_env t)) (te_secret_env t) with
  | Some kv => Err (MoveEnvConflict k kv.1)
  | None =>
      match List.find (fun kv => reserved k kv.1) (te_env t ++ te_secret_env t) with
      | Some kv => Err (Reserved k kv.1)
      | None => Ok tt
      end
  end.

Definition kind_env (o : MoveOptions) (k : kind) : TaskEnv :=
  match k with Unload => mo_unload o | Load => mo_load o | ParityCheck => mo_parity o end.

Definition check_envs (o : MoveOptions) : result MoveCompileError Datatypes.unit :=
  for_each (fun k => check_env k (kind_env o k)) [Unload; Load; ParityCheck].

(** ** One unit *)

Definition label (u : MoveUnit) : str :=
  match partition u with
  | Some p => mu_model u ++ $"__" ++ pt_column p ++ $"_" ++ pt_key p
  | None => mu_model u
  end.

Definition has_statement (s : Step) : bool :=
  existsb (fun st => negb (bool_decide (trim st = []))) (st_statements s).

Definition step_of (u : MoveUnit) (k : kind) : Step :=
  match k with Load => load u | _ => unload u end.

Definition check_steps (u : MoveUnit) : result MoveCompileError Datatypes.unit :=
  for_each (fun k => if has_statement (step_of u k) then Ok tt else Err (EmptyStep (label u) k))
    [Unload; Load].

(** The values of the placeholders, in the order of their names. *)
Definition unit_values (u : MoveUnit) : values :=
  [($"location", location u);
   ($"model", mu_model u);
   ($"partition", match partition u with Some p => pt_key p | None => [] end)].

(** [user_env] *)
Definition user_env (t : TaskEnv) (vs : values) : list EnvVar :=
  map (plain_var vs) (te_env t) ++ map secret_var (te_secret_env t).

Definition var (n v : str) : EnvVar := {| ev_name := n; ev_value := v; ev_secret := None |}.

Definition step_vars (o : MoveOptions) (u : MoveUnit) (k : kind) : list EnvVar :=
  [var $"SQL_ENGINE" (engine (step_of u k)); var $"SQL_MODE" $"script";
   var $"SQL_STATEMENT" (step_script (step_of u k))]
  ++ user_env (kind_env o k) (unit_values u).

Definition side_vars (prefix : str) (s : ParitySide) : list EnvVar :=
  [var (prefix ++ $"ENGINE") (ps_engine s); var (prefix ++ $"TABLE") (table s);
   var (prefix ++ $"RELATION") (relation s)]
  ++ match schema s with Some v => [var (prefix ++ $"SCHEMA") v] | None => [] end
  ++ match predicate s with Some v => [var (prefix ++ $"WHERE") v] | None => [] end.

Definition parity_vars (o : MoveOptions) (u : MoveUnit) : list EnvVar :=
  side_vars $"PARITY_SOURCE_" (source (parity u)) ++ side_vars $"PARITY_TARGET_" (pr_target (parity u))
  ++ user_env (mo_parity o) (unit_values u).

Definition kind_vars (o : MoveOptions) (u : MoveUnit) (k : kind) : list EnvVar :=
  match k with ParityCheck => parity_vars o u | _ => step_vars o u k end.

(** The tasks of a unit, in order. *)
Definition kinds (o : MoveOptions) : list kind :=
  if check_only o then [ParityCheck] else [Unload; Load; ParityCheck].

Section move.
Context {Num : Type}.

(** [task_input], of a unit's step *)
Definition move_input (u : MoveUnit) (k : kind) : Json.value Num :=
  let o := put $"location" (JString (location u))
             (put $"move_step" (JString (kind_str k)) (put $"model" (JString (mu_model u)) [])) in
  let o := match partition u with
           | Some p => put $"partition" (JString (pt_key p))
                         (put $"partition_column" (JString (pt_column p)) o)
           | None => o
           end in
  let o := match k with
           | ParityCheck => o
           | _ => let s := step_of u k in
                  put $"sql_atomic" (JBool (st_atomic s))
                    (put $"sql_statements" (strings (st_statements s))
                       (put $"sql_engine" (JString (engine s)) o))
           end in
  JObject o.

Definition unit_task (o : MoveOptions) (u : MoveUnit) (k : kind) (n : str) (previous : option str)
    : TaskSpec Num :=
  {| ts_name := n;
     command := match k with ParityCheck => parity_command o | _ => sql_command o end;
     depends_on := option_list previous;
     input := Some (move_input u k);
     max_attempts := mo_max_attempts o;
     timeout_secs := mo_timeout_secs o;
     env := kind_vars o u k |}.

(** Each waits for the one before. *)
Fixpoint unit_tasks (o : MoveOptions) (u : MoveUnit) (ks : list kind) (previous : option str)
    (taken : gset str) : option (list (TaskSpec Num) * gset str) :=
  match ks with
  | [] => Some ([], taken)
  | k :: ks =>
      let* nt := unique_task_name (label u ++ $"__" ++ kind_str k) taken in
      let* rest := unit_tasks o u ks (Some nt.1) nt.2 in
      Some (unit_task o u k nt.1 previous :: rest.1, rest.2)
  end.

(** The loop over the units: a unit's steps are looked at before its tasks are made. *)
Fixpoint units_tasks (o : MoveOptions) (us : list MoveUnit) (taken : gset str)
    : result MoveCompileError (option (list (TaskSpec Num))) :=
  match us with
  | [] => Ok (Some [])
  | u :: us =>
      let? _ := (if check_only o then Ok tt else check_steps u) in
      match unit_tasks o u (kinds o) None taken with
      | None => Ok None
      | Some (ts, taken) =>
          let? rest := units_tasks o us taken in
          Ok (let* rest := rest in Some (ts ++ rest))
      end
  end.

(** [compile_move]; [None] inside it would be a name search without end. *)
Definition compile_move (e : MoveEnvelope) : result MoveCompileError (option (DagSpec Num)) :=
  let m := moved e in
  let o := mv_options e in
  if negb (bool_decide (contract m = MOVE_CONTRACT_VERSION)) then Err (Contract (contract m))
  else if bool_decide (length (units m) = 0) then Err EmptyMove
  else
    let? _ := check_envs o in
    let? ts := units_tasks o (units m) ∅ in
    Ok (let* ts := ts in Some {| dg_name := mo_workflow_name o; tags := mo_tags o; tasks := ts |}).
End move.
End StateMove.
