(* ===== verification/StateExplain.v ===== *)
(** * What a state plan rebuilds, and why ([dagron-state/src/explain.rs])

    The rows, the summary, the markdown of a pull request's comment and its Mermaid
    diagram, from a plan and the workflow it compiled to. *)

From Stdlib Require Import SpecFloat.
From S2P Require Import Prelude F64 Json State.

Module StateExplain.

Import State.

Record ExplainRow := {
  model : str;
  task : str;
  row_reason : str;
  because_of : option str;
  via_columns : list str;
  row_unit : str;
  row_depends_on : list str;
  writes : option str;
  row_widened : option str;
  sql_dialect : option str;
  sql_statements : option nat;
  non_atomic : bool;
}.

Record Explanation := { summary : str; markdown : str; mermaid : str; rows : list ExplainRow }.

(** ** Words *)

Definition ticked (s : str) : str := $"`" ++ s ++ $"`".

(** [writes_words] *)
Definition writes_words (r : Replace) : str :=
  let scope := match target r with
               | Whole => $"the whole relation"
               | TargetPartitions ps =>
                   let plural := if bool_decide (length ps = 1) then $"partition" else $"partitions" in
                   match partition_column r with
                   | Some col => show_nat (length ps) ++ $" " ++ plural ++ $" on " ++ ticked col
                   | None => show_nat (length ps) ++ $" " ++ plural
                   end
               end in
  let key := if bool_decide (unique_key r = []) then []
             else $" on key " ++ join $", " (map ticked (unique_key r)) in
  ticked (strategy_str (strategy r)) ++ $" over " ++ scope ++ key.

(** [reason_word] and [unit_words] *)
Definition reason_word (m : PlanModel) : str :=
  match reason m with DirectlyChanged => $"directly_changed" | Downstream _ _ => $"downstream" end.
Definition unit_words (m : PlanModel) : str :=
  match unit m with
  | FullModel => $"full model"
  | Partitions ps => if bool_decide (length ps = 1) then $"1 partition"
                     else show_nat (length ps) ++ $" partitions"
  end.

(** ** Rows *)

Section explain.
Context {Num : Type}.

Definition row_of (m : PlanModel) (t : TaskSpec Num) : ExplainRow :=
  {| model := pm_name m;
     task := ts_name t;
     row_reason := reason_word m;
     because_of := attribution m;
     via_columns := match reason m with DirectlyChanged => [] | Downstream _ cols => cols end;
     row_unit := unit_words m;
     row_depends_on := depends_on t;
     writes := option_map writes_words (replace m);
     row_widened := option_map explain_widening (let* r := replace m in widened r);
     sql_dialect := option_map dialect (sql m);
     sql_statements := option_map (fun s => length (statements s)) (sql m);
     non_atomic := match sql m with Some s => negb (atomic s) | None => false end |}.
End explain.

(** ** The summary *)

(** [project_size] *)
Definition project_size (e : PlanEnvelope) : option nat :=
  let* g := graph e in
  Some (size (list_to_set (flat_map (fun kv => kv.1 :: kv.2) g
                           ++ map pm_name (models (plan e))) : gset str)).

(** [n as f64], of a small natural number *)
Definition f64_of (n : nat) : f64 := F64.normalize false (Z.of_nat n) 0.

(** [.round() as u64], of a number that is not negative: half goes up. *)
Definition round_u64 (x : f64) : N :=
  match x with
  | S754_finite false m e =>
      if (0 <=? e)%Z then Z.to_N (Z.pos m * 2 ^ e)
      else Z.to_N ((Z.pos m + 2 ^ (- e - 1)) / 2 ^ (- e))
  | _ => 0%N
  end.

Definition percent (pruned total : nat) : N :=
  round_u64 (F64.mul (F64.div (f64_of pruned) (f64_of total)) (f64_of 100)).

(** [summarize] *)
Definition summarize (e : PlanEnvelope) (selected : nat) : str :=
  let plural := if bool_decide (selected = 1) then $"model" else $"models" in
  let unknown := show_nat selected ++ $" " ++ plural
                 ++ $" rebuild (project size unknown — pass `graph` to report pruning)" in
  match project_size e with
  | Some total =>
      if (selected <=? total)%nat && (0 <? total)%nat then
        show_nat selected ++ $" of " ++ show_nat total ++ $" " ++ plural ++ $" rebuild — "
        ++ show_N (percent (total - selected) total) ++ $"% pruned"
      else unknown
  | None => unknown
  end.

(** ** The diagram *)

Definition MERMAID_RESERVED_IDS : list str := [$"end"].

(** One more underscore until the name is free: as many rounds as there are tasks, and one
    or two more, are enough. *)
Fixpoint node_id (fuel : nat) (taken : gset str) (task id : str) : option str :=
  match fuel with
  | O => None
  | S fuel =>
      if bool_decide (id ∈ MERMAID_RESERVED_IDS)
         || (negb (bool_decide (id = task)) && bool_decide (id ∈ taken))
      then node_id fuel taken task (id ++ $"_")
      else Some id
  end.

(** [node_ids]: later rows of one task, if there are any, agree with the earlier. *)
Definition node_ids (l : list ExplainRow) : option (gmap str str) :=
  let taken : gset str := list_to_set (map task l) in
  fold_left (fun m row => let* m := m in
                          let* id := node_id (2 + size taken) taken (task row) (task row) in
                          Some (<[ task row := id ]> m)) l (Some ∅).

Definition line (l : list str) : str := concat l ++ [NL].

Definition diagram (ids : gmap str str) (l : list ExplainRow) : str :=
  let id_of := fun t => default t (ids !! t) in
  let class := fun name want =>
    let members := map (fun r => id_of (task r))
                     (List.filter (fun r => bool_decide (row_reason r = want)) l) in
    if bool_decide (members = []) then [] else line [$"    class "; join $"," members; $" "; name] in
  line [$"flowchart TD"]
  ++ flat_map (fun r => line [$"    "; id_of (task r); $"["; [QUOTE];
                              List.filter (fun c => negb (ch QUOTE c)) (model r); [QUOTE]; $"]"]) l
  ++ flat_map (fun r => flat_map (fun d => line [$"    "; id_of d; $" --> "; id_of (task r)])
                          (row_depends_on r)) l
  ++ line [$"    classDef changed fill:#fde68a,stroke:#b45309,color:#000"]
  ++ line [$"    classDef downstream fill:#dbeafe,stroke:#1d4ed8,color:#000"]
  ++ class $"changed" $"directly_changed"
  ++ class $"downstream" $"downstream".

(** [mermaid] *)
Definition mermaid_of (l : list ExplainRow) : option str :=
  let* ids := node_ids l in Some (diagram ids l).

(** ** The comment *)

Definition is_some {A} (o : option A) : bool := match o with Some _ => true | None => false end.

Definition widenings (l : list ExplainRow) : str :=
  let w := List.filter (fun r => is_some (row_widened r)) l in
  if bool_decide (length w = 0) then []
  else
    line [$"> [!WARNING]"]
    ++ line [$"> **"; show_nat (length w); $" "; if bool_decide (length w = 1) then $"model" else $"models";
             $" widened to a full refresh of the whole relation.**"]
    ++ flat_map (fun r => line [$"> - "; ticked (model r); $" — "; default [] (row_widened r)]) w
    ++ [NL].

Definition half_writes (l : list ExplainRow) : str :=
  let w := List.filter non_atomic l in
  if bool_decide (length w = 0) then []
  else
    line [$"> [!CAUTION]"]
    ++ line [$"> **"; show_nat (length w); $" ";
             if bool_decide (length w = 1) then $"model is" else $"models are";
             $" written by statements that are not atomic** — a run ";
             $"that fails part-way leaves the relation half-written until it is rerun."]
    ++ flat_map (fun r => line [$"> - "; ticked (model r); $" ("; default [] (sql_dialect r); $")"]) w
    ++ [NL].

Definition rendered (l : list ExplainRow) : str :=
  match omap sql_dialect l with
  | [] => []
  | d :: _ =>
      line [$"Rendered as **"; d; $"** SQL: "; show_nat (sum_list (omap sql_statements l));
            $" statement(s) across "; show_nat (length l); $" model(s)."] ++ [NL]
  end.

Definition why (r : ExplainRow) : str :=
  match because_of r with
  | None => $"directly changed"
  | Some up =>
      if bool_decide (via_columns r = []) then $"downstream of " ++ ticked up
      else $"downstream of " ++ ticked up ++ $" via " ++ join $", " (map ticked (via_columns r))
  end.
Definition waits (r : ExplainRow) : str :=
  if bool_decide (row_depends_on r = []) then $"—" else join $", " (map ticked (row_depends_on r)).
Definition written (r : ExplainRow) : str :=
  match writes r, row_widened r with
  | None, _ => $"—"
  | Some w, None => w
  | Some w, Some _ => $"⚠️ " ++ w
  end.

Definition row_line (show_writes : bool) (r : ExplainRow) : str :=
  line ([$"| "; ticked (model r); $" | "; why r; $" | "; row_unit r; $" | "; waits r]
        ++ (if show_writes then [$" | "; written r] else []) ++ [$" |"]).

(** [markdown] *)
Definition markdown_of (summary : str) (l : list ExplainRow) (mermaid : str) : str :=
  let show_writes := existsb (fun r => is_some (writes r)) l in
  line [$"## State plan"] ++ [NL] ++ line [$"**"; summary; $"**"] ++ [NL]
  ++ widenings l ++ half_writes l ++ rendered l
  ++ (if show_writes
      then line [$"| Model | Why | Unit | Waits on | Writes |"] ++ line [$"|---|---|---|---|---|"]
      else line [$"| Model | Why | Unit | Waits on |"] ++ line [$"|---|---|---|---|"])
  ++ flat_map (row_line show_writes) l
  ++ [NL] ++ line [$"```mermaid"] ++ mermaid ++ line [$"```"].

(** [explain]; [None] would be a search for a free node name without end. *)
Definition explain {Num} (e : PlanEnvelope) (spec : DagSpec Num) : option Explanation :=
  let l := zip_with row_of (models (plan e)) (tasks spec) in
  let summary := summarize e (length l) in
  let* m := mermaid_of l in
  Some {| summary := summary; markdown := markdown_of summary l m; mermaid := m; rows := l |}.
End StateExplain.
