(* ===== verification/StateFacts.v ===== *)
(** * What a plan and a move compile to ([State], [StateMove], [StateExplain])

    A compiled plan is in order whatever the graph it was given; placeholders are filled in
    once; a move is a chain for each unit, and its options cannot take the variables it
    sets; the ids of a diagram are free.

    ** Concrete plans and moves

    What the theorems of [StateFacts] ask for holds of them; and a plan that has a model
    twice. *)

From stdpp Require Import sorting.
From S2P Require Import Prelude Json State StateMove StateExplain.

Module StateFacts.

Import State StateMove StateExplain.

(** ** Lists without repetition *)

Lemma dedup_in x l : x ∈ dedup l <-> x ∈ l.
Proof.
  induction l as [|y l IH]; [done|]. cbn [dedup]. destruct (dedup l) as [|z r] eqn:E.
  - rewrite !elem_of_cons, <- IH. done.
  - case_bool_decide as Hyz; rewrite !elem_of_cons in *; [subst; rewrite <- IH; naive_solver|].
    rewrite <- IH. naive_solver.
Qed.

Lemma dedup_NoDup l : StronglySorted str_le l -> NoDup (dedup l) /\ StronglySorted str_le (dedup l).
Proof.
  induction 1 as [|y l Hs IH Hle]; [split; constructor|]. destruct IH as [Hn Hd]. cbn [dedup].
  destruct (dedup l) as [|z r] eqn:E; [split; [apply NoDup_singleton|repeat constructor]|].
  case_bool_decide as Hyz; [done|]. split.
  - constructor; [|done]. intros Hy. inversion Hd as [|? ? _ Hz]; subst.
    rewrite elem_of_cons in Hy. destruct Hy as [->|Hy]; [done|].
    rewrite Forall_forall in Hz, Hle. apply Hyz, (anti_symm str_le); [|by apply Hz].
    apply Hle. rewrite <- (dedup_in z l), E. left.
  - constructor; [done|]. rewrite <- E. apply Forall_forall. intros x Hx. rewrite dedup_in in Hx.
    rewrite Forall_forall in Hle. by apply Hle.
Qed.

(** ** Names *)

Definition name_ok (n : str) : Prop := n <> [] /\ forallb name_char n = true.

Lemma mask_ok s : forallb name_char (mask s) = true.
Proof.
  induction s as [|c s IH]; [done|]. cbn [mask]. destruct (name_char c) eqn:E; cbn; [by rewrite E|].
  destruct (is_cont c); [done|]. cbn. done.
Qed.

Lemma digit_name c : is_digit c = true -> name_char c = true.
Proof. unfold name_char, is_alnum. intros ->. by rewrite orb_true_r. Qed.

Lemma suffix_ok base n : name_ok base -> name_ok (base ++ $"_" ++ show_nat n).
Proof.
  intros [H1 H2]. split; [by destruct base|]. rewrite !forallb_app, H2.
  change (forallb name_char ($"_")) with true. cbn [andb]. unfold show_nat.
  destruct (show_N_spec (N.of_nat n)) as (_ & H & _). revert H. apply forallb_impl, digit_name.
Qed.

Lemma free_suffix_none fuel taken base n :
  free_suffix fuel taken base n = None ->
  forall k, (n <= k < n + fuel)%nat -> base ++ $"_" ++ show_nat k ∈ taken.
Proof.
  revert n; induction fuel as [|fuel IH]; intros n; cbn [free_suffix]; [intros _ k; lia|].
  case_bool_decide as Hin; [|done]. intros H k Hk. destruct (decide (k = n)) as [->|]; [done|].
  apply (IH (S n) H). lia.
Qed.

Lemma free_suffix_some fuel taken base n x :
  free_suffix fuel taken base n = Some x -> (x ∉ taken) /\ exists k, x = base ++ $"_" ++ show_nat k.
Proof.
  revert n; induction fuel as [|fuel IH]; intros n; cbn [free_suffix]; [done|].
  case_bool_decide as Hin; [apply IH|]. intros [= <-]. split; [done|by exists n].
Qed.

(** The search for a free name ends, and finds one. *)
Lemma unique_name_spec (model : str) (taken : gset str) :
  exists n, unique_task_name model taken = Some (n, {[ n ]} ∪ taken) /\ (n ∉ taken) /\ name_ok n.
Proof.
  unfold unique_task_name.
  set (base := if bool_decide (mask model = []) then _ else mask model).
  assert (name_ok base) as Hb.
  { unfold base. case_bool_decide; [by split|]. split; [done|apply mask_ok]. }
  clearbody base. case_bool_decide as Hin; [|by exists base].
  destruct (free_suffix _ _ _ _) as [x|] eqn:E.
  - apply free_suffix_some in E as [H1 [k ->]]. eexists. split_and!; [done|done|by apply suffix_ok].
  - exfalso. refine (no_room (fun k => base ++ $"_" ++ show_nat (2 + k)) (elements taken) _ _).
    + intros a b H%(app_inv_head base)%(app_inv_head ($"_"))%show_nat_inj. lia.
    + intros k Hk. apply elem_of_elements. apply (free_suffix_none _ _ _ _ E).
      assert (size taken = length (elements taken)) as -> by done. lia.
Qed.
(** ** The first pass *)

(** Names [ns] for the models [ms], of which the first is at place [i]. *)
Record named (i : nat) (ms : list PlanModel) (ns : list str) (tn : gmap str str) (pos : gmap str nat) : Prop := {
  nm_length : length ns = length ms;
  nm_NoDup : NoDup ns;
  nm_ok : Forall name_ok ns;
  nm_name : forall j m, ms !! j = Some m -> tn !! pm_name m = ns !! j;
  nm_place : forall j m, ms !! j = Some m -> pos !! pm_name m = Some (i + j)%nat;
}.

Lemma name_models_spec i taken tn pos ms :
  NoDup (map pm_name ms) ->
  exists tn' pos' ns, name_models i taken tn pos ms = Some (tn', pos') /\ named i ms ns tn' pos'
    /\ (forall n, n ∈ ns -> n ∉ taken)
    /\ (forall x, x ∉ map pm_name ms -> tn' !! x = tn !! x /\ pos' !! x = pos !! x).
Proof.
  revert i taken tn pos; induction ms as [|m ms IH]; intros i taken tn pos; cbn [map name_models].
  - intros _. exists tn, pos, []. split_and!; [done| |set_solver|done]. by split; [|constructor|constructor|..].
  - intros [Hm Hms]%NoDup_cons. destruct (unique_name_spec (pm_name m) taken) as (n & -> & Hn & Hok).
    cbn [fst snd].
    destruct (IH (S i) ({[ n ]} ∪ taken) (<[ pm_name m := n ]> tn) (<[ pm_name m := i ]> pos) Hms)
      as (tn' & pos' & ns & -> & [L D O N P] & Hf & Ho).
    exists tn', pos', (n :: ns). destruct (Ho (pm_name m) Hm) as [H1 H2].
    rewrite lookup_insert_eq in H1; rewrite lookup_insert_eq in H2. split_and!; [done| | |].
    + split; [cbn; lia| |by constructor| |].
      * constructor; [|done]. intros Hin. apply (Hf n Hin). set_solver.
      * intros [|j] m'; cbn; [by intros [= <-]|apply N].
      * intros [|j] m'; cbn; [intros [= <-]; rewrite H2; f_equal; lia|].
        intros Hj. rewrite (P j m' Hj). f_equal. lia.
    + intros x [->|Hx]%elem_of_cons; [done|]. specialize (Hf x Hx). set_solver.
    + intros x [Hx1 Hx2]%not_elem_of_cons. destruct (Ho x Hx2) as [-> ->].
      by rewrite !lookup_insert_ne.
Qed.

Section compile.
Context {Num : Type}.

Abbreviation names := (map (ts_name (Num := Num))).

Lemma compile_named (e : PlanEnvelope) :
  NoDup (map pm_name (models (plan e))) -> refused e = None ->
  exists spec ns tn pos,
    compile (Num := Num) e = Ok (Some spec) /\ tasks spec = imap (task_of e tn pos) (models (plan e))
    /\ named 0 (models (plan e)) ns tn pos
    /\ (forall x, x ∉ map pm_name (models (plan e)) -> tn !! x = None /\ pos !! x = None)
    /\ names (tasks spec) = ns.
Proof.
  intros Hd Hr. unfold compile. rewrite Hr.
  destruct (name_models_spec 0 ∅ ∅ ∅ _ Hd) as (tn & pos & ns & -> & Hn & _ & Ho). cbn [fst snd].
  eexists _, ns, tn, pos. split_and!; [done|done|done|done|]. cbn [tasks].
  apply list_eq. intros i. rewrite list_lookup_fmap, list_lookup_imap.
  destruct (models (plan e) !! i) as [m|] eqn:Em; cbn.
  - rewrite (nm_name _ _ _ _ _ Hn i m Em). destruct (ns !! i) as [n|] eqn:En; [done|].
    apply lookup_ge_None in En. apply lookup_lt_Some in Em. rewrite (nm_length _ _ _ _ _ Hn) in En. lia.
  - symmetry. apply lookup_ge_None. rewrite (nm_length _ _ _ _ _ Hn). by apply lookup_ge_None.
Qed.

Lemma derived_in m i e tn pos d :
  d ∈ derived_edges m i e tn pos <->
  exists up, up ∈ upstreams m e /\ earlier pos i up = true /\ tn !! up = Some d.
Proof.
  unfold derived_edges. rewrite dedup_in, merge_sort_Permutation, list_elem_of_omap.
  split; intros (up & H).
  - destruct H as [H1 H2]. apply list_elem_of_In, filter_In in H1 as [H1 H3].
    exists up. split_and!; [by apply list_elem_of_In|done|done].
  - destruct H as (H1 & H2 & H3). exists up. split; [|done].
    apply list_elem_of_In, filter_In. split; [by apply list_elem_of_In|done].
Qed.

Lemma derived_NoDup m i e tn pos : NoDup (derived_edges m i e tn pos).
Proof. apply dedup_NoDup, StronglySorted_merge_sort; apply _. Qed.

(** The name recorded on a task is its model's. *)
Lemma put_other k k' v (o : list (str * Json.value Num)) : k <> k' -> member k (put k' v o) = member k o.
Proof.
  intros Hne. induction o as [|[k2 v2] o IH]; cbn [put member].
  - by rewrite bool_decide_eq_false_2.
  - case_bool_decide as E; [subst k2; cbn; by rewrite (bool_decide_eq_false_2 (k = k'))|].
    destruct (str_leb k' k2); cbn [member]; [by rewrite (bool_decide_eq_false_2 (k = k'))|].
    by rewrite IH.
Qed.

Lemma task_input_model m : exists o, task_input (Num := Num) m = JObject o /\ member $"model" o = Some (JString (pm_name m)).
Proof.
  unfold task_input. eexists. split; [reflexivity|].
  destruct (reason m), (unit m), (replace m) as [[st [c|] uk tg [w|]]|], (sql m);
    cbn [partition_column widened unique_key strategy];
    repeat (case_bool_decide || rewrite put_other by done); done.
Qed.

Lemma recorded_task e tn pos i m : recorded_model (task_of (Num := Num) e tn pos i m) = pm_name m.
Proof.
  unfold recorded_model, task_of. cbn [input]. by destruct (task_input_model m) as (o & -> & ->).
Qed.

(** A state plan compiles to a workflow in order.  Where nothing is refused and each model
    is in the plan once, every model becomes a task, in the plan's order and with its name on
    record, under a name of its own made of letters, digits, underscores and dashes; and whatever graph the caller
    gave, a task only waits for tasks before it. *)
Theorem compile_ordered (e : PlanEnvelope) :
  NoDup (map pm_name (models (plan e))) -> refused e = None ->
  exists spec, compile (Num := Num) e = Ok (Some spec)
    /\ length (tasks spec) = length (models (plan e))
    /\ recorded_models spec = map pm_name (models (plan e))
    /\ NoDup (names (tasks spec)) /\ Forall name_ok (names (tasks spec))
    /\ forall i t d, tasks spec !! i = Some t -> d ∈ depends_on t ->
         exists j, (j < i)%nat /\ names (tasks spec) !! j = Some d.
Proof.
  intros Hd Hr. destruct (compile_named e Hd Hr) as (spec & ns & tn & pos & Hc & Ht & Hn & Ho & Hns).
  exists spec. rewrite Hns. split_and!; [done| | |apply Hn|apply Hn|].
  - by rewrite Ht, length_imap.
  - unfold recorded_models. rewrite Ht. apply list_eq. intros i.
    rewrite !list_lookup_fmap, list_lookup_imap. destruct (models (plan e) !! i) as [m|]; [|done].
    cbn [fmap option_fmap option_map]. by rewrite recorded_task.
  - intros i t d Hi Hdep. rewrite Ht, list_lookup_imap in Hi.
    destruct (models (plan e) !! i) as [m|] eqn:Em; [|done]. injection Hi as <-.
    cbn [task_of depends_on] in Hdep. unfold edges in Hdep. destruct (ordering (options e)).
    + apply derived_in in Hdep as (up & _ & He & Hup). unfold earlier in He.
      destruct (decide (up ∈ map pm_name (models (plan e)))) as [Hin|Hin];
        [|by rewrite (proj1 (Ho up Hin)) in Hup].
      apply list_elem_of_fmap in Hin as (m' & -> & [j Hj]%list_elem_of_lookup).
      rewrite (nm_place _ _ _ _ _ Hn j m' Hj) in He. apply Nat.ltb_lt in He.
      exists j. rewrite <- (nm_name _ _ _ _ _ Hn j m' Hj). done.
    + destruct i as [|i]; [by apply elem_of_nil in Hdep|].
      destruct (models (plan e) !! i) as [m'|] eqn:Em'; cbn in Hdep; [|by apply elem_of_nil in Hdep].
      destruct (tn !! pm_name m') as [n|] eqn:En; [|by apply elem_of_nil in Hdep].
      apply list_elem_of_singleton in Hdep as ->. exists i. split; [lia|].
      by rewrite <- (nm_name _ _ _ _ _ Hn i m' Em').
Qed.

(** A derived order is the planner's.  A task waits for another exactly where the other's
    model is before it in the plan and among what the best source for its own model names:
    the plan's edges, where it has them, else the caller's graph, else the one model its
    rebuild is blamed on; each is named once. *)
Theorem derived_exact (e : PlanEnvelope) (spec : DagSpec Num) :
  NoDup (map pm_name (models (plan e))) -> ordering (options e) = Derived ->
  compile e = Ok (Some spec) ->
  forall i m t, models (plan e) !! i = Some m -> tasks spec !! i = Some t ->
    NoDup (depends_on t)
    /\ forall j m' t', models (plan e) !! j = Some m' -> tasks spec !! j = Some t' ->
         (ts_name t' ∈ depends_on t <-> (j < i)%nat /\ pm_name m' ∈ upstreams m e).
Proof.
  intros Hd Hord Hc. assert (refused e = None) as Hr.
  { unfold compile in Hc. by destruct (refused e). }
  destruct (compile_named e Hd Hr) as (spec' & ns & tn & pos & Hc' & Ht & Hn & Ho & Hns).
  rewrite Hc in Hc'. injection Hc' as <-. intros i m t Hi Hti.
  rewrite Ht, list_lookup_imap, Hi in Hti. injection Hti as <-. cbn [task_of depends_on]. unfold edges.
  rewrite Hord. split; [apply derived_NoDup|]. intros j m' t' Hj Htj.
  assert (ns !! j = Some (ts_name t')) as Hnj by by rewrite <- Hns, list_lookup_fmap, Htj.
  rewrite derived_in. split.
  - intros (up & Hup & He & Hnm).
    destruct (decide (up ∈ map pm_name (models (plan e)))) as [Hin|Hin];
      [|by rewrite (proj1 (Ho up Hin)) in Hnm].
    apply list_elem_of_fmap in Hin as (m2 & -> & [k Hk]%list_elem_of_lookup).
    unfold earlier in He. rewrite (nm_place _ _ _ _ _ Hn k m2 Hk) in He. apply Nat.ltb_lt in He.
    rewrite (nm_name _ _ _ _ _ Hn k m2 Hk) in Hnm.
    assert (k = j) as -> by (eapply NoDup_lookup; [apply Hn|done|done]). split; [lia|congruence].
  - intros [Hlt Hup]. exists (pm_name m'). split_and!; [done| |].
    + unfold earlier. rewrite (nm_place _ _ _ _ _ Hn j m' Hj). by apply Nat.ltb_lt.
    + by rewrite (nm_name _ _ _ _ _ Hn j m' Hj).
Qed.
End compile.
(** ** Placeholders *)

(** A template is text, placeholders, and braces of the command's own. *)
Inductive piece := Text (s : str) | Hole (spaced : bool) (n : str) | Foreign (spaced : bool) (n : str).

Definition braces (spaced : bool) (n : str) : str :=
  if spaced then $"{{ " ++ n ++ $" }}" else $"{{" ++ n ++ $"}}".
Definition spell (p : piece) : str :=
  match p with Text s => s | Hole b n | Foreign b n => braces b n end.
Definition meaning (vs : values) (p : piece) : str :=
  match p with
  | Text s => s
  | Hole _ n => default [] (entry n vs)
  | Foreign b n => braces b n
  end.

Definition no_brace (s : str) : Prop := contains_char "{" s = false.
Definition piece_ok (vs : values) (p : piece) : Prop :=
  match p with
  | Text s => no_brace s
  | Hole _ n => is_Some (entry n vs)
  | Foreign _ n => name_ok n /\ entry n vs = None
  end.

Lemma find_text t s : no_brace t -> find $"{{" (t ++ s) = option_map (Nat.add (length t)) (find $"{{" s).
Proof.
  unfold no_brace. induction t as [|c t IH]; cbn [app length]; [by destruct (find _ s)|].
  unfold contains_char in *. cbn [existsb]. intros [Hc Ht]%orb_false_iff.
  change (find $"{{" (c :: t ++ s)) with
    (if starts_with $"{{" (c :: t ++ s) then Some 0%nat else option_map S (find $"{{" (t ++ s))).
  replace (starts_with $"{{" (c :: t ++ s)) with false.
  - rewrite (IH Ht). by destruct (find _ s).
  - symmetry. apply not_true_iff_false. intros [r E]%starts_with_spec. injection E as -> _.
    by rewrite ch_refl in Hc.
Qed.

Lemma expand_text fuel vs t s : no_brace t -> expand_from fuel (t ++ s) vs = t ++ expand_from fuel s vs.
Proof.
  intros Ht. destruct fuel as [|fuel]; [done|]. cbn [expand_from]. rewrite find_text by done.
  destruct (find _ s) as [n|]; cbn [option_map]; [|done].
  rewrite take_app_add, drop_app_add. by rewrite <- app_assoc.
Qed.

(** A name ends where its braces do. *)
Lemma name_prefix a b x y u v :
  forallb name_char a = true -> forallb name_char b = true ->
  name_char x = false -> name_char y = false -> a ++ x :: u = b ++ y :: v -> a = b /\ x = y /\ u = v.
Proof.
  revert b; induction a as [|c a IH]; intros [|d b]; cbn [app forallb].
  - by intros _ _ _ _ [= -> ->].
  - intros _ [Hd _]%andb_prop Hx _ [= -> _]. congruence.
  - intros [Hc _]%andb_prop _ _ Hy [= -> _]. congruence.
  - intros [Hc Ha]%andb_prop [Hd Hb]%andb_prop Hx Hy [= -> H].
    by destruct (IH b Ha Hb Hx Hy H) as (-> & -> & ->).
Qed.

Lemma braces_prefix b b' n k r :
  name_ok n -> name_ok k -> starts_with (braces b' k) (braces b n ++ r) = true -> b' = b /\ k = n.
Proof.
  intros [Hn0 Hn] [Hk0 Hk]. rewrite starts_with_spec. intros [r' H].
  destruct b, b'; unfold braces in H; cbn in H; rewrite <- ?app_assoc in H; cbn in H.
  - injection H as H. apply name_prefix in H as (-> & _); done.
  - destruct k as [|c k]; [done|]. cbn in H, Hk. injection H as <- _. done.
  - destruct n as [|c n]; [done|]. cbn in H, Hn. injection H as -> _. done.
  - injection H as H. apply name_prefix in H as (-> & _); done.
Qed.

Lemma spelling_in n tail :
  List.find (fun sp => starts_with sp tail) (spellings n)
  = if starts_with (braces true n) tail then Some (braces true n)
    else if starts_with (braces false n) tail then Some (braces false n) else None.
Proof. done. Qed.

Definition keys_ok (vs : values) : Prop := Forall (fun kv => name_ok kv.1) vs.

Lemma hit_braces vs b n r :
  keys_ok vs -> name_ok n ->
  hit vs (braces b n ++ r) = option_map (fun v => (length (braces b n), v)) (entry n vs).
Proof.
  intros Hvs Hn. induction Hvs as [|[k v] vs Hk _ IH]; [done|]. cbn [hit entry fst] in *.
  rewrite spelling_in. case_bool_decide as Hkn.
  - subst. assert (starts_with (braces b n) (braces b n ++ r) = true) as Hs by (apply starts_with_spec; eauto).
    destruct b; [by rewrite Hs|]. destruct (starts_with (braces true n) _) eqn:E; [|by rewrite Hs].
    by apply braces_prefix in E as [? _].
  - destruct (starts_with (braces true k) _) eqn:E1; [by apply braces_prefix in E1 as [_ ?]|].
    destruct (starts_with (braces false k) _) eqn:E2; [by apply braces_prefix in E2 as [_ ?]|]. done.
Qed.

Lemma braces_find b n r : find $"{{" (braces b n ++ r) = Some 0%nat.
Proof. by destruct b. Qed.

Lemma name_no_brace n : forallb name_char n = true -> no_brace n.
Proof.
  unfold no_brace, contains_char. induction n as [|c n IH]; [done|]. cbn. intros [Hc Hn]%andb_prop.
  rewrite (IH Hn), orb_false_r. destruct (ch "{" c) eqn:E; [|done]. apply ch_eq in E as <-. done.
Qed.

(** What is left of foreign braces after the two that open them. *)
Lemma foreign_rest b n r :
  name_ok n -> exists t, no_brace t /\ drop 2 (braces b n ++ r) = t ++ r /\ $"{{" ++ t = braces b n.
Proof.
  intros [_ Hn%name_no_brace]. exists (if b then $" " ++ n ++ $" }}" else n ++ $"}}").
  unfold no_brace, contains_char in *. destruct b; split_and!; try done; rewrite ?existsb_app, Hn; done.
Qed.

(** Placeholders are filled in once.  A template of text without braces, of known
    placeholders in either spelling and of other names in braces expands to that text, the
    placeholders' values and those braces as they stand; a value is not read again, whatever
    braces are in it. *)
Theorem expand_pieces (vs : values) (ps : list piece) :
  keys_ok vs -> Forall (piece_ok vs) ps ->
  expand (flat_map spell ps) vs = flat_map (meaning vs) ps.
Proof.
  intros Hvs Hps. unfold expand.
  assert (forall fuel, (length (flat_map spell ps) < fuel)%nat ->
            expand_from fuel (flat_map spell ps) vs = flat_map (meaning vs) ps) as H; [|apply H; lia].
  induction Hps as [|p ps Hp _ IH]; intros fuel; cbn [flat_map]; [by destruct fuel|].
  rewrite length_app. intros Hf. destruct p as [t|b n|b n]; cbn [spell meaning piece_ok] in *.
  - rewrite expand_text by done. f_equal. apply IH. lia.
  - destruct Hp as [v Hv]. assert (name_ok n) as Hn.
    { clear -Hvs Hv. induction Hvs as [|[k w] vs Hk _ IH]; [done|]. cbn in Hv.
      case_bool_decide; [by subst|by apply IH]. }
    destruct fuel as [|fuel]; [lia|]. cbn [expand_from]. rewrite braces_find, take_0, drop_0.
    change ([] ++ ?x) with x.
    rewrite hit_braces, Hv by done. cbn [option_map default]. rewrite drop_app_length. f_equal. apply IH.
    destruct b; cbn in Hf; lia.
  - destruct Hp as [Hn Hv], (foreign_rest b n (flat_map spell ps) Hn) as (t & Ht & Hd & Hb).
    destruct fuel as [|fuel]; [lia|]. cbn [expand_from]. rewrite braces_find, take_0, drop_0.
    change ([] ++ ?x) with x. rewrite hit_braces, Hv by done. cbn [option_map].
    rewrite Hd, expand_text, app_assoc, Hb by done. f_equal. apply IH. destruct b; cbn in Hf; lia.
Qed.

(** The placeholders of a model have such names. *)
Lemma placeholder_keys m : keys_ok (placeholder_values m).
Proof. unfold placeholder_values, keys_ok. destruct (unit m); repeat (constructor; [by split|]); constructor. Qed.
(** ** Ids in a diagram *)

Definition ends_in (t : str) (k : nat) : str := t ++ repeat ("_"%char) k.

Lemma ends_in_S t k : ends_in t k ++ $"_" = ends_in t (S k).
Proof. unfold ends_in. rewrite <- app_assoc. f_equal. symmetry. apply repeat_cons. Qed.

Lemma ends_in_0 t : ends_in t 0 = t.
Proof. apply app_nil_r. Qed.

Lemma ends_in_inj t a b : ends_in t a = ends_in t b -> a = b.
Proof. intros H%app_inv_head%(f_equal length). by rewrite !repeat_length in H. Qed.

Lemma node_id_none (fuel : nat) (taken : gset str) (t : str) (a : nat) :
  node_id fuel taken t (ends_in t a) = None ->
  forall k, (a <= k < a + fuel)%nat -> ends_in t k ∈ MERMAID_RESERVED_IDS \/ ends_in t k ∈ taken.
Proof.
  revert a; induction fuel as [|fuel IH]; intros a; cbn [node_id]; [intros _ k; lia|].
  destruct (_ || _) eqn:E; [|done]. rewrite ends_in_S. intros H k Hk.
  destruct (decide (k = a)) as [->|]; [|apply (IH (S a) H); lia].
  apply orb_prop in E as [E%bool_decide_eq_true|[_ E%bool_decide_eq_true]%andb_prop]; auto.
Qed.

Lemma node_id_some (fuel : nat) (taken : gset str) (t : str) (a : nat) (id : str) :
  node_id fuel taken t (ends_in t a) = Some id ->
  (id ∉ MERMAID_RESERVED_IDS) /\ (id = t \/ (id ∉ taken)) /\ exists k, id = ends_in t k.
Proof.
  revert a; induction fuel as [|fuel IH]; intros a; cbn [node_id]; [done|].
  destruct (_ || _) eqn:E; [rewrite ends_in_S; apply IH|]. intros [= <-].
  apply orb_false_iff in E as [E1%bool_decide_eq_false [E2|E2]%andb_false_iff];
    split_and!; [done| |by eexists|done| |by eexists].
  - left. by apply negb_false_iff, bool_decide_eq_true in E2.
  - right. by apply bool_decide_eq_false in E2.
Qed.

Lemma node_id_ends (taken : gset str) (t : str) : exists id, node_id (2 + size taken) taken t t = Some id.
Proof.
  destruct (node_id (2 + size taken) taken t t) as [id|] eqn:E; [by exists id|exfalso].
  pose proof (node_id_none (2 + size taken) taken t 0) as H. rewrite ends_in_0 in H. specialize (H E).
  refine (no_room (ends_in t) (MERMAID_RESERVED_IDS ++ elements taken) _ _).
  - intros a b. apply ends_in_inj.
  - intros k Hk. rewrite length_app in Hk. cbn in Hk.
    destruct (H k) as [Hr|Ht]; [assert (size taken = length (elements taken)) as -> by done; lia|..];
      apply elem_of_app; [by left|right; by apply elem_of_elements].
Qed.

Lemma node_id_plain (fuel : nat) (taken : gset str) (t id : str) :
  node_id (S fuel) taken t t = Some id -> id = t \/ t ∈ MERMAID_RESERVED_IDS.
Proof.
  cbn [node_id]. rewrite (bool_decide_eq_true_2 (t = t)) by done. cbn [negb andb]. rewrite orb_false_r.
  case_bool_decide; [by right|]. intros [= <-]. by left.
Qed.

(** A diagram's ids are free.  The search for ids ends; no id is a word of the diagram's
    own grammar, and two tasks never share one. *)
Theorem node_ids_free (l : list ExplainRow) :
  exists ids, node_ids l = Some ids
    /\ (forall r, r ∈ l -> exists id, ids !! task r = Some id /\ (id ∉ MERMAID_RESERVED_IDS))
    /\ (forall r r' id, r ∈ l -> r' ∈ l -> ids !! task r = Some id -> ids !! task r' = Some id ->
         task r = task r').
Proof.
  unfold node_ids. set (taken := list_to_set (map task l) : gset str).
  assert (forall m : gmap str str,
    (forall t id, m !! t = Some id -> node_id (2 + size taken) taken t t = Some id) ->
    exists ids, fold_left (fun m row => let* m := m in
        let* id := node_id (2 + size taken) taken (task row) (task row) in
        Some (<[ task row := id ]> m)) l (Some m) = Some ids
      /\ (forall t id, ids !! t = Some id -> node_id (2 + size taken) taken t t = Some id)
      /\ (forall t, is_Some (m !! t) \/ t ∈ map task l -> is_Some (ids !! t))) as H.
  { clearbody taken. induction l as [|r l IH]; intros m Hm; cbn [fold_left map].
    - exists m. split_and!; [done|done|]. intros t [?|Ht]; [done|by apply elem_of_nil in Ht].
    - destruct (node_id_ends taken (task r)) as [id Hid]. rewrite Hid.
      destruct (IH (<[ task r := id ]> m)) as (ids & H1 & H2 & H3).
      { intros t id'. rewrite lookup_insert_Some. intros [[<- <-]|[_ Ht]]; [done|by apply Hm]. }
      exists ids. split_and!; [done|done|]. intros t Ht. apply H3.
      destruct (decide (t = task r)) as [->|Hne]; [left; rewrite lookup_insert_eq; eauto|].
      rewrite lookup_insert_ne by done. destruct Ht as [Ht|[Ht|Ht]%elem_of_cons]; [by left|done|by right]. }
  destruct (H ∅) as (ids & H1 & H2 & H3); [by intros t id; rewrite lookup_empty|].
  exists ids. split; [done|].
  assert (forall r, r ∈ l -> task r ∈ taken) as Htaken.
  { intros r Hr. apply elem_of_list_to_set, list_elem_of_fmap. eauto. }
  assert (forall t id, ids !! t = Some id -> (id ∉ MERMAID_RESERVED_IDS) /\ (id = t \/ (id ∉ taken))
            /\ exists k, id = ends_in t k) as Hid.
  { intros t id Ht%H2. apply (node_id_some (2 + size taken) taken t 0). by rewrite ends_in_0. }
  split.
  - intros r Hr. destruct (H3 (task r)) as [id Hi]; [right; apply list_elem_of_fmap; eauto|].
    exists id. split; [done|]. by apply (Hid _ _ Hi).
  - intros r r' id Hr Hr' Hi Hi'. apply Htaken in Hr, Hr'.
    destruct (Hid _ _ Hi) as (_ & [->|Hf] & _), (Hid _ _ Hi') as (_ & [H'|Hf'] & _);
      [done|done|congruence|].
    apply H2 in Hi as [->|Hr1]%node_id_plain; [done|].
    apply H2 in Hi' as [->|Hr2]%node_id_plain; [done|].
    apply list_elem_of_singleton in Hr1, Hr2. congruence.
Qed.
(** ** Moves *)

(** The variables the move sets itself. *)
Definition own_vars (u : MoveUnit) (k : kind) : list EnvVar :=
  match k with
  | ParityCheck =>
      side_vars $"PARITY_SOURCE_" (source (parity u)) ++ side_vars $"PARITY_TARGET_" (pr_target (parity u))
  | _ => [var $"SQL_ENGINE" (engine (step_of u k)); var $"SQL_MODE" $"script";
          var $"SQL_STATEMENT" (step_script (step_of u k))]
  end.

Lemma kind_vars_parts o u k : kind_vars o u k = own_vars u k ++ user_env (kind_env o k) (unit_values u).
Proof. destruct k; [done|done|]. unfold kind_vars, own_vars, parity_vars. by rewrite <- app_assoc. Qed.

Lemma own_names u k :
  NoDup (map ev_name (own_vars u k)) /\ forallb (fun n => reserved k n) (map ev_name (own_vars u k)) = true.
Proof.
  destruct k; cbn [own_vars]; [..|unfold side_vars; destruct (source (parity u)) as [e [s|] t r [w|]],
    (pr_target (parity u)) as [e' [s'|] t' r' [w'|]]];
    (split; [apply (bool_decide_unpack _)|]; vm_compute; done).
Qed.

Lemma NoDup_names (l : list EnvVar) v w :
  NoDup (map ev_name l) -> v ∈ l -> w ∈ l -> ev_name v = ev_name w -> v = w.
Proof.
  intros Hd [i Hi]%list_elem_of_lookup [j Hj]%list_elem_of_lookup E.
  assert (i = j) as ->; [|congruence].
  eapply NoDup_lookup; [exact Hd|..]; rewrite list_lookup_fmap; [by rewrite Hi|by rewrite Hj, E].
Qed.

Lemma check_env_free k t vs v :
  check_env k t = Ok tt -> v ∈ user_env t vs -> reserved k (ev_name v) = false.
Proof.
  unfold check_env. destruct (List.find _ (te_secret_env t)); [done|].
  destruct (List.find _ (_ ++ _)) eqn:E; [done|]. intros _.
  assert (forall kv, kv ∈ te_env t ++ te_secret_env t -> reserved k kv.1 = false) as H.
  { intros kv Hkv%list_elem_of_In. exact (List.find_none _ _ E kv Hkv). }
  intros [Hv|Hv]%elem_of_app; apply list_elem_of_fmap in Hv as (kv & -> & Hkv); cbn;
    apply H, elem_of_app; auto.
Qed.

Lemma check_envs_each o : check_envs o = Ok tt -> forall k, check_env k (kind_env o k) = Ok tt.
Proof.
  unfold check_envs. cbn [for_each].
  destruct (check_env Unload _) as [[]|] eqn:E1; [|done].
  destruct (check_env Load _) as [[]|] eqn:E2; [|done].
  destruct (check_env ParityCheck _) as [[]|] eqn:E3; [|done]. by intros _ [].
Qed.

Section move.
Context {Num : Type}.
Abbreviation names := (map (ts_name (Num := Num))).

(** A unit's tasks, each waiting for the one before. *)
Fixpoint chain (o : MoveOptions) (u : MoveUnit) (ks : list kind) (previous : option str)
    (ts : list (TaskSpec Num)) : Prop :=
  match ks, ts with
  | [], [] => True
  | k :: ks, t :: ts => t = unit_task o u k (ts_name t) previous /\ chain o u ks (Some (ts_name t)) ts
  | _, _ => False
  end.

(** Names added to those taken. *)
Definition added (taken : gset str) (ts : list (TaskSpec Num)) (taken' : gset str) : Prop :=
  NoDup (names ts) /\ Forall name_ok (names ts) /\ (forall n, n ∈ names ts -> n ∉ taken)
  /\ forall n, n ∈ taken' <-> n ∈ taken \/ n ∈ names ts.

Lemma unit_tasks_spec o u ks previous taken :
  exists ts taken', unit_tasks o u ks previous taken = Some (ts, taken')
    /\ chain o u ks previous ts /\ added taken ts taken'.
Proof.
  revert previous taken; induction ks as [|k ks IH]; intros previous taken; cbn [unit_tasks].
  - exists [], taken. split_and!; [done|done|]. unfold added. cbn. split_and!; [constructor|constructor|set_solver..].
  - destruct (unique_name_spec (label u ++ $"__" ++ kind_str k) taken) as (n & -> & Hn & Hok). cbn [fst snd].
    destruct (IH (Some n) ({[ n ]} ∪ taken)) as (ts & taken' & -> & Hc & H1 & H2 & H3 & H4). cbn [fst snd].
    eexists _, taken'. split_and!; [done|cbn; done|]. unfold added. cbn [map unit_task ts_name]. split_and!.
    + constructor; [|done]. intros Hin. apply (H3 n Hin). set_solver.
    + by constructor.
    + intros x [->|Hx]%elem_of_cons; [done|]. specialize (H3 x Hx). set_solver.
    + intros x. rewrite H4. set_solver.
Qed.

Lemma units_tasks_spec o us taken r :
  units_tasks o us taken = Ok r ->
  exists groups, r = Some (concat groups) /\ Forall2 (fun u ts => chain o u (kinds o) None ts) us groups
    /\ NoDup (names (concat groups)) /\ Forall name_ok (names (concat groups))
    /\ (forall n, n ∈ names (concat groups) -> n ∉ taken).
Proof.
  revert taken r; induction us as [|u us IH]; intros taken r; cbn [units_tasks].
  - intros [= <-]. exists []. cbn. split_and!; [done|constructor|constructor|constructor|set_solver].
  - destruct (if check_only o then _ else _) as [[]|]; [|done].
    destruct (unit_tasks_spec o u (kinds o) None taken) as (ts & taken' & -> & Hc & H1 & H2 & H3 & H4).
    destruct (units_tasks o us taken') as [rest|] eqn:E; [|done]. intros [= <-].
    destruct (IH _ _ E) as (groups & -> & H5 & H6 & H7 & H8). exists (ts :: groups). cbn [concat].
    rewrite map_app. split_and!; [done|by constructor| |by apply Forall_app|].
    + apply NoDup_app. split_and!; [done| |done]. intros n Hn Hn'. apply (H8 n Hn'), H4. by right.
    + intros n [Hn|Hn]%elem_of_app; [by apply H3|]. intros Ht. apply (H8 n Hn), H4. by left.
Qed.

(** A move compiles to chains.  Each unit becomes an unload, a load and a parity check,
    or the check alone, in this order, each waiting for exactly the one before it and the
    first for nothing, with the unit's own statements; all names are distinct, and tasks of
    different units wait for nothing of each other. *)
Theorem move_chains (e : MoveEnvelope) (r : option (DagSpec Num)) :
  compile_move e = Ok r ->
  exists spec groups, r = Some spec /\ tasks spec = concat groups
    /\ Forall2 (fun u ts => chain (mv_options e) u (kinds (mv_options e)) None ts) (units (moved e)) groups
    /\ NoDup (names (tasks spec)) /\ Forall name_ok (names (tasks spec)).
Proof.
  unfold compile_move. destruct (negb _); [done|]. destruct (bool_decide _); [done|].
  destruct (check_envs _); [|done]. destruct (units_tasks _ _ _) as [ts|] eqn:E; [|done]. intros [= <-].
  apply units_tasks_spec in E as (groups & -> & H1 & H2 & H3 & _). by eexists _, groups.
Qed.

(** A move's variables are its own.  In a compiled move, the variables a task is given for
    what only the move knows (the engine, the statements, the sides of a comparison) hold
    just that: no option can set one of them a second time. *)
Theorem move_vars_own (e : MoveEnvelope) (r : option (DagSpec Num)) :
  compile_move e = Ok r ->
  forall u k v w, v ∈ own_vars u k -> w ∈ kind_vars (mv_options e) u k -> ev_name w = ev_name v -> w = v.
Proof.
  unfold compile_move. destruct (negb _); [done|]. destruct (bool_decide _); [done|].
  destruct (check_envs _) as [[]|] eqn:E; [|done]. intros _ u k v w Hv Hw Hn.
  destruct (own_names u k) as [Hd Hr]. rewrite kind_vars_parts in Hw. apply elem_of_app in Hw as [Hw|Hw].
  - by apply (NoDup_names (own_vars u k)).
  - apply (check_env_free k _ _ _ (check_envs_each _ E k)) in Hw. rewrite Hn in Hw.
    rewrite forallb_forall in Hr. rewrite Hr in Hw; [done|]. apply list_elem_of_In, list_elem_of_fmap. eauto.
Qed.
End move.
End StateFacts.

Module StateWitnesses.

Import State StateMove StateExplain StateFacts.

Abbreviation Num := Datatypes.unit (only parsing).

Definition a_model (n : str) (r : Reason) (deps : option (list str)) : PlanModel :=
  {| pm_name := n; reason := r; unit := FullModel; pm_depends_on := deps; replace := None; sql := None |}.
Definition options_of (o : Ordering) : CompileOptions :=
  {| workflow_name := $"nightly"; command_template := [$"dbt run --select {{ model }}"]; ordering := o;
     op_max_attempts := None; op_timeout_secs := None; op_env := []; secret_env := []; op_tags := [] |}.
Definition envelope (o : Ordering) (ms : list PlanModel) : PlanEnvelope :=
  {| plan := {| models := ms; error := None |}; graph := None; options := options_of o |}.

(** Two models whose names sanitize alike, and one after both. *)
Definition three : PlanEnvelope :=
  envelope Derived [a_model $"a.b" DirectlyChanged None;
                    a_model $"a_b" (Downstream $"a.b" []) None;
                    a_model $"end" DirectlyChanged (Some [$"a_b"; $"a.b"; $"a.b"; $"later"])].
Definition three_spec : DagSpec Num :=
  match compile three with Ok (Some s) => s | _ => {| dg_name := []; tags := []; tasks := [] |} end.
Lemma three_compiles : compile three = Ok (Some three_spec).
Proof. vm_compute. reflexivity. Qed.
Definition three_names : list str := [$"a_b"; $"a_b_2"; $"end"].

Lemma three_distinct : NoDup (map pm_name (models (plan three))).
Proof. apply (bool_decide_unpack _). vm_compute. exact I. Qed.

Lemma compile_ordered_witness :
  map ts_name (tasks three_spec) = three_names /\ NoDup (map ts_name (tasks three_spec)).
Proof.
  split; [vm_compute; reflexivity|].
  destruct (compile_ordered (Num := Num) three three_distinct) as (spec & Hc & _ & _ & Hd & _);
    [vm_compute; reflexivity|].
  rewrite three_compiles in Hc. injection Hc as <-. exact Hd.
Defined.

(** The third waits for the first: it is before it, and the plan names it. *)
Definition third : TaskSpec Num := nth 2 (tasks three_spec) (task_of three ∅ ∅ 0 (a_model [] DirectlyChanged None)).
Definition first : TaskSpec Num := nth 0 (tasks three_spec) (task_of three ∅ ∅ 0 (a_model [] DirectlyChanged None)).
Lemma derived_exact_witness : depends_on third = [$"a_b"; $"a_b_2"] /\ ts_name first ∈ depends_on third.
Proof.
  split; [vm_compute; reflexivity|].
  destruct (derived_exact three three_spec three_distinct eq_refl three_compiles 2
              (a_model $"end" DirectlyChanged (Some [$"a_b"; $"a.b"; $"a.b"; $"later"])) third)
    as [_ H]; [reflexivity|vm_compute; reflexivity|].
  apply (H 0%nat (a_model $"a.b" DirectlyChanged None) first); [reflexivity|vm_compute; reflexivity|].
  split; [lia|right; left].
Defined.

(** A value with braces in it stays as it is. *)
Definition sql_values : values :=
  [($"model", $"orders"); ($"sql", $"select '{{ model }}' from t")].
Lemma expand_pieces_witness :
  expand $"run {{sql}} for {{ model }} and {{ item }}" sql_values
  = $"run select '{{ model }}' from t for orders and {{ item }}".
Proof.
  exact (expand_pieces sql_values
    [Text $"run "; Hole false $"sql"; Text $" for "; Hole true $"model"; Text $" and "; Foreign true $"item"]
    ltac:(repeat (constructor; [by split|]); constructor)
    ltac:(repeat (constructor; [first [by vm_compute | by eexists | by split]|]); constructor)).
Defined.

(** A move of one partition. *)
Definition a_step (e st : str) : Step := {| engine := e; st_statements := [st]; st_atomic := true |}.
Definition a_side (e : str) : ParitySide :=
  {| ps_engine := e; schema := None; table := $"orders"; relation := $"orders"; predicate := Some $"dt = 1" |}.
Definition a_unit : MoveUnit :=
  {| mu_model := $"orders"; partition := Some {| pt_column := $"dt"; pt_key := $"1"; partition_type := [] |};
     location := $"s3://stage/orders/1"; unload := a_step $"duckdb" $"copy orders";
     load := a_step $"postgres" $"insert orders";
     parity := {| source := a_side $"duckdb"; pr_target := a_side $"postgres" |} |}.
Definition a_move : MoveEnvelope :=
  {| moved := {| contract := MOVE_CONTRACT_VERSION; from := $"duckdb"; to := $"postgres"; stage := $"s3";
                 units := [a_unit]; not_moved := [] |};
     mv_options :=
       {| mo_workflow_name := $"warehouse-move"; mo_tags := []; mo_max_attempts := None;
          mo_timeout_secs := None; check_only := false; sql_command := [$"dagron-step-sql"];
          parity_command := [$"dagron-step-sql"; $"parity"];
          mo_unload := {| te_env := [($"STAGE", $"{{ location }}")]; te_secret_env := [] |};
          mo_load := {| te_env := []; te_secret_env := [($"PGPASSWORD", $"WAREHOUSE")] |};
          mo_parity := {| te_env := []; te_secret_env := [] |} |} |}.
Definition move_result : option (DagSpec Num) :=
  match compile_move a_move with Ok r => r | Err _ => None end.
Lemma move_compiles : compile_move a_move = Ok move_result.
Proof. vm_compute. reflexivity. Qed.

Lemma move_chains_witness :
  (option_map (fun s => map (fun t => (ts_name t, depends_on t)) (tasks s)) move_result
   = Some [($"orders__dt_1__unload", []); ($"orders__dt_1__load", [$"orders__dt_1__unload"]);
           ($"orders__dt_1__parity", [$"orders__dt_1__load"])])
  /\ exists spec, move_result = Some spec /\ NoDup (map ts_name (tasks spec)).
Proof.
  split; [vm_compute; reflexivity|].
  destruct (move_chains a_move move_result move_compiles) as (spec & groups & Hs & _ & _ & Hd & _).
  by exists spec.
Defined.

Definition given : EnvVar := nth 2 (kind_vars (mv_options a_move) a_unit Unload) (var [] []).
Lemma move_vars_own_witness : ev_name given = $"SQL_STATEMENT" /\ given = var $"SQL_STATEMENT" $"copy orders;".
Proof.
  split; [reflexivity|].
  apply (move_vars_own a_move move_result move_compiles a_unit Unload); [right; right; left| |reflexivity].
  right; right; left.
Defined.

(** A plan with one model twice.  [Ordering::Sequential] is documented as correct under any
    input, and [unique_task_name] as never emitting one name twice; but both tasks take the
    name made for the second, and it waits for itself. *)
Theorem doubled_waits_for_itself :
  option_map (fun s => map (fun t => (ts_name t, depends_on t)) (tasks s))
    match compile (Num := Num) (envelope Sequential [a_model $"a" DirectlyChanged None; a_model $"a" DirectlyChanged None]) with
    | Ok r => r
    | Err _ => None
    end
  = Some [($"a_2", []); ($"a_2", [$"a_2"])].
Proof. vm_compute. reflexivity. Qed.
End StateWitnesses.
