(* ===== verification/Plan.v ===== *)
(** * The difference of two workflows ([dagron-plan/src/lib.rs])

    A workflow's change as a reviewer reads it: both sides resolved into the graphs that
    would run, their tasks compared by name, and the differences as markdown and a
    diagram. *)

From stdpp Require Import sorting.
From S2P Require Import Prelude Json Spec.

Module Plan.

Section plan.
Context {Num : Type}.

Abbreviation TaskSpec := (Spec.TaskSpec Num).
Abbreviation DagGraph := (Spec.DagGraph Num).

(** [{:?}] of a list of texts and of a [notify:] block: the standard library's and the
    derive's formatting. *)
Context (debug_strs : list str -> str) (debug_notify : Spec.NotifySpec -> str).

(** ** One task *)

Record TaskView := {
  command : list str;
  depends_on : list str;
  image : option str;
  env : gmap str str;
  env_secret : gmap str str;
  max_attempts : N;
  retry_delay_secs : N;
  retry_max_delay_secs : option N;
  timeout_secs : option N;
  trigger_rule : option str;
  hook : option str;
  allow_failure : bool;
  task_type : option str;
  approval_timeout_secs : option N;
  approval_on_timeout : option str;
  approval_message : option str;
  approval_show : list str;
  binds : list str;
  approvers : list str;
  not_triggerer : bool;
}.

(** [collect] into a map: of one key twice, the later stands. *)
Definition collect {A} (l : list (str * A)) : gmap str A :=
  fold_left (fun m kv => <[ kv.1 := kv.2 ]> m) l ∅.

(** [TaskView::from_spec] *)
Definition from_spec (t : TaskSpec) : TaskView :=
  {| command := Spec.command t;
     depends_on := merge_sort str_le (Spec.depends_on t);
     image := Spec.docker_image t;
     env := collect (map (fun e => (Spec.ev_name e, Spec.ev_value e)) (Spec.env t));
     env_secret := collect (omap (fun e => let* s := Spec.value_from e in
                                           Some (Spec.ev_name e, Spec.secret s)) (Spec.env t));
     max_attempts := Spec.max_attempts t;
     retry_delay_secs := Spec.retry_delay_secs t;
     retry_max_delay_secs := Spec.retry_max_delay_secs t;
     timeout_secs := Spec.timeout_secs t;
     trigger_rule := Spec.trigger_rule t;
     hook := Spec.hook t;
     allow_failure := Spec.allow_failure t;
     task_type := Spec.task_type t;
     approval_timeout_secs := Spec.approval_timeout_secs t;
     approval_on_timeout := Spec.approval_on_timeout t;
     approval_message := Spec.approval_message t;
     approval_show := Spec.approval_show t;
     binds := Spec.binds t;
     approvers := Spec.approvers t;
     not_triggerer := Spec.not_triggerer t |}.

(** ** Text *)

Definition QT : str := [QUOTE].
Definition newline : str := [NL].
Definition ARROW : str := $" → ".
(** [fmt_cmd], [opt] and [opt_num] *)
Definition fmt_cmd (c : list str) : str :=
  if bool_decide (c = []) then $"(none)" else $"`" ++ join $" " c ++ $"`".
Definition opt (v : option str) : str := default $"(none)" v.
Definition opt_num (v : option N) : str := match v with Some n => show_N n | None => $"(none)" end.
Definition show_bool (b : bool) : str := if b then $"true" else $"false".

(** A line for a field that changed. *)
Definition changed_line {A} `{EqDecision A} (label : str) (show : A -> str) (a b : A) : list str :=
  if bool_decide (a = b) then [] else [label ++ $": " ++ show a ++ ARROW ++ show b].

(** The lines of a map of variables, key by key. *)
Definition keys_of (a b : gmap str str) : list str := merge_sort str_le (elements (dom a ∪ dom b)).
Definition map_lines (label : str -> str) (show : str -> str) (a b : gmap str str) : list str :=
  flat_map (fun k =>
    match a !! k, b !! k with
    | Some x, Some y => if bool_decide (x = y) then [] else [label k ++ $": " ++ show x ++ ARROW ++ show y]
    | Some x, None => [label k ++ $": " ++ show x ++ ARROW ++ $"(removed)"]
    | None, Some y => [label k ++ $": (added)" ++ ARROW ++ show y]
    | None, None => []
    end) (keys_of a b).

(** [TaskView::diff_fields] *)
Definition diff_fields (a b : TaskView) : list str :=
  changed_line $"command" fmt_cmd (command a) (command b)
  ++ changed_line $"depends_on" (fun l => $"[" ++ join $", " l ++ $"]") (depends_on a) (depends_on b)
  ++ changed_line $"image" opt (image a) (image b)
  ++ changed_line $"max_attempts" show_N (max_attempts a) (max_attempts b)
  ++ changed_line $"retry_delay_secs" show_N (retry_delay_secs a) (retry_delay_secs b)
  ++ changed_line $"retry_max_delay_secs" opt_num (retry_max_delay_secs a) (retry_max_delay_secs b)
  ++ changed_line $"timeout_secs" opt_num (timeout_secs a) (timeout_secs b)
  ++ changed_line $"trigger_rule" opt (trigger_rule a) (trigger_rule b)
  ++ changed_line $"hook" opt (hook a) (hook b)
  ++ changed_line $"allow_failure" show_bool (allow_failure a) (allow_failure b)
  ++ changed_line $"type" opt (task_type a) (task_type b)
  ++ changed_line $"approval_timeout_secs" opt_num (approval_timeout_secs a) (approval_timeout_secs b)
  ++ changed_line $"approval_on_timeout" opt (approval_on_timeout a) (approval_on_timeout b)
  ++ changed_line $"approval_message" opt (approval_message a) (approval_message b)
  ++ changed_line $"approval_show" debug_strs (approval_show a) (approval_show b)
  ++ changed_line $"binds" debug_strs (binds a) (binds b)
  ++ changed_line $"approvers" debug_strs (approvers a) (approvers b)
  ++ changed_line $"not_triggerer" show_bool (not_triggerer a) (not_triggerer b)
  ++ map_lines (fun k => $"env." ++ k) (fun v => QT ++ v ++ QT) (env a) (env b)
  ++ map_lines (fun k => $"env." ++ k ++ $".value_from") (fun v => v) (env_secret a) (env_secret b).

(** ** Two workflows *)

Record Resolved := {
  rs_name : str;
  rs_run_timeout_secs : option N;
  rs_deadline : option str;
  rs_notify : option str;
  rs_result_from : option str;
  views : gmap str TaskView;
  order : list str;
}.

(** [resolve], of the graph that [DagGraph::from_yaml] read. *)
Definition resolve (g : DagGraph) : Resolved :=
  let s := Spec.spec g in
  {| rs_name := Spec.dg_name s;
     rs_run_timeout_secs := Spec.run_timeout_secs s;
     rs_deadline := option_map Spec.within (Spec.deadline s);
     rs_notify := option_map debug_notify (Spec.notify s);
     rs_result_from := Spec.result_from s;
     views := collect (map (fun t => (Spec.name t, from_spec t)) (Spec.tasks s));
     order := map Spec.name (Spec.tasks s) |}.

Record Plan := {
  base_name : str;
  head_name : str;
  added : list str;
  removed : list str;
  changed : list (str * list str);
  run_timeout : option (option N * option N);
  root_changes : list (str * option str * option str);
  head_order : list str;
  head_tasks : gmap str TaskView;
}.

(** The names only the head has, in its order, and the names both have that differ.  A name
    of the order always has a view. *)
Definition is_added (base : Resolved) (n : str) : bool :=
  match views base !! n with None => true | Some _ => false end.
Definition change (base head : Resolved) (n : str) : option (str * list str) :=
  let* b := views base !! n in
  let* h := views head !! n in
  let fields := diff_fields b h in
  if bool_decide (fields = []) then None else Some (n, fields).

Definition root_change (label : str) (a b : option str) : list (str * option str * option str) :=
  if bool_decide (a = b) then [] else [(label, a, b)].

(** [plan], of both sides resolved *)
Definition plan_of (base head : Resolved) : Plan :=
  {| base_name := rs_name base;
     head_name := rs_name head;
     added := List.filter (is_added base) (order head);
     removed := merge_sort str_le (List.filter (is_added head) (map fst (map_to_list (views base))));
     changed := omap (change base head) (order head);
     run_timeout := if bool_decide (rs_run_timeout_secs base = rs_run_timeout_secs head) then None
                    else Some (rs_run_timeout_secs base, rs_run_timeout_secs head);
     root_changes :=
       root_change $"deadline" (rs_deadline base) (rs_deadline head)
       ++ root_change $"notify" (rs_notify base) (rs_notify head)
       ++ root_change $"result_from" (rs_result_from base) (rs_result_from head);
     head_order := order head;
     head_tasks := views head |}.

(** [plan]: [from_yaml] is [DagGraph::from_yaml], over a YAML reader outside the
    repository. *)
Definition plan {E} (from_yaml : str -> result E DagGraph) (base_yaml head_yaml : str) : result E Plan :=
  let? base := from_yaml base_yaml in
  let? head := from_yaml head_yaml in
  Ok (plan_of (resolve base) (resolve head)).

(** [Plan::has_changes] *)
Definition nonempty {A} (l : list A) : bool := match l with [] => false | _ => true end.
Definition has_changes (p : Plan) : bool :=
  nonempty (added p) || nonempty (removed p) || nonempty (changed p)
  || match run_timeout p with Some _ => true | None => false end || nonempty (root_changes p).

(** ** The diagram *)

Definition line (l : list str) : str := concat l ++ newline.

(** [Plan::to_mermaid]: of one name twice, the later place stands. *)
Definition mermaid_ids (p : Plan) : gmap str str :=
  collect (imap (fun i n => (n, $"n" ++ show_nat i)) (head_order p)).
Definition quoted (n : str) : str := map (fun c => if ch QUOTE c then APOS else c) n.
Definition class_line (ids : list str) (class : str) : str :=
  if bool_decide (ids = []) then [] else line [$"  class "; join $"," ids; $" "; class; $";"].
Definition to_mermaid (p : Plan) : str :=
  let ids := mermaid_ids p in
  let id := fun n => default [] (ids !! n) in
  let those := fun ns => map id (List.filter (fun n => bool_decide (n ∈ ns)) (head_order p)) in
  line [$"```mermaid"] ++ line [$"flowchart TD"]
  ++ flat_map (fun n => line [$"  "; id n; $"["; QT; quoted n; QT; $"]"]) (head_order p)
  ++ flat_map (fun n =>
       flat_map (fun d => match ids !! d with
                          | Some i => line [$"  "; i; $" --> "; id n]
                          | None => []
                          end)
         match head_tasks p !! n with Some v => depends_on v | None => [] end) (head_order p)
  ++ line [$"  classDef added fill:#e6ffed,stroke:#2da44e;"]
  ++ line [$"  classDef changed fill:#fff8c5,stroke:#bf8700;"]
  ++ class_line (those (added p)) $"added"
  ++ class_line (those (map fst (changed p))) $"changed"
  ++ line [$"```"].

(** ** The comment *)

Definition section {A} (title : str) (f : A -> str) (l : list A) : str :=
  if nonempty l then newline ++ line [$"### "; title] ++ flat_map f l else [].

(** [Plan::to_markdown] *)
Definition to_markdown (p : Plan) : str :=
  line [$"## dagron plan"] ++ newline ++
  if negb (has_changes p) then line [$"No changes. `"; head_name p; $"` resolves identically."]
  else
    line ([$"Workflow **"; head_name p; $"**: "; show_nat (length (added p)); $" added, ";
           show_nat (length (removed p)); $" removed, "; show_nat (length (changed p)); $" changed"]
          ++ match run_timeout p with Some _ => [$", run timeout changed"] | None => [] end
          ++ (if nonempty (root_changes p) then [$", workflow settings changed"] else [])
          ++ [$" (tasks shown are post-expansion leaf tasks)."])
    ++ match run_timeout p with
       | Some (before, after) => newline ++ line [$"**Run timeout:** "; opt_num before; ARROW; opt_num after]
       | None => []
       end
    ++ flat_map (fun c => newline ++ line [$"**"; c.1.1; $":** "; opt c.1.2; ARROW; opt c.2]) (root_changes p)
    ++ section $"Added tasks"
         (fun n => line [$"- `"; n; $"` — ";
                         fmt_cmd match head_tasks p !! n with Some v => command v | None => [] end]) (added p)
    ++ section $"Removed tasks" (fun n => line [$"- `"; n; $"`"]) (removed p)
    ++ section $"Changed tasks"
         (fun c => line [$"- `"; c.1; $"`"] ++ flat_map (fun f => line [$"  - "; f]) c.2) (changed p)
    ++ newline ++ line [$"### Resulting DAG"] ++ newline ++ to_mermaid p ++ newline.
End plan.
End Plan.
