(* ===== verification/PlanFacts.v ===== *)
(** * What a plan reports, and what it does not ([Plan])

    The report of a change is empty exactly where the fields it compares are equal; fields
    it does not compare are changed in silence. *)

From stdpp Require Import sorting.
From S2P Require Import Prelude Json Spec Plan Sample.
From coqutil Require Import Datatypes.RecordSettersUsingExistingGetters.

Module PlanFacts.

Import Plan.

(** ** Maps *)

Lemma collect_from {A} (l : list (str * A)) (m : gmap str A) k :
  is_Some (fold_left (fun m kv => <[ kv.1 := kv.2 ]> m) l m !! k) <-> k ∈ map fst l \/ is_Some (m !! k).
Proof.
  revert m; induction l as [|[k' v] l IH]; intros m; cbn [fold_left map fst].
  - split; [by right|]. intros [Hk|]; [by apply elem_of_nil in Hk|done].
  - rewrite IH, lookup_insert_is_Some, elem_of_cons. destruct (decide (k' = k)); naive_solver.
Qed.

Lemma collect_key {A} (l : list (str * A)) k : is_Some (collect l !! k) <-> k ∈ map fst l.
Proof.
  unfold collect. rewrite collect_from. split; [|by left].
  intros [?|[x Hx]]; [done|]. by rewrite lookup_empty in Hx.
Qed.

Lemma app_nil_iff {A} (a b : list A) : a ++ b = [] <-> a = [] /\ b = [].
Proof. split; [apply app_eq_nil|by intros [-> ->]]. Qed.

Lemma flat_map_nil {A B} (f : A -> list B) l : flat_map f l = [] <-> forall x, x ∈ l -> f x = [].
Proof.
  induction l as [|a l IH]; cbn [flat_map].
  - split; [intros _ x Hx; by apply elem_of_nil in Hx|done].
  - rewrite app_nil_iff, IH. split.
    + intros [H1 H2] x [->|Hx]%elem_of_cons; [done|by apply H2].
    + intros H. split; [apply H; left|intros x Hx; apply H; by right].
Qed.

Lemma nonempty_false {A} (l : list A) : nonempty l = false <-> l = [].
Proof. by destruct l. Qed.

Lemma filter_nil {A} (f : A -> bool) l : List.filter f l = [] <-> forall x, x ∈ l -> f x = false.
Proof.
  split.
  - intros H x Hx. destruct (f x) eqn:E; [|done]. exfalso.
    assert (In x (List.filter f l)) as Hin by by apply filter_In; split; [apply list_elem_of_In|].
    by rewrite H in Hin.
  - intros H. destruct (List.filter f l) as [|x r] eqn:E; [done|]. exfalso.
    assert (In x (List.filter f l)) as Hin by by rewrite E; left.
    apply filter_In in Hin as [Hx Hf]. rewrite H in Hf; [done|by apply list_elem_of_In].
Qed.

Section facts.
Context {Num : Type} (debug_strs : list str -> str) (debug_notify : Spec.NotifySpec -> str).

Abbreviation DagGraph := (Spec.DagGraph Num).
Abbreviation diff_fields := (diff_fields debug_strs).
Abbreviation resolve := (resolve debug_notify).
Abbreviation plan_of := (plan_of debug_strs).

(** ** The fields of a task *)

Lemma changed_line_nil {A} `{EqDecision A} label (show : A -> str) a b :
  changed_line label show a b = [] <-> a = b.
Proof. unfold changed_line. case_bool_decide; by split. Qed.

Lemma map_lines_nil (label show : str -> str) (a b : gmap str str) : map_lines label show a b = [] <-> a = b.
Proof.
  unfold map_lines. rewrite flat_map_nil. split.
  - intros H. apply map_eq. intros k. specialize (H k). unfold keys_of in H.
    rewrite merge_sort_Permutation, elem_of_elements, elem_of_union, !elem_of_dom in H.
    destruct (a !! k) as [x|] eqn:Ea, (b !! k) as [y|] eqn:Eb; [|by discriminate H; eauto..|done].
    case_bool_decide; [congruence|]. by discriminate H; eauto.
  - intros <- k _. destruct (a !! k); [|done]. by rewrite bool_decide_eq_true_2.
Qed.

Lemma diff_fields_nil (a b : TaskView) : diff_fields a b = [] <-> a = b.
Proof.
  unfold Plan.diff_fields. rewrite !app_nil_iff, !changed_line_nil, !map_lines_nil.
  split; [|by intros ->]. destruct a, b; cbn. intros H.
  repeat match type of H with _ /\ _ => let E := fresh in destruct H as [E H]; subst end. by subst.
Qed.

Lemma order_views (g : DagGraph) n : n ∈ order (resolve g) <-> is_Some (views (resolve g) !! n).
Proof.
  unfold Plan.resolve. cbn [order views]. by rewrite collect_key, map_map.
Qed.

Lemma root_change_nil l a b : root_change l a b = [] <-> a = b.
Proof. unfold root_change. case_bool_decide; by split. Qed.

Lemma timeout_change_none (a b : option N) :
  match (if bool_decide (a = b) then None else Some (a, b)) with Some _ => true | None => false end = false
  <-> a = b.
Proof. case_bool_decide; by split. Qed.

(** Nothing is removed where every task of the base is in the head. *)
Lemma removed_nil (b h : Resolved) :
  merge_sort str_le (List.filter (is_added h) (map fst (map_to_list (views b)))) = []
  <-> forall n, is_Some (views b !! n) -> is_Some (views h !! n).
Proof.
  split.
  - intros E n [v Hv]. destruct (views h !! n) eqn:Eh; [by eexists|exfalso].
    assert (n ∈ merge_sort str_le (List.filter (is_added h) (map fst (map_to_list (views b))))) as Hin.
    { rewrite merge_sort_Permutation. apply list_elem_of_In, filter_In. unfold is_added. rewrite Eh.
      split; [|done]. apply list_elem_of_In, list_elem_of_fmap. exists (n, v).
      split; [done|by apply elem_of_map_to_list]. }
    rewrite E in Hin. by apply elem_of_nil in Hin.
  - intros H. destruct (merge_sort _ _) as [|x r] eqn:E; [done|exfalso].
    assert (x ∈ x :: r) as Hin by left. rewrite <- E, merge_sort_Permutation in Hin.
    apply list_elem_of_In, filter_In in Hin as [Hin Hf]. unfold is_added in Hf.
    apply list_elem_of_In, list_elem_of_fmap in Hin as ([n v] & -> & Hv%elem_of_map_to_list).
    destruct (H n) as [w Hw]; [by eexists|]. cbn [fst] in Hf. by rewrite Hw in Hf.
Qed.

(** A plan reports no change exactly where there is none in what it compares: the names of
    the tasks, every compared field of each, the run's timeout, its deadline, its
    notifications and the task its result is from. *)
Theorem no_change_same (base head : DagGraph) :
  has_changes (plan_of (resolve base) (resolve head)) = false
  <-> views (resolve base) = views (resolve head)
      /\ rs_run_timeout_secs (resolve base) = rs_run_timeout_secs (resolve head)
      /\ rs_deadline (resolve base) = rs_deadline (resolve head)
      /\ rs_notify (resolve base) = rs_notify (resolve head)
      /\ rs_result_from (resolve base) = rs_result_from (resolve head).
Proof.
  pose proof (order_views base) as Ob. pose proof (order_views head) as Oh.
  generalize dependent (resolve base). generalize dependent (resolve head). intros h Oh b Ob.
  unfold has_changes. cbn [Plan.plan_of added removed changed run_timeout root_changes].
  rewrite !orb_false_iff, !nonempty_false, !app_nil_iff, filter_nil.
  rewrite !root_change_nil, timeout_change_none, removed_nil.
  split.
  - intros ((((Ha & Hr) & Hc) & Ht) & Hd & Hn & Hf). split_and!; [|done..].
    apply map_eq. intros n. destruct (views h !! n) as [w|] eqn:Eh.
    + assert (n ∈ order h) as Hin by (apply Oh; by eexists).
      specialize (Ha n Hin). unfold is_added in Ha. destruct (views b !! n) as [v|] eqn:Eb; [|done].
      f_equal. apply diff_fields_nil.
      destruct (diff_fields v w) as [|x r] eqn:E; [done|exfalso].
      assert ((n, x :: r) ∈ omap (change debug_strs b h) (order h)) as Hx.
      { apply list_elem_of_omap. exists n. split; [done|]. unfold change. rewrite Eb, Eh, E. done. }
      rewrite Hc in Hx. by apply elem_of_nil in Hx.
    + destruct (views b !! n) as [v|] eqn:Eb; [|done]. exfalso.
      destruct (Hr n) as [w Hw]; [by eexists|]. congruence.
  - intros (Hv & Ht & Hd & Hn & Hf). split_and!; [|by rewrite Hv| |done..].
    + intros n Hin%Oh. unfold is_added. rewrite Hv. by destruct Hin as [w ->].
    + destruct (omap _ _) as [|x r] eqn:E; [done|exfalso].
      assert (x ∈ x :: r) as Hx by left. rewrite <- E in Hx.
      apply list_elem_of_omap in Hx as (n & _ & Hx). unfold change in Hx. rewrite Hv in Hx.
      destruct (views h !! n) as [w|]; [|done]. by rewrite bool_decide_eq_true_2 in Hx by by apply diff_fields_nil.
Qed.
End facts.

(** ** What it does not compare *)

(** One workflow of one task, and the same with the task privileged, conditional and in
    another pool. *)
Definition quiet : Spec.DagGraph Z := Sample.dag [Sample.task $"deploy" []].
Definition loud : Spec.DagGraph Z :=
  Sample.dag [(Sample.task $"deploy" []) <| Spec.privileged := true |>
                <| Spec.when := Some $"1 > 2" |> <| Spec.pool := Some $"prod" |>].

(** The report says the two resolve identically. *)
Theorem privilege_unreported :
  to_markdown (plan_of (fun _ => []) (resolve (fun _ => []) quiet) (resolve (fun _ => []) loud))
  = line [$"## dagron plan"] ++ newline ++ line [$"No changes. `flow` resolves identically."].
Proof. vm_compute. reflexivity. Qed.
End PlanFacts.
