(* ===== verification/Isolation.v ===== *)
(** * What a task is allowed to do ([dagron-core/src/isolation.rs])

    A task's envelope, the operator's floor under it, what of it an executor can deliver, and
    the text it is attested as.  Of a refusal the place and the kind are kept, not its
    wording. *)

From S2P Require Import Prelude Spec.
From coqutil Require Import Datatypes.RecordSettersUsingExistingGetters.

Module Isolation.

Import Spec.

#[export] Instance seccomp_dec : EqDecision Seccomp.
Proof. solve_decision. Defined.
#[export] Instance network_dec : EqDecision Network.
Proof. solve_decision. Defined.
#[export] Instance isolation_dec : EqDecision IsolationSpec.
Proof. solve_decision. Defined.

(** ** Allowlists *)

Definition ALLOWLIST_NAME_MAX : nat := 57.

Definition dns_char (c : ascii) : bool := is_lower c || is_digit c || ch c "-".

(** [valid_allowlist_name] *)
Definition valid_allowlist_name (n : str) : bool :=
  negb (bool_decide (n = [])) && (length n <=? ALLOWLIST_NAME_MAX)%nat && forallb dns_char n
  && negb (starts_with $"-" n) && negb (ends_with $"-" n).

(** The names of a list, once each; [Err] is the name that could not be one. *)
Fixpoint add_allowlists (names : list str) (l : list str) : result str (list str) :=
  match l with
  | [] => Ok names
  | n :: l =>
      if negb (valid_allowlist_name n) then Err n
      else add_allowlists (if bool_decide (n ∈ names) then names else names ++ [n]) l
  end.

(** [parse_allowlists] *)
Definition parse_allowlists (raw : str) : result str (list str) :=
  add_allowlists []
    (List.filter (fun n => negb (bool_decide (n = []))) (map trim (split_char "," raw))).

(** [allowlist_object_name] *)
Definition allowlist_object_name (n : str) : str := $"dagron-task-allow-" ++ n.

Inductive proxy_error := NotUrl | CarriesUser | NoPort | NotProxy.

(** [s.rsplit_once(c)], for one byte. *)
Definition rsplit_once (c : ascii) (s : str) : option (str * str) :=
  option_map (fun i => (rev (drop (S i) (rev s)), rev (take i (rev s)))) (find_char c (rev s)).

(** [parse_allowlist_proxy] *)
Definition parse_allowlist_proxy (raw : str) : result proxy_error str :=
  let raw := trim raw in
  let rest := match strip_prefix $"http://" raw with
              | Some r => Some r
              | None => strip_prefix $"https://" raw
              end in
  let? rest := ok_or NotUrl rest in
  let authority := default rest (strip_suffix $"/" rest) in
  if contains_char "@" authority then Err CarriesUser
  else
    let? (host, port) := ok_or NoPort (rsplit_once ":" authority) in
    let host_ok :=
      match (let* h := strip_prefix $"[" host in strip_suffix $"]" h) with
      | Some v6 => negb (bool_decide (v6 = []))
                   && forallb (fun c => is_hexdigit c || ch c ":" || ch c ".") v6
      | None => negb (bool_decide (host = []))
                && forallb (fun c => is_alnum c || ch c "." || ch c "-") host
      end in
    let port_ok := match parse_unsigned 65535 port with Some p => (0 <? p)%N | None => false end in
    if negb host_ok || negb port_ok then Err NotProxy else Ok (trim_end_char "/" raw).

(** [proxy_env] *)
Definition proxy_env (proxy : str) (local : list str) : list (str * str) :=
  let no_proxy := join $"," ([$"localhost"; $"127.0.0.1"; $"::1"] ++ local) in
  map (fun n => (n, proxy)) [$"HTTP_PROXY"; $"HTTPS_PROXY"; $"http_proxy"; $"https_proxy"]
  ++ map (fun n => (n, no_proxy)) [$"NO_PROXY"; $"no_proxy"].

(** ** The network *)

Definition ALLOW : str := $"allow:".

(** [Network::label] *)
Definition network_label (n : Network) : str :=
  match n with
  | NetDefault => $"default"
  | NetAllow name => ALLOW ++ name
  | NetNone => $"none"
  end.

(** [Network::parse] *)
Definition network_parse (raw : str) : option Network :=
  if bool_decide (raw = $"default") then Some NetDefault
  else if bool_decide (raw = $"none") then Some NetNone
  else
    let* n := strip_prefix ALLOW raw in
    if valid_allowlist_name n then Some (NetAllow n) else None.

(** [Network::allowlist] *)
Definition allowlist (n : Network) : option str :=
  match n with NetAllow name => Some name | _ => None end.

(** ** Executors *)

Inductive ExecutorKind := Local_ | Docker | Kubernetes.
Record Enforcer := { ef_kind : ExecutorKind; network_policy : bool; allowlists : list str }.

(** [Enforcer::from] *)
Definition told_nothing (k : ExecutorKind) : Enforcer :=
  {| ef_kind := k; network_policy := false; allowlists := [] |}.

(** [ExecutorKind::parse] and [label] *)
Definition executor_parse (raw : str) : option ExecutorKind :=
  let v := to_lower (trim raw) in
  if bool_decide (v = $"local") then Some Local_
  else if bool_decide (v = $"docker") then Some Docker
  else if bool_decide (v ∈ [$"k8s"; $"kube"; $"kubernetes"]) then Some Kubernetes
  else None.
Definition executor_label (k : ExecutorKind) : str :=
  match k with Local_ => $"local" | Docker => $"docker" | Kubernetes => $"k8s" end.

(** ** Envelopes *)

Definition nothing_declared : IsolationSpec :=
  {| runtime_class := None; seccomp := None; read_only_root_fs := None; no_new_privileges := None;
     drop_all_capabilities := None; run_as_non_root := None; run_as_user := None;
     service_account_token := None; network := None |}.

(** [hardened] and [is_empty] *)
Definition hardened : IsolationSpec :=
  {| runtime_class := None; seccomp := Some RuntimeDefault; read_only_root_fs := Some true;
     no_new_privileges := Some true; drop_all_capabilities := Some true; run_as_non_root := Some true;
     run_as_user := None; service_account_token := Some false; network := None |}.
Definition is_empty (s : IsolationSpec) : bool := bool_decide (s = nothing_declared).

Inductive isolation_error :=
| RuntimeClassLength | RuntimeClassLabels | RootUser | NegativeUser | RootContradicted
| AllowlistName
| NotKeyValue (entry : str)
| NotBoolean (key : str)
| NotSeccomp | NotInteger | NotNetwork
| UnknownKey (key : str).

(** One label of an RFC 1123 subdomain. *)
Definition valid_label (l : str) : bool :=
  negb (bool_decide (l = [])) && (length l <=? 63)%nat && forallb dns_char l
  && negb (starts_with $"-" l) && negb (ends_with $"-" l).

(** [IsolationSpec::validate] *)
Definition validate (s : IsolationSpec) : result isolation_error unit :=
  let? _ := match runtime_class s with
            | Some rc =>
                if bool_decide (rc = []) || (253 <? length rc)%nat then Err RuntimeClassLength
                else if negb (forallb valid_label (split_char "." rc)) then Err RuntimeClassLabels
                else Ok tt
            | None => Ok tt
            end in
  let? _ := match run_as_user s with
            | Some u => if (u =? 0)%Z then Err RootUser
                        else if (u <? 0)%Z then Err NegativeUser else Ok tt
            | None => Ok tt
            end in
  let? _ := (if bool_decide (run_as_non_root s = Some true) && bool_decide (run_as_user s = Some 0%Z)
             then Err RootContradicted else Ok tt) in
  match network s with
  | Some (NetAllow n) => if valid_allowlist_name n then Ok tt else Err AllowlistName
  | _ => Ok tt
  end.

(** ** The floor *)

Record Tightened := { field : str; requested : str; applied : str }.

Definition shown {A} (show : A -> str) (o : option A) : str :=
  match o with Some a => show a | None => $"unset" end.
Definition show_bool (b : bool) : str := if b then $"true" else $"false".
(** [{:?}] of a [Seccomp]: its derive prints the constructor. *)
Definition debug_seccomp (s : Seccomp) : str :=
  match s with Unconfined => $"Unconfined" | RuntimeDefault => $"RuntimeDefault" end.

(** [stronger_bool]: the value a field takes, and the note, where the floor overrode it. *)
Definition stronger_bool (f : str) (asked floor : option bool) (strong : bool)
    : option bool * list Tightened :=
  match floor with
  | Some v =>
      if negb (Bool.eqb v strong) then (asked, [])
      else if bool_decide (asked = Some strong) then (asked, [])
      else (Some strong,
            [{| field := f; requested := shown show_bool asked; applied := show_bool strong |}])
  | None => (asked, [])
  end.

Definition stronger_seccomp (asked floor : option Seccomp) : option Seccomp * list Tightened :=
  match floor with
  | Some RuntimeDefault =>
      match asked with
      | Some RuntimeDefault => (asked, [])
      | _ => (Some RuntimeDefault,
              [{| field := $"seccomp"; requested := shown debug_seccomp asked;
                  applied := debug_seccomp RuntimeDefault |}])
      end
  | _ => (asked, [])
  end.

Definition raised_network (floor asked : option Network) : option Network :=
  match floor, asked with
  | Some NetNone, _ => if bool_decide (asked = Some NetNone) then None else Some NetNone
  | Some (NetAllow pinned), Some NetNone => None
  | Some (NetAllow pinned), Some (NetAllow named) =>
      if bool_decide (named = pinned) then None else Some (NetAllow pinned)
  | Some (NetAllow pinned), _ => Some (NetAllow pinned)
  | _, _ => None
  end.
Definition stronger_network (asked floor : option Network) : option Network * list Tightened :=
  match raised_network floor asked with
  | Some v => (Some v, [{| field := $"network"; requested := shown network_label asked;
                           applied := network_label v |}])
  | None => (asked, [])
  end.

Definition floor_user (asked floor : option Z) : option Z * list Tightened :=
  match floor, asked with
  | Some f, None => (Some f, [{| field := $"run_as_user"; requested := $"unset"; applied := show_Z f |}])
  | _, _ => (asked, [])
  end.

Definition pinned_class (asked floor : option str) : option str * list Tightened :=
  match floor with
  | Some f =>
      if bool_decide (asked = Some f) then (asked, [])
      else (Some f, [{| field := $"runtime_class"; requested := default $"unset" asked; applied := f |}])
  | None => (asked, [])
  end.

(** [apply_floor]: what overrode is told in this order. *)
Definition apply_floor (s floor : IsolationSpec) : IsolationSpec * list Tightened :=
  let sec := stronger_seccomp (seccomp s) (seccomp floor) in
  let ro := stronger_bool $"read_only_root_fs" (read_only_root_fs s) (read_only_root_fs floor) true in
  let np := stronger_bool $"no_new_privileges" (no_new_privileges s) (no_new_privileges floor) true in
  let dc := stronger_bool $"drop_all_capabilities" (drop_all_capabilities s)
              (drop_all_capabilities floor) true in
  let nr := stronger_bool $"run_as_non_root" (run_as_non_root s) (run_as_non_root floor) true in
  let sa := stronger_bool $"service_account_token" (service_account_token s)
              (service_account_token floor) false in
  let nw := stronger_network (network s) (network floor) in
  let us := floor_user (run_as_user s) (run_as_user floor) in
  let rc := pinned_class (runtime_class s) (runtime_class floor) in
  ({| runtime_class := rc.1; seccomp := sec.1; read_only_root_fs := ro.1; no_new_privileges := np.1;
      drop_all_capabilities := dc.1; run_as_non_root := nr.1; run_as_user := us.1;
      service_account_token := sa.1; network := nw.1 |},
   sec.2 ++ ro.2 ++ np.2 ++ dc.2 ++ nr.2 ++ sa.2 ++ nw.2 ++ us.2 ++ rc.2).

(** ** What an executor can deliver *)

Definition unmet_if (b : bool) (f : string) : list str := if b then [lit f] else [].

(** [enforceable_by] *)
Definition enforceable_by (s : IsolationSpec) (e : Enforcer) : list str :=
  match ef_kind e with
  | Kubernetes =>
      let held := match network s with
                  | Some NetNone => network_policy e
                  | Some (NetAllow n) => network_policy e && bool_decide (n ∈ allowlists e)
                  | Some NetDefault | None => true
                  end in
      unmet_if (negb held) "network"
  | Docker =>
      unmet_if (negb (bool_decide (runtime_class s = None))) "runtime_class"
      ++ match network s with
         | Some (NetAllow n) => unmet_if (negb (bool_decide (n ∈ allowlists e))) "network"
         | _ => []
         end
  | Local_ =>
      unmet_if (negb (bool_decide (runtime_class s = None))) "runtime_class"
      ++ unmet_if (bool_decide (seccomp s = Some RuntimeDefault)) "seccomp"
      ++ unmet_if (bool_decide (read_only_root_fs s = Some true)) "read_only_root_fs"
      ++ unmet_if (bool_decide (no_new_privileges s = Some true)) "no_new_privileges"
      ++ unmet_if (bool_decide (drop_all_capabilities s = Some true)) "drop_all_capabilities"
      ++ unmet_if (bool_decide (run_as_non_root s = Some true)) "run_as_non_root"
      ++ unmet_if (negb (bool_decide (run_as_user s = None))) "run_as_user"
      ++ unmet_if (bool_decide (service_account_token s = Some false)) "service_account_token"
      ++ match network s with
         | Some NetNone | Some (NetAllow _) => [$"network"]
         | _ => []
         end
  end.

(** [require_enforceable_by]: the fields it refuses for. *)
Definition require_enforceable_by (s : IsolationSpec) (e : Enforcer) : result (list str) unit :=
  match enforceable_by s e with [] => Ok tt | unmet => Err unmet end.

(** ** The envelope as text *)

Definition seccomp_str (s : Seccomp) : str :=
  match s with Unconfined => $"unconfined" | RuntimeDefault => $"runtime_default" end.

Definition text_of {A} (key : string) (show : A -> str) (o : option A) : list str :=
  match o with Some a => [lit key ++ $"=" ++ show a] | None => [] end.

(** The fields that are set, in the order of their names. *)
Definition entries (s : IsolationSpec) : list str :=
  text_of "drop_all_capabilities" show_bool (drop_all_capabilities s)
  ++ text_of "network" network_label (network s)
  ++ text_of "no_new_privileges" show_bool (no_new_privileges s)
  ++ text_of "read_only_root_fs" show_bool (read_only_root_fs s)
  ++ text_of "run_as_non_root" show_bool (run_as_non_root s)
  ++ text_of "run_as_user" show_Z (run_as_user s)
  ++ text_of "runtime_class" (fun v => v) (runtime_class s)
  ++ text_of "seccomp" seccomp_str (seccomp s)
  ++ text_of "service_account_token" show_bool (service_account_token s).

(** [canonical] *)
Definition canonical (s : IsolationSpec) : str := join [NL] (entries s).

(** The values of [parse_floor]. *)
Definition floor_bool (key value : str) : result isolation_error bool :=
  if bool_decide (value ∈ [$"true"; $"1"; $"yes"; $"on"]) then Ok true
  else if bool_decide (value ∈ [$"false"; $"0"; $"no"; $"off"]) then Ok false
  else Err (NotBoolean key).
Definition floor_seccomp (value : str) : result isolation_error Seccomp :=
  if bool_decide (value = $"runtime_default") then Ok RuntimeDefault
  else if bool_decide (value = $"unconfined") then Ok Unconfined
  else Err NotSeccomp.

(** One key of the floor, set to a value. *)
Definition set_key (out : IsolationSpec) (key value : str) : result isolation_error IsolationSpec :=
  if bool_decide (key = $"runtime_class") then Ok (out <| runtime_class := Some value |>)
  else if bool_decide (key = $"seccomp") then
    let? v := floor_seccomp value in Ok (out <| seccomp := Some v |>)
  else if bool_decide (key = $"read_only_root_fs") then
    let? v := floor_bool key value in Ok (out <| read_only_root_fs := Some v |>)
  else if bool_decide (key = $"no_new_privileges") then
    let? v := floor_bool key value in Ok (out <| no_new_privileges := Some v |>)
  else if bool_decide (key = $"drop_all_capabilities") then
    let? v := floor_bool key value in Ok (out <| drop_all_capabilities := Some v |>)
  else if bool_decide (key = $"run_as_non_root") then
    let? v := floor_bool key value in Ok (out <| run_as_non_root := Some v |>)
  else if bool_decide (key = $"run_as_user") then
    let? v := ok_or NotInteger (parse_i64 value) in Ok (out <| run_as_user := Some v |>)
  else if bool_decide (key = $"service_account_token") then
    let? v := floor_bool key value in Ok (out <| service_account_token := Some v |>)
  else if bool_decide (key = $"network") then
    let? v := ok_or NotNetwork (network_parse value) in Ok (out <| network := Some v |>)
  else Err (UnknownKey key).

(** One entry. *)
Definition set_entry (out : IsolationSpec) (entry : str) : result isolation_error IsolationSpec :=
  let? (key, value) := ok_or (NotKeyValue entry) (split_once $"=" entry) in
  set_key out (trim key) (trim value).

Fixpoint set_entries (out : IsolationSpec) (l : list str) : result isolation_error IsolationSpec :=
  match l with
  | [] => Ok out
  | e :: l => let? out := set_entry out e in set_entries out l
  end.

(** The entries of a text: pieces between commas and line feeds, trimmed, none empty. *)
Definition floor_entries (raw : str) : list str :=
  List.filter (fun e => negb (bool_decide (e = [])))
    (map trim (flat_map (split_char ",") (split_char NL raw))).

(** [parse_floor] *)
Definition parse_floor (raw : str) : result isolation_error IsolationSpec :=
  let raw := trim raw in
  if eq_ignore_case raw $"hardened" then Ok hardened
  else
    let? out := set_entries nothing_declared (floor_entries raw) in
    let? _ := validate out in
    Ok out.
End Isolation.
