(* ===== verification/IsolationFacts.v ===== *)
(** * The floor and the text of an envelope ([Isolation])

    What a floor does to an envelope, and that an envelope reads back from the text it is
    attested as. *)

From S2P Require Import Prelude Spec JsonPred SpecFacts Isolation.
From coqutil Require Import Datatypes.RecordSettersUsingExistingGetters.

Module IsolationFacts.

Import Spec SpecFacts Isolation.

(** ** The floor, a field at a time *)

(** [out] with [notes] is [asked] raised to what [met] demands: it meets it, and it is
    changed, and told of, exactly where it did not. *)
Definition raised {A} (met : A -> Prop) (asked : A) (r : A * list Tightened) : Prop :=
  met r.1 /\ (r.2 = [] <-> met asked) /\ (r.1 = asked <-> met asked).

Definition bool_met (floor : option bool) (strong : bool) (v : option bool) : Prop :=
  floor = Some strong -> v = Some strong.
Definition seccomp_met (floor v : option Seccomp) : Prop :=
  floor = Some RuntimeDefault -> v = Some RuntimeDefault.
(** [none] is more than an allowlist; of two allowlists the floor's is the one. *)
Definition network_met (floor v : option Network) : Prop :=
  match floor with
  | Some NetNone => v = Some NetNone
  | Some (NetAllow p) => v = Some NetNone \/ v = Some (NetAllow p)
  | Some NetDefault | None => True
  end.
Definition user_met (floor v : option Z) : Prop := is_Some floor -> is_Some v.
Definition class_met (floor v : option str) : Prop := is_Some floor -> v = floor.

(** An envelope that is no weaker than the floor. *)
Record meets (floor s : IsolationSpec) : Prop := {
  m_seccomp : seccomp_met (seccomp floor) (seccomp s);
  m_read_only : bool_met (read_only_root_fs floor) true (read_only_root_fs s);
  m_privileges : bool_met (no_new_privileges floor) true (no_new_privileges s);
  m_capabilities : bool_met (drop_all_capabilities floor) true (drop_all_capabilities s);
  m_non_root : bool_met (run_as_non_root floor) true (run_as_non_root s);
  m_token : bool_met (service_account_token floor) false (service_account_token s);
  m_network : network_met (network floor) (network s);
  m_user : user_met (run_as_user floor) (run_as_user s);
  m_class : class_met (runtime_class floor) (runtime_class s) }.

Lemma stronger_bool_raised f asked floor strong :
  raised (bool_met floor strong) asked (stronger_bool f asked floor strong).
Proof.
  unfold raised, bool_met, stronger_bool. destruct floor as [[]|], strong, asked as [[]|]; cbn; naive_solver.
Qed.

Lemma stronger_seccomp_raised asked floor :
  raised (seccomp_met floor) asked (stronger_seccomp asked floor).
Proof. unfold raised, seccomp_met. destruct floor as [[]|], asked as [[]|]; cbn; naive_solver. Qed.

Lemma stronger_network_raised asked floor :
  raised (network_met floor) asked (stronger_network asked floor).
Proof.
  unfold raised, network_met, stronger_network, raised_network.
  destruct floor as [[]|], asked as [[]|]; repeat case_bool_decide; cbn; naive_solver.
Qed.

Lemma floor_user_raised asked floor : raised (user_met floor) asked (floor_user asked floor).
Proof.
  unfold raised, user_met, floor_user. destruct floor, asked; cbn; rewrite ?is_Some_alt; naive_solver.
Qed.

Lemma pinned_class_raised asked floor : raised (class_met floor) asked (pinned_class asked floor).
Proof.
  unfold raised, class_met, pinned_class. destruct floor; [case_bool_decide|]; cbn; rewrite ?is_Some_alt; naive_solver.
Qed.

(** What a floor never takes back: a hardening the task asked for itself, and its user. *)
Record kept (s out : IsolationSpec) : Prop := {
  k_hardened : meets s (out <| network := network s |> <| runtime_class := runtime_class s |>);
  k_closed : network s = Some NetNone -> network out = Some NetNone;
  k_user : is_Some (run_as_user s) -> run_as_user out = run_as_user s }.

Lemma stronger_bool_kept f asked floor strong :
  bool_met asked strong (stronger_bool f asked floor strong).1.
Proof. unfold bool_met, stronger_bool. destruct floor as [[]|], strong, asked as [[]|]; cbn; naive_solver. Qed.
Lemma stronger_seccomp_kept asked floor : seccomp_met asked (stronger_seccomp asked floor).1.
Proof. unfold seccomp_met. destruct floor as [[]|], asked as [[]|]; cbn; naive_solver. Qed.
Lemma stronger_network_kept asked floor :
  asked = Some NetNone -> (stronger_network asked floor).1 = Some NetNone.
Proof.
  intros ->. unfold stronger_network, raised_network.
  destruct floor as [[]|]; [..|done]; repeat case_bool_decide; done.
Qed.
Lemma floor_user_kept asked floor : is_Some asked -> (floor_user asked floor).1 = asked.
Proof. intros [u ->]. by destruct floor. Qed.

Lemma met_self s : meets s s.
Proof.
  split; try (intros ?; assumption).
  - unfold network_met. destruct (network s) as [[]|]; auto.
  - by intros _.
Qed.

(** C31: a floor raises a task's envelope, and says exactly when it did.  What comes out
    meets the floor in every field; it keeps each hardening the task asked for itself,
    and its user; it is told of, and different from what the task asked, exactly when
    the task did not meet the floor; and a floor already applied changes nothing. *)
Theorem floor_raises (s floor : IsolationSpec) :
  let (out, notes) := apply_floor s floor in
  meets floor out /\ kept s out
  /\ (notes = [] <-> meets floor s) /\ (out = s <-> meets floor s)
  /\ apply_floor out floor = (out, []).
Proof.
  destruct (apply_floor s floor) as [out notes] eqn:E.
  assert (forall s out notes, apply_floor s floor = (out, notes) ->
    meets floor out /\ (notes = [] <-> meets floor s) /\ (out = s <-> meets floor s)) as H.
  { clear. intros s out notes [= <- <-].
    pose proof (stronger_seccomp_raised (seccomp s) (seccomp floor)) as (a1 & b1 & c1).
    pose proof (stronger_bool_raised $"read_only_root_fs" (read_only_root_fs s) (read_only_root_fs floor) true) as (a2 & b2 & c2).
    pose proof (stronger_bool_raised $"no_new_privileges" (no_new_privileges s) (no_new_privileges floor) true) as (a3 & b3 & c3).
    pose proof (stronger_bool_raised $"drop_all_capabilities" (drop_all_capabilities s) (drop_all_capabilities floor) true) as (a4 & b4 & c4).
    pose proof (stronger_bool_raised $"run_as_non_root" (run_as_non_root s) (run_as_non_root floor) true) as (a5 & b5 & c5).
    pose proof (stronger_bool_raised $"service_account_token" (service_account_token s) (service_account_token floor) false) as (a6 & b6 & c6).
    pose proof (stronger_network_raised (network s) (network floor)) as (a7 & b7 & c7).
    pose proof (floor_user_raised (run_as_user s) (run_as_user floor)) as (a8 & b8 & c8).
    pose proof (pinned_class_raised (runtime_class s) (runtime_class floor)) as (a9 & b9 & c9).
    split; [by split|]. rewrite !app_nil.
    split.
    - rewrite b1, b2, b3, b4, b5, b6, b7, b8, b9. split; [intros; destruct_and!; by split|by intros []].
    - split.
      + intros Hs. split;
          [apply c1|apply c2|apply c3|apply c4|apply c5|apply c6|apply c7|apply c8|apply c9];
          rewrite <- Hs at 2; done.
      + intros []. destruct s; cbn in *. f_equal; tauto. }
  destruct (H _ _ _ E) as (H1 & H2 & H3). split_and!; [done| |done|done|].
  - injection E as <- <-. split; cbn.
    + split; cbn; try apply stronger_bool_kept; [apply stronger_seccomp_kept| | |done].
      * apply met_self.
      * intros Hu. by rewrite floor_user_kept.
    + apply stronger_network_kept.
    + apply floor_user_kept.
  - destruct (apply_floor out floor) as [out2 notes2] eqn:E2. destruct (H _ _ _ E2) as (_ & H5 & H6).
    f_equal; tauto.
Qed.

(** ** The text *)

(** A byte of an entry: plain, and no comma. *)
Definition entry_char (c : ascii) : bool := plain c && negb (ch "," c).

Lemma dns_entry c : dns_char c = true \/ c = "."%char -> entry_char c = true.
Proof. destruct c as [[] [] [] [] [] [] [] []]; vm_compute; intros [?|?]; done. Qed.

Lemma digit_entry c : is_digit c = true -> entry_char c = true.
Proof. destruct c as [[] [] [] [] [] [] [] []]; vm_compute; done. Qed.

Lemma entry_plain s : forallb entry_char s = true ->
  forallb plain s = true /\ contains_char "," s = false /\ contains_char NL s = false.
Proof.
  intros H. rewrite !contains_char_false. rewrite forallb_forall in H. split_and!.
  - apply forallb_forall. intros c Hc. by apply H, andb_true_iff in Hc as [? _].
  - intros Hc%list_elem_of_In. by apply H in Hc.
  - intros Hc%list_elem_of_In. by apply H in Hc.
Qed.

Lemma in_pieces c d s x : x ∈ split_char c s -> d ∈ x -> d ∈ s.
Proof.
  revert x; induction s as [|a s IH]; intros x; cbn.
  - intros ->%list_elem_of_singleton. done.
  - destruct (ch c a); [intros [->|H]%elem_of_cons ?; [by apply elem_of_nil in H|right; by eapply IH]|].
    destruct (split_char c s) as [|p ps] eqn:E; [by apply split_char_nonempty in E|].
    intros [->|H]%elem_of_cons Hd; [|right; eapply IH; [by right|done]].
    apply elem_of_cons in Hd as [->|Hd]; [left|right; eapply IH; [left|done]].
Qed.

(** A class that [validate] lets through is made of labels and dots. *)
Lemma class_entry rc : forallb valid_label (split_char "." rc) = true -> forallb entry_char rc = true.
Proof.
  intros H. apply forallb_forall. intros c Hc%list_elem_of_In. apply dns_entry.
  rewrite <- (join_split_char "." rc) in Hc. clear -H Hc.
  induction (split_char "." rc) as [|p ps IH]; [by apply elem_of_nil in Hc|].
  cbn [forallb] in H. apply andb_true_iff in H as [Hp Hps].
  assert (c ∈ p -> dns_char c = true) as Hd.
  { intros Hin%list_elem_of_In. unfold valid_label in Hp. rewrite !andb_true_iff in Hp.
    destruct_and!. rewrite forallb_forall in *. auto. }
  destruct ps as [|q ps]; [left; by apply Hd|].
  change (c ∈ p ++ ["."%char] ++ join ["."%char] (q :: ps)) in Hc.
  rewrite !elem_of_app, list_elem_of_singleton in Hc. destruct Hc as [?|[?|?]]; auto.
Qed.

(** The bytes of a key. *)
Definition key_char (c : ascii) : bool := is_lower c || ch c "_".

Lemma key_entry c : key_char c = true -> entry_char c = true /\ ch "=" c = false.
Proof. destruct c as [[] [] [] [] [] [] [] []]; vm_compute; done. Qed.

Lemma key_word k : forallb key_char k = true -> forallb entry_char k = true /\ "="%char ∉ k.
Proof.
  intros H. split; [revert H; apply forallb_impl; intros c Hc; by apply key_entry in Hc as [? _]|].
  intros Hc%list_elem_of_In. rewrite forallb_forall in H. by apply H, key_entry in Hc as [_ ?].
Qed.

Lemma set_entry_at out k v :
  forallb key_char k = true -> forallb entry_char v = true ->
  set_entry out (k ++ $"=" ++ v) = set_key out k v.
Proof.
  intros [Hk He]%key_word Hv. unfold set_entry.
  change ($"=" ++ v) with (["="%char] ++ v). change $"=" with ["="%char].
  rewrite JsonPred.split_once_at by done. cbn [ok_or].
  rewrite !trim_plain; [done|by apply entry_plain..].
Qed.

(** One field read back, whatever was read before it. *)
Lemma add_field {A} key (show : A -> str) (o : option A) out set rest :
  forallb key_char (lit key) = true ->
  (forall a, o = Some a -> forallb entry_char (show a) = true /\ set_key out (lit key) (show a) = Ok (set (Some a))) ->
  set None = out ->
  set_entries out (text_of key show o ++ rest) = set_entries (set o) rest.
Proof.
  intros Hk Ha Hn. destruct o as [a|]; cbn [text_of app]; [|by rewrite Hn].
  destruct (Ha a eq_refl) as [He Hs]. cbn [set_entries app]. by rewrite set_entry_at, Hs.
Qed.

Ltac key_case :=
  unfold set_key; repeat first [rewrite bool_decide_false by discriminate | rewrite bool_decide_true by reflexivity].

Lemma show_bool_entry b : forallb entry_char (show_bool b) = true.
Proof. by destruct b. Qed.
Lemma show_bool_read key b : floor_bool key (show_bool b) = Ok b.
Proof. by destruct b. Qed.

Lemma network_read n : (forall a, n = NetAllow a -> valid_allowlist_name a = true) ->
  forallb entry_char (network_label n) = true /\ network_parse (network_label n) = Some n.
Proof.
  intros Hn. destruct n as [|a|]; [done| |done]. specialize (Hn a eq_refl). cbn [network_label]. split.
  - rewrite forallb_app. apply andb_true_iff. split; [done|].
    unfold valid_allowlist_name in Hn. rewrite !andb_true_iff in Hn. destruct_and!.
    eapply forallb_impl; [|eassumption]. intros c Hc. apply dns_entry. by left.
  - unfold network_parse. rewrite !bool_decide_false by discriminate.
    destruct (strip_prefix ALLOW (ALLOW ++ a)) as [r|] eqn:E.
    + apply strip_prefix_Some, app_inv_head in E as <-. by rewrite Hn.
    + assert (strip_prefix ALLOW (ALLOW ++ a) = Some a) by by apply strip_prefix_Some. congruence.
Qed.

Lemma show_Z_entry u : (1 <= u <= I64_MAX)%Z -> forallb entry_char (show_Z u) = true.
Proof.
  intros Hu. unfold show_Z. destruct (Z.ltb_spec u 0); [lia|].
  destruct (show_N_spec (Z.to_N u)) as (_ & Hd & _). revert Hd. apply forallb_impl, digit_entry.
Qed.

(** What [validate] lets through, as far as the text is concerned. *)
Record readable (s : IsolationSpec) : Prop := {
  r_class : forall rc, runtime_class s = Some rc -> forallb entry_char rc = true;
  r_user : forall u, run_as_user s = Some u -> (1 <= u <= I64_MAX)%Z;
  r_network : forall a, network s = Some (NetAllow a) -> valid_allowlist_name a = true }.

Lemma validate_readable s :
  validate s = Ok tt -> (forall u, run_as_user s = Some u -> (u <= I64_MAX)%Z) -> readable s.
Proof.
  intros H Hi. unfold validate in H.
  destruct (match runtime_class s with Some rc => _ | None => _ end) as [[]|e] eqn:E1; [|done].
  destruct (match run_as_user s with Some u => _ | None => _ end) as [[]|e] eqn:E2; [|done].
  split.
  - intros rc Hrc. rewrite Hrc in E1. destruct (bool_decide _ || _); [done|].
    destruct (forallb valid_label _) eqn:E; [|done]. by apply class_entry.
  - intros u Hu. specialize (Hi _ Hu). rewrite Hu in E2.
    destruct (Z.eqb_spec u 0); [done|]. destruct (Z.ltb_spec u 0); [done|]. lia.
  - intros a Ha. rewrite Ha in H. destruct (_ && _); [done|]. by destruct (valid_allowlist_name a).
Qed.

Ltac bool_field :=
  first [done | intros b _; split; [apply show_bool_entry|key_case; by rewrite show_bool_read]].

Lemma entries_read s : readable s -> set_entries nothing_declared (entries s) = Ok s.
Proof.
  intros [Hc Hu Hn]. rewrite <- (app_nil_r (entries s)). unfold entries. rewrite <- !(app_assoc (A := str)).
  pose (p1 := nothing_declared <| drop_all_capabilities := drop_all_capabilities s |>).
  pose (p2 := p1 <| network := network s |>).
  pose (p3 := p2 <| no_new_privileges := no_new_privileges s |>).
  pose (p4 := p3 <| read_only_root_fs := read_only_root_fs s |>).
  pose (p5 := p4 <| run_as_non_root := run_as_non_root s |>).
  pose (p6 := p5 <| run_as_user := run_as_user s |>).
  pose (p7 := p6 <| runtime_class := runtime_class s |>).
  pose (p8 := p7 <| seccomp := seccomp s |>).
  rewrite (add_field _ _ _ _ (fun o => nothing_declared <| drop_all_capabilities := o |>)) by bool_field.
  rewrite (add_field _ _ _ _ (fun o => p1 <| network := o |>)) by
    first [done | intros n Hs; destruct (network_read n) as [H1 H2]; [intros a ->; by apply Hn|];
                  split; [done|key_case; by rewrite H2]].
  rewrite (add_field _ _ _ _ (fun o => p2 <| no_new_privileges := o |>)) by bool_field.
  rewrite (add_field _ _ _ _ (fun o => p3 <| read_only_root_fs := o |>)) by bool_field.
  rewrite (add_field _ _ _ _ (fun o => p4 <| run_as_non_root := o |>)) by bool_field.
  rewrite (add_field _ _ _ _ (fun o => p5 <| run_as_user := o |>)) by
    first [done | intros u Hs; apply Hu in Hs; split; [by apply show_Z_entry|key_case; by rewrite parse_i64_show]].
  rewrite (add_field _ _ _ _ (fun o => p6 <| runtime_class := o |>)) by
    first [done | intros rc Hs; split; [by apply Hc|by key_case]].
  rewrite (add_field _ _ _ _ (fun o => p7 <| seccomp := o |>)) by
    first [done | intros [] _; split; by try key_case].
  rewrite (add_field _ _ _ _ (fun o => p8 <| service_account_token := o |>)) by bool_field.
  by destruct s.
Qed.

(** ** The whole text *)

Lemma entries_good s : readable s ->
  Forall (fun e => forallb entry_char e = true /\ "="%char ∈ e) (entries s).
Proof.
  intros [Hc Hu Hn].
  assert (forall A key (show : A -> str) o, forallb key_char (lit key) = true ->
    (forall a, o = Some a -> forallb entry_char (show a) = true) ->
    Forall (fun e => forallb entry_char e = true /\ "="%char ∈ e) (text_of key show o)) as H.
  { intros A key show o Hk Ha. destruct o as [a|]; cbn [text_of]; constructor; [|done]. split.
    - rewrite !forallb_app. apply andb_true_iff. split; [by apply key_word|]. cbn. by apply Ha.
    - set_solver. }
  unfold entries. rewrite !Forall_app. split_and!; apply H; try done; try (intros b _; apply show_bool_entry).
  - intros n Hs. apply network_read. intros a ->. by apply Hn.
  - intros u Hs. by apply show_Z_entry, Hu.
  - intros [] _; done.
Qed.

Lemma entry_ends e : forallb entry_char e = true ->
  match e with [] => True | c :: _ => ws1 c = false /\ (code c < 128)%N end
  /\ match rev e with [] => True | c :: _ => ws1 c = false /\ (code c < 128)%N end.
Proof.
  intros [H _]%entry_plain. rewrite forallb_forall in H.
  assert (forall c, In c e -> ws1 c = false /\ (code c < 128)%N) as Hc.
  { intros c Hc. apply H in Hc. split; [|by apply plain_ascii].
    unfold plain in Hc. apply andb_true_iff in Hc as [Hc _]. by apply negb_true_iff. }
  split; [destruct e as [|c e]; [done|apply Hc; by left]|].
  destruct (rev e) as [|c r] eqn:E; [done|]. apply Hc, in_rev. rewrite E. by left.
Qed.

Lemma join_ends c l : Forall (fun e => forallb entry_char e = true /\ "="%char ∈ e) l ->
  match join [c] l with [] => True | c :: _ => ws1 c = false /\ (code c < 128)%N end
  /\ match rev (join [c] l) with [] => True | c :: _ => ws1 c = false /\ (code c < 128)%N end.
Proof.
  induction 1 as [|e l [He Hin] Hl IH]; [done|]. pose proof (entry_ends _ He) as [H1 H2].
  destruct l as [|e2 l]; [done|].
  change (join [c] (e :: e2 :: l)) with (e ++ [c] ++ join [c] (e2 :: l)). split.
  - destruct e as [|a e]; [by apply elem_of_nil in Hin|done].
  - rewrite !rev_app_distr. destruct IH as [_ IH].
    destruct (rev (join [c] (e2 :: l))) as [|a r] eqn:E; [|done]. exfalso.
    apply Forall_inv in Hl as [_ Hin2].
    assert (join [c] (e2 :: l) = []) as E2 by (rewrite <- (rev_involutive (join _ _)), E; done).
    destruct e2; [by apply elem_of_nil in Hin2|]. by destruct l.
Qed.

Lemma joined_not_hardened l : Forall (fun e => forallb entry_char e = true /\ "="%char ∈ e) l ->
  eq_ignore_case (join [NL] l) $"hardened" = false.
Proof.
  intros H. apply bool_decide_eq_false. intros E.
  destruct H as [|e l [_ He] _]; [done|].
  assert ("="%char ∈ to_lower (join [NL] (e :: l))) as Hin.
  { unfold to_lower. apply list_elem_of_fmap. exists "="%char. split; [done|].
    destruct l; [done|]. cbn. rewrite elem_of_app. by left. }
  rewrite E in Hin. revert Hin. cbn. clear. set_solver.
Qed.

Lemma joined_entries l : Forall (fun e => forallb entry_char e = true /\ "="%char ∈ e) l ->
  floor_entries (join [NL] l) = l.
Proof.
  intros H. unfold floor_entries. destruct (decide (l = [])) as [->|Hne]; [done|].
  rewrite split_char_join; [|done|].
  2:{ eapply Forall_impl; [exact H|]. intros e [He _]. by apply entry_plain. }
  clear Hne. induction H as [|e l [He Hin] _ IH]; [done|]. cbn [flat_map].
  apply entry_plain in He as (Hp & Hc & _). rewrite split_char_plain by done. cbn [app map].
  rewrite trim_plain by done. cbn [List.filter]. rewrite IH, bool_decide_false; [done|].
  intros ->. by apply elem_of_nil in Hin.
Qed.

(** C32: the text a task is attested under is its envelope.  Every envelope that
    [validate] lets through, its user a 64-bit number, reads back from its canonical
    text as itself, whichever fields it sets: no two envelopes share a text. *)
Theorem canonical_read_back (s : IsolationSpec) :
  validate s = Ok tt -> (forall u, run_as_user s = Some u -> (u <= I64_MAX)%Z) ->
  parse_floor (canonical s) = Ok s.
Proof.
  intros Hv Hu. pose proof (validate_readable s Hv Hu) as Hr. pose proof (entries_good s Hr) as Hg.
  unfold parse_floor, canonical. rewrite JsonPred.trim_ends by by apply join_ends.
  rewrite joined_not_hardened, joined_entries, entries_read by done. by rewrite Hv.
Qed.

(** ** At concrete envelopes *)

Definition strict : IsolationSpec :=
  {| runtime_class := Some $"gvisor.v2"; seccomp := Some RuntimeDefault; read_only_root_fs := Some true;
     no_new_privileges := None; drop_all_capabilities := Some false; run_as_non_root := Some true;
     run_as_user := Some 1000%Z; service_account_token := Some false;
     network := Some (NetAllow $"pypi-mirror") |}.

Lemma canonical_read_back_witness :
  (validate strict = Ok tt /\ Is_true (bool_decide (default 0%Z (run_as_user strict) <= I64_MAX)%Z))
  /\ parse_floor (canonical strict) = Ok strict.
Proof.
  split; [by vm_compute|]. apply (canonical_read_back strict).
  - by vm_compute.
  - intros u Hu. injection Hu as Hu. rewrite <- Hu. apply Z.leb_le. reflexivity.
Defined.

Example strict_text : canonical strict = join [NL]
  [$"drop_all_capabilities=false"; $"network=allow:pypi-mirror"; $"read_only_root_fs=true";
   $"run_as_non_root=true"; $"run_as_user=1000"; $"runtime_class=gvisor.v2"; $"seccomp=runtime_default";
   $"service_account_token=false"].
Proof. reflexivity. Qed.
End IsolationFacts.
