(* ===== verification/Workspace.v ===== *)
(** * The directory a task starts in ([dagron-core/src/workspace.rs])

    What a workspace may name: its size, its checkout, the directories it keeps between
    runs, and the actions fetched beside it.  Of a refusal the place and the kind are kept,
    not its wording. *)

From S2P Require Import Prelude Spec.

Module Workspace.

Import Spec.

Definition MAX_ACTIONS : nat := 32.
Definition TOOLS : list str := [$"node"].
Definition MAX_CACHES : nat := 8.
Definition MAX_CACHE_PATHS : nat := 16.
Definition MAX_CACHE_KEY_FILES : nat := 32.
Definition U128_MAX : N := 2 ^ 128 - 1.

Inductive repository_error := RepositoryParameter | RepositoryScheme | RepositorySpace
| RepositoryUser | RepositoryHost | RepositoryPath.
Inductive commit_error := CommitParameter | CommitId.

Inductive workspace_error :=
| CheckoutRepository (why : repository_error)
| CheckoutCommit (why : commit_error)
| ActionRepository (why : repository_error)
| ActionRef | ActionPath
| CachePrefix | CacheNoPaths | CacheTooManyPaths | CacheTooManyKeys
| CacheLength (what v : str) | CacheParameter (what v : str) | CacheControl (what v : str)
| CacheClimbs (path : str) | CacheKeyOutside (file : str) | CacheRestoreFrom
| TooManyCaches | CacheTwice (prefix : str)
| UnknownTool (tool : str) | ToolTwice (tool : str)
| TooManyActions | ActionsNested (other path : str)
| SizeZero | NotSize.

(** ** Repositories, commits and refs *)

(** [is_port] *)
Definition is_port (p : str) : bool :=
  negb (bool_decide (p = [])) && (length p <=? 5)%nat && forallb is_digit p
  && match parse_u32 p with Some n => (1 <=? n)%N && (n <=? 65535)%N | None => false end.

(** The host of a URL's authority, and its port. *)
Definition host_ok (authority : str) : bool :=
  match strip_prefix $"[" authority with
  | Some v6 =>
      match split_once $"]" v6 with
      | Some (addr, after) =>
          negb (bool_decide (addr = []))
          && forallb (fun c => is_hexdigit c || ch c ":" || ch c ".") addr
          && (bool_decide (after = [])
              || match strip_prefix $":" after with Some p => is_port p | None => false end)
      | None => false
      end
  | None =>
      let (host, port) := match split_once $":" authority with
                          | Some (host, port) => (host, Some port)
                          | None => (authority, None)
                          end in
      negb (bool_decide (host = [])) && forallb (fun c => is_alnum c || ch c "." || ch c "-") host
      && match port with Some p => is_port p | None => true end
  end.

Definition climbs (path : str) : bool := existsb (fun seg => bool_decide (seg = $"..")) (split_char "/" path).

(** [check_repository] *)
Definition check_repository (url : str) : result repository_error unit :=
  if contains $"{{" url then Err RepositoryParameter
  else
    let? rest := ok_or RepositoryScheme
                   (match strip_prefix $"https://" url with
                    | Some r => Some r
                    | None => strip_prefix $"http://" url
                    end) in
    if any_ws url || any_ctl url then Err RepositorySpace
    else
      let (authority, path) := default (rest, []) (split_once $"/" rest) in
      if contains_char "@" authority then Err RepositoryUser
      else if negb (host_ok authority) then Err RepositoryHost
      else if bool_decide (path = []) || contains_char "?" path || contains_char "#" path
              || contains_char "\" path || climbs path
           then Err RepositoryPath
      else Ok tt.

Definition lower_hex (c : ascii) : bool := is_digit c || in_range 97 102 c.

(** [check_commit] *)
Definition check_commit (id : str) : result commit_error unit :=
  if contains $"{{" id then Err CommitParameter
  else if ((length id =? 40)%nat || (length id =? 64)%nat) && forallb lower_hex id then Ok tt
  else Err CommitId.

Definition ref_char (c : ascii) : bool := is_alnum c || ch c "." || ch c "_" || ch c "-" || ch c "/".

(** [check_ref]: whether it is one. *)
Definition check_ref (name : str) : bool :=
  negb (bool_decide (name = [])) && (length name <=? 255)%nat && forallb ref_char name
  && negb (starts_with $"-" name || starts_with $"/" name || starts_with $"." name)
  && negb (ends_with $"/" name || ends_with $"." name)
  && negb (ends_with $".lock" name) && negb (contains $".." name)
  && negb (contains $"//" name) && negb (contains $"/." name).

(** ** The parts of a workspace *)

(** [CheckoutSpec::validate] *)
Definition validate_checkout (c : CheckoutSpec) : result workspace_error unit :=
  let? _ := map_err CheckoutRepository (check_repository (co_repository c)) in
  map_err CheckoutCommit (check_commit (commit c)).

Definition action_char (c : ascii) : bool := is_alnum c || ch c "." || ch c "_" || ch c "-" || ch c "%".
(** One name of an action's path. *)
Definition named (part : str) : bool :=
  negb (bool_decide (part = [])) && negb (bool_decide (part = $"."))
  && negb (bool_decide (part = $"..")) && forallb action_char part.

(** [ActionSpec::validate] *)
Definition validate_action (a : ActionSpec) : result workspace_error unit :=
  let? _ := map_err ActionRepository (check_repository (ac_repository a)) in
  if negb (check_ref (ac_ref a)) then Err ActionRef
  else if bool_decide (ac_path a = []) || (512 <? length (ac_path a))%nat
          || negb (forallb named (split_char "/" (ac_path a)))
       then Err ActionPath
  else Ok tt.

Definition prefix_char (c : ascii) : bool := is_alnum c || ch c "." || ch c "_" || ch c "-".

(** A path or a key file of a cache, whichever it names. *)
Definition cache_plain (what v : str) : result workspace_error unit :=
  if bool_decide (v = []) || (1024 <? length v)%nat then Err (CacheLength what v)
  else if contains $"{{" v then Err (CacheParameter what v)
  else if any_ctl v then Err (CacheControl what v)
  else Ok tt.

(** [PathCacheSpec::validate] *)
Definition validate_cache (c : PathCacheSpec) : result workspace_error unit :=
  if bool_decide (prefix c = []) || (64 <? length (prefix c))%nat || negb (forallb prefix_char (prefix c))
  then Err CachePrefix
  else if bool_decide (paths c = []) then Err CacheNoPaths
  else if (MAX_CACHE_PATHS <? length (paths c))%nat then Err CacheTooManyPaths
  else if (MAX_CACHE_KEY_FILES <? length (key_files c))%nat then Err CacheTooManyKeys
  else
    let? _ := for_each (fun path => let? _ := cache_plain $"path" path in
                                    if climbs path then Err (CacheClimbs path) else Ok tt) (paths c) in
    let? _ := for_each (fun file => let? _ := cache_plain $"key file" file in
                                    if starts_with $"/" file || climbs file
                                    then Err (CacheKeyOutside file) else Ok tt) (key_files c) in
    match restore_from c with
    | Some from =>
        if (255 <? length from)%nat || contains $"{{" from || any_ctl from || any_ws from
        then Err CacheRestoreFrom else Ok tt
    | None => Ok tt
    end.

(** ** A size *)

(** The unit of a size, as a number of bytes. *)
Definition multiplier (suffix : str) : option N :=
  if bool_decide (suffix = []) then Some 1%N
  else if bool_decide (suffix = $"Ki") then Some (2 ^ 10)%N
  else if bool_decide (suffix = $"Mi") then Some (2 ^ 20)%N
  else if bool_decide (suffix = $"Gi") then Some (2 ^ 30)%N
  else if bool_decide (suffix = $"Ti") then Some (2 ^ 40)%N
  else if bool_decide (suffix = $"Pi") then Some (2 ^ 50)%N
  else if bool_decide (suffix = $"Ei") then Some (2 ^ 60)%N
  else if bool_decide (suffix = $"k") then Some (10 ^ 3)%N
  else if bool_decide (suffix = $"M") then Some (10 ^ 6)%N
  else if bool_decide (suffix = $"G") then Some (10 ^ 9)%N
  else if bool_decide (suffix = $"T") then Some (10 ^ 12)%N
  else if bool_decide (suffix = $"P") then Some (10 ^ 15)%N
  else if bool_decide (suffix = $"E") then Some (10 ^ 18)%N
  else None.

Definition number_char (c : ascii) : bool := is_digit c || ch c ".".

(** The number a size begins with, and what follows it. *)
Fixpoint split_number (s : str) : str * str :=
  match s with
  | [] => ([], [])
  | c :: t => if number_char c then let (n, r) := split_number t in (c :: n, r) else ([], s)
  end.

(** A part of a number; none written is zero. *)
Definition parse_part (s : str) : option N :=
  if bool_decide (s = []) then Some 0%N else parse_unsigned U128_MAX s.

Definition checked (n : N) : option N := if (n <=? U128_MAX)%N then Some n else None.

(** [quantity_bytes] *)
Definition quantity_bytes (raw : str) : option N :=
  let (number, suffix) := split_number raw in
  let* mult := multiplier suffix in
  let (whole, fraction) := default (number, []) (split_once $"." number) in
  if (bool_decide (whole = []) && bool_decide (fraction = [])) || contains_char "." fraction then None
  else if (18 <? length fraction)%nat then None
  else
    let scale := (10 ^ N.of_nat (length fraction))%N in
    let* w := parse_part whole in
    let* w := checked (w * scale) in
    let* f := parse_part fraction in
    let* scaled := checked (w + f) in
    let* bytes := checked (scaled * mult) in
    Some ((bytes + (scale - 1)) / scale)%N.

(** [WorkspaceSpec::size_bytes] *)
Definition size_bytes (w : WorkspaceSpec) : option N := let* s := ws_size w in quantity_bytes s.

(** ** A workspace *)

(** The caches, each by itself and no two of one prefix. *)
Fixpoint validate_caches (seen : list str) (l : list PathCacheSpec) : result workspace_error unit :=
  match l with
  | [] => Ok tt
  | c :: l =>
      let? _ := validate_cache c in
      if bool_decide (prefix c ∈ seen) then Err (CacheTwice (prefix c))
      else validate_caches (prefix c :: seen) l
  end.

(** The tools; [seen] is those before. *)
Fixpoint validate_tools (seen : list str) (l : list str) : result workspace_error unit :=
  match l with
  | [] => Ok tt
  | t :: l =>
      if negb (bool_decide (t ∈ TOOLS)) then Err (UnknownTool t)
      else if bool_decide (t ∈ seen) then Err (ToolTwice t)
      else validate_tools (seen ++ [t]) l
  end.

(** [a] is [b], or is under it. *)
Definition within (a b : str) : bool := bool_decide (a = b) || starts_with (b ++ $"/") a.
Definition nested (a o : ActionSpec) : bool :=
  within (ac_path a) (ac_path o) || within (ac_path o) (ac_path a).

(** The actions; [seen] is those before. *)
Fixpoint validate_actions (seen : list ActionSpec) (l : list ActionSpec) : result workspace_error unit :=
  match l with
  | [] => Ok tt
  | a :: l =>
      let? _ := validate_action a in
      match List.find (nested a) seen with
      | Some o => Err (ActionsNested (ac_path o) (ac_path a))
      | None => validate_actions (seen ++ [a]) l
      end
  end.

(** [WorkspaceSpec::validate] *)
Definition validate (w : WorkspaceSpec) : result workspace_error unit :=
  let? _ := match checkout w with Some c => validate_checkout c | None => Ok tt end in
  if (MAX_CACHES <? length (ws_cache w))%nat then Err TooManyCaches
  else
    let? _ := validate_caches [] (ws_cache w) in
    let? _ := validate_tools [] (tools w) in
    if (MAX_ACTIONS <? length (actions w))%nat then Err TooManyActions
    else
      let? _ := validate_actions [] (actions w) in
      match ws_size w with
      | Some size =>
          match quantity_bytes size with
          | Some 0%N => Err SizeZero
          | Some _ => Ok tt
          | None => Err NotSize
          end
      | None => Ok tt
      end.
End Workspace.
