(* ===== verification/WorkspaceFacts.v ===== *)
(** * Sizes, and directories that keep apart ([Workspace]) *)

From S2P Require Import Prelude Spec JsonPred SpecFacts Workspace.

Module WorkspaceFacts.

Import Spec Workspace.

(** ** Sizes *)

(** A size as it is written: digits, perhaps a point and more digits, and a unit. *)
Record sized (raw whole fraction suffix : str) (mult : N) : Prop := {
  z_text : exists point, raw = whole ++ point ++ fraction ++ suffix
           /\ (point = ["."%char] \/ (point = [] /\ fraction = []));
  z_whole : forallb is_digit whole = true;
  z_fraction : forallb is_digit fraction = true;
  z_some : whole <> [] \/ fraction <> [];
  z_fine : length fraction <= 18;
  z_unit : multiplier suffix = Some mult }.

Lemma split_number_spec s a b :
  split_number s = (a, b) <->
  s = a ++ b /\ forallb number_char a = true /\ match b with c :: _ => number_char c = false | [] => True end.
Proof.
  revert a b; induction s as [|c s IH]; intros a b; cbn [split_number].
  - split; [by intros [= <- <-]|]. intros (H & _). by destruct a, b.
  - destruct (number_char c) eqn:E.
    + destruct (split_number s) as [n r] eqn:Es. specialize (IH n r) as [IH _]. destruct (IH eq_refl) as (-> & Hn & Hr).
      split.
      * intros [= <- <-]. cbn. by rewrite E, Hn.
      * intros (H & Ha & Hb). destruct a as [|c' a]; [cbn in H; subst b; congruence|].
        injection H as <- H. cbn in Ha. rewrite E in Ha. cbn in Ha.
        enough (n = a /\ r = b) as [-> ->] by done.
        revert a Ha H; clear IH Es. induction n as [|x n IHn]; intros a Ha H.
        -- destruct a as [|y a]; [done|]. cbn in H, Ha. subst r. apply andb_true_iff in Ha as [Ha _]. congruence.
        -- cbn in Hn. apply andb_true_iff in Hn as [Hx Hn]. destruct a as [|y a].
           ++ cbn in H. subst b. congruence.
           ++ injection H as <- H. cbn in Ha. rewrite Hx in Ha. cbn in Ha.
              destruct (IHn Hn a Ha H) as [-> ->]. done.
    + split.
      * intros [= <- <-]. done.
      * intros (H & Ha & Hb). destruct a as [|c' a]; [cbn in H; by subst b|].
        injection H as <- H. cbn in Ha. by rewrite E in Ha.
Qed.

Lemma unit_head suffix mult : multiplier suffix = Some mult ->
  (1 <= mult)%N /\ match suffix with c :: _ => number_char c = false | [] => True end.
Proof.
  unfold multiplier. intros H.
  repeat match type of H with (if bool_decide ?P then _ else _) = _ =>
    destruct (decide P) as [->|];
      [rewrite bool_decide_true in H by reflexivity; injection H as <-; by vm_compute
      |rewrite bool_decide_false in H by assumption] end.
  done.
Qed.

Lemma digit_number c : is_digit c = true -> number_char c = true /\ ch "." c = false.
Proof. destruct c as [[] [] [] [] [] [] [] []]; vm_compute; done. Qed.

Lemma parse_part_spec s : forallb is_digit s = true ->
  parse_part s = if (digits_val 0 s <=? U128_MAX)%N then Some (digits_val 0 s) else None.
Proof.
  intros Hs. unfold parse_part. case_bool_decide as E; [by rewrite E|].
  unfold parse_unsigned. destruct s as [|c s]; [done|].
  assert (ch c "+" = false) as ->.
  { cbn in Hs. apply andb_true_iff in Hs as [Hc _]. destruct c as [[] [] [] [] [] [] [] []]; vm_compute in *; done. }
  unfold parse_digits. by rewrite Hs.
Qed.

Lemma parse_part_digits s : contains_char "." s = false -> forallb number_char s = true ->
  forallb is_digit s = true.
Proof.
  intros Hd Hn. apply forallb_forall. intros c Hc. rewrite forallb_forall in Hn. specialize (Hn _ Hc).
  unfold number_char in Hn. apply orb_true_iff in Hn as [?|Hp]; [done|]. exfalso.
  apply contains_char_false in Hd. apply Hd. apply ch_eq in Hp as ->. by apply list_elem_of_In.
Qed.

Lemma point_split s :
  match split_once $"." s with
  | Some (a, b) => s = a ++ "."%char :: b /\ contains_char "." a = false
  | None => contains_char "." s = false
  end.
Proof.
  destruct (split_once $"." s) as [[a b]|] eqn:E.
  - pose proof (split_once_Some _ _ _ _ E) as [H1 H2]. split; [done|].
    apply contains_char_false. intros (a1 & a2 & Ha)%list_elem_of_split.
    assert (length a <= length a1) as Hl by (apply (H2 a1 (a2 ++ "."%char :: b)); rewrite H1, Ha; by rewrite <- app_assoc).
    rewrite Ha, length_app in Hl. cbn in Hl. lia.
  - apply contains_char_false. intros (a1 & a2 & ->)%list_elem_of_split.
    unfold split_once in E. destruct (find $"." (a1 ++ "."%char :: a2)) as [i|] eqn:Ef; [done|].
    by eapply (find_None $"." _ Ef a1 a2).
Qed.

Lemma digits_val_shift acc s : digits_val acc s = (acc * 10 ^ N.of_nat (length s) + digits_val 0 s)%N.
Proof.
  revert acc; induction s as [|c s IH]; intros acc; [cbn; lia|].
  cbn [length]. rewrite Nat2N.inj_succ, N.pow_succ_r'. unfold digits_val in *. cbn [fold_left].
  rewrite (IH (acc * 10 + digit_val c)%N), (IH (0 * 10 + digit_val c)%N). lia.
Qed.

(** What a size is worth, in units of [10 ^ length fraction]. *)
Definition worth (whole fraction : str) (mult : N) : N := (digits_val 0 (whole ++ fraction) * mult)%N.
Definition scale (fraction : str) : N := (10 ^ N.of_nat (length fraction))%N.

Lemma scale_pos f : (1 <= scale f)%N.
Proof. unfold scale. pose proof (N.pow_nonzero 10 (N.of_nat (length f))). lia. Qed.

Lemma checked_some n m : checked n = Some m <-> n = m /\ (n <= U128_MAX)%N.
Proof. unfold checked. destruct (N.leb_spec n U128_MAX); split; [by intros [= ->]|by intros [-> _]|done|lia]. Qed.

(** The arithmetic of [quantity_bytes]: one check is enough. *)
Lemma checked_worth w f mult n :
  forallb is_digit w = true -> forallb is_digit f = true -> (1 <= mult)%N ->
  (let* a := parse_part w in let* a := checked (a * scale f) in let* b := parse_part f in
   let* c := checked (a + b) in let* d := checked (c * mult) in Some ((d + (scale f - 1)) / scale f)%N) = Some n
  <-> (worth w f mult <= U128_MAX)%N /\ n = ((worth w f mult + (scale f - 1)) / scale f)%N.
Proof.
  intros Hw Hf Hm. rewrite !parse_part_spec by done. pose proof (scale_pos f) as Hs.
  assert (worth w f mult = ((digits_val 0 w * scale f + digits_val 0 f) * mult)%N) as ->
    by (unfold worth, scale; by rewrite digits_val_app, digits_val_shift).
  set (a := digits_val 0 w). set (b := digits_val 0 f). set (k := scale f) in *. clearbody a b k. clear -Hm Hs.
  assert (a <= a * k)%N as L1 by nia.
  assert (a * k + b <= (a * k + b) * mult)%N as L2 by nia.
  unfold checked.
  repeat match goal with |- context [(?x <=? U128_MAX)%N] => destruct (N.leb_spec x U128_MAX); cbv beta iota end;
    (split; [try done; try (intros [= <-]; split; [lia|done]); try (intros; lia)
            |intros [Hfit ->]; first [done | exfalso; lia]]).
Qed.

Lemma digits_no_point s : forallb is_digit s = true -> contains_char "." s = false.
Proof.
  intros Hs. apply contains_char_false. intros Hin%list_elem_of_In.
  rewrite forallb_forall in Hs. by apply Hs in Hin.
Qed.

(** A size is cut where it was put together. *)
Lemma sized_cut number suffix w f suf mult :
  forallb number_char number = true ->
  match suffix with c :: _ => number_char c = false | [] => True end ->
  sized (number ++ suffix) w f suf mult ->
  suffix = suf /\ default (number, []) (split_once $"." number) = (w, f).
Proof.
  intros Hn Hr [(point & Hraw & Hpt) Hw Hf _ _ Hunit].
  assert (forall s, forallb is_digit s = true -> forallb number_char s = true) as Hd
    by (intros s; apply forallb_impl; intros c Hc; by apply digit_number).
  assert (number = w ++ point ++ f /\ suffix = suf) as [-> ->].
  { assert (split_number (number ++ suffix) = (w ++ point ++ f, suf)) as E1.
    { apply split_number_spec. rewrite Hraw. split_and!; [by rewrite <- !app_assoc| |by eapply unit_head].
      rewrite !forallb_app, (Hd w), (Hd f) by done. by destruct Hpt as [->|[-> _]]. }
    assert (split_number (number ++ suffix) = (number, suffix)) as E2 by by apply split_number_spec.
    rewrite E1 in E2. by injection E2. }
  split; [done|]. destruct Hpt as [->|[-> ->]].
  - change $"." with ["."%char]. rewrite JsonPred.split_once_at; [done|]. by apply contains_char_false, digits_no_point.
  - rewrite app_nil_r. cbn [app]. pose proof (point_split w) as Hp.
    destruct (split_once $"." w) as [[x y]|]; [|done]. destruct Hp as [Hp _]. exfalso.
    apply digits_no_point, contains_char_false in Hw. apply Hw. rewrite Hp. set_solver.
Qed.

Lemma ceiling n x k : (1 <= k)%N -> n = ((x + (k - 1)) / k)%N <-> (x <= n * k < x + k)%N.
Proof.
  intros Hk. split.
  - intros ->. pose proof (N.div_mod' (x + (k - 1)) k). pose proof (N.mod_lt (x + (k - 1)) k ltac:(lia)).
    generalize dependent ((x + (k - 1)) / k)%N. generalize dependent ((x + (k - 1)) mod k)%N.
    intros r Hr q Hq. rewrite (N.mul_comm q k). revert Hq. generalize (k * q)%N. intros. lia.
  - intros H. apply (N.div_unique _ _ _ (x + (k - 1) - n * k)); lia.
Qed.

(** A size is what it says, in whole bytes, rounded up and never wrapped.  It is read
    exactly when it is digits, perhaps a point and at most eighteen more, and a unit, and
    what it says fits the 128 bits it is computed in; then it is the least number of bytes
    that is no less. *)
Theorem size_exact (raw : str) (n : N) :
  quantity_bytes raw = Some n <->
  exists whole fraction suffix mult,
    sized raw whole fraction suffix mult
    /\ (worth whole fraction mult <= U128_MAX)%N
    /\ (worth whole fraction mult <= n * scale fraction < worth whole fraction mult + scale fraction)%N.
Proof.
  unfold quantity_bytes. destruct (split_number raw) as [number suffix] eqn:E.
  apply split_number_spec in E as (-> & Hn & Hr). split.
  - destruct (multiplier suffix) as [mult|] eqn:Em; [|done].
    pose proof (point_split number) as Hp.
    destruct (split_once $"." number) as [[w f]|]; cbv beta iota delta [from_option id].
    + destruct Hp as [-> Hw]. rewrite forallb_app in Hn. apply andb_true_iff in Hn as [Hnw Hnf].
      cbn in Hnf.
      destruct (_ || _) eqn:Eb; [done|]. apply orb_false_iff in Eb as [Eb Ef].
      destruct (18 <? length f)%nat eqn:El; [done|]. apply Nat.ltb_ge in El.
      apply parse_part_digits in Hw, Ef; [|done..]. intros H.
      apply checked_worth in H as [H1 H2]; [|done..|by eapply unit_head].
      exists w, f, suffix, mult. split_and!; [|done|apply ceiling; [apply scale_pos|done]..].
      split; try done.
      * exists ["."%char]. split; [|by left]. by rewrite <- app_assoc.
      * apply andb_false_iff in Eb as [Eb|Eb]; apply bool_decide_eq_false in Eb; auto.
    + destruct (_ || _) eqn:Eb; [done|]. apply orb_false_iff in Eb as [Eb _]. cbn [length Nat.ltb Nat.leb].
      apply parse_part_digits in Hp; [|done]. intros H.
      apply (checked_worth number [] mult n) in H as [H1 H2]; [|done..|by eapply unit_head].
      exists number, [], suffix, mult. split_and!; [|done|apply ceiling; [apply scale_pos|done]..].
      split; try done; [| |cbn; lia].
      * exists []. split; [done|by right].
      * left. intros ->. done.
  - intros (w & f & suf & mult & Hz & H1 & H2).
    destruct (sized_cut _ _ _ _ _ _ Hn Hr Hz) as [-> ->]. destruct Hz as [_ Hw Hf Hsome Hfine Hunit].
    rewrite Hunit, (digits_no_point f Hf), orb_false_r.
    assert (bool_decide (w = []) && bool_decide (f = []) = false) as ->.
    { apply andb_false_iff. destruct Hsome; [left|right]; by apply bool_decide_eq_false. }
    assert ((18 <? length f)%nat = false) as -> by by apply Nat.ltb_ge.
    apply checked_worth; [done..|by eapply unit_head|]. split; [done|]. apply ceiling; [apply scale_pos|done].
Qed.

(** ** Directories *)

(** Where a path leads from a directory: what a kernel makes of its segments where no
    link is on the way. *)
Definition walk (dir : list str) (path : str) : list str :=
  fold_left (fun dir seg => if bool_decide (seg = []) || bool_decide (seg = $".") then dir
                            else if bool_decide (seg = $"..") then removelast dir
                            else dir ++ [seg]) (split_char "/" path) dir.

Lemma walk_down (dir : list str) (path : str) : climbs path = false ->
  walk dir path = dir ++ List.filter (fun seg => negb (bool_decide (seg = []) || bool_decide (seg = $"."))) (split_char "/" path).
Proof.
  unfold walk, climbs. generalize (split_char "/" path). intros l. revert dir.
  induction l as [|seg l IH]; intros dir H; cbn [fold_left List.filter existsb] in *; [by rewrite app_nil_r|].
  apply orb_false_iff in H as [H1 H2]. rewrite H1.
  destruct (bool_decide (seg = []) || bool_decide (seg = $".")); cbn [negb]; rewrite IH by done; [done|].
  by rewrite <- app_assoc.
Qed.

Lemma walk_named dir path : forallb named (split_char "/" path) = true ->
  walk dir path = dir ++ split_char "/" path.
Proof.
  intros H. rewrite forallb_forall in H. rewrite walk_down.
  - f_equal. induction (split_char "/" path) as [|seg l IH]; [done|]. cbn [List.filter].
    assert (named seg = true) as Hs by (apply H; by left).
    unfold named in Hs. rewrite !andb_true_iff, !negb_true_iff in Hs. destruct Hs as [[[-> ->] _] _]. cbn [orb negb].
    f_equal. apply IH. intros x Hx. apply H. by right.
  - unfold climbs. apply not_true_iff_false. intros (seg & Hin & Hseg)%existsb_exists.
    apply H in Hin. apply bool_decide_eq_true in Hseg as ->. done.
Qed.

(** One directory is in another, or is it. *)
Lemma nested_prefix a b : split_char "/" b `prefix_of` split_char "/" a -> within a b = true.
Proof.
  intros [r Hr]. unfold within. rewrite <- (join_split_char "/" a), Hr.
  assert (forall l, l <> [] -> forall r, r <> [] -> join $"/" (l ++ r) = join $"/" l ++ $"/" ++ join $"/" r) as Hj.
  { clear. induction l as [|x l IH]; [done|]. intros _ r Hr. destruct l as [|y l].
    - by destruct r.
    - change (join $"/" ((x :: y :: l) ++ r)) with (x ++ $"/" ++ join $"/" ((y :: l) ++ r)).
      rewrite IH by done. change (join $"/" (x :: y :: l)) with (x ++ $"/" ++ join $"/" (y :: l)).
      by rewrite <- !app_assoc. }
  destruct (decide (r = [])) as [->|Hne].
  - rewrite app_nil_r. apply orb_true_iff. left. apply bool_decide_eq_true. apply join_split_char.
  - apply orb_true_iff. right. change ["/"%char] with $"/". rewrite Hj by (done || apply split_char_nonempty).
    change $"/" with ["/"%char] at 2. rewrite join_split_char.
    apply starts_with_spec. exists (join $"/" r). by rewrite <- app_assoc.
Qed.

Lemma validate_actions_spec seen l :
  validate_actions seen l = Ok tt ->
  Forall (fun a => validate_action a = Ok tt) l
  /\ (forall i j a b, (seen ++ l) !! i = Some a -> l !! j = Some b -> (i < length seen + j)%nat ->
       nested b a = false).
Proof.
  revert seen; induction l as [|a l IH]; intros seen; cbn [validate_actions].
  - intros _. split; [done|]. intros i j x y _ Hj. by rewrite lookup_nil in Hj.
  - destruct (validate_action a) as [[]|] eqn:E; [|done].
    destruct (List.find (nested a) seen) eqn:Ef; [done|]. intros H. apply IH in H as [H1 H2].
    split; [by constructor|]. intros i j x y Hi Hj Hlt. destruct j as [|j].
    + cbn in Hj. injection Hj as <-. rewrite lookup_app_l in Hi by lia.
      apply list_elem_of_lookup_2, list_elem_of_In in Hi. by eapply find_none in Ef.
    + apply (H2 i j x y); [by rewrite <- app_assoc|done|]. rewrite length_app. cbn. lia.
Qed.

Lemma validate_caches_spec seen l :
  validate_caches seen l = Ok tt ->
  Forall (fun c => validate_cache c = Ok tt) l /\ NoDup (map prefix l).
Proof.
  revert seen; induction l as [|c l IH]; intros seen; cbn [validate_caches]; [by repeat constructor|].
  destruct (validate_cache c) as [[]|] eqn:E; [|done]. case_bool_decide as Hin; [done|]. intros H.
  pose proof (IH _ H) as [H1 H2]. cbn [map]. split; constructor; [done..| |done].
  clear -H. assert (prefix c ∈ prefix c :: seen) as Hs by left. revert H Hs. generalize (prefix c :: seen).
  induction l as [|d l IH]; intros s H Hs; cbn [map]; [by intros ?%elem_of_nil|].
  cbn [validate_caches] in H. destruct (validate_cache d) as [[]|]; [|done].
  case_bool_decide as Hd; [done|]. rewrite not_elem_of_cons. split; [by intros Heq; rewrite Heq in Hs|].
  eapply IH; [exact H|by right].
Qed.

Lemma action_named a : validate_action a = Ok tt -> forallb named (split_char "/" (ac_path a)) = true.
Proof.
  unfold validate_action. destruct (map_err _ _) as [[]|]; [|done].
  destruct (check_ref _); [|done]. cbn [negb].
  destruct (forallb named _); [done|]. by rewrite orb_true_r.
Qed.

Lemma cache_paths c path :
  validate_cache c = Ok tt -> path ∈ paths c ++ key_files c ->
  climbs path = false /\ (path ∈ key_files c -> starts_with $"/" path = false).
Proof.
  unfold validate_cache. intros H Hin.
  destruct (_ || _ || _); [done|]. destruct (bool_decide _); [done|]. do 2 (destruct (_ <? _)%nat; [done|]).
  destruct (for_each _ (paths c)) as [[]|] eqn:Ep; [|done].
  destruct (for_each _ (key_files c)) as [[]|] eqn:Ek; [|done]. clear H.
  apply for_each_ok in Ep, Ek. rewrite Forall_forall in Ep, Ek.
  assert (path ∈ key_files c -> climbs path = false /\ starts_with $"/" path = false) as Hk.
  { intros H%Ek. destruct (cache_plain _ _) as [[]|]; [|done]. by destruct (starts_with _ _), (climbs _). }
  split; [|intros Hx; by apply Hk in Hx as [_ ?]].
  apply elem_of_app in Hin as [Hin|Hin]; [|by apply Hk in Hin as [? _]].
  apply Ep in Hin. destruct (cache_plain _ _) as [[]|]; [|done]. by destruct (climbs _).
Qed.

(** C33: the directories of an accepted workspace stay where they are put.  Wherever the
    actions' directory is, each action's path leads to a directory under it, and no two
    lead one into the other; a path or a key file of a cache never climbs out of the
    directory it is taken from, and a key file is relative; no two caches share a
    prefix. *)
Theorem workspace_dirs (w : WorkspaceSpec) (dir : list str) :
  validate w = Ok tt ->
  (forall a, a ∈ actions w -> walk dir (ac_path a) = dir ++ split_char "/" (ac_path a))
  /\ (forall i j a b, actions w !! i = Some a -> actions w !! j = Some b -> i <> j ->
       ~ walk dir (ac_path a) `prefix_of` walk dir (ac_path b))
  /\ (forall c path, c ∈ ws_cache w -> path ∈ paths c ++ key_files c ->
       dir `prefix_of` walk dir path /\ (path ∈ key_files c -> starts_with $"/" path = false))
  /\ NoDup (map prefix (ws_cache w)).
Proof.
  unfold validate. match goal with |- match ?x with _ => _ end = _ -> _ => destruct x as [[]|]; [|done] end.
  destruct (_ <? _)%nat; [done|]. destruct (validate_caches [] (ws_cache w)) as [[]|] eqn:Ec; [|done].
  destruct (validate_tools _ _) as [[]|]; [|done]. destruct (_ <? _)%nat; [done|].
  destruct (validate_actions [] (actions w)) as [[]|] eqn:Ea; [|done]. intros _.
  apply validate_actions_spec in Ea as [Ea Hn]. apply validate_caches_spec in Ec as [Ec Hd].
  rewrite Forall_forall in Ea. rewrite Forall_forall in Ec.
  assert (forall a, a ∈ actions w -> walk dir (ac_path a) = dir ++ split_char "/" (ac_path a)) as Hw
    by (intros a Ha; by apply walk_named, action_named, Ea).
  split_and!; [done| | |done].
  - intros i j a b Hi Hj Hij Hp.
    rewrite (Hw a), (Hw b) in Hp by by eapply list_elem_of_lookup_2.
    apply prefix_app_inv, nested_prefix in Hp.
    destruct (decide (i < j)%nat).
    + pose proof (Hn i j a b Hi Hj ltac:(cbn; lia)) as H. unfold nested in H. by rewrite Hp in H.
    + pose proof (Hn j i b a Hj Hi ltac:(cbn; lia)) as H. unfold nested in H. by rewrite Hp, orb_true_r in H.
  - intros c path Hc Hin. destruct (cache_paths c path (Ec c Hc) Hin) as [H1 H2].
    split; [|done]. rewrite walk_down by done. by eexists.
Qed.

(** ** At concrete workspaces *)

Definition two_actions : WorkspaceSpec :=
  {| ws_size := Some $"1.5Gi"; checkout := None;
     ws_cache := [{| prefix := $"cargo"; key_files := [$"a/./Cargo.lock"]; paths := [$"/usr/local/cargo"];
                     restore_from := None |}];
     actions := [{| ac_repository := $"https://example.com/o/r"; ac_ref := $"v4"; ac_path := $"o/r/v4";
                    credential := false |};
                 {| ac_repository := $"https://example.com/o/r"; ac_ref := $"v5"; ac_path := $"o/r/v5";
                    credential := false |}];
     tools := [$"node"] |}.

Lemma workspace_dirs_witness :
  validate two_actions = Ok tt
  /\ ~ walk [$"dagron"] $"o/r/v4" `prefix_of` walk [$"dagron"] $"o/r/v5"
  /\ [$"ws"] `prefix_of` walk [$"ws"] $"a/./Cargo.lock".
Proof.
  split; [by vm_compute|]. split.
  - apply (proj1 (proj2 (workspace_dirs two_actions [$"dagron"] ltac:(by vm_compute))) 0%nat 1%nat _ _ eq_refl eq_refl).
    done.
  - apply (proj1 (proj2 (proj2 (workspace_dirs two_actions [$"ws"] ltac:(by vm_compute))))
             {| prefix := $"cargo"; key_files := [$"a/./Cargo.lock"]; paths := [$"/usr/local/cargo"]; restore_from := None |}).
    + by left.
    + right. by left.
Defined.

Example sizes : map quantity_bytes [$"20Gi"; $"1.5Gi"; $".5Ki"; $"1."; $"0.1"; $"."; $"1.2.3"; $"1e3"; $"999999999999999999999999Ei"]
  = [Some (20 * 2 ^ 30); Some (3 * 2 ^ 29); Some 512; Some 1; Some 1; None; None; None; None]%N.
Proof. by vm_compute. Qed.
End WorkspaceFacts.
