(* ===== verification/Service.v ===== *)
(** * What a task is given beside its command

    Its services and its Docker daemon ([dagron-core/src/service.rs], [docker_daemon.rs]),
    its identity and its forge token ([oidc.rs], [forge_token.rs]), and the tokens it says
    it spent ([tokens.rs]).  Of a refusal the place and the kind are kept, not its
    wording. *)

From stdpp Require Import sorting.
From S2P Require Import Prelude Spec Isolation.

Module Service.

Import Spec.

(** ** Services *)

Definition MAX_SERVICES : nat := 8.
Definition DEFAULT_READY_TIMEOUT_SECS : N := 60.
Definition MAX_READY_TIMEOUT_SECS : N := 600.
Definition MAX_NAME_LEN : nat := 40.

Inductive image_error := ImageParameter | ImageName.

Inductive service_error :=
| ServiceName | ServiceLocalhost
| ServiceImage (name : str) (why : image_error)
| ServiceVariable (name var : str) | ServiceSecret (name var : str) | ServiceVariableTwice (name var : str)
| ReadyEmpty (name : str) | ReadyNoProgram (name : str) | TimeoutWithoutReady (name : str)
| ReadyTimeout (name : str)
| TooManyServices | ServiceTwice (name : str).

Definition label_char (c : ascii) : bool := is_lower c || is_digit c || ch c "-".

(** [check_name] *)
Definition check_name (name : str) : result service_error unit :=
  let shaped := match name with
                | [] => false
                | c :: rest => is_lower c && forallb label_char rest
                end && negb (ends_with $"-" name) && (length name <=? MAX_NAME_LEN)%nat in
  if negb shaped then Err ServiceName
  else if bool_decide (name = $"localhost") then Err ServiceLocalhost
  else Ok tt.

(** [check_image] *)
Definition check_image (image : str) : result image_error unit :=
  if contains $"{{" image then Err ImageParameter
  else if bool_decide (image = []) || (512 <? length image)%nat || any_ws image || any_ctl image
       then Err ImageName
  else Ok tt.

(** [is_variable] *)
Definition is_variable (name : str) : bool :=
  match name with
  | [] => false
  | c :: rest => (is_alpha c || ch c "_") && forallb (fun c => is_alnum c || ch c "_") rest
  end.

(** [Ready::argv] *)
Definition argv (r : ServiceReady) : list str :=
  match r with Shell line => [$"sh"; $"-c"; line] | Exec argv => argv end.

(** [ServiceSpec::ready_timeout] *)
Definition ready_timeout (s : ServiceSpec) : N := default DEFAULT_READY_TIMEOUT_SECS (ready_timeout_secs s).

(** The variables of a service, each by itself and none twice. *)
Fixpoint validate_variables (name : str) (seen : list str) (l : list EnvVar) : result service_error unit :=
  match l with
  | [] => Ok tt
  | var :: l =>
      if negb (is_variable (ev_name var)) then Err (ServiceVariable name (ev_name var))
      else if negb (bool_decide (value_from var = None)) then Err (ServiceSecret name (ev_name var))
      else if bool_decide (ev_name var ∈ seen) then Err (ServiceVariableTwice name (ev_name var))
      else validate_variables name (ev_name var :: seen) l
  end.

(** [ServiceSpec::validate] *)
Definition validate_service (s : ServiceSpec) : result service_error unit :=
  let? _ := check_name (sv_name s) in
  let? _ := map_err (ServiceImage (sv_name s)) (check_image (image s)) in
  let? _ := validate_variables (sv_name s) [] (sv_env s) in
  let? _ := match sv_ready s with
            | Some (Shell line) =>
                if bool_decide (trim line = []) then Err (ReadyEmpty (sv_name s)) else Ok tt
            | Some (Exec argv) =>
                match argv with
                | program :: _ =>
                    if bool_decide (trim program = []) then Err (ReadyNoProgram (sv_name s)) else Ok tt
                | [] => Err (ReadyNoProgram (sv_name s))
                end
            | None =>
                if negb (bool_decide (ready_timeout_secs s = None)) then Err (TimeoutWithoutReady (sv_name s))
                else Ok tt
            end in
  match ready_timeout_secs s with
  | Some secs =>
      if negb ((1 <=? secs)%N && (secs <=? MAX_READY_TIMEOUT_SECS)%N) then Err (ReadyTimeout (sv_name s))
      else Ok tt
  | None => Ok tt
  end.

Fixpoint validate_each (seen : list str) (l : list ServiceSpec) : result service_error unit :=
  match l with
  | [] => Ok tt
  | s :: l =>
      let? _ := validate_service s in
      if bool_decide (sv_name s ∈ seen) then Err (ServiceTwice (sv_name s))
      else validate_each (sv_name s :: seen) l
  end.

(** [validate] *)
Definition validate_services (l : list ServiceSpec) : result service_error unit :=
  if (MAX_SERVICES <? length l)%nat then Err TooManyServices else validate_each [] l.

(** [not_run_locally]: the service it names. *)
Definition not_run_locally (l : list ServiceSpec) : option str := option_map sv_name (head l).

(** ** The Docker daemon *)

Definition DAEMON_NAME : str := $"docker".
Definition DAEMON_HOST : str := $"tcp://127.0.0.1:2375".
Definition DEFAULT_IMAGE : str := $"docker.io/library/docker:27-dind".
Definition OWN_PATHS : list str := [$"/var/run"; $"/run"; $"/var/lib/docker"].
Definition READY_TIMEOUT_SECS : N := 120.

Inductive daemon_error := NoDaemonOffered | NotRuntime | NotSysbox | DaemonImage (why : image_error) | NotGate.

(** [runtime] *)
Definition runtime (value : option str) (offered : bool) : result daemon_error (option str) :=
  let name := default [] (option_map trim value) in
  if bool_decide (name = []) then Ok None
  else if negb offered then Err NoDaemonOffered
  else if negb ((length name <=? 64)%nat
                && forallb (fun c => is_alnum c || ch c "-" || ch c "_" || ch c ".") name)
       then Err NotRuntime
  else if negb (starts_with $"sysbox" name) then Err NotSysbox
  else Ok (Some name).

(** [owns] *)
Definition owns (target : str) : bool :=
  let target := trim_end_char "/" target in
  existsb (fun own => bool_decide (target = own) || starts_with (own ++ $"/") target) OWN_PATHS.

(** [offered] *)
Definition offered (gate image : option str) : result daemon_error (option str) :=
  let gate := default [] (option_map trim gate) in
  if bool_decide (gate = []) then Ok None
  else if bool_decide (gate = $"dind") then
    let image := match option_map trim image with
                 | Some [] | None => DEFAULT_IMAGE
                 | Some i => i
                 end in
    let? _ := map_err DaemonImage (check_image image) in
    Ok (Some image)
  else Err NotGate.

(** [refusal]: whether an engine starts no daemon. *)
Definition daemon_refused (executor : Isolation.ExecutorKind) (offered : option str) : bool :=
  match executor with
  | Isolation.Docker => bool_decide (offered = None)
  | Isolation.Kubernetes | Isolation.Local_ => true
  end.

(** [service] *)
Definition daemon_service (image : str) : ServiceSpec :=
  {| sv_name := DAEMON_NAME; Spec.image := image;
     args := [$"dockerd"; $"--host=unix:///var/run/docker.sock"; $"--host=" ++ DAEMON_HOST; $"--tls=false"];
     sv_env := []; sv_ready := Some (Exec [$"docker"; $"info"]);
     ready_timeout_secs := Some READY_TIMEOUT_SECS; sv_resources := None; daemon := true |}.

(** ** Identities and forge tokens *)

Definition MAX_AUDIENCES : nat := 8.
Inductive identity_error := NoAudience | TooManyAudiences | NotAudience (a : str).

(** [TaskIdentity::validate] *)
Definition validate_identity (i : TaskIdentity) : result identity_error unit :=
  if bool_decide (audience i = []) then Err NoAudience
  else if (MAX_AUDIENCES <? length (audience i))%nat then Err TooManyAudiences
  else
    for_each (fun a => if bool_decide (a = []) || (256 <? length a)%nat || contains $"{{" a || any_ws a || any_ctl a
                       then Err (NotAudience a) else Ok tt) (audience i).

(** [TaskIdentity::first_audience] *)
Definition first_audience (i : TaskIdentity) : str := default [] (head (audience i)).

(** How long a task's request credential is good, in seconds ([request_credential]). *)
Definition credential_secs (timeout_secs : option N) : N :=
  N.min (match timeout_secs with
         | Some t => N.min U64_MAX (t + 900)
         | None => 6 * 3600
         end) (7 * 24 * 3600).

Definition PERMISSIONS : list str :=
  [$"actions"; $"checks"; $"contents"; $"deployments"; $"discussions"; $"issues"; $"metadata"; $"pages";
   $"pull_requests"; $"security_events"; $"statuses"].
Inductive token_error := NoPermissions | NotPermission (name : str) | NotLevel (name level : str).

(** A [BTreeMap] as it is iterated. *)
Definition in_key_order {A} (m : gmap str A) : list (str * A) :=
  omap (fun k => option_map (pair k) (m !! k)) (merge_sort str_le (elements (dom m))).

(** [ForgeTokenSpec::validate]: in the order of the names. *)
Definition validate_forge_token (t : ForgeTokenSpec) : result token_error unit :=
  if bool_decide (permissions t = ∅) then Err NoPermissions
  else
    for_each (fun '(name, level) =>
                if negb (bool_decide (name ∈ PERMISSIONS)) then Err (NotPermission name)
                else if negb (bool_decide (level = $"read")) && negb (bool_decide (level = $"write"))
                     then Err (NotLevel name level)
                else Ok tt)
      (in_key_order (permissions t)).

(** ** Tokens *)

Definition REPORT : str := $"dagron::tokens=".
Definition MOST : N := 2 ^ 48.

(** [s.split_inclusive('\n')] *)
Fixpoint lines_with_ends (s : str) : list str :=
  match s with
  | [] => []
  | c :: s =>
      if ch NL c then [c] :: lines_with_ends s
      else match lines_with_ends s with
           | l :: ls => (c :: l) :: ls
           | [] => [[c]]
           end
  end.

(** [line.trim_end_matches(['\n', '\r'])] *)
Fixpoint trim_start_eol (s : str) : str :=
  match s with c :: t => if ch NL c || ch CR c then trim_start_eol t else s | [] => [] end.
Definition trim_end_eol (s : str) : str := rev (trim_start_eol (rev s)).

(** What a line reports, where it is a report. *)
Definition report_of (line : str) : option str := strip_prefix REPORT (trim_end_eol line).

Fixpoint take_lines (spent : option N) (kept : str) (l : list str) : str * option N :=
  match l with
  | [] => (kept, spent)
  | line :: l =>
      match report_of line with
      | Some n => take_lines (match parse_u64 (trim n) with Some n => Some n | None => spent end) kept l
      | None => take_lines spent (kept ++ line) l
      end
  end.

(** [take_report]: the output as it is left, and what the task spent. *)
Definition take_report (output : str) : str * option N :=
  if negb (contains REPORT output) then (output, None)
  else take_lines None [] (lines_with_ends output).
End Service.
