(* ===== verification/Graph.v ===== *)
(** * What makes a workflow a graph ([DagGraph::from_spec], dagron-core/src/dag.rs)

    Every check of an expanded specification, in the order the source makes them: the
    workflow's own keys, its budget, each task by itself, and what the tasks name of each
    other.  [petgraph]'s cycle test, [chrono]'s reading of a time and whether the build is
    the enterprise one are parameters.  Of a refusal the place and the kind are kept, not
    its wording. *)

From S2P Require Import Prelude Json JsonPred Fault Models Spec Cond Isolation Workspace Service Expand.
From coqutil Require Import Datatypes.RecordSettersUsingExistingGetters.

Module Graph.

Import Spec.

(** ** Checks in sequence *)

Fixpoint all_ok {E} (l : list (result E unit)) : result E unit :=
  match l with
  | [] => Ok tt
  | r :: l => let? _ := r in all_ok l
  end.
Definition refuse {E} (b : bool) (e : E) : result E unit := if b then Err e else Ok tt.
Definition only_if {E} (b : bool) (r : result E unit) : result E unit := if b then r else Ok tt.
Definition on_some {E A} (o : option A) (f : A -> result E unit) : result E unit :=
  match o with Some a => f a | None => Ok tt end.

Definition given {A} (o : option A) : bool := match o with Some _ => true | None => false end.
Definition some_of {A} (l : list A) : bool := match l with [] => false | _ => true end.
Definition blank (s : str) : bool := negb (some_of (trim s)).
Definition is_http (url : str) : bool := starts_with $"http://" url || starts_with $"https://" url.

(** The first entry of a list that is there twice. *)
Fixpoint first_twice (seen l : list str) : option str :=
  match l with
  | [] => None
  | x :: l => if bool_decide (x ∈ seen) then Some x else first_twice (x :: seen) l
  end.

(** ** Constants *)

Definition CANCEL_METHODS : list str := [$"DELETE"; $"POST"; $"PUT"; $"PATCH"].
Definition MAX_REPEAT_DELAY_SECS : N := 365 * 24 * 60 * 60.
Definition MAX_ENV_FROM : nat := 256.
Definition HOOK_KINDS : list str := [$"on_exit"; $"on_failure"].
Definition TASK_KINDS : list str := [$"task"; $"approval"; $"workflow"; $"wait"].
Definition APPROVAL_TIMEOUT_ACTIONS : list str := [$"approve"; $"reject"].
Definition APPROVAL_TEXT_MAX : nat := 2000.
Definition APPROVAL_SHOW_MAX : nat := 16.
Definition APPROVERS_MAX : nat := 64.

(** ** Refusals *)

Inductive env_from_error :=
| EnvFromMany | EnvFromName (n : str) | EnvFromTwice (n : str)
| EnvFromSeveral (n task first : str) (rows : nat) | EnvFromNotDependency (n task : str).

Inductive task_error :=
| UnknownFaultClass (key : str) | ZeroAttempts | BadTriggerRule | BadHook | BadType | BadTimeoutAction
| GateAndHook | ShowWithoutGate | MessageTooLong | TooManyShown | BadShown (e : str)
| BindsWithoutGate | TooManyBinds | BadBind (e : str)
| ApproversWithoutGate | TooManyApprovers | BadApprover (e : str)
| TriggerWithoutWorkflow | TriggerWithCommand | TriggerAndHook | WorkflowWithoutTrigger
| WaitNotOne | WaitFor | WaitUntil | WaitUrl | WaitDataset | WaitMissing | WaitWithCommand | WaitAndHook
| WaitWithoutType
| NotCommand (field : str)
| BadWorkspace (why : Workspace.workspace_error)
| ZeroTokens | TooManyTokens
| BadIdentity (why : Service.identity_error)
| TokenWithoutCheckout | BadForgeToken (why : Service.token_error)
| BadServices (why : Service.service_error) | DaemonNameTaken | DaemonOneMore
| BadEnvFrom (why : env_from_error)
| BadProduces | ProducesTwice (uri : str)
| BadRunnerClass | BadPool | EmptyCacheKey | BadIsolation (why : Isolation.isolation_error)
| ZeroGpus | EmptyGpuResource
| GangSize | GangRetries | GangShape | GangParked | GangResult
| RepeatUntil | RepeatIterations | RepeatDelay | RepeatType
| DeferKind | DeferPollZero | DeferPollLong | DeferMaxWait | DeferRepeat | DeferType | DeferGang
| HttpUrlEmpty | HttpUrl | HttpHeader | HttpCancelUrl | HttpCancelMethod | HttpPredicate (field : str)
| DeferConnection
| ArgumentsUnused | StillTemplate | NoCommand.

Inductive graph_error :=
| ZeroTimeout
| KeyEmpty | KeyParameter | KeyLong | KeyWithoutCap
| FullWithoutCap | SupersedeCap
| ZeroTasks | TaskBudgetExceeded (max planned : N)
| ZeroExternal | ExternalBudgetExceeded (max planned deferred : N)
| Attribution | ZeroTokenBudget | HugeTokenBudget | TokenBudget | TaskReservesMore (task : str)
| BadDeadline | BadDagRunnerClass | BadTag
| BadOnDataset | OnDatasetTwice (uri : str) | BadDatasetsMode | ModeWithoutDatasets
| DuplicateTask (task : str)
| OfTask (task : str) (why : task_error)
| UnknownDependency (task dep : str) | DependsOnHook (task dep : str)
| Cyclic
| WhenNotDependency (task ref : str)
| FanoutUnknown (task producer : str) | FanoutNotDependency (task producer : str) | FanoutSelf (task : str)
| ResultUnknown | ResultHook.

(** ** Cycles *)

(** [petgraph::algo::is_cyclic_directed], on the names of the nodes and the edges from a
    dependency to what waits for it: whether the graph has a cycle. *)
Definition edge_of (edges : list (str * str)) (a b : str) : Prop := (a, b) ∈ edges.
Class Petgraph := {
  is_cyclic_directed : list str -> list (str * str) -> bool;
  is_cyclic_spec : forall nodes edges,
    is_cyclic_directed nodes edges = true <-> exists n, tc (edge_of edges) n n }.

Section graph.
Context {Num : Type} {P : Petgraph} (enterprise : bool) (is_rfc3339 : str -> bool).

Abbreviation TaskSpec := (TaskSpec Num).
Abbreviation DagSpec := (DagSpec Num).
Abbreviation DagGraph := (DagGraph Num).

(** ** The workflow's own keys *)

(** [concurrency_key:] and [when_full:], and the timeout before them. *)
Definition check_cap (sp : DagSpec) : result graph_error unit :=
  let cap := default 0%N (max_active_runs sp) in
  all_ok
    [refuse (bool_decide (run_timeout_secs sp = Some 0%N)) ZeroTimeout;
     on_some (concurrency_key sp) (fun key => all_ok
       [refuse (blank key) KeyEmpty;
        refuse (contains $"{{" key) KeyParameter;
        refuse (200 <? length key)%nat KeyLong;
        refuse (cap =? 0)%N KeyWithoutCap]);
     on_some (when_full sp) (fun w => all_ok
       [refuse (cap =? 0)%N FullWithoutCap;
        refuse (match w with Supersede => negb (cap =? 1)%N | _ => false end) SupersedeCap])].

(** The rows a task becomes. *)
Definition rows (t : TaskSpec) : N := match gang t with Some g => gang_size g | None => 1 end.
Definition planned_rows (l : list TaskSpec) : N := fold_right N.add 0%N (map rows l).

(** What the deferred tasks cost, saturating, and how many rows they are. *)
Definition external_plan (l : list TaskSpec) : N * N :=
  fold_left (fun '(cost_, n) t =>
    let unit := default 1%N (let* d := defer t in cost d) in
    (N.min U64_MAX (cost_ + N.min U64_MAX (unit * rows t)), n + rows t)%N)
    (List.filter (fun t => given (defer t)) l) (0, 0)%N.

(** [budget:] *)
Definition check_budget (sp : DagSpec) : result graph_error unit :=
  on_some (budget sp) (fun b => all_ok
    [match bg_tasks b with
     | Some 0%N => Err ZeroTasks
     | Some max => refuse (max <? planned_rows (tasks sp))%N (TaskBudgetExceeded max (planned_rows (tasks sp)))
     | None => Ok tt
     end;
     match external_cost b with
     | Some 0%N => Err ZeroExternal
     | Some max =>
         let (planned, deferred) := external_plan (tasks sp) in
         refuse (max <? planned)%N (ExternalBudgetExceeded max planned deferred)
     | None => Ok tt
     end;
     refuse (negb enterprise && external_cost_attribution b) Attribution;
     match bg_tokens b with
     | Some 0%N => Err ZeroTokenBudget
     | Some n =>
         if (Service.MOST <? n)%N then Err HugeTokenBudget
         else if negb enterprise then Err TokenBudget
         else on_some (List.find (fun t => match tokens t with Some k => n <? k | None => false end)%N (tasks sp))
                (fun t => Err (TaskReservesMore (name t)))
     | None => Ok tt
     end]).

(** [deadline:], [runner_class:] and [tags:]. *)
Definition check_labels (sp : DagSpec) : result graph_error unit :=
  all_ok
    [on_some (deadline sp) (fun d => refuse (negb (is_ok (parse_duration_secs (within d)))) BadDeadline);
     on_some (dg_runner_class sp) (fun c => refuse (negb (is_ok (validate_runner_class c))) BadDagRunnerClass);
     for_each (fun tag => refuse (negb (is_ok (validate_tag tag))) BadTag) (tags sp)].

(** A list of dataset URIs, each valid and none twice. *)
Fixpoint check_datasets {E} (bad : E) (twice : str -> E) (seen l : list str) : result E unit :=
  match l with
  | [] => Ok tt
  | uri :: l =>
      if negb (is_ok (validate_dataset_uri uri)) then Err bad
      else if bool_decide (uri ∈ seen) then Err (twice uri)
      else check_datasets bad twice (uri :: seen) l
  end.

(** [on_datasets:] and [datasets_mode:]. *)
Definition check_triggers (sp : DagSpec) : result graph_error unit :=
  all_ok
    [check_datasets BadOnDataset OnDatasetTwice [] (on_datasets sp);
     on_some (datasets_mode sp) (fun mode => all_ok
       [refuse (negb (bool_decide (mode = $"any")) && negb (bool_decide (mode = $"all"))) BadDatasetsMode;
        refuse (negb (some_of (on_datasets sp))) ModeWithoutDatasets])].

(** ** One task *)

(** Kinds of task that run no command. *)
Definition commandless (t : TaskSpec) : bool := is_approval t || is_workflow t || is_wait t.
Definition is_hook (t : TaskSpec) : bool := given (hook t).
Definition known (o : option str) (l : list str) : bool :=
  match o with Some s => bool_decide (s ∈ l) | None => true end.

(** Its retries, its rule and its kinds. *)
Definition check_kind (t : TaskSpec) : result task_error unit :=
  all_ok
    [for_each (fun '(key, _) => refuse (negb (bool_decide (key = Fault.as_str (Fault.parse key)))) (UnknownFaultClass key))
       (Service.in_key_order (retry_budgets t));
     refuse (max_attempts t =? 0)%N ZeroAttempts;
     refuse (negb (known (trigger_rule t) Models.TRIGGER_RULES)) BadTriggerRule;
     refuse (negb (known (hook t) HOOK_KINDS)) BadHook;
     refuse (negb (known (task_type t) TASK_KINDS)) BadType;
     refuse (negb (known (approval_on_timeout t) APPROVAL_TIMEOUT_ACTIONS)) BadTimeoutAction].

(** What only an approval gate has. *)
Definition check_approval (t : TaskSpec) : result task_error unit :=
  all_ok
    [refuse (is_approval t && is_hook t) GateAndHook;
     refuse (negb (is_approval t) && (given (approval_message t) || some_of (approval_show t))) ShowWithoutGate;
     on_some (approval_message t) (fun m => refuse (APPROVAL_TEXT_MAX <? char_count m)%nat MessageTooLong);
     refuse (APPROVAL_SHOW_MAX <? length (approval_show t))%nat TooManyShown;
     for_each (fun e => map_err BadShown (validate_approval_show e)) (approval_show t);
     refuse (negb (is_approval t) && some_of (binds t)) BindsWithoutGate;
     refuse (APPROVAL_SHOW_MAX <? length (binds t))%nat TooManyBinds;
     for_each (fun e => map_err BadBind (validate_approval_show e)) (binds t);
     refuse (negb (is_approval t) && (some_of (approvers t) || not_triggerer t)) ApproversWithoutGate;
     refuse (APPROVERS_MAX <? length (approvers t))%nat TooManyApprovers;
     for_each (fun e => map_err BadApprover (validate_approver e)) (approvers t)].

(** A sub-workflow trigger. *)
Definition check_workflow (t : TaskSpec) : result task_error unit :=
  if is_workflow t then
    all_ok
      [refuse (match workflow t with Some w => blank w | None => true end) TriggerWithoutWorkflow;
       refuse (some_of (command t)) TriggerWithCommand;
       refuse (is_hook t) TriggerAndHook]
  else refuse (given (workflow t)) WorkflowWithoutTrigger.

(** A wait sensor. *)
Definition check_wait (t : TaskSpec) : result task_error unit :=
  if is_wait t then
    all_ok
      [match wait t with
       | Some w =>
           all_ok
             [refuse (negb (Nat.eqb (length (List.filter id
                        [given (wait_for w); given (wait_until w); given (wait_spec_url w);
                         given (wait_spec_dataset w)])) 1)) WaitNotOne;
              on_some (wait_for w) (fun f => refuse (negb (is_ok (parse_duration_secs f))) WaitFor);
              on_some (wait_until w) (fun u => refuse (negb (is_rfc3339 u)) WaitUntil);
              on_some (wait_spec_url w) (fun u => refuse (negb (is_http (trim u))) WaitUrl);
              on_some (wait_spec_dataset w) (fun d => refuse (negb (is_ok (validate_dataset_uri d))) WaitDataset)]
       | None => Err WaitMissing
       end;
       refuse (some_of (command t)) WaitWithCommand;
       refuse (is_hook t) WaitAndHook]
  else refuse (given (wait t)) WaitWithoutType.

(** [env_from_refusal], as a check. *)
Fixpoint check_env_from_each (t : TaskSpec) (seen : list str) (l : list EnvFrom) : result env_from_error unit :=
  match l with
  | [] => Ok tt
  | from :: l =>
      if negb (Service.is_variable (ef_name from)) then Err (EnvFromName (ef_name from))
      else if bool_decide (ef_name from ∈ seen)
              || existsb (fun e => bool_decide (ev_name e = ef_name from)) (env t)
           then Err (EnvFromTwice (ef_name from))
      else if negb (bool_decide (ef_task from ∈ depends_on t)) then
        match List.filter (starts_with (ef_task from ++ $".")) (depends_on t) with
        | first :: rest => Err (EnvFromSeveral (ef_name from) (ef_task from) first (S (length rest)))
        | [] => Err (EnvFromNotDependency (ef_name from) (ef_task from))
        end
      else check_env_from_each t (ef_name from :: seen) l
  end.
Definition check_env_from (t : TaskSpec) : result env_from_error unit :=
  if (MAX_ENV_FROM <? length (env_from t))%nat then Err EnvFromMany
  else check_env_from_each t [] (env_from t).

(** What only a task with a command has. *)
Definition check_given (t : TaskSpec) : result task_error unit :=
  all_ok
    [on_some (workspace t) (fun ws => all_ok
       [refuse (commandless t) (NotCommand $"workspace");
        map_err BadWorkspace (Workspace.validate ws)]);
     on_some (tokens t) (fun n => all_ok
       [refuse (commandless t) (NotCommand $"tokens");
        refuse (n =? 0)%N ZeroTokens;
        refuse (Service.MOST <? n)%N TooManyTokens]);
     refuse (artifact_api t && commandless t) (NotCommand $"artifact_api");
     on_some (identity t) (fun i => all_ok
       [refuse (commandless t) (NotCommand $"identity");
        map_err BadIdentity (Service.validate_identity i)]);
     on_some (forge_token t) (fun k => all_ok
       [refuse (commandless t) (NotCommand $"forge_token");
        refuse (negb (given (let* ws := workspace t in checkout ws))) TokenWithoutCheckout;
        map_err BadForgeToken (Service.validate_forge_token k)]);
     only_if (some_of (services t)) (all_ok
       [refuse (commandless t) (NotCommand $"services");
        map_err BadServices (Service.validate_services (services t))]);
     only_if (docker_daemon t) (all_ok
       [refuse (commandless t) (NotCommand $"docker_daemon");
        refuse (existsb (fun s => bool_decide (sv_name s = Service.DAEMON_NAME)) (services t)) DaemonNameTaken;
        refuse (Service.MAX_SERVICES <=? length (services t))%nat DaemonOneMore]);
     refuse (privileged t && commandless t) (NotCommand $"privileged")].

(** What it reads of the tasks before it, and the datasets it makes. *)
Definition check_reads (t : TaskSpec) : result task_error unit :=
  all_ok
    [only_if (some_of (env_from t)) (all_ok
       [refuse (commandless t) (NotCommand $"env_from");
        map_err BadEnvFrom (check_env_from t)]);
     only_if (some_of (produces t)) (all_ok
       [refuse (commandless t) (NotCommand $"produces");
        check_datasets BadProduces ProducesTwice [] (produces t)])].

(** Where it runs. *)
Definition check_placement (t : TaskSpec) : result task_error unit :=
  all_ok
    [on_some (runner_class t) (fun c => refuse (negb (is_ok (validate_runner_class c))) BadRunnerClass);
     on_some (pool t) (fun p => refuse (negb (is_ok (validate_pool p))) BadPool);
     on_some (cache t) (fun c => refuse (blank (cache_key c)) EmptyCacheKey);
     on_some (isolation t) (fun iso => map_err BadIsolation (Isolation.validate iso));
     on_some (let* r := resources t in gpu r) (fun g => all_ok
       [refuse (gpu_count g =? 0)%N ZeroGpus;
        refuse (match gpu_resource g with Some r => blank r | None => false end) EmptyGpuResource])].

(** A gang. *)
Definition check_gang (sp : DagSpec) (t : TaskSpec) : result task_error unit :=
  on_some (gang t) (fun g => all_ok
    [refuse (gang_size g <? 2)%N GangSize;
     refuse (1 <? max_attempts t)%N GangRetries;
     refuse (given (repeat t) || is_approval t || given (template t)) GangShape;
     refuse (is_workflow t || is_wait t) GangParked;
     refuse (bool_decide (result_from sp = Some (name t))) GangResult]).

(** A loop. *)
Definition check_repeat (t : TaskSpec) : result task_error unit :=
  on_some (repeat t) (fun r => all_ok
    [refuse (blank (until r)) RepeatUntil;
     refuse (max_iterations r =? 0)%N RepeatIterations;
     refuse (MAX_REPEAT_DELAY_SECS <? delay_secs r)%N RepeatDelay;
     refuse (negb (known (task_type t) [$"task"; $"workflow"])) RepeatType]).

(** [defer.http:] *)
Definition check_http (h : DeferHttpSpec) : result task_error unit :=
  let url := trim (dh_url h) in
  all_ok
    [refuse (negb (some_of url)) HttpUrlEmpty;
     refuse (negb (is_http url)) HttpUrl;
     for_each (fun hdr => refuse (blank (ev_name hdr)) HttpHeader) (headers h);
     on_some (cancel h) (fun c => all_ok
       [refuse (negb (is_http (trim (dc_url c)))) HttpCancelUrl;
        refuse (negb (bool_decide (cancel_method c ∈ CANCEL_METHODS))) HttpCancelMethod]);
     refuse (negb (is_ok (JsonPred.parse (succeed_when h)))) (HttpPredicate $"succeed_when");
     on_some (fail_when h) (fun f => refuse (negb (is_ok (JsonPred.parse f))) (HttpPredicate $"fail_when"));
     on_some (error_from h) (fun e => refuse (negb (is_ok (JsonPred.path_parse e))) (HttpPredicate $"error_from"))].

(** An external job. *)
Definition check_defer (t : TaskSpec) : result task_error unit :=
  on_some (defer t) (fun d => all_ok
    [refuse (blank (df_kind d)) DeferKind;
     refuse (poll_secs d =? 0)%N DeferPollZero;
     refuse (MAX_REPEAT_DELAY_SECS <? poll_secs d)%N DeferPollLong;
     on_some (max_wait_secs d) (fun max => refuse (max <? poll_secs d)%N DeferMaxWait);
     refuse (given (repeat t)) DeferRepeat;
     refuse (negb (known (task_type t) [$"task"])) DeferType;
     refuse (given (gang t)) DeferGang;
     on_some (http d) check_http;
     refuse (negb enterprise && given (connection d)) DeferConnection]).

(** After an expansion every task is one that can be run. *)
Definition check_leaf (t : TaskSpec) : result task_error unit :=
  all_ok
    [refuse (negb (bool_decide (arguments t = ∅)) && negb (is_workflow t)) ArgumentsUnused;
     refuse (given (template t)) StillTemplate;
     refuse (negb (some_of (command t)) && negb (commandless t)) NoCommand].

(** The whole of one task. *)
Definition check_task (sp : DagSpec) (t : TaskSpec) : result task_error unit :=
  all_ok
    [check_kind t; check_approval t; check_workflow t; check_wait t; check_given t; check_reads t; check_placement t;
     check_gang sp t; check_repeat t; check_defer t; check_leaf t].

(** ** The tasks together *)

(** The loop over the tasks, which are nodes once they are checked. *)
Fixpoint check_tasks (sp : DagSpec) (nodes : list str) (l : list TaskSpec) : result graph_error unit :=
  match l with
  | [] => Ok tt
  | t :: l =>
      if bool_decide (name t ∈ nodes) then Err (DuplicateTask (name t))
      else
        let? _ := map_err (OfTask (name t)) (check_task sp t) in
        check_tasks sp (name t :: nodes) l
  end.

Definition names (sp : DagSpec) : list str := map name (tasks sp).
Definition hook_names (sp : DagSpec) : list str := map name (List.filter is_hook (tasks sp)).

(** The dependencies. *)
Definition check_deps (sp : DagSpec) : result graph_error unit :=
  for_each (fun t => for_each (fun dep =>
      if negb (bool_decide (dep ∈ names sp)) then Err (UnknownDependency (name t) dep)
      else refuse (bool_decide (dep ∈ hook_names sp)) (DependsOnHook (name t) dep))
    (depends_on t)) (tasks sp).

(** The edges, from a dependency to what waits for it. *)
Definition graph_edges (sp : DagSpec) : list (str * str) :=
  flat_map (fun t => map (fun dep => (dep, name t)) (depends_on t)) (tasks sp).

(** A runtime [when:] reads tasks this one depends on. *)
Definition check_when (t : TaskSpec) : result graph_error unit :=
  on_some (when t) (fun cond =>
    for_each (fun ref => refuse (negb (bool_decide (ref ∈ depends_on t))) (WhenNotDependency (name t) ref))
      (Cond.when_output_refs cond)).

(** So does a runtime fan-out. *)
Definition check_fanout (sp : DagSpec) (t : TaskSpec) : result graph_error unit :=
  on_some (with_output_of t) (fun producer =>
    match Expand.fanout_producer_rows producer (depends_on t) with
    | [] =>
        if bool_decide (producer ∈ names sp) || existsb (starts_with (producer ++ $".")) (names sp)
        then Err (FanoutNotDependency (name t) producer)
        else Err (FanoutUnknown (name t) producer)
    | _ => refuse (bool_decide (producer = name t)) (FanoutSelf (name t))
    end).

(** [result_from:] *)
Definition check_result (sp : DagSpec) : result graph_error unit :=
  on_some (result_from sp) (fun rf => all_ok
    [refuse (negb (bool_decide (rf ∈ names sp))) ResultUnknown;
     refuse (bool_decide (rf ∈ hook_names sp)) ResultHook]).

(** [depends_on.retain(|dep| seen.insert(dep.clone()))] *)
Fixpoint retain_first (seen : gset str) (l : list str) : list str :=
  match l with
  | [] => []
  | x :: l => if bool_decide (x ∈ seen) then retain_first seen l else x :: retain_first ({[ x ]} ∪ seen) l
  end.
Definition one_dependency_each (sp : DagSpec) : DagSpec :=
  sp <| tasks := map (fun t => t <| depends_on := retain_first ∅ (depends_on t) |>) (tasks sp) |>.

Definition checks (sp : DagSpec) : result graph_error unit :=
  all_ok
    [check_cap sp; check_budget sp; check_labels sp; check_triggers sp;
     check_tasks sp [] (tasks sp); check_deps sp;
     refuse (is_cyclic_directed (names sp) (graph_edges sp)) Cyclic;
     for_each check_when (tasks sp); for_each (check_fanout sp) (tasks sp); check_result sp].

(** [DagGraph::from_spec] *)
Definition from_spec (sp : DagSpec) : result graph_error DagGraph :=
  let sp := one_dependency_each sp in
  let? _ := checks sp in
  Ok {| spec := sp; graph_parameters := ∅ |}.

(** [DagGraph::dep_count]; it panics at a name that is no node. *)
Definition dep_count (g : DagGraph) (task_name : str) : option nat :=
  if bool_decide (task_name ∈ names (spec g)) then
    Some (length (List.filter (fun e => bool_decide (snd e = task_name)) (graph_edges (spec g))))
  else None.
End graph.
End Graph.
