(* ===== verification/GraphFacts.v ===== *)
(** * What an accepted workflow is ([Graph])

    The checks of [from_spec] read as what they leave true: a well-formed graph, ordered by
    its dependencies, each of whose tasks can run and reads only what it waits for. *)

From S2P Require Import Prelude Json Spec Cond Isolation Workspace Service Expand Graph.
From coqutil Require Import Datatypes.RecordSettersUsingExistingGetters.

Module GraphFacts.

Import Spec Graph.

(** ** Checks *)

Lemma all_ok_spec {E} (l : list (result E unit)) : all_ok l = Ok tt <-> Forall (fun r => r = Ok tt) l.
Proof.
  induction l as [|r l IH]; cbn [all_ok]; [by split|]. rewrite Forall_cons.
  destruct r as [[]|e]; [rewrite IH; naive_solver|naive_solver].
Qed.
Lemma refuse_spec {E} b (e : E) : refuse b e = Ok tt <-> b = false.
Proof. by destruct b. Qed.
Lemma on_some_spec {E A} (o : option A) (f : A -> result E unit) :
  on_some o f = Ok tt <-> forall a, o = Some a -> f a = Ok tt.
Proof. destruct o as [a|]; cbn; [|done]. split; [by intros H ? [= <-]|auto]. Qed.
Lemma only_if_spec {E} b (r : result E unit) : only_if b r = Ok tt <-> (b = true -> r = Ok tt).
Proof. destruct b; cbn; naive_solver. Qed.
Lemma map_err_spec {E F A} (f : E -> F) (r : result E A) x : map_err f r = Ok x <-> r = Ok x.
Proof. destruct r; cbn; naive_solver. Qed.
Lemma given_true {A} (o : option A) : given o = true <-> o <> None.
Proof. by destruct o. Qed.
Lemma given_false {A} (o : option A) : given o = false <-> o = None.
Proof. by destruct o. Qed.
Lemma some_of_false {A} (l : list A) : some_of l = false <-> l = [].
Proof. by destruct l. Qed.

#[export] Hint Rewrite @all_ok_spec @refuse_spec @on_some_spec @only_if_spec @map_err_spec @given_false
  @some_of_false @Forall_cons @Forall_nil andb_false_iff orb_false_iff negb_false_iff
  bool_decide_eq_true bool_decide_eq_false : graph.

(** What a passed check says. *)
Ltac passed H := autorewrite with graph in H.

(** ** Cycles *)

Section order.
Context (edges : list (str * str)).

(** A path against the edges, from its head. *)
Fixpoint backward (l : list str) : Prop :=
  match l with
  | a :: ((b :: _) as l') => (b, a) ∈ edges /\ backward l'
  | _ => True
  end.

Lemma backward_tc a l x : backward (a :: l) -> x ∈ l -> tc (edge_of edges) x a.
Proof.
  revert a; induction l as [|b l IH]; intros a H Hx; [by apply elem_of_nil in Hx|].
  destruct H as [He H]. apply elem_of_cons in Hx as [->|Hx]; [by apply tc_once|].
  eapply tc_r; [by apply IH|done].
Qed.

Lemma backward_app a l : backward (a ++ l) -> backward l.
Proof.
  induction a as [|x a IH]; [done|]. cbn. destruct (a ++ l) eqn:E; [by destruct a, l|]. intros [_ H]. by apply IH.
Qed.

Lemma backward_cycle l : backward l -> ~ NoDup l -> exists n, tc (edge_of edges) n n.
Proof.
  induction l as [|a l IH]; intros H Hn; [by destruct Hn; constructor|].
  destruct (decide (a ∈ l)) as [Hin|Hin]; [exists a; by eapply backward_tc|].
  apply IH; [by apply (backward_app [a])|]. intros Hd. apply Hn. by constructor.
Qed.

(** An edge from [a] to [b] with [a] again at the end of an edge. *)
Definition reached (a : str) : bool := existsb (fun e => bool_decide (snd e = a)) edges.

Lemma reached_spec a : reached a = true <-> exists p, (p, a) ∈ edges.
Proof.
  unfold reached. rewrite existsb_exists. split.
  - intros ([p b] & Hin & Hb%bool_decide_eq_true). cbn in Hb. subst. exists p. by apply list_elem_of_In.
  - intros [p Hp]. exists (p, a). split; [by apply list_elem_of_In|by apply bool_decide_eq_true].
Qed.

(** Where every source is reached, there are paths of any length. *)
Lemma long_paths k a b : (forall x y, (x, y) ∈ edges -> reached x = true) -> (a, b) ∈ edges ->
  exists l, length l = S k /\ backward l /\ (forall x, x ∈ l -> x ∈ map fst edges) /\ last l <> None.
Proof.
  intros Hr Hab. induction k as [|k (l & Hl & Hb & Hs & Hne)].
  - exists [a]. split_and!; [done|done| |done]. intros x ->%list_elem_of_singleton.
    apply list_elem_of_fmap. by exists (a, b).
  - destruct (last l) as [z|] eqn:El; [|done]. apply last_Some in El as [l' ->].
    assert (z ∈ map fst edges) as Hz by (apply Hs; set_solver).
    apply list_elem_of_fmap in Hz as ([z' y] & Heq & Hin). cbn in Heq. subst z'.
    apply Hr, reached_spec in Hin as [p Hp].
    exists ((l' ++ [z]) ++ [p]). split_and!.
    + rewrite length_app. cbn. lia.
    + clear -Hb Hp. induction l' as [|x l' IH]; cbn in *; [done|].
      destruct l' as [|w l']; cbn in *; [naive_solver|]. destruct Hb as [Hb1 Hb2]. split; [done|]. by apply IH.
    + intros x [Hx| ->%list_elem_of_singleton]%elem_of_app; [by apply Hs|].
      apply list_elem_of_fmap. by exists (p, z).
    + by rewrite last_snoc.
Qed.

Lemma all_reached_cycle a b : (a, b) ∈ edges -> (forall x y, (x, y) ∈ edges -> reached x = true) ->
  exists n, tc (edge_of edges) n n.
Proof.
  intros Hab Hr. destruct (long_paths (length edges) a b Hr Hab) as (l & Hl & Hb & Hs & _).
  apply (backward_cycle l Hb). intros Hd.
  assert (length l <= length (map fst edges)) as Hle.
  { apply submseteq_length, NoDup_submseteq; [done|]. intros x Hx. by apply Hs. }
  rewrite length_map in Hle. lia.
Qed.

(** An edge from a node nothing leads to. *)
Definition first_source : option (str * str) := List.find (fun e => negb (reached (fst e))) edges.

Lemma first_source_none : first_source = None -> forall x y, (x, y) ∈ edges -> reached x = true.
Proof.
  intros H x y Hxy%list_elem_of_In. apply (find_none _ _ H) in Hxy. by apply negb_false_iff in Hxy.
Qed.

Lemma first_source_some e : first_source = Some e -> e ∈ edges /\ reached (fst e) = false.
Proof. intros [H1 H2%negb_true_iff]%find_some. split; [by apply list_elem_of_In|done]. Qed.

(** The edges without those out of a node. *)
Definition without (x : str) : list (str * str) := List.filter (fun e => negb (bool_decide (fst e = x))) edges.

Lemma without_spec x a b : (a, b) ∈ without x <-> (a, b) ∈ edges /\ a <> x.
Proof.
  unfold without. rewrite !list_elem_of_In, filter_In. cbn. by rewrite negb_true_iff, bool_decide_eq_false.
Qed.

Lemma without_shorter e : e ∈ edges -> length (without (fst e)) < length edges.
Proof.
  intros He. unfold without. clear -He. induction edges as [|d l IH]; [by apply elem_of_nil in He|].
  cbn [List.filter]. apply elem_of_cons in He as [->|He].
  - rewrite bool_decide_true by done. cbn [negb length].
    apply Nat.lt_succ_r. clear. induction l as [|q l IH]; [done|]. cbn. destruct (negb _); cbn; lia.
  - specialize (IH He). destruct (negb _); cbn; lia.
Qed.

Lemma cycle_without x n m : reached x = false -> reached n = true ->
  tc (edge_of edges) n m -> tc (edge_of (without x)) n m.
Proof.
  intros Hx Hn H. revert Hn. induction H as [n m H|n p m H _ IH]; intros Hn.
  - apply tc_once, without_spec. split; [done|congruence].
  - eapply tc_l; [apply without_spec; split; [exact H|congruence]|]. apply IH. apply reached_spec. eauto.
Qed.

Lemma tc_end_reached n m : tc (edge_of edges) n m -> reached m = true.
Proof. induction 1; [apply reached_spec; eauto|done]. Qed.
End order.

(** A graph with no cycle has its nodes in an order its edges go up in. *)
Lemma acyclic_rank edges : ~ (exists n, tc (edge_of edges) n n) ->
  exists rank : str -> nat, forall a b, (a, b) ∈ edges -> rank a < rank b.
Proof.
  remember (length edges) as k eqn:Hk. revert edges Hk. induction (lt_wf k) as [k _ IH]. intros edges -> Hac.
  destruct (first_source edges) as [e|] eqn:Ef.
  - apply first_source_some in Ef as [He Hr].
    destruct (IH _ (without_shorter edges e He) (without edges (fst e)) eq_refl) as [rank Hrank].
    { intros [n Hn]. apply Hac. exists n. apply (tc_congruence (fun x => x) (R := edge_of (without edges (fst e)))); [|exact Hn]. intros a b [H _]%without_spec. exact H. }
    exists (fun n => if decide (n = fst e) then 0 else S (rank n)). intros a b Hab.
    assert (b <> fst e) as Hb.
    { intros ->. assert (reached edges (fst e) = true) by (apply reached_spec; eauto). congruence. }
    rewrite (decide_False (P := b = fst e)) by done.
    destruct (decide (a = fst e)) as [->|Ha]; [lia|]. apply -> Nat.succ_lt_mono. apply Hrank, without_spec. done.
  - destruct edges as [|[a b] l]; [exists (fun _ => 0); intros ? ? H; by apply elem_of_nil in H|].
    exfalso. apply Hac, (all_reached_cycle _ a b); [left|]. by apply first_source_none.
Qed.

(** ** A cycle test *)

Fixpoint has_cycle (fuel : nat) (edges : list (str * str)) : bool :=
  match fuel with
  | O => some_of edges
  | S fuel =>
      match first_source edges with
      | Some e => has_cycle fuel (without edges (fst e))
      | None => some_of edges
      end
  end.

Lemma has_cycle_spec fuel edges : length edges <= fuel ->
  has_cycle fuel edges = true <-> exists n, tc (edge_of edges) n n.
Proof.
  assert (forall e : list (str * str), e = [] -> some_of e = true <-> exists n, tc (edge_of e) n n) as Hnil.
  { intros e ->. split; [done|]. intros [n Hn]. exfalso. induction Hn as [x y H|x y z H _ _]; by apply elem_of_nil in H. }
  revert edges; induction fuel as [|fuel IH]; intros edges Hl; cbn [has_cycle].
  { apply Hnil. by destruct edges; [|cbn in Hl; lia]. }
  destruct (first_source edges) as [e|] eqn:Ef.
  - apply first_source_some in Ef as [He Hr]. pose proof (without_shorter edges e He).
    rewrite IH by lia. split; intros [n Hn]; exists n.
    + apply (tc_congruence (fun x => x) (R := edge_of (without edges (fst e)))); [|exact Hn]. intros a b [H' _]%without_spec. exact H'.
    + apply cycle_without; [done| |done]. by eapply tc_end_reached.
  - destruct edges as [|[a b] l]; [by apply Hnil|]. split; [intros _|done].
    apply (all_reached_cycle _ a b); [left|]. by apply first_source_none.
Qed.

(** An implementation of the interface. *)
Definition kahn : Petgraph.
Proof.
  refine {| is_cyclic_directed nodes edges := has_cycle (length edges) edges |}.
  intros nodes edges. by apply has_cycle_spec.
Defined.

(** ** Accepted workflows *)

Section accepted.
Context {Num : Type} {P : Petgraph} (enterprise : bool) (is_rfc3339 : str -> bool).

Abbreviation TaskSpec := (TaskSpec Num).
Abbreviation DagSpec := (DagSpec Num).
Abbreviation from_spec := (from_spec (Num := Num) enterprise is_rfc3339).
Abbreviation check_task := (check_task (Num := Num) enterprise is_rfc3339).
Abbreviation checks := (checks (Num := Num) enterprise is_rfc3339).

(** What one accepted task is. *)
Record task_ok (sp : DagSpec) (t : TaskSpec) : Prop := {
  k_attempts : (1 <= max_attempts t)%N;
  k_leaf : template t = None /\ (command t = [] -> commandless t = true);
  k_parked : is_workflow t = true \/ is_wait t = true -> command t = [] /\ hook t = None;
  k_env : forall e, e ∈ env_from t -> ef_task e ∈ depends_on t;
  k_gang : forall g, gang t = Some g ->
    (2 <= gang_size g)%N /\ max_attempts t = 1%N /\ commandless t = false /\ command t <> []
    /\ repeat t = None /\ defer t = None /\ result_from sp <> Some (name t);
  k_defer : forall d, defer t = Some d -> command t <> [] /\ (1 <= poll_secs d <= MAX_REPEAT_DELAY_SECS)%N;
  k_repeat : forall r, repeat t = Some r -> is_approval t = false /\ is_wait t = false /\ defer t = None }.

(** What an accepted workflow is: its names are distinct; each task waits for tasks of the
    workflow, none a hook and none twice, in an order; each can run; and what a runtime
    condition, a variable or a fan-out reads is something its task waits for. *)
Record well_formed (sp : DagSpec) : Prop := {
  w_names : NoDup (names sp);
  w_tasks : forall t, t ∈ tasks sp -> task_ok sp t;
  w_deps : forall t, t ∈ tasks sp -> NoDup (depends_on t)
    /\ forall d, d ∈ depends_on t -> exists u, u ∈ tasks sp /\ name u = d /\ hook u = None;
  w_order : exists rank : str -> nat, forall t d, t ∈ tasks sp -> d ∈ depends_on t -> rank d < rank (name t);
  w_when : forall t c ref, t ∈ tasks sp -> when t = Some c -> ref ∈ Cond.when_output_refs c -> ref ∈ depends_on t;
  w_fanout : forall t p, t ∈ tasks sp -> with_output_of t = Some p ->
    exists d, d ∈ depends_on t /\ (d = p \/ exists r, d = p ++ $"." ++ r);
  w_result : forall rf, result_from sp = Some rf ->
    exists t, t ∈ tasks sp /\ name t = rf /\ hook t = None /\ gang t = None;
  w_budget : forall b max, budget sp = Some b -> bg_tasks b = Some max -> (planned_rows (tasks sp) <= max)%N }.

(** *** Dependencies, once each *)

Lemma retain_first_spec seen l x : x ∈ retain_first seen l <-> x ∈ l /\ x ∉ seen.
Proof.
  revert seen; induction l as [|y l IH]; intros seen; cbn [retain_first].
  { split; [by intros ?%elem_of_nil|by intros [?%elem_of_nil _]]. }
  rewrite elem_of_cons. case_bool_decide; [rewrite IH; naive_solver|].
  rewrite elem_of_cons, IH, not_elem_of_union, not_elem_of_singleton.
  destruct (decide (x = y)); naive_solver.
Qed.

Lemma retain_first_NoDup seen l : NoDup (retain_first seen l).
Proof.
  revert seen; induction l as [|y l IH]; intros seen; cbn [retain_first]; [constructor|].
  case_bool_decide; [done|]. constructor; [|done]. rewrite retain_first_spec. intros [_ H']. apply H', elem_of_union. left. by apply elem_of_singleton.
Qed.

Lemma retain_first_id seen l : NoDup l -> (forall x, x ∈ l -> x ∉ seen) -> retain_first seen l = l.
Proof.
  intros Hd. revert seen; induction Hd as [|y l Hy _ IH]; intros seen Hs; cbn [retain_first]; [done|].
  rewrite bool_decide_false by (apply Hs; left). f_equal. apply IH.
  intros x Hx. rewrite not_elem_of_union, not_elem_of_singleton. split; [by intros ->|apply Hs; by right].
Qed.

Lemma one_dependency_idem (sp : DagSpec) :
  one_dependency_each (one_dependency_each sp) = one_dependency_each sp.
Proof.
  unfold one_dependency_each. destruct sp. cbn. rewrite map_map. erewrite map_ext; [reflexivity|].
  intros t. destruct t. cbn. rewrite retain_first_id; [done|apply retain_first_NoDup|].
  intros x _. apply not_elem_of_empty.
Qed.

Lemma once_deps (sp : DagSpec) t : t ∈ tasks (one_dependency_each sp) -> NoDup (depends_on t).
Proof.
  unfold one_dependency_each. cbn. intros (u & -> & _)%list_elem_of_fmap. apply retain_first_NoDup.
Qed.

(** *** The loop over the tasks *)

Lemma check_tasks_spec sp nodes l :
  check_tasks enterprise is_rfc3339 sp nodes l = Ok tt <->
  NoDup (map name l) /\ (forall n, n ∈ map name l -> n ∉ nodes) /\ Forall (fun t => check_task sp t = Ok tt) l.
Proof.
  revert nodes; induction l as [|t l IH]; intros nodes; cbn [check_tasks map].
  { split; [|done]. intros _. split_and!; [constructor|by intros ? ?%elem_of_nil|constructor]. }
  case_bool_decide as Hin.
  { split; [done|]. intros (_ & H & _). exfalso. apply (H (name t)); [left|done]. }
  rewrite NoDup_cons, Forall_cons. destruct (check_task sp t) as [[]|e] eqn:E; cbn [map_err].
  - rewrite IH. setoid_rewrite elem_of_cons. split.
    + intros (H1 & H2 & H3). split_and!; [|done| |done|done].
      * intros H. apply (H2 _ H). by left.
      * intros n [->|Hn]; [done|]. intros Hnn. apply (H2 _ Hn). by right.
    + intros ((H1 & H2) & H3 & _ & H4). split_and!; [done| |done].
      intros n Hn [->|Hnn]; [done|]. eapply H3; [by right|done].
  - split; [done|]. by intros (_ & _ & ? & _).
Qed.

(** *** One task *)

Lemma type_is_spec k (t : TaskSpec) : type_is k t = true <-> task_type t = Some (lit k).
Proof. unfold type_is. apply bool_decide_eq_true. Qed.

(** A kind has one name. *)
Lemma approval_not_parked (t : TaskSpec) : is_approval t = true -> is_workflow t = false /\ is_wait t = false.
Proof.
  unfold is_approval, is_workflow, is_wait, type_is. rewrite !bool_decide_eq_true, !bool_decide_eq_false.
  intros ->. by split.
Qed.

Lemma check_env_from_spec (t : TaskSpec) seen l :
  check_env_from_each t seen l = Ok tt -> forall e, e ∈ l -> ef_task e ∈ depends_on t.
Proof.
  revert seen; induction l as [|e l IH]; intros seen; cbn [check_env_from_each]; [by intros _ ? ?%elem_of_nil|].
  destruct (negb _); [done|]. destruct (_ || _); [done|]. case_bool_decide as Hd; cbn [negb].
  - intros H x [->|Hx]%elem_of_cons; [done|]. by eapply IH.
  - destruct (List.filter _ _); done.
Qed.

Lemma check_task_ok sp t : check_task sp t = Ok tt -> task_ok sp t.
Proof.
  intros H. unfold Graph.check_task in H. passed H. destruct H as (Hk & Ha & Hw & Hwt & _ & Hg & _ & Hgg & Hr & Hd & Hl & _).
  unfold check_kind in Hk. passed Hk. destruct Hk as (_ & Hatt & _).
  unfold check_reads in Hg. passed Hg. destruct Hg as (Henv & _).
  unfold check_leaf in Hl. passed Hl. destruct Hl as (_ & Htm & Hcmd & _).
  assert (is_workflow t = true \/ is_wait t = true -> command t = [] /\ hook t = None) as Hparked.
  { intros [E|E].
    - unfold check_workflow in Hw. rewrite E in Hw. passed Hw. unfold is_hook in Hw. passed Hw. tauto.
    - unfold check_wait in Hwt. rewrite E in Hwt. passed Hwt. unfold is_hook in Hwt. passed Hwt. tauto. }
  assert (commandless t = false -> command t <> []) as Hrun.
  { intros E Hc. unfold commandless in *. destruct Hcmd as [Hcmd|Hcmd]; [|congruence]. by rewrite Hc in Hcmd. }
  split; [| |done| | | |].
  - apply N.eqb_neq in Hatt. lia.
  - split; [done|]. intros Hc. destruct Hcmd as [Hcmd|Hcmd]; [by rewrite Hc in Hcmd|done].
  - intros e He. destruct (env_from t) as [|e0 l0] eqn:El; [by apply elem_of_nil in He|].
    specialize (Henv eq_refl) as (_ & Hf & _). unfold check_env_from in Hf. destruct (_ <? _)%nat; [done|].
    rewrite El in Hf. by eapply check_env_from_spec.
  - intros g Hge. unfold check_gang in Hgg. rewrite Hge in Hgg. cbn [on_some] in Hgg. passed Hgg.
    destruct Hgg as (H1 & H2 & H3 & H4 & H5 & _). apply N.ltb_ge in H1, H2. apply N.eqb_neq in Hatt.
    assert (commandless t = false) as Hc by (unfold commandless; rewrite !orb_false_iff; tauto).
    split_and!; [done|lia|done|by apply Hrun|tauto| |done].
    destruct (defer t) as [d|] eqn:Ed; [|done]. exfalso.
    unfold check_defer in Hd. rewrite Ed in Hd. cbn [on_some] in Hd. passed Hd. rewrite Hge in Hd. naive_solver.
  - intros d Hde. unfold check_defer in Hd. rewrite Hde in Hd. cbn [on_some] in Hd. passed Hd.
    destruct Hd as (_ & H1 & H2 & _ & _ & H3 & _). apply N.eqb_neq in H1. apply N.ltb_ge in H2. split; [|lia].
    apply Hrun. unfold commandless, is_approval, is_workflow, is_wait, type_is, known in *.
    destruct (task_type t) as [k|]; [|done]. apply bool_decide_eq_true in H3. apply list_elem_of_singleton in H3 as ->. done.
  - intros r Hre. unfold check_repeat in Hr. rewrite Hre in Hr. cbn [on_some] in Hr. passed Hr.
    destruct Hr as (_ & _ & _ & H1 & _). unfold is_approval, is_wait, type_is, known in *. split_and!.
    1-2: destruct (task_type t) as [k|]; [|done]; apply bool_decide_eq_true in H1;
      apply elem_of_cons in H1 as [->|H1]; [done|]; by apply list_elem_of_singleton in H1 as ->.
    destruct (defer t) as [d|] eqn:Ed; [|done]. exfalso.
    unfold check_defer in Hd. rewrite Ed in Hd. cbn [on_some] in Hd. passed Hd. rewrite Hre in Hd. naive_solver.
Qed.

(** *** The whole *)

Lemma elem_names (sp : DagSpec) n : n ∈ names sp <-> exists t, t ∈ tasks sp /\ name t = n.
Proof. unfold names. rewrite list_elem_of_fmap. naive_solver. Qed.

Lemma elem_hooks (sp : DagSpec) n : n ∈ hook_names sp <-> exists t, t ∈ tasks sp /\ name t = n /\ hook t <> None.
Proof.
  unfold hook_names. rewrite list_elem_of_fmap. split.
  - intros (t & -> & Ht). apply list_elem_of_In, filter_In in Ht as [Ht Hh%given_true].
    exists t. split_and!; [by apply list_elem_of_In|done|done].
  - intros (t & Ht & <- & Hh). exists t. split; [done|].
    apply list_elem_of_In, filter_In. split; [by apply list_elem_of_In|by apply given_true].
Qed.

Lemma elem_edges (sp : DagSpec) a b : (a, b) ∈ graph_edges sp <-> exists t, t ∈ tasks sp /\ name t = b /\ a ∈ depends_on t.
Proof.
  unfold graph_edges. rewrite list_elem_of_In, in_flat_map. split.
  - intros (t & Ht & Hin). apply in_map_iff in Hin as (d & [= -> <-] & Hd).
    exists t. split_and!; [by apply list_elem_of_In|done|by apply list_elem_of_In].
  - intros (t & Ht & <- & Ha). exists t. split; [by apply list_elem_of_In|].
    apply in_map_iff. exists a. split; [done|by apply list_elem_of_In].
Qed.

Lemma unhooked (sp : DagSpec) n : n ∈ names sp -> n ∉ hook_names sp ->
  exists t, t ∈ tasks sp /\ name t = n /\ hook t = None.
Proof.
  rewrite elem_names, elem_hooks. intros (t & Ht & Hn) Hh. exists t. split_and!; [done|done|].
  destruct (hook t) eqn:E; [|done]. exfalso. apply Hh. exists t. by rewrite E.
Qed.

Lemma producer_rows producer deps d :
  d ∈ Expand.fanout_producer_rows producer deps -> d ∈ deps /\ (d = producer \/ exists r, d = producer ++ $"." ++ r).
Proof.
  unfold Expand.fanout_producer_rows. destruct (List.find _ deps) as [x|] eqn:E.
  - intros ->%list_elem_of_singleton. apply find_some in E as [Hin Hx%bool_decide_eq_true].
    split; [by apply list_elem_of_In|by left].
  - intros Hd%list_elem_of_In. apply filter_In in Hd as [Hin Hs]. split; [by apply list_elem_of_In|right].
    apply starts_with_spec in Hs as [r ->]. exists r. by rewrite <- app_assoc.
Qed.

Lemma deps_unhooked (sp : DagSpec) t d : check_deps sp = Ok tt -> t ∈ tasks sp -> d ∈ depends_on t ->
  exists u, u ∈ tasks sp /\ name u = d /\ hook u = None.
Proof.
  unfold check_deps. rewrite for_each_ok, Forall_forall. intros H Ht%H Hd.
  rewrite for_each_ok, Forall_forall in Ht. specialize (Ht d Hd).
  case_bool_decide as Hn; [|done]. cbn [negb] in Ht. passed Ht. by apply unhooked.
Qed.

Lemma acyclic_order (sp : DagSpec) : is_cyclic_directed (names sp) (graph_edges sp) = false ->
  exists rank : str -> nat, forall t d, t ∈ tasks sp -> d ∈ depends_on t -> rank d < rank (name t).
Proof.
  intros H. destruct (acyclic_rank (graph_edges sp)) as [rank Hrank].
  { intros Hc. apply (is_cyclic_spec (names sp)) in Hc. congruence. }
  exists rank. intros t d Ht Hd. apply Hrank, elem_edges. eauto.
Qed.

Lemma fanout_waits (sp : DagSpec) t p : check_fanout sp t = Ok tt -> with_output_of t = Some p ->
  exists d, d ∈ depends_on t /\ (d = p \/ exists r, d = p ++ $"." ++ r).
Proof.
  intros H Hp. unfold check_fanout in H. rewrite Hp in H. cbn [on_some] in H.
  destruct (Expand.fanout_producer_rows p (depends_on t)) as [|d l] eqn:E; [by destruct (_ || _)|].
  exists d. apply producer_rows. rewrite E. by left.
Qed.

Lemma checks_well_formed (sp : DagSpec) : (forall t, t ∈ tasks sp -> NoDup (depends_on t)) ->
  checks sp = Ok tt -> well_formed sp.
Proof.
  intros Hdd H. unfold Graph.checks in H. passed H. destruct H as (_ & Hb & _ & _ & Ht & Hd & Hc & Hw & Hf & Hr & _).
  apply check_tasks_spec in Ht as (Hn & _ & Ht). rewrite Forall_forall in Ht.
  rewrite for_each_ok, Forall_forall in Hw. rewrite for_each_ok, Forall_forall in Hf.
  split.
  - done.
  - intros t Hin. by apply check_task_ok, Ht.
  - intros t Hin. split; [by apply Hdd|]. intros d. by apply deps_unhooked.
  - by apply acyclic_order.
  - intros t c ref Hin Hc' Href. specialize (Hw t Hin). unfold check_when in Hw. rewrite Hc' in Hw. cbn [on_some] in Hw.
    rewrite for_each_ok, Forall_forall in Hw. specialize (Hw ref Href). by passed Hw.
  - intros t p Hin. apply (fanout_waits sp), (Hf t Hin).
  - intros rf Hrf. unfold check_result in Hr. rewrite Hrf in Hr. cbn [on_some] in Hr. passed Hr.
    destruct Hr as (H1 & H2 & _). destruct (unhooked sp rf H1 H2) as (t & Hin & Hname & Hh).
    exists t. split_and!; [done..|]. destruct (gang t) as [g|] eqn:Eg; [|done]. exfalso.
    destruct (check_task_ok sp t (Ht t Hin)) as [_ _ _ _ Hg _ _].
    destruct (Hg g Eg) as (_ & _ & _ & _ & _ & _ & Hne). congruence.
  - intros b max Hbud Hmax. unfold check_budget in Hb. rewrite Hbud in Hb. cbn [on_some] in Hb. passed Hb.
    rewrite Hmax in Hb. destruct Hb as [Hb _]. destruct max as [|max]; [done|]. passed Hb. by apply N.ltb_ge in Hb.
Qed.

(** C16: an accepted workflow is well formed, and stays accepted.  Whatever specification
    [from_spec] takes, what it makes of it has distinct names, dependencies that are tasks
    of it (none twice, none a hook) in an order with no circle, tasks that can each run
    and read only what they wait for, a result that will exist and no more rows than its
    budget; it differs from what was given only in dependencies listed again; and taken a
    second time, as a stored specification is, it is accepted as it stands. *)
Theorem accepted_well_formed (sp : DagSpec) (g : DagGraph Num) :
  from_spec sp = Ok g ->
  well_formed (spec g) /\ spec g = one_dependency_each sp /\ from_spec (spec g) = Ok g.
Proof.
  unfold Graph.from_spec. destruct (Graph.checks _ _ (one_dependency_each sp)) as [[]|] eqn:E; [|done].
  intros [= <-]. cbn [spec]. split_and!; [|done|by rewrite one_dependency_idem, E].
  apply checks_well_formed; [|exact E]. intros t. apply once_deps.
Qed.
End accepted.
End GraphFacts.
