(* ===== verification/GraphRuns.v ===== *)
(** * Accepted workflows and the runs made of them ([Graph], [Runs])

    Of an accepted workflow's rows and edges the store refuses none, unless two of its rows
    would have one name.

    ** Concrete workflows ([Graph])

    A workflow with a gang, a gate, a condition and a fan-out that is accepted and run; one
    that is refused for each of some mistakes; and one whose gang's member shares its name
    with a task, which is accepted and cannot be run. *)

From S2P Require Import Tables Stops Scheduler Runs Invariant Preserve PreserveRuns Create Reach Graph GraphFacts Sample.

Module GraphRuns.

Import Models Invariant Preserve PreserveRuns Create.

(** The names of the rows of a task: its own, or one for each member of its gang. *)
Definition row_names {num} (t : Spec.TaskSpec num) : list str :=
  match Spec.gang t with
  | Some g => map (fun i => Spec.name t ++ $"." ++ show_N (N.of_nat i)) (seq 0 (N.to_nat (Spec.gang_size g)))
  | None => [Spec.name t]
  end.
Definition all_row_names {num} (l : list (Spec.TaskSpec num)) : list str := flat_map row_names l.

Section rows.
Context {W : World}.
Context (uuid : nat -> str) (dag : Spec.DagGraph num) (run_id : str) (now : time) (held : Z).

(** A row of the run has the name already. *)
Definition used (s : store) (n : str) : Prop :=
  exists id r, task_runs s !! id = Some r /\ T.run_id r = run_id /\ T.name r = n.

(** From [next] on the ids are new. *)
Definition fresh_from (s : store) (next : nat) : Prop := forall k, next <= k -> task_runs s !! uuid k = None.

Lemma insert_task_total id r s : T.run_id r = run_id -> task_runs s !! id = None ->
  match Runs.insert_task id r s with
  | Ok s' => ~ used s (T.name r) /\ s' = s <| task_runs ::= <[ id := r ]> |>
  | Err e => e = Runs.ConstraintViolated /\ used s (T.name r)
  end.
Proof.
  intros Hr Hid. unfold Runs.insert_task. rewrite Hid. cbn [not_null orb].
  destruct (size _ =? 0)%nat eqn:E; cbn [negb].
  - apply Nat.eqb_eq in E. rewrite affected_none in E. split; [|done].
    intros (i & x & Hx & H1 & H2). specialize (E i x Hx). rewrite Hr, H1, H2 in E. by rewrite !bool_decide_true in E.
  - split; [done|]. apply Nat.eqb_neq in E.
    destruct (map_choose (affected (fun _ x => bool_decide (T.run_id x = T.run_id r) && bool_decide (T.name x = T.name r))
                (task_runs s))) as (i & x & Hx); [by intros H; rewrite H in E|].
    apply affected_lookup in Hx as [Hx Hp]. apply andb_true_iff in Hp as [H1%bool_decide_eq_true H2%bool_decide_eq_true].
    exists i, x. rewrite <- Hr. done.
Qed.

Lemma used_insert s id r n : T.run_id r = run_id -> task_runs s !! id = None ->
  used (s <| task_runs ::= <[ id := r ]> |>) n <-> used s n \/ n = T.name r.
Proof.
  intros Hr Hid. unfold used. cbn. split.
  - intros (i & x & Hx & H). destruct (decide (i = id)) as [->|Hi].
    + rewrite lookup_insert_eq in Hx. injection Hx as <-. right. by destruct H.
    + rewrite lookup_insert_ne in Hx by done. left. eauto.
  - intros [(i & x & Hx & H)| ->].
    + exists i, x. rewrite lookup_insert_ne; [done|]. intros <-. congruence.
    + exists id, r. by rewrite lookup_insert_eq.
Qed.

Section members.
Hypothesis uuid_inj : forall j k, uuid j = uuid k -> j = k.

Lemma insert_members_total (mk : N -> T.task_run) (f : N -> str) m rank s next :
  (forall k, T.run_id (mk k) = run_id /\ T.name (mk k) = f k) -> fresh_from s next ->
  let ns := map (fun i => f (rank + N.of_nat i)%N) (seq 0 m) in
  match Runs.insert_members uuid mk m rank s next with
  | Ok (s', next', ids) =>
      NoDup ns /\ (forall n, n ∈ ns -> ~ used s n)
      /\ next' = next + m /\ fresh_from s' next' /\ (forall n, used s' n <-> used s n \/ n ∈ ns)
      /\ forall id, id ∈ ids -> exists k, next <= k /\ id = uuid k
  | Err e => e = Runs.ConstraintViolated /\ ~ (NoDup ns /\ forall n, n ∈ ns -> ~ used s n)
  end.
Proof.
  intros Hmk. revert rank s next; induction m as [|m IH]; intros rank s next Hf; cbn [Runs.insert_members seq map].
  { split_and!; [constructor|by intros ? ?%elem_of_nil|lia|done| |by intros ? ?%elem_of_nil].
    intros n. split; [by left|]. by intros [?|?%elem_of_nil]. }
  assert (map (fun i => f (rank + N.of_nat i)%N) (seq 1 m) = map (fun i => f (rank + 1 + N.of_nat i)%N) (seq 0 m)) as Hseq.
  { rewrite <- seq_shift, map_map. apply map_ext. intros i. f_equal. lia. }
  cbn zeta. rewrite Hseq, N.add_0_r. clear Hseq.
  pose proof (insert_task_total (uuid next) (mk rank) s (proj1 (Hmk rank)) (Hf next ltac:(lia))) as Ht.
  rewrite (proj2 (Hmk rank)) in Ht.
  destruct (Runs.insert_task (uuid next) (mk rank) s) as [s1|e].
  2:{ destruct Ht as [-> Hu]. split; [done|]. intros [_ Hn]. apply (Hn (f rank)); [left|done]. }
  destruct Ht as [Hu ->].
  assert (fresh_from (s <| task_runs ::= <[ uuid next := mk rank ]> |>) (S next)) as Hf1.
  { intros k Hk. cbn. rewrite lookup_insert_ne; [apply Hf; lia|]. intros E%uuid_inj. lia. }
  assert (forall n, used (s <| task_runs ::= <[ uuid next := mk rank ]> |>) n <-> used s n \/ n = f rank) as Hu1.
  { intros n. rewrite used_insert; [by rewrite (proj2 (Hmk rank))|apply Hmk|apply Hf; lia]. }
  specialize (IH (rank + 1)%N _ _ Hf1). cbn zeta in IH.
  destruct (Runs.insert_members _ _ _ _ _ _) as [[[s2 n2] ids]|e].
  - destruct IH as (H1 & H2 & -> & H4 & H5 & H6). split_and!.
    + constructor; [|done]. intros Hin. apply (H2 _ Hin). apply Hu1. by right.
    + intros n [->|Hn]%elem_of_cons; [done|]. intros Hun. apply (H2 _ Hn), Hu1. by left.
    + lia.
    + by replace (next + S m) with (S next + m) by lia.
    + intros n. rewrite H5, Hu1, elem_of_cons. tauto.
    + intros id [->|Hid]%elem_of_cons; [by exists next|]. destruct (H6 id Hid) as (k & Hk & ->). exists k. split; [lia|done].
  - destruct IH as [-> IH]. split; [done|]. intros [Hd Hn]. apply NoDup_cons in Hd as [Hd1 Hd]. apply IH. split; [done|].
    intros n Hin [Hus| ->]%Hu1; [|done]. by apply (Hn n); [right|].
Qed.

Lemma new_row_name t gang k : T.run_id (Runs.new_row dag run_id now held t gang k) = run_id
  /\ T.name (Runs.new_row dag run_id now held t gang k)
     = match gang with Some _ => Spec.name t ++ $"." ++ show_N k | None => Spec.name t end.
Proof. by destruct gang as [[gid n]|]. Qed.

Lemma insert_task_spec_total t s next ids : ids !! Spec.name t = None -> fresh_from s next ->
  match Runs.insert_task_spec uuid dag run_id now held (s, next, ids) t with
  | Ok (s', next', ids') =>
      NoDup (row_names t) /\ (forall n, n ∈ row_names t -> ~ used s n)
      /\ next <= next' /\ fresh_from s' next' /\ (forall n, used s' n <-> used s n \/ n ∈ row_names t)
      /\ exists l, ids' = <[ Spec.name t := l ]> ids /\ forall id, id ∈ l -> exists k, next <= k /\ id = uuid k
  | Err e => e = Runs.ConstraintViolated /\ ~ (NoDup (row_names t) /\ forall n, n ∈ row_names t -> ~ used s n)
  end.
Proof.
  intros Hn Hf. unfold Runs.insert_task_spec. rewrite Hn. unfold row_names.
  destruct (Spec.gang t) as [g|] eqn:Eg.
  - pose proof (insert_members_total (Runs.new_row dag run_id now held t (Some (uuid next, Spec.gang_size g)))
      (fun k => Spec.name t ++ $"." ++ show_N k) (N.to_nat (Spec.gang_size g)) 0 s (S next)
      (fun k => new_row_name _ _ _) ltac:(intros k Hk; apply Hf; lia)) as H. cbn zeta in H.
    replace (map (fun i => Spec.name t ++ $"." ++ show_N (0 + N.of_nat i)) (seq 0 (N.to_nat (Spec.gang_size g))))
      with (map (fun i => Spec.name t ++ $"." ++ show_N (N.of_nat i)) (seq 0 (N.to_nat (Spec.gang_size g)))) in H
      by (apply map_ext; intros i; by rewrite N.add_0_l).
    destruct (Runs.insert_members _ _ _ _ _ _) as [[[s1 n1] l]|e]; [|done].
    destruct H as (H1 & H2 & -> & H4 & H5 & H6). split_and!; [done|done|lia|done|done|].
    exists l. split; [done|]. intros id Hid. destruct (H6 id Hid) as (k & Hk & ->). exists k. split; [lia|done].
  - pose proof (insert_members_total (Runs.new_row dag run_id now held t None)
      (fun _ => Spec.name t) 1 0 s next (fun k => new_row_name _ _ _) Hf) as H. cbn zeta in H. cbn [seq map] in H.
    destruct (Runs.insert_members _ _ _ _ _ _) as [[[s1 n1] l]|e]; [|done].
    destruct H as (H1 & H2 & -> & H4 & H5 & H6). split_and!; [done|done|lia|done|done|]. by exists l.
Qed.

Lemma insert_task_specs_total ts s next ids :
  NoDup (map Spec.name ts) -> (forall t, t ∈ ts -> ids !! Spec.name t = None) -> fresh_from s next ->
  match Runs.insert_task_specs uuid dag run_id now held ts (s, next, ids) with
  | Ok (s', _, ids') =>
      NoDup (all_row_names ts) /\ (forall n, n ∈ all_row_names ts -> ~ used s n)
      /\ forall x l id, ids' !! x = Some l -> id ∈ l -> ids !! x = Some l \/ exists k, id = uuid k
  | Err e => e = Runs.ConstraintViolated
      /\ ~ (NoDup (all_row_names ts) /\ forall n, n ∈ all_row_names ts -> ~ used s n)
  end.
Proof.
  unfold all_row_names. revert s next ids; induction ts as [|t ts IH]; intros s next ids Hd Hn Hf;
    cbn [Runs.insert_task_specs flat_map].
  { split_and!; [constructor|by intros ? ?%elem_of_nil|by left]. }
  apply NoDup_cons in Hd as [Ht Hd].
  pose proof (insert_task_spec_total t s next ids ltac:(apply Hn; left) Hf) as H.
  destruct (Runs.insert_task_spec _ _ _ _ _ _ t) as [[[s1 n1] ids1]|e].
  2:{ destruct H as [-> H]. split; [done|]. intros [Hd' Hu]. apply H. apply NoDup_app in Hd' as [? _].
      split; [done|]. intros n Hin. apply Hu, elem_of_app. by left. }
  destruct H as (H1 & H2 & H3 & H4 & H5 & l & -> & H6).
  specialize (IH s1 n1 (<[ Spec.name t := l ]> ids) Hd).
  assert (forall u, u ∈ ts -> <[ Spec.name t := l ]> ids !! Spec.name u = None) as Hn1.
  { intros u Hu. rewrite lookup_insert_ne; [apply Hn; by right|]. intros E. apply Ht. rewrite E.
    by apply list_elem_of_fmap_2. }
  specialize (IH Hn1 H4).
  destruct (Runs.insert_task_specs _ _ _ _ _ _ _) as [[[s2 n2] ids2]|e].
  - destruct IH as (I1 & I2 & I3). split_and!.
    + apply NoDup_app. split_and!; [done| |done]. intros n Hin Hin2. apply (I2 n Hin2), H5. by right.
    + intros n [Hin|Hin]%elem_of_app; [by apply H2|]. intros Hu. apply (I2 n Hin), H5. by left.
    + intros x lx id Hx Hid. destruct (I3 x lx id Hx Hid) as [Hl|Hk]; [|by right].
      destruct (decide (x = Spec.name t)) as [->|Hne].
      * rewrite lookup_insert_eq in Hl. injection Hl as ->. right. destruct (H6 id Hid) as (k & _ & ->). by exists k.
      * left. by rewrite lookup_insert_ne in Hl.
  - destruct IH as [-> IH]. split; [done|]. intros [Hd' Hu]. apply NoDup_app in Hd' as (_ & Hdis & Hd2).
    apply IH. split; [done|]. intros n Hin [Hus|Hin2]%H5.
    + apply (Hu n); [apply elem_of_app; by right|done].
    + by apply (Hdis n Hin2).
Qed.
End members.
End rows.

(** ** Edges *)

Lemma insert_edges_total s es : NoDup es -> (forall e, e ∈ es -> e ∉ task_dependencies s) ->
  exists s', Runs.insert_edges s es = Ok s' /\ forall e, e ∈ task_dependencies s' <-> e ∈ task_dependencies s \/ e ∈ es.
Proof.
  intros Hd. revert s; induction Hd as [|e es He _ IH]; intros s Hs; cbn [Runs.insert_edges].
  { exists s. split; [done|]. intros e. split; [by left|]. by intros [?|?%elem_of_nil]. }
  unfold Runs.insert_edge. rewrite bool_decide_false by (apply Hs; left).
  destruct (IH (s <| task_dependencies ::= fun d => {[ e ]} ∪ d |>)) as (s' & Hs' & Hin).
  { intros x Hx. cbn. rewrite not_elem_of_union, not_elem_of_singleton.
    split; [by intros ->|apply Hs; by right]. }
  exists s'. split; [done|]. intros x. rewrite Hin. cbn. rewrite elem_of_union, elem_of_singleton, elem_of_cons. tauto.
Qed.

Lemma edges_of_NoDup ds l : NoDup ds -> NoDup l -> NoDup (Runs.edges_of ds l).
Proof.
  intros Hds Hl. unfold Runs.edges_of. induction Hds as [|d ds Hd _ IH]; cbn [flat_map]; [constructor|].
  apply NoDup_app. split_and!; [|intros e (b & -> & _)%list_elem_of_fmap He|done].
  - apply NoDup_fmap_2_strong; [|done]. by intros ? ? _ _ [= ->].
  - apply Hd. change (flat_map (fun a => map (pair a) l) ds) with (Runs.edges_of ds l) in He.
    by apply edges_of_spec in He as [He _].
Qed.

Section wire.
Context {W : World} (ids : gmap str (list str)).
Hypothesis Hids : forall x l, ids !! x = Some l -> NoDup l.
Hypothesis Hapart : forall x y l l' id, ids !! x = Some l -> ids !! y = Some l' -> id ∈ l -> id ∈ l' -> x = y.

Lemma wire_deps_total (t : Spec.TaskSpec num) deps s :
  NoDup deps -> (forall d, d ∈ deps -> is_Some (ids !! d)) ->
  (forall a b d, a ∈ rows_of ids (Spec.name t) -> d ∈ deps -> b ∈ rows_of ids d -> (a, b) ∉ task_dependencies s) ->
  exists s', Runs.wire_deps ids t deps s = Ok s'
    /\ forall e, e ∈ task_dependencies s' -> e ∈ task_dependencies s \/ e.1 ∈ rows_of ids (Spec.name t).
Proof.
  intros Hd. revert s; induction Hd as [|d deps Hnd _ IH]; intros s Hk Hs; cbn [Runs.wire_deps].
  { exists s. split; [done|]. by left. }
  destruct (Hk d ltac:(left)) as [l El]. rewrite El.
  assert (rows_of ids d = l) as Hl by (unfold rows_of; by rewrite El).
  destruct (insert_edges_total s (Runs.edges_of (rows_of ids (Spec.name t)) l)) as (s1 & Hs1 & Hin).
  { apply edges_of_NoDup; [by apply rows_of_NoDup|by eapply Hids]. }
  { intros [a b] [Ha Hb]%edges_of_spec. apply (Hs a b d); [done|left|by rewrite Hl]. }
  fold (rows_of ids (Spec.name t)). rewrite Hs1.
  destruct (IH s1) as (s' & Hs' & Hold).
  - intros x Hx. apply Hk. by right.
  - intros a b x Ha Hx Hb [Hin1|[_ Hbl]%edges_of_spec]%Hin; [by eapply (Hs a b x); [|right|..]|].
    cbn in Hbl. destruct (Hk x ltac:(by right)) as [lx Elx]. unfold rows_of in Hb. rewrite Elx in Hb. cbn in Hb.
    apply Hnd. by rewrite (Hapart d x l lx b El Elx Hbl Hb).
  - exists s'. split; [done|]. intros e [[He|[He _]%edges_of_spec]%Hin|He]%Hold; auto.
Qed.

Lemma wire_tasks_total ts s :
  NoDup (map Spec.name ts) ->
  (forall t, t ∈ ts -> NoDup (Spec.depends_on t) /\ forall d, d ∈ Spec.depends_on t -> is_Some (ids !! d)) ->
  (forall t a b, t ∈ ts -> a ∈ rows_of ids (Spec.name t) -> (a, b) ∉ task_dependencies s) ->
  exists s', Runs.wire_tasks ids ts s = Ok s'.
Proof.
  revert s; induction ts as [|t ts IH]; intros s Hd Ht Hs; cbn [Runs.wire_tasks]; [by eexists|].
  apply NoDup_cons in Hd as [Hnt Hd]. destruct (Ht t ltac:(left)) as [Hdd Hk].
  destruct (wire_deps_total t (Spec.depends_on t) s Hdd Hk) as (s1 & Hs1 & Hold).
  { intros a b d Ha _ _. apply (Hs t a b); [left|done]. }
  rewrite Hs1. apply IH; [done|intros u Hu; apply Ht; by right|].
  intros u a b Hu Ha [Hin|Hin]%Hold; [by apply (Hs u a b); [right|..]|]. cbn in Hin.
  unfold rows_of in Ha, Hin.
  destruct (ids !! Spec.name u) as [lu|] eqn:Eu; [|by apply elem_of_nil in Ha].
  destruct (ids !! Spec.name t) as [lt|] eqn:Et; [|by apply elem_of_nil in Hin].
  apply Hnt. rewrite <- (Hapart _ _ _ _ a Eu Et Ha Hin). by apply list_elem_of_fmap_2.
Qed.
End wire.

(** ** Runs *)

(** The ids a run will be made with, as a source of UUIDs gives them: each new, to the
    others and to the store. *)
Record fresh_uuids (uuid : nat -> str) (s : store) : Prop := {
  u_apart : forall j k, uuid j = uuid k -> j = k;
  u_new : forall k, task_runs s !! uuid k = None }.

Section made.
Context {W : World} {P : Graph.Petgraph} (enterprise : bool) (is_rfc3339 : str -> bool).

(** The rows and edges of an accepted workflow, into a store that has none of its run's. *)
Lemma accepted_built (sp : Spec.DagSpec num) g uuid run_id now held s :
  Graph.from_spec enterprise is_rfc3339 sp = Ok g ->
  edges_ok s -> fresh_uuids uuid s -> fresh_run run_id s ->
  match Runs.insert_task_specs uuid g run_id now held (Spec.tasks (Spec.spec g)) (s, 2%nat, ∅) with
  | Ok (s', _, ids) =>
      NoDup (all_row_names (Spec.tasks (Spec.spec g)))
      /\ exists s'', Runs.wire_tasks ids (Spec.tasks (Spec.spec g)) s' = Ok s''
  | Err e => e = Runs.ConstraintViolated /\ ~ NoDup (all_row_names (Spec.tasks (Spec.spec g)))
  end.
Proof.
  intros Hg Hedges [Hu Hnew] Hfresh.
  assert (GraphFacts.well_formed (Spec.spec g)) as [Hn _ Hdeps _ _ _ _ _].
  { revert Hg. unfold Graph.from_spec.
    destruct (Graph.checks _ _ (Graph.one_dependency_each sp)) as [[]|] eqn:E; [|done]. intros [= <-].
    eapply GraphFacts.checks_well_formed; [|exact E]. intros t Ht. by eapply (GraphFacts.once_deps is_rfc3339 sp). }
  assert (forall n, ~ used run_id s n) as Hnone.
  { intros n (id & r & Hr & Hrun & _). by apply (Hfresh id r). }
  pose proof (insert_task_specs_total uuid g run_id now held Hu (Spec.tasks (Spec.spec g)) s 2 ∅ Hn
    ltac:(intros; apply lookup_empty) ltac:(intros k _; apply Hnew)) as H.
  destruct (Runs.insert_task_specs _ _ _ _ _ _ _) as [[[s1 n1] ids]|e] eqn:E.
  2:{ destruct H as [-> H]. split; [done|]. intros Hd. apply H. split; [done|]. intros n _. apply Hnone. }
  destruct H as (Hd & _ & Hids). split; [done|].
  pose proof (insert_task_specs_built uuid g run_id now held s _ [] s 2 ∅ s1 n1 ids (built_start _ _ _ _ s) E)
    as [_ B2 B3 B4 _ B6].
  apply wire_tasks_total; [intros x l Hx; by apply (B3 x l Hx)|exact B4|done| |].
  - intros t Ht. destruct (Hdeps t Ht) as [Hdd Hk]. split; [done|].
    intros d Hd'. destruct (Hk d Hd') as (u & Hin & <- & _). destruct (B2 u Hin) as (l & _ & Hl & _). by exists l.
  - intros t a b Ht Ha Hin. rewrite B6 in Hin. cbn in Hin.
    unfold rows_of in Ha. destruct (ids !! Spec.name t) as [l|] eqn:El; [|by apply elem_of_nil in Ha].
    destruct (Hids _ _ _ El Ha) as [Hl|[k ->]]; [by rewrite lookup_empty in Hl|].
    destruct (Hedges _ _ Hin) as (ra & _ & Hra & _). by rewrite Hnew in Hra.
Qed.

(** C17: what is accepted can be run.  Of a plain request (no claim on a key, no dead letter
    to replay), where the disk has room, the deadlines can be told and the workflow's cap
    lets the run in or lets it wait, the store makes the run of an accepted workflow,
    rows, edges and all, exactly when no two of its rows have one name; else it refuses it
    for the names alone. *)
Theorem accepted_made (sp : Spec.DagSpec num) g uuid rq floor free now s :
  Graph.from_spec enterprise is_rfc3339 sp = Ok g ->
  Reach.reachable s -> fresh_uuids uuid s -> fresh_run (uuid 1%nat) s ->
  Runs.claim rq = None -> Runs.dead_letter rq = None ->
  is_ok (Runs.check_disk_floor floor free) = true ->
  is_ok (Runs.deadline_of now (Spec.run_timeout_secs (Spec.spec g))) = true ->
  is_ok (Runs.deadline_of now (Runs.alert_secs (Spec.spec g))) = true ->
  is_ok (Runs.take_place (Spec.spec g) (uuid 1%nat) (Runs.own rq) now s) = true ->
  match Runs.create_run_full uuid g rq floor free now s with
  | Ok (_, run_id) => run_id = uuid 1%nat /\ NoDup (all_row_names (Spec.tasks (Spec.spec g)))
  | Err e => e = Runs.ConstraintViolated /\ ~ NoDup (all_row_names (Spec.tasks (Spec.spec g)))
  end.
Proof.
  intros Hg Hr [Hu Hnew] Hf Hc Hdl. pose proof (Reach.reachable_inv s Hr) as Hi.
  unfold Runs.create_run_full.
  destruct (Runs.check_disk_floor floor free) as [?|]; [intros _|done].
  destruct (Runs.deadline_of now (Spec.run_timeout_secs _)) as [dl|]; [intros _|done].
  destruct (Runs.deadline_of now (Runs.alert_secs _)) as [al|]; [intros _|done].
  rewrite Hc, Hdl. cbn [Runs.hold_claim Runs.take_dead_letter].
  destruct (Runs.take_place _ _ _ _ s) as [[s0 waits]|] eqn:Ep; [intros _|done].
  destruct (take_place_keeps _ _ _ _ _ _ _ Ep Hi) as [I0 E0].
  pose proof (take_place_no_new _ _ _ _ _ _ _ Ep) as Hnn.
  set (s1 := Runs.insert_run _ _ _ _ _ _ _ _ s0).
  assert (task_runs s1 = task_runs s0 /\ task_dependencies s1 = task_dependencies s0) as [F1 F2]
    by (unfold s1, Runs.insert_run; by destruct (Runs.trigger rq)).
  pose proof (accepted_built sp g uuid (uuid 1%nat) now (if waits then 1 else 0)%Z s1 Hg) as H.
  assert (edges_ok s1) as He1.
  { intros x y Hxy. rewrite F2 in Hxy. rewrite F1. by apply (inv_edges _ I0). }
  assert (fresh_uuids uuid s1) as Hu1 by (split; [done|intros k; rewrite F1; by apply Hnn]).
  assert (fresh_run (uuid 1%nat) s1) as Hf1
    by (unfold fresh_run; rewrite F1; by eapply fresh_run_kept).
  specialize (H He1 Hu1 Hf1).
  destruct (Runs.insert_task_specs _ _ _ _ _ _ _) as [[[s2 n2] ids]|e]; [|done].
  destruct H as [Hd [s3 ->]]. by cbn [Runs.resolve_claim].
Qed.
End made.
End GraphRuns.

Module GraphWitnesses.

Import Sample Graph GraphFacts GraphRuns.

#[local] Existing Instance kahn.

Definition cmd (n : string) (deps : list string) : Spec.TaskSpec Z :=
  (Sample.task (lit n) (map lit deps)) <| Spec.command := [$"true"] |>.

Definition training : Spec.DagSpec Z :=
  (Spec.spec (Sample.dag
    [cmd "fetch" [];
     (cmd "train" ["fetch"; "fetch"]) <| Spec.gang := Some {| Spec.gang_size := 2 |} |>;
     (Sample.task $"gate" [$"train"]) <| Spec.task_type := Some $"approval" |>
                                    <| Spec.approvers := [$"group:ml"] |>;
     (cmd "publish" ["gate"; "fetch"])
       <| Spec.when := Some $"{{ tasks.fetch.output }} == 'new'" |>
       <| Spec.env_from := [{| Spec.ef_name := $"SHA"; Spec.ef_task := $"fetch"; Spec.ef_read := Spec.LastLine |}] |>;
     (cmd "each" ["fetch"]) <| Spec.with_output_of := Some $"fetch" |>;
     (cmd "clean" ["publish"; "each"]) <| Spec.hook := Some $"on_exit" |>
                                     <| Spec.trigger_rule := Some $"all_done" |>]))
  <| Spec.budget := Some {| Spec.bg_tasks := Some 7%N; Spec.external_cost := None;
                            Spec.external_cost_attribution := false; Spec.bg_tokens := None |} |>
  <| Spec.result_from := Some $"publish" |>.

Definition accepted : Spec.DagGraph Z :=
  {| Spec.spec := one_dependency_each training; Spec.graph_parameters := ∅ |}.

Lemma training_accepted : from_spec false (fun _ => true) training = Ok accepted.
Proof. vm_compute. reflexivity. Qed.

Lemma accepted_well_formed_witness :
  from_spec false (fun _ => true) training = Ok accepted
  /\ well_formed (Spec.spec accepted) /\ from_spec false (fun _ => true) (Spec.spec accepted) = Ok accepted.
Proof.
  destruct (accepted_well_formed false (fun _ => true) training accepted training_accepted) as (H1 & _ & H2).
  exact (conj training_accepted (conj H1 H2)).
Defined.

(** What is refused, and why. *)
Definition refused (sp : Spec.DagSpec Z) : option graph_error :=
  match from_spec false (fun _ => true) sp with Ok _ => None | Err e => Some e end.
Definition flow (l : list (Spec.TaskSpec Z)) : Spec.DagSpec Z := Spec.spec (Sample.dag l).

Example refusals :
  map refused
    [flow [cmd "a" ["b"]; cmd "b" ["a"]];
     flow [cmd "a" ["a"]];
     flow [cmd "a" []; cmd "a" []];
     flow [cmd "a" ["c"]];
     flow [Sample.task $"a" []];
     flow [cmd "a" []; (cmd "b" []) <| Spec.when := Some $"{{ tasks.a.output }} == 'x'" |>];
     flow [(cmd "a" []) <| Spec.hook := Some $"on_exit" |>; cmd "b" ["a"]];
     flow [(cmd "a" []) <| Spec.gang := Some {| Spec.gang_size := 1 |} |>];
     training <| Spec.budget := Some {| Spec.bg_tasks := Some 6%N; Spec.external_cost := None;
                                        Spec.external_cost_attribution := false; Spec.bg_tokens := None |} |>]
  = [Some Cyclic; Some Cyclic; Some (DuplicateTask $"a"); Some (UnknownDependency $"a" $"c");
     Some (OfTask $"a" NoCommand); Some (WhenNotDependency $"b" $"a"); Some (DependsOnHook $"b" $"a");
     Some (OfTask $"a" GangSize); Some (TaskBudgetExceeded 6 7)].
Proof. vm_compute. reflexivity. Qed.

(** ** Runs *)

Lemma sample_uuids : fresh_uuids Sample.uuid empty_store.
Proof.
  split; [|done]. intros j k H. unfold Sample.uuid in H. injection H as H. apply show_N_inj in H. lia.
Qed.

Lemma nothing_yet : Create.fresh_run (Sample.uuid 1) empty_store.
Proof. intros id r H. done. Qed.

Lemma training_names : bool_decide (NoDup (all_row_names (Spec.tasks (Spec.spec accepted)))) = true.
Proof. vm_compute. reflexivity. Qed.

Lemma accepted_made_witness :
  match Runs.create_run_full (W := world) Sample.uuid accepted Sample.request 0 None 0%Z empty_store with
  | Ok (_, run_id) => run_id = Sample.uuid 1 /\ NoDup (all_row_names (Spec.tasks (Spec.spec accepted)))
  | Err e => e = Runs.ConstraintViolated /\ ~ NoDup (all_row_names (Spec.tasks (Spec.spec accepted)))
  end.
Proof.
  apply (accepted_made (W := world) false (fun _ => true) training accepted Sample.uuid Sample.request 0 None 0%Z empty_store
           training_accepted).
  - apply rtc_refl.
  - exact sample_uuids.
  - exact nothing_yet.
  - reflexivity.
  - reflexivity.
  - vm_compute. reflexivity.
  - vm_compute. reflexivity.
  - vm_compute. reflexivity.
  - vm_compute. reflexivity.
Defined.

(** The run of [training] is made. *)
Example training_made :
  is_ok (Runs.create_run_full (W := world) Sample.uuid accepted Sample.request 0 None 0%Z empty_store) = true.
Proof. vm_compute. reflexivity. Qed.

(** A gang of two and a task named like its first member. *)
Definition member_clash : Spec.DagSpec Z :=
  flow [(cmd "train" []) <| Spec.gang := Some {| Spec.gang_size := 2 |} |>; cmd "train.0" []].

(** A workflow is accepted and can never be run: [from_spec] tells task names apart and not
    the names of a gang's members. *)
Lemma gang_name_clash :
  from_spec false (fun _ => true) member_clash
  = Ok {| Spec.spec := member_clash; Spec.graph_parameters := ∅ |}
  /\ Runs.create_run_full (W := world) Sample.uuid {| Spec.spec := member_clash; Spec.graph_parameters := ∅ |}
       Sample.request 0 None 0%Z empty_store = Err Runs.ConstraintViolated.
Proof. split; vm_compute; reflexivity. Qed.
End GraphWitnesses.
