(* ===== verification/Envpolicy.v ===== *)
(** * Who may use an environment ([dagron-core/src/envpolicy.rs])

    An environment's policy, the runs it admits by their trust class, their ref and their
    workflow's name, and the globs the last two are told by.  Of a refusal its kind and what
    it names are kept, not its wording.  What a glob means is said beside its matcher, as a
    relation. *)

From S2P Require Import Prelude Models Spec Graph.

Module Envpolicy.

Import Models.

(** ** Globs *)

(** A [char] is its code point; [s.chars()] decodes the text's UTF-8. *)
Definition chr : Type := N.
Definition STAR : chr := 42%N.
Definition SLASH : chr := 47%N.
Definition QUESTION : chr := 63%N.

(** The bits a lead byte gives its character. *)
Definition lead (c : ascii) : N :=
  if (code c <? 128)%N then code c
  else if (code c <? 224)%N then (code c - 192)%N
  else if (code c <? 240)%N then (code c - 224)%N
  else (code c - 240)%N.
Fixpoint decode (cur : option N) (s : str) : list chr :=
  match s with
  | [] => option_list cur
  | c :: s =>
      if is_cont c then decode (option_map (fun a => a * 64 + (code c - 128))%N cur) s
      else option_list cur ++ decode (Some (lead c)) s
  end.
Definition chars (s : str) : list chr := decode None s.

(** The loop of a star: it takes nothing, then one character more at a time. *)
Fixpoint star (k : list chr -> bool) (across : bool) (text : list chr) : bool :=
  k text
  || match text with
     | c :: text => (across || negb (c =? SLASH)%N) && star k across text
     | [] => false
     end.

Fixpoint glob (pattern text : list chr) : bool :=
  match pattern with
  | [] => match text with [] => true | _ => false end
  | p :: rest =>
      if (p =? STAR)%N then
        match rest with
        | q :: after => if (q =? STAR)%N then star (glob after) true text else star (glob rest) false text
        | [] => star (glob rest) false text
        end
      else if (p =? QUESTION)%N then
        match text with
        | c :: text => negb (c =? SLASH)%N && glob rest text
        | [] => false
        end
      else
        match text with
        | c :: text => (c =? p)%N && glob rest text
        | [] => false
        end
  end.

Definition matches (pattern text : str) : bool := glob (chars pattern) (chars text).

(** What a pattern means. *)
Inductive fits : list chr -> list chr -> Prop :=
| fits_end : fits [] []
| fits_across after taken text : fits after text -> fits (STAR :: STAR :: after) (taken ++ text)
| fits_within rest taken text :
    head rest <> Some STAR -> Forall (fun c => c <> SLASH) taken -> fits rest text ->
    fits (STAR :: rest) (taken ++ text)
| fits_one rest c text : c <> SLASH -> fits rest text -> fits (QUESTION :: rest) (c :: text)
| fits_char p rest text : p <> STAR -> p <> QUESTION -> fits rest text -> fits (p :: rest) (p :: text).

(** ** Policies *)

Definition TRUSTED : str := $"trusted".
Definition UNTRUSTED : str := $"untrusted".
Definition AGENT : str := $"agent".
Definition TRUST_CLASSES : list str := [TRUSTED; UNTRUSTED; AGENT].

Definition MAX_PATTERNS : nat := 64.
Definition MAX_PATTERN_LEN : nat := 256.

Record EnvironmentPolicy := {
  allowed_trust : list str;
  allowed_refs : option (list str);
  allowed_pipelines : option (list str);
  allowed_identity : list str;
  approvers : list str }.

(** [EnvironmentPolicy::default] *)
Definition default_policy : EnvironmentPolicy :=
  {| allowed_trust := [TRUSTED]; allowed_refs := None; allowed_pipelines := None;
     allowed_identity := []; approvers := [] |}.

Inductive policy_error :=
| NotTrustClass (class : str)
| NoIdentityFor (class : str) | IdentityNotAdmitted (class : str)
| TooManyApprovers | BadApprover (e : str)
| EmptyList (field : str) | TooManyPatterns (field : str) | NotPattern (field pattern : str).

Definition check_patterns (field : str) (o : option (list str)) : result policy_error unit :=
  match o with
  | None => Ok tt
  | Some [] => Err (EmptyList field)
  | Some patterns =>
      if (MAX_PATTERNS <? length patterns)%nat then Err (TooManyPatterns field)
      else for_each (fun p =>
             if bool_decide (p = []) || (MAX_PATTERN_LEN <? length p)%nat || any_ctl p
             then Err (NotPattern field p) else Ok tt) patterns
  end.

(** [EnvironmentPolicy::validate] *)
Definition validate (p : EnvironmentPolicy) : result policy_error unit :=
  let? _ := for_each (fun class =>
              if bool_decide (class ∈ TRUST_CLASSES) then Ok tt else Err (NotTrustClass class))
              (allowed_trust p) in
  let? _ := for_each (fun class =>
              if negb (bool_decide (class = AGENT)) then Err (NoIdentityFor class)
              else if negb (bool_decide (class ∈ allowed_trust p)) then Err (IdentityNotAdmitted class)
              else Ok tt) (allowed_identity p) in
  if (Graph.APPROVERS_MAX <? length (approvers p))%nat then Err TooManyApprovers
  else
    let? _ := for_each (fun e => map_err BadApprover (Spec.validate_approver e)) (approvers p) in
    let? _ := check_patterns $"allowed_refs" (allowed_refs p) in
    check_patterns $"allowed_pipelines" (allowed_pipelines p).

Inductive identity_refused := NoClass (class : str) | NoEnvironment | NotNamed (environment : str).

(** [identity_admits] *)
Definition identity_admits (environment : option str) (policy : option EnvironmentPolicy) (class : str)
    : result identity_refused unit :=
  if bool_decide (class = TRUSTED) then Ok tt
  else if negb (bool_decide (class = AGENT)) then Err (NoClass class)
  else
    let named := match policy with
                 | Some p => bool_decide (class ∈ allowed_identity p)
                 | None => false
                 end in
    match environment, named with
    | Some _, true => Ok tt
    | None, _ => Err NoEnvironment
    | Some env, false => Err (NotNamed env)
    end.

(** [approvers_for] *)
Definition approvers_for (policy : option EnvironmentPolicy) (class : str) : list str :=
  match policy with
  | Some p => if negb (bool_decide (class = TRUSTED)) then approvers p else []
  | None => []
  end.

(** ** Runs *)

(** [trigger_kind::CI] *)
Definition CI : str := $"ci".

(** [class_of] *)
Definition class_of (trigger : option RunTrigger) : str :=
  match trigger with
  | None => TRUSTED
  | Some t =>
      match trust t with
      | Some class => class
      | None => if bool_decide (kind t = CI) then UNTRUSTED else TRUSTED
      end
  end.

Record RunFacts := { rf_trust : str; rf_git_ref : option str; rf_pipeline : str }.

(** [RunFacts::of] *)
Definition facts_of (trigger : option RunTrigger) (pipeline : str) : RunFacts :=
  {| rf_trust := class_of trigger;
     rf_git_ref := trigger ≫= git_ref;
     rf_pipeline := pipeline |}.

(** ** Repositories' environments *)

Definition repository_environment (forge_host full_name : str) : str :=
  to_lower (forge_host ++ $"/" ++ full_name).

Definition host_ok (host : str) : bool :=
  negb (bool_decide (host = []))
  && forallb (fun c => is_lower c || is_digit c || ch c "." || ch c "-" || ch c ":") host.
Definition part_ok (p : str) : bool :=
  negb (bool_decide (p = [])) && negb (bool_decide (p = $".")) && negb (bool_decide (p = $".."))
  && forallb (fun c => is_lower c || is_digit c || ch c "_" || ch c "." || ch c "-") p.

(** [is_repository_environment] *)
Definition is_repository_environment (name : str) : bool :=
  match split_char "/" name with
  | [host; owner; repo] => (length name <=? 255)%nat && host_ok host && part_ok owner && part_ok repo
  | _ => false
  end.

Inductive refusal_reason :=
| NotThatRepositorys
| TrustRefused (admitted : list str) (trust : str)
| RefRefused (patterns : list str) (r : str)
| NoRef (patterns : list str)
| PipelineRefused (patterns : list str) (pipeline : str).
Record EnvironmentRefused := { er_environment : str; er_reason : refusal_reason }.

(** The environment of the repository a run is of, as dagron-ci recorded it. *)
Definition own_environment (trigger : option RunTrigger) : option str :=
  let* t := trigger in
  let ci := bool_decide (kind t = $"ci") && starts_with $"ci:" (principal t) in
  match ci, forge_host t, repo t with
  | true, Some host, Some repo => Some (repository_environment host repo)
  | _, _, _ => None
  end.

(** [repository_admits] *)
Definition repository_admits (name : str) (trigger : option RunTrigger) : result EnvironmentRefused unit :=
  if negb (contains_char "/" name) then Ok tt
  else if bool_decide (own_environment trigger = Some name) then Ok tt
  else Err {| er_environment := name; er_reason := NotThatRepositorys |}.

(** [admits] *)
Definition admits (environment : str) (policy : option EnvironmentPolicy) (facts : RunFacts)
    : result EnvironmentRefused unit :=
  let policy := default default_policy policy in
  let refused := fun reason => Err {| er_environment := environment; er_reason := reason |} in
  if negb (bool_decide (rf_trust facts ∈ allowed_trust policy)) then
    refused (TrustRefused (allowed_trust policy) (rf_trust facts))
  else
    let? _ :=
      match allowed_refs policy with
      | Some patterns =>
          match rf_git_ref facts with
          | Some r => if existsb (fun p => matches p r) patterns then Ok tt
                      else refused (RefRefused patterns r)
          | None => refused (NoRef patterns)
          end
      | None => Ok tt
      end in
    match allowed_pipelines policy with
    | Some patterns =>
        if existsb (fun p => matches p (rf_pipeline facts)) patterns then Ok tt
        else refused (PipelineRefused patterns (rf_pipeline facts))
    | None => Ok tt
    end.

(** [named_by] *)
Definition named_by {Num} (g : Spec.DagGraph Num) : gset str :=
  list_to_set (option_list (Spec.dg_environment (Spec.spec g)))
  ∪ list_to_set (omap Spec.environment (Spec.tasks (Spec.spec g))).

(** ** The store's policies *)

(** A row of [environment_policies], its lists as the JSON they are kept in. *)
Record policy_row := {
  pr_environment_id : str;
  pr_allowed_trust : str;
  pr_allowed_refs : option str;
  pr_allowed_pipelines : option str;
  pr_allowed_identity : option str;
  pr_approvers : option str }.

Section store.
(** [serde_json::from_str] into a [Vec<String>], and the two tables as a query reads them. *)
Context (list_from_json : str -> option (list str)).
Context (environments : list (str * str)) (environment_policies : list policy_row).

Definition json_list (field json : str) : result str (list str) := ok_or field (list_from_json json).
Definition json_list_opt (field : str) (o : option str) : result str (option (list str)) :=
  match o with
  | None => Ok None
  | Some j => let? l := json_list field j in Ok (Some l)
  end.

(** The row of [environments], id and name, that a policy's is joined to. *)
Definition named_row (n : str) (p : policy_row) : bool :=
  existsb (fun e => bool_decide (e.1 = pr_environment_id p) && bool_decide (e.2 = n)) environments.

(** [db::environment_policy]; the error is the field that is no list. *)
Definition environment_policy (n : str) : result str (option EnvironmentPolicy) :=
  match List.find (named_row n) environment_policies with
  | None => Ok None
  | Some row =>
      let? trust := json_list $"allowed_trust" (pr_allowed_trust row) in
      let? refs := json_list_opt $"allowed_refs" (pr_allowed_refs row) in
      let? pipelines := json_list_opt $"allowed_pipelines" (pr_allowed_pipelines row) in
      let? identity := json_list_opt $"allowed_identity" (pr_allowed_identity row) in
      let? approvers := json_list_opt $"approvers" (pr_approvers row) in
      Ok (Some {| allowed_trust := trust; allowed_refs := refs; allowed_pipelines := pipelines;
                  allowed_identity := default [] identity; approvers := default [] approvers |})
  end.
End store.
End Envpolicy.
