(* ===== verification/EnvpolicyFacts.v ===== *)
(** * What an environment's policy admits ([Envpolicy])

    The matcher decides the relation that says what a pattern means; a policy admits a run
    exactly when its class, its ref and its workflow's name are all among what it lists; and
    a class that is not trusted gets nothing it was not given by name. *)

From S2P Require Import Prelude Models Spec Graph Envpolicy CiGlob CiGlobFacts.

Module EnvpolicyFacts.

Import Models Envpolicy.

(** ** Globs *)

Lemma star_spec (k : list chr -> bool) across text :
  star k across text = true
  <-> exists taken rest, text = taken ++ rest /\ k rest = true
      /\ (across = false -> Forall (fun c => c <> SLASH) taken).
Proof.
  induction text as [|c text IH]; cbn [star].
  - rewrite orb_false_r. split; [intros H; by exists [], []|].
    intros (taken & rest & E & Hk & _). by destruct taken, rest.
  - rewrite orb_true_iff, andb_true_iff, IH, orb_true_iff, negb_true_iff, N.eqb_neq. split.
    + intros [H|[Hc (taken & rest & -> & Hk & Ht)]]; [by exists [], (c :: text)|].
      exists (c :: taken), rest. split_and!; [done..|]. intros Ha. constructor; [|by apply Ht].
      destruct Hc; [congruence|done].
    + intros (taken & rest & E & Hk & Ht). destruct taken as [|c' taken]; cbn in E; [subst; by left|].
      injection E as <- ->. right. destruct across.
      * split; [by left|]. by exists taken, rest.
      * specialize (Ht eq_refl). apply Forall_cons in Ht as [Hc Ht].
        split; [by right|]. by exists taken, rest.
Qed.

Lemma head_not_star (q : chr) (after : list chr) : q <> STAR -> head (q :: after) <> Some STAR.
Proof. intros H [= ->]. done. Qed.

(** The clauses of a star, where the matcher decides what comes after it. *)
Lemma across_fits after text : (forall t, glob after t = true <-> fits after t) ->
  star (glob after) true text = true <-> fits (STAR :: STAR :: after) text.
Proof.
  intros IH. rewrite star_spec. split.
  - intros (taken & rest & -> & Hk & _). apply fits_across. by apply IH.
  - intros H. inversion H as [|after' taken rest Hf|? ? ? Hh| |]; subst.
    + exists taken, rest. split_and!; [done|by apply IH|done].
    + by destruct Hh.
    + done.
Qed.

Lemma within_fits rest text : head rest <> Some STAR -> (forall t, glob rest t = true <-> fits rest t) ->
  star (glob rest) false text = true <-> fits (STAR :: rest) text.
Proof.
  intros Hh IH. rewrite star_spec. split.
  - intros (taken & t & -> & Hk & Ht). apply fits_within; [done|by apply Ht|by apply IH].
  - intros H. inversion H as [|after' taken t Hf|? taken t _ Ht Hf| |]; subst.
    + by destruct Hh.
    + exists taken, t. split_and!; [done|by apply IH|done].
    + done.
Qed.

Lemma glob_fits pattern text : glob pattern text = true <-> fits pattern text.
Proof.
  revert text.
  remember (length pattern) as n eqn:Hn. revert pattern Hn.
  induction (lt_wf n) as [n _ IH]; intros [|p rest] -> text; cbn [glob].
  { split; [by destruct text; [constructor|]|by inversion 1]. }
  assert (forall t, glob rest t = true <-> fits rest t) as IHr by (intros t; by eapply IH; [|reflexivity]; cbn; lia).
  destruct (p =? STAR)%N eqn:Ep; [apply N.eqb_eq in Ep as ->|apply N.eqb_neq in Ep].
  - destruct rest as [|q after]; [by apply within_fits|].
    destruct (q =? STAR)%N eqn:Eq; [apply N.eqb_eq in Eq as ->|apply N.eqb_neq in Eq].
    + apply across_fits. intros t. eapply IH; [|reflexivity]. cbn. lia.
    + apply within_fits; [by apply head_not_star|done].
  - destruct (p =? QUESTION)%N eqn:Eq; [apply N.eqb_eq in Eq as ->|apply N.eqb_neq in Eq].
    + destruct text as [|c text]; [split; [done|by inversion 1]|].
      rewrite andb_true_iff, negb_true_iff, N.eqb_neq, IHr. split; [intros [? ?]; by constructor|].
      inversion 1; subst; [done..|naive_solver].
    + destruct text as [|c text]; [split; [done|by inversion 1]|].
      rewrite andb_true_iff, N.eqb_eq, IHr. split; [intros [-> ?]; by constructor|].
      inversion 1; subst; naive_solver.
Qed.

(** ** Beside the globs of a pipeline's filters *)

(** A pattern that writes none of what the two read apart: no class, no escape, no run of
    three stars and no [**/]. *)
Definition parted (p : list chr) : bool :=
  match p with
  | c :: d :: e :: _ => (c =? STAR)%N && (d =? STAR)%N && ((e =? STAR)%N || (e =? SLASH)%N)
  | _ => false
  end.
Fixpoint plain (p : list chr) : bool :=
  match p with
  | [] => true
  | c :: rest => negb (c =? CiGlob.BACKSLASH)%N && negb (c =? CiGlob.OPEN)%N && negb (parted p) && plain rest
  end.

Lemma fits_end_iff t : fits [] t <-> t = [].
Proof. split; [by inversion 1|intros ->; constructor]. Qed.
Lemma fits_across_iff after t : fits (STAR :: STAR :: after) t <-> exists a r, t = a ++ r /\ fits after r.
Proof.
  split; [|intros (a & r & -> & H); by constructor].
  inversion 1 as [| |? ? ? Hh| |]; subst; [by eauto|by destruct Hh|done].
Qed.
Lemma fits_within_iff rest t : head rest <> Some STAR ->
  fits (STAR :: rest) t <-> exists a r, t = a ++ r /\ Forall (fun c => c <> SLASH) a /\ fits rest r.
Proof.
  intros Hh. split; [|intros (a & r & -> & Ha & H); by constructor].
  inversion 1; subst; [by destruct Hh|by eauto|done].
Qed.
Lemma fits_one_iff rest t : fits (QUESTION :: rest) t <-> exists c r, t = c :: r /\ c <> SLASH /\ fits rest r.
Proof.
  split; [|intros (c & r & -> & Hc & H); by constructor]. inversion 1; subst; [by eauto|done].
Qed.
Lemma fits_char_iff p rest t : p <> STAR -> p <> QUESTION ->
  fits (p :: rest) t <-> exists r, t = p :: r /\ fits rest r.
Proof.
  intros H1 H2. split; [|intros (r & -> & H); by constructor]. inversion 1; subst; [done..|by eauto].
Qed.

Lemma ci_star_iff ts t :
  CiGlob.fits (CiGlob.Star :: ts) t <-> exists a r, t = a ++ r /\ Forall (fun c => c <> SLASH) a /\ CiGlob.fits ts r.
Proof.
  assert (forall a : list chr, CiGlob.SLASH ∉ a <-> Forall (fun c => c <> SLASH) a) as E.
  { intros a. rewrite Forall_forall. split; [by intros H c Hc ->|intros H Hc; by apply (H _ Hc)]. }
  split; [inversion 1; subst; do 2 eexists; split_and!; [done|by apply E|done]|].
  intros (a & r & -> & Ha%E & H). by constructor.
Qed.
Lemma ci_globstar_iff ts t :
  CiGlob.fits (CiGlob.Globstar false :: ts) t <-> exists a r, t = a ++ r /\ CiGlob.fits ts r.
Proof. split; [inversion 1; subst; eauto|intros (a & r & -> & H); by constructor]. Qed.

(** The tokens a plain pattern compiles to mean what it means. *)
Lemma plain_compiles fuel p : (length p <= fuel)%nat -> plain p = true ->
  exists ts, CiGlob.compile fuel p = Ok ts /\ forall t, CiGlob.fits ts t <-> fits p t.
Proof.
  revert p; induction fuel as [|fuel IH]; intros [|c rest] Hl Hp; cbn [length] in Hl; [|lia| |].
  1-2: exists []; split; [done|]; intros t; by rewrite fits_end_iff, CiGlob.fits_nil.
  cbn [plain] in Hp. rewrite !andb_true_iff, !negb_true_iff in Hp. destruct Hp as (((Hb & Ho) & Hs) & Hp).
  cbn [CiGlob.compile]. rewrite Hb. change CiGlob.STAR with STAR.
  destruct (c =? STAR)%N eqn:Es; [apply N.eqb_eq in Es as ->|apply N.eqb_neq in Es].
  - destruct rest as [|d after].
    { destruct (IH [] ltac:(cbn; lia) Hp) as (ts & -> & Hts). exists (CiGlob.Star :: ts). split; [done|].
      intros t. rewrite ci_star_iff, fits_within_iff by done. by setoid_rewrite Hts. }
    destruct (d =? STAR)%N eqn:Ed; [apply N.eqb_eq in Ed as ->|apply N.eqb_neq in Ed].
    + assert (plain after = true) as Ha by (cbn [plain] in Hp; rewrite !andb_true_iff in Hp; tauto).
      destruct (IH after ltac:(cbn in Hl; lia) Ha) as (ts & E & Hts).
      exists (CiGlob.Globstar false :: ts). split.
      * destruct after as [|e after]; [by rewrite E|].
        cbn [parted] in Hs. rewrite !N.eqb_refl in Hs. apply orb_false_iff in Hs as [H1 H2].
        change CiGlob.SLASH with SLASH. by rewrite H1, H2, E.
      * intros t. rewrite ci_globstar_iff, fits_across_iff. by setoid_rewrite Hts.
    + destruct (IH (d :: after) ltac:(cbn in *; lia) Hp) as (ts & -> & Hts). exists (CiGlob.Star :: ts).
      split; [done|]. intros t. rewrite ci_star_iff, fits_within_iff by (by apply head_not_star).
      by setoid_rewrite Hts.
  - destruct (IH rest ltac:(lia) Hp) as (ts & -> & Hts).
    change CiGlob.QUESTION with QUESTION. destruct (c =? QUESTION)%N eqn:Eq; [apply N.eqb_eq in Eq as ->|apply N.eqb_neq in Eq].
    + eexists. split; [done|]. intros t. rewrite CiGlob.fits_one, fits_one_iff. by setoid_rewrite Hts.
    + rewrite Ho. eexists. split; [done|]. intros t. rewrite CiGlob.fits_char, fits_char_iff by done.
      by setoid_rewrite Hts.
Qed.

(** A policy's pattern is a branch filter's.  Where a pattern writes no class, no escape,
    no run of three stars and no [**/], the filters of a pipeline's [on:] take it too unless
    it is empty or holds a control character, and then both match the same texts. *)
Theorem filters_agree (p : list chr) : plain p = true ->
  match CiGlob.new p with
  | Ok g => forall text, CiGlob.matches g text = Some (glob p text)
  | Err e => e = CiGlob.EmptyPattern /\ p = [] \/ e = CiGlob.HoldsControl /\ existsb CiGlob.is_control p = true
  end.
Proof.
  intros Hp. destruct p as [|c rest]; [by left|]. unfold CiGlob.new.
  destruct (existsb CiGlob.is_control (c :: rest)) eqn:Ec; [by right|].
  destruct (plain_compiles (length (c :: rest)) _ ltac:(done) Hp) as (ts & E & Hts).
  match goal with |- context [CiGlob.compile ?n ?l] => change (CiGlob.compile n l = Ok ts) in E; rewrite E end.
  intros text. destruct (CiGlobFacts.matches_fits {| CiGlob.source := c :: rest; CiGlob.tokens := ts |} text) as ([] & -> & Hb).
  - f_equal. symmetry. apply glob_fits, Hts. by apply Hb.
  - f_equal. symmetry. apply not_true_iff_false. rewrite glob_fits, <- Hts. intros H. by apply Hb in H.
Qed.

(** [**/] is read apart: a filter's takes no segment as well, and a policy's does not. *)
Example segments_differ :
  exists g, CiGlob.new (chars $"release/**/v1") = Ok g
  /\ CiGlob.matches g (chars $"release/v1") = Some true
  /\ matches $"release/**/v1" $"release/v1" = false.
Proof. eexists. split; [by vm_compute|]. split; by vm_compute. Qed.

(** ** Admission *)

Lemma existsb_matches ps t : existsb (fun p => matches p t) ps = true <-> exists p, p ∈ ps /\ fits (chars p) (chars t).
Proof.
  rewrite existsb_exists. split; intros (p & Hp & H); exists p; (split; [by apply list_elem_of_In|by apply glob_fits]).
Qed.

(** Who may use an environment.  A run is admitted exactly when its class is one the policy
    lists and, where the policy lists refs, the run has a ref that one of them fits, and
    where it lists workflows, its workflow's name is one.  So an environment with no policy
    admits the trusted alone, and one that lists no class admits nobody. *)
Theorem admits_exactly (env : str) (policy : option EnvironmentPolicy) (facts : RunFacts) :
  let p := default default_policy policy in
  admits env policy facts = Ok tt <->
    rf_trust facts ∈ allowed_trust p
    /\ (forall l, allowed_refs p = Some l ->
          exists r pat, rf_git_ref facts = Some r /\ pat ∈ l /\ fits (chars pat) (chars r))
    /\ (forall l, allowed_pipelines p = Some l ->
          exists pat, pat ∈ l /\ fits (chars pat) (chars (rf_pipeline facts))).
Proof.
  cbv zeta. unfold admits. set (p := default default_policy policy).
  case_bool_decide as Ht; cbn [negb]; [|naive_solver].
  transitivity ((forall l, allowed_refs p = Some l ->
          exists r pat, rf_git_ref facts = Some r /\ pat ∈ l /\ fits (chars pat) (chars r))
    /\ (forall l, allowed_pipelines p = Some l ->
          exists pat, pat ∈ l /\ fits (chars pat) (chars (rf_pipeline facts)))); [|tauto].
  assert (forall l t, existsb (fun p => matches p t) l = false ->
    ~ exists pat, pat ∈ l /\ fits (chars pat) (chars t)) as Hno.
  { intros l t H Hx. apply existsb_matches in Hx. congruence. }
  destruct (allowed_refs p) as [refs|].
  - destruct (rf_git_ref facts) as [r|]; [|naive_solver].
    destruct (existsb _ refs) eqn:Er; [apply existsb_matches in Er|apply Hno in Er; naive_solver].
    destruct (allowed_pipelines p) as [l|]; [|naive_solver].
    destruct (existsb _ l) eqn:El; [apply existsb_matches in El|apply Hno in El]; naive_solver.
  - destruct (allowed_pipelines p) as [l|]; [|naive_solver].
    destruct (existsb _ l) eqn:El; [apply existsb_matches in El|apply Hno in El]; naive_solver.
Qed.

(** A repository's environment is a plain one's to nobody: of the names with a [/] in them,
    a run is let at the one its own CI record spells, and at no other. *)
Lemma repository_own (n : str) (t : option RunTrigger) :
  contains_char "/" n = true -> repository_admits n t = Ok tt <-> own_environment t = Some n.
Proof. unfold repository_admits. intros ->. cbn. case_bool_decide; naive_solver. Qed.

(** A stored policy is one that [validate] takes: an [agent]'s identity only where it is
    admitted, and nobody else's. *)
Lemma identity_agents (p : EnvironmentPolicy) class :
  validate p = Ok tt -> class ∈ allowed_identity p -> class = AGENT /\ class ∈ allowed_trust p.
Proof.
  unfold validate. destruct (for_each _ (allowed_trust p)) as [[]|]; [|done].
  destruct (for_each _ (allowed_identity p)) as [[]|] eqn:E; [|done]. intros _ Hc.
  apply for_each_ok in E. rewrite Forall_forall in E. pose proof (E class Hc) as H. cbn in H. repeat case_bool_decide; naive_solver.
Qed.

(** Whose task holds an identity.  A trusted run's does; an agent's only in an environment
    whose policy names [agent] for it, which a policy that may be stored does only where it
    admits agents; nobody else's ever. *)
Theorem identity_exactly (env : option str) (policy : option EnvironmentPolicy) (class : str) :
  identity_admits env policy class = Ok tt <->
    class = TRUSTED
    \/ class = AGENT /\ env <> None /\ exists p, policy = Some p /\ AGENT ∈ allowed_identity p.
Proof.
  unfold identity_admits. case_bool_decide as Ht; [naive_solver|].
  case_bool_decide as Ha; cbn [negb]; [subst class|naive_solver].
  destruct policy as [p|]; [|destruct env; naive_solver].
  case_bool_decide; destruct env; naive_solver.
Qed.

(** ** Witnesses *)

Lemma filters_agree_witness :
  plain (chars $"refs/heads/*") = true
  /\ match CiGlob.new (chars $"refs/heads/*") with
     | Ok g => CiGlob.matches g (chars $"refs/heads/main") = Some true
     | Err _ => False
     end.
Proof.
  split; [by vm_compute|]. pose proof (filters_agree (chars $"refs/heads/*") ltac:(by vm_compute)) as H.
  destruct (CiGlob.new _) as [g|e] eqn:E; [rewrite H; by vm_compute|]. revert E. by vm_compute.
Defined.
End EnvpolicyFacts.
