(* ===== verification/Confine.v ===== *)
(** * What a run that is not trusted may be ([dagron-core/src/confine.rs, privileged.rs])

    The keys of a workflow such a run may not use, the ones it is not given, the images it
    may name and what it may spend; whether an engine can hold it; and a privileged task,
    which is an operator's to allow on an engine of its own.  Of a refusal its kind and what
    it names are kept, not its wording. *)

From Stdlib Require Import SpecFloat.
From S2P Require Import Prelude F64 Models Spec Isolation Service Envpolicy.
From coqutil Require Import Datatypes.RecordSettersUsingExistingGetters.

Module Confine.

Import Spec.

(** [confined] *)
Definition confined (class : str) : bool := negb (bool_decide (class = Envpolicy.TRUSTED)).

(** ** Engines *)

Inductive engine_error :=
| OwnProcesses | UnnamedNetwork | UnsaidNetwork
| EveryClass | DefaultClass | RunsUntrusted | FloorContradicts (what : str).

(** [confine::engine_refusal] *)
Definition engine_refusal (k : Isolation.ExecutorKind) (floor : IsolationSpec) (names_a_network : bool)
    : result engine_error unit :=
  match k with
  | Isolation.Local_ => Err OwnProcesses
  | Isolation.Docker => if negb names_a_network then Err UnnamedNetwork else Ok tt
  | Isolation.Kubernetes =>
      match network floor with
      | Some NetNone | Some (NetAllow _) => Ok tt
      | _ => Err UnsaidNetwork
      end
  end.

(** ** Images *)

(** [parse_images] *)
Definition parse_images (raw : str) : result str (list str) :=
  let listed := List.filter (fun p => negb (bool_decide (p = []))) (map trim (split_char "," raw)) in
  let? _ := for_each (fun p => if (512 <? char_count p)%nat || any_ws p || any_ctl p then Err p else Ok tt) listed in
  Ok listed.

Inductive image_refused := TaskImage (image : str) | ServiceImage (service image : str).

Definition listed (allowed : list str) (image : str) : bool :=
  existsb (fun p => Envpolicy.matches p image) allowed.

Section confine.
Context {Num : Type}.
Abbreviation TaskSpec := (TaskSpec Num).
Abbreviation DagSpec := (DagSpec Num).
Abbreviation DagGraph := (DagGraph Num).

(** [image_refusal] *)
Definition image_refusal (allowed : list str) (t : TaskSpec) : option image_refused :=
  match allowed with
  | [] => None
  | _ =>
      match docker_image t with
      | Some image =>
          if negb (listed allowed image) then Some (TaskImage image)
          else option_map (fun s => ServiceImage (sv_name s) (Spec.image s))
                 (List.find (fun s => negb (listed allowed (Spec.image s))) (services t))
      | None => option_map (fun s => ServiceImage (sv_name s) (Spec.image s))
                  (List.find (fun s => negb (listed allowed (Spec.image s))) (services t))
      end
  end.

(** ** Limits *)

Definition POOL : str := $"untrusted".

Record Limits := {
  memory_bytes : Z;
  pids : Z;
  nano_cpus : Z;
  limit_timeout_secs : N;
  limit_max_attempts : N;
  max_tasks : Z;
  max_services : nat }.

(** [Limits::default] *)
Definition default_limits : Limits :=
  {| memory_bytes := 4 * 2 ^ 30; pids := 2048; nano_cpus := 2000000000; limit_timeout_secs := 3600;
     limit_max_attempts := 3; max_tasks := 256; max_services := 4 |}.

Inductive limit_error :=
| NotKeyValue (entry : str)
| BadCount (key value : str) | BadMemory (value : str) | BadCpus (value : str)
| UnknownLimit (key : str).

(** [count] *)
Definition count (key value : str) (least most : Z) : result limit_error Z :=
  match parse_i64 value with
  | Some n => if (least <=? n)%Z && (n <=? most)%Z then Ok n else Err (BadCount key value)
  | None => Err (BadCount key value)
  end.

(** The digits of a size and its unit. *)
Definition size_parts (value : str) : str * Z :=
  match last value with
  | Some c =>
      let digits := take (length value - 1) value in
      if ch c "k" || ch c "K" then (digits, 2 ^ 10)%Z
      else if ch c "m" || ch c "M" then (digits, 2 ^ 20)%Z
      else if ch c "g" || ch c "G" then (digits, 2 ^ 30)%Z
      else (value, 1%Z)
  | None => (value, 1%Z)
  end.
Definition memory (value : str) : result limit_error Z :=
  let '(digits, unit) := size_parts value in
  ok_or (BadMemory value)
    (let* n := parse_i64 digits in
     let bytes := (n * unit)%Z in
     if (I64_MIN <=? bytes)%Z && (bytes <=? I64_MAX)%Z && (6 * 2 ^ 20 <=? bytes)%Z then Some bytes else None).

(** [x.round() as i64] of an [x] between 0 and 2^63: half away from zero. *)
Definition round_pos (x : f64) : Z :=
  match x with
  | S754_finite _ m e =>
      if (0 <=? e)%Z then (Z.pos m * 2 ^ e)%Z else ((Z.pos m + 2 ^ (- e - 1)) / 2 ^ (- e))%Z
  | _ => 0%Z
  end.
Definition is_finite (x : f64) : bool :=
  match x with S754_zero _ | S754_finite _ _ _ => true | _ => false end.
(** The [f64]s 0.01, 4096.0 and 1e9. *)
Definition LEAST_CPUS : f64 := F64.of_decimal false 1 (-2).
Definition MOST_CPUS : f64 := F64.of_decimal false 4096 0.
Definition BILLION : f64 := F64.of_decimal false 1 9.
Definition cpus (value : str) : result limit_error Z :=
  ok_or (BadCpus value)
    (let* n := F64.parse value in
     if is_finite n && F64.leb LEAST_CPUS n && F64.leb n MOST_CPUS then Some (round_pos (F64.mul n BILLION))
     else None).

(** One entry of the limits. *)
Definition set_limit (out : Limits) (key value : str) : result limit_error Limits :=
  if bool_decide (key = $"memory") then
    let? n := memory value in Ok (out <| memory_bytes := n |>)
  else if bool_decide (key = $"pids") then
    let? n := count key value 1 I64_MAX in Ok (out <| pids := n |>)
  else if bool_decide (key = $"cpus") then
    let? n := cpus value in Ok (out <| nano_cpus := n |>)
  else if bool_decide (key = $"timeout") then
    let? n := count key value 1 (7 * 24 * 3600) in Ok (out <| limit_timeout_secs := Z.to_N n |>)
  else if bool_decide (key = $"attempts") then
    let? n := count key value 1 100 in Ok (out <| limit_max_attempts := Z.to_N n |>)
  else if bool_decide (key = $"tasks") then
    let? n := count key value 1 100000 in Ok (out <| max_tasks := n |>)
  else if bool_decide (key = $"services") then
    let? n := count key value 0 (Z.of_nat Service.MAX_SERVICES) in Ok (out <| max_services := Z.to_nat n |>)
  else Err (UnknownLimit key).

Fixpoint set_limits (out : Limits) (entries : list str) : result limit_error Limits :=
  match entries with
  | [] => Ok out
  | entry :: entries =>
      let? (key, value) := ok_or (NotKeyValue entry) (split_once $"=" entry) in
      let? out := set_limit out (trim key) (trim value) in
      set_limits out entries
  end.

(** [Limits::parse] *)
Definition parse_limits (raw : str) : result limit_error Limits :=
  set_limits default_limits (List.filter (fun s => negb (bool_decide (s = []))) (map trim (split_char "," raw))).

(** [Limits::spend] *)
Definition spend (l : Limits) (t : TaskSpec) : TaskSpec :=
  (t <| timeout_secs := Some (match timeout_secs t with
                              | Some own => N.min own (limit_timeout_secs l)
                              | None => limit_timeout_secs l
                              end) |>)
    <| max_attempts := N.min (N.max 1 (max_attempts t)) (limit_max_attempts l) |>.

(** [Limits::too_many] and [too_many_services]: what a run or a task has, and may have. *)
Definition too_many (l : Limits) (tasks : Z) : option (Z * Z) :=
  if (max_tasks l <? tasks)%Z then Some (tasks, max_tasks l) else None.
Definition too_many_services (l : Limits) (t : TaskSpec) : option (nat * nat) :=
  if (max_services l <? length (services t))%nat then Some (length (services t), max_services l) else None.

(** ** What it may not use *)

Definition TASK_ALLOWED : list str :=
  [$"allow_failure"; $"arguments"; $"artifact_api"; $"command"; $"depends_on"; $"docker_image";
   $"env"; $"env_from"; $"environment"; $"forge_token"; $"hook"; $"image_pull_policy"; $"input";
   $"instance_key"; $"isolation"; $"max_attempts"; $"name"; $"resources"; $"retry_delay_secs";
   $"retry_max_delay_secs"; $"retry_on_timeout"; $"runner_class"; $"services"; $"template";
   $"timeout_secs"; $"tokens"; $"trigger_rule"; $"when"; $"with_items"; $"with_param"; $"workspace"].
Definition TASK_REFUSED : list str :=
  [$"approval_message"; $"approval_on_timeout"; $"approval_show"; $"approval_timeout_secs";
   $"approvers"; $"binds"; $"defer"; $"docker_daemon"; $"gang"; $"gang_member"; $"identity";
   $"not_triggerer"; $"privileged"; $"produces"; $"repeat"; $"service_account"; $"type"; $"wait";
   $"with_output_of"; $"workflow"].
Definition TASK_WITHHELD : list str := [$"cache"; $"pool"; $"priority"; $"retry_budgets"].

Inductive confined_thing :=
| TaskType (kind task : str)
| TaskKey (key task : str)
| ApprovalKeys (task : str)
| Notify
| OnDatasets.
Record ConfinedRefused := { cr_class : str; cr_what : confined_thing }.

(** An approval's own keys. *)
Definition approvals (t : TaskSpec) : bool :=
  negb (bool_decide (approval_timeout_secs t = None))
  || negb (bool_decide (approval_on_timeout t = None))
  || negb (bool_decide (approval_message t = None))
  || negb (bool_decide (approval_show t = []))
  || negb (bool_decide (binds t = []))
  || negb (bool_decide (approvers t = []))
  || not_triggerer t.

Definition given {A} (o : option A) : bool := match o with Some _ => true | None => false end.

(** [confine::task_refusal] *)
Definition task_refusal (t : TaskSpec) (class : str) : option confined_thing :=
  let named := fun key => Some (TaskKey key (name t)) in
  match (let* k := task_type t in if bool_decide (k = $"task") then None else Some k) with
  | Some kind => Some (TaskType kind (name t))
  | None =>
      if given (service_account t) then named $"service_account"
      else if given (identity t) && negb (bool_decide (class = Envpolicy.AGENT)) then named $"identity"
      else if docker_daemon t then named $"docker_daemon"
      else if privileged t then named $"privileged"
      else if given (defer t) then named $"defer"
      else if given (wait t) then named $"wait"
      else if given (workflow t) then named $"workflow"
      else if negb (bool_decide (produces t = [])) then named $"produces"
      else if given (repeat t) then named $"repeat"
      else if given (with_output_of t) then named $"with_output_of"
      else if given (gang t) || given (gang_member t) then named $"gang"
      else if approvals t then Some (ApprovalKeys (name t))
      else None
  end.

(** [refusal] *)
Definition refusal (sp : DagSpec) (class : str) : option confined_thing :=
  if given (notify sp) then Some Notify
  else if negb (bool_decide (on_datasets sp = [])) || given (datasets_mode sp) then Some OnDatasets
  else find_map (fun t => task_refusal t class) (tasks sp).

(** ** What it is not given *)

(** [withhold] *)
Definition withhold (t : TaskSpec) : TaskSpec :=
  (((t <| cache := None |>) <| pool := Some POOL |>) <| priority := Z.min (priority t) 0 |>)
    <| retry_budgets := ∅ |>.

(** [hold] *)
Definition hold (sp : DagSpec) (class : str) : result ConfinedRefused DagSpec :=
  if negb (confined class) then Ok sp
  else
    match refusal sp class with
    | Some what => Err {| cr_class := class; cr_what := what |}
    | None =>
        let sp := sp <| task_defaults := option_map (fun d => d <| td_retry_budgets := ∅ |>) (task_defaults sp) |> in
        let sp :=
          match max_active_runs sp with
          | Some _ =>
              sp <| concurrency_key := Some (match concurrency_key sp with
                                             | Some key => POOL ++ $":" ++ key
                                             | None => POOL
                                             end) |>
          | None => sp
          end in
        Ok (sp <| tasks := map withhold (tasks sp) |>)
    end.

(** [held] *)
Definition held (g : DagGraph) (class : str) : result ConfinedRefused (option DagGraph) :=
  if negb (confined class) then Ok None
  else let? sp := hold (spec g) class in Ok (Some (g <| spec := sp |>)).

(** ** Privileged tasks *)

(** [privileged::allowed] *)
Definition privileged_allowed (raw : option str) : result str bool :=
  let v := default [] (option_map trim raw) in
  if bool_decide (v = []) || bool_decide (v = $"off") then Ok false
  else if bool_decide (v = $"allow") then Ok true
  else Err v.

(** [contradicted] *)
Definition contradicted (iso : IsolationSpec) : option str :=
  if bool_decide (drop_all_capabilities iso = Some true) then Some $"drop_all_capabilities"
  else if bool_decide (no_new_privileges iso = Some true) then Some $"no_new_privileges"
  else if given (runtime_class iso) then Some $"a runtime_class"
  else match seccomp iso with Some RuntimeDefault => Some $"seccomp: runtime_default" | _ => None end.

(** [dag::DEFAULT_RUNNER_CLASS] *)
Definition DEFAULT_RUNNER_CLASS : str := $"default".

(** [privileged::engine_refusal] *)
Definition privileged_engine_refusal (executor : Isolation.ExecutorKind) (classes : list str)
    (runs_untrusted : bool) (floor : option IsolationSpec) : option engine_error :=
  match executor with
  | Isolation.Local_ => Some OwnProcesses
  | _ =>
      if bool_decide (classes = []) then Some EveryClass
      else if existsb (fun c => bool_decide (c = DEFAULT_RUNNER_CLASS)) classes then Some DefaultClass
      else if runs_untrusted then Some RunsUntrusted
      else option_map FloorContradicts (floor ≫= contradicted)
  end.

Inductive privileged_refused := NotAllowedHere | HeldTo (what : str).

(** [privileged::task_refusal] *)
Definition privileged_task_refusal (allowed_ : bool) (iso : option IsolationSpec) : option privileged_refused :=
  if negb allowed_ then Some NotAllowedHere else option_map HeldTo (iso ≫= contradicted).
End confine.
End Confine.
