(* ===== verification/ConfineFacts.v ===== *)
(** * What a confined run is left with ([Confine])

    A run that is not trusted is held: it is refused exactly what the lists refuse, is not
    given what is withheld, keeps the rest as it was written, and is counted and queued
    among its own kind.  What it may spend is the lesser of what it asks and what the
    operator allows, and none of those limits can be turned off. *)

From S2P Require Import Prelude F64 Models Spec Isolation Service Envpolicy Confine.
From coqutil Require Import Datatypes.RecordSettersUsingExistingGetters.

Module ConfineFacts.

Import Spec Confine.

Section facts.
Context {Num : Type}.
Abbreviation TaskSpec := (TaskSpec Num).
Abbreviation DagSpec := (DagSpec Num).
Abbreviation DagGraph := (DagGraph Num).

Lemma not_given {A} (o : option A) : given o = false <-> o = None.
Proof. by destruct o. Qed.
Lemma is_given {A} (o : option A) : given o = true <-> o <> None.
Proof. by destruct o. Qed.
Lemma confined_spec class : confined class = true <-> class <> Envpolicy.TRUSTED.
Proof. unfold confined. by rewrite negb_true_iff, bool_decide_eq_false. Qed.

(** ** What may not be used *)

(** An ordinary task: it runs a command, in containers of its run's, and asks for nothing else. *)
Record ordinary (class : str) (t : TaskSpec) : Prop := {
  o_type : task_type t = None \/ task_type t = Some $"task";
  o_account : service_account t = None;
  o_identity : identity t = None \/ class = Envpolicy.AGENT;
  o_daemon : docker_daemon t = false;
  o_privileged : privileged t = false;
  o_defer : defer t = None;
  o_wait : wait t = None;
  o_workflow : workflow t = None;
  o_produces : produces t = [];
  o_repeat : repeat t = None;
  o_fanout : with_output_of t = None;
  o_gang : gang t = None /\ gang_member t = None;
  o_gate : approval_timeout_secs t = None /\ approval_on_timeout t = None /\ approval_message t = None
           /\ approval_show t = [] /\ binds t = [] /\ approvers t = [] /\ not_triggerer t = false }.

Record harmless (class : str) (sp : DagSpec) : Prop := {
  h_notify : notify sp = None;
  h_datasets : on_datasets sp = [] /\ datasets_mode sp = None;
  h_tasks : forall t, t ∈ tasks sp -> ordinary class t }.

Lemma approvals_false (t : TaskSpec) :
  approvals t = false <->
  approval_timeout_secs t = None /\ approval_on_timeout t = None /\ approval_message t = None
  /\ approval_show t = [] /\ binds t = [] /\ approvers t = [] /\ not_triggerer t = false.
Proof. unfold approvals. rewrite !orb_false_iff, !negb_false_iff, !bool_decide_eq_true. tauto. Qed.

(** One key's refusal, among the others'. *)
Lemma refused_if (b : bool) (e : confined_thing) (rest : option confined_thing) :
  (if b then Some e else rest) = None <-> b = false /\ rest = None.
Proof. destruct b; naive_solver. Qed.

Lemma task_refusal_none (t : TaskSpec) class : task_refusal t class = None <-> ordinary class t.
Proof.
  unfold task_refusal.
  assert ((let* k := task_type t in if bool_decide (k = $"task") then None else Some k) = None
          <-> task_type t = None \/ task_type t = Some $"task") as Hk.
  { destruct (task_type t) as [k|]; [case_bool_decide; naive_solver|naive_solver]. }
  destruct (let* k := task_type t in _) as [k|]; cbv zeta.
  - split; [done|]. intros []. apply Hk in o_type0. done.
  - rewrite !refused_if, !not_given, !andb_false_iff, !orb_false_iff, !not_given, !negb_false_iff,
      !bool_decide_eq_true, approvals_false.
    split; [intros; split; tauto|intros []; tauto].
Qed.

Lemma find_map_none {A B} (f : A -> option B) l : find_map f l = None <-> Forall (fun x => f x = None) l.
Proof.
  induction l as [|x l IH]; cbn [find_map]; [by split|]. rewrite Forall_cons.
  destruct (f x); [naive_solver|]. rewrite IH. naive_solver.
Qed.

Lemma refusal_none (sp : DagSpec) class : refusal sp class = None <-> harmless class sp.
Proof.
  unfold refusal. rewrite !refused_if, orb_false_iff, !not_given, negb_false_iff, bool_decide_eq_true,
    find_map_none, Forall_forall.
  split.
  - intros (H1 & H2 & H3). split; [done..|]. intros t Ht. apply task_refusal_none. by apply H3.
  - intros [H1 H2 H3]. split_and!; [done|tauto..|]. intros t Ht. apply task_refusal_none. by apply H3.
Qed.

(** ** What is left *)

(** A task as it is held: the four keys are not its own, and the rest is as it was. *)
Record task_held (t t' : TaskSpec) : Prop := {
  th_cache : cache t' = None;
  th_pool : pool t' = Some POOL;
  th_priority : (priority t' <= 0 /\ priority t' <= priority t)%Z;
  th_budgets : retry_budgets t' = ∅;
  th_rest : t = (((t' <| cache := cache t |>) <| pool := pool t |>) <| priority := priority t |>)
                  <| retry_budgets := retry_budgets t |> }.

Lemma withhold_held (t : TaskSpec) : task_held t (withhold t).
Proof.
  split; [done|done| |done|by destruct t].
  change (priority (withhold t)) with (Z.min (priority t) 0). lia.
Qed.

(** A workflow as it is held: its cap is counted among such runs. *)
Record spec_held (sp sp' : DagSpec) : Prop := {
  sh_tasks : Forall2 task_held (tasks sp) (tasks sp');
  sh_key : max_active_runs sp <> None ->
           concurrency_key sp' = Some (match concurrency_key sp with Some k => POOL ++ $":" ++ k | None => POOL end);
  sh_free : max_active_runs sp = None -> concurrency_key sp' = concurrency_key sp;
  sh_defaults : forall d, task_defaults sp' = Some d -> td_retry_budgets d = ∅;
  sh_rest : sp = ((sp' <| tasks := tasks sp |>) <| concurrency_key := concurrency_key sp |>)
                   <| task_defaults := task_defaults sp |> }.

Lemma hold_held (sp : DagSpec) class sp' : confined class = true ->
  hold sp class = Ok sp' -> harmless class sp /\ spec_held sp sp'.
Proof.
  unfold hold. intros ->. cbn [negb]. destruct (refusal sp class) eqn:E; [done|]. apply refusal_none in E.
  intros H. split; [done|]. injection H as <-.
  assert (Forall2 task_held (tasks sp) (map withhold (tasks sp))) as Ht.
  { apply Forall2_fmap_r. induction (tasks sp); constructor; [apply withhold_held|done]. }
  destruct sp, max_active_runs0; cbn in *; split; cbn; try done; intros d; destruct task_defaults0; by intros [= <-].
Qed.

(** The three answers of [held]. *)
Lemma held_none (g : DagGraph) class : held g class = Ok None -> class = Envpolicy.TRUSTED.
Proof.
  unfold held, confined. case_bool_decide; [done|]. cbn [negb]. by destruct (hold (spec g) class).
Qed.

Lemma held_some (g g' : DagGraph) class : held g class = Ok (Some g') ->
  confined class = true /\ hold (spec g) class = Ok (spec g').
Proof.
  unfold held. destruct (confined class); [|done]. cbn [negb].
  destruct (hold (spec g) class); [|done]. by intros [= <-].
Qed.

Lemma held_err (g : DagGraph) class e : held g class = Err e ->
  class <> Envpolicy.TRUSTED /\ cr_class e = class /\ ~ harmless class (spec g).
Proof.
  unfold held. destruct (confined class) eqn:Ec; [|done]. cbn [negb].
  pose proof (proj1 (confined_spec class) Ec) as Hc. unfold hold. rewrite Ec. cbn [negb].
  destruct (refusal (spec g) class) eqn:E; [|done]. intros [= <-]. split_and!; [done..|].
  intros H%refusal_none. congruence.
Qed.

(** C23: a run that is not trusted is confined, and no other is.  A trusted run's graph is the
    one given.  Any other's is refused exactly when it names something a confined run may
    not use; else each of its tasks serves and leaves no cached output, draws from the pool
    of its kind, stands back in the queue and never ahead, and has the attempts it asks for
    and no more; the workflow's cap is counted among confined runs; and whatever else was
    written stays as it was. *)
Theorem held_exactly (g : DagGraph) (class : str) :
  match held g class with
  | Ok None => class = Envpolicy.TRUSTED
  | Ok (Some g') =>
      class <> Envpolicy.TRUSTED /\ harmless class (spec g) /\ spec_held (spec g) (spec g')
      /\ graph_parameters g' = graph_parameters g
  | Err e => class <> Envpolicy.TRUSTED /\ cr_class e = class /\ ~ harmless class (spec g)
  end.
Proof.
  destruct (held g class) as [[g'|]|e] eqn:E.
  - pose proof (held_some _ _ _ E) as [Hc Hh]. apply hold_held in Hh as [H1 H2]; [|done].
    apply confined_spec in Hc. split_and!; [done..|]. unfold held in E.
    destruct (negb _); [done|]. destruct (hold _ _); [|done]. by injection E as <-.
  - by apply held_none in E.
  - by apply held_err in E.
Qed.

(** *** No two keys of a task are in two lists, and every key of [TaskSpec] is in one. *)
Lemma keys_sorted : NoDup (TASK_ALLOWED ++ TASK_REFUSED ++ TASK_WITHHELD)
  /\ length (TASK_ALLOWED ++ TASK_REFUSED ++ TASK_WITHHELD) = 55%nat.
Proof. split; [|done]. apply (bool_decide_eq_true_1 _). by vm_compute. Qed.

(** ** Limits *)

Record limits_ok (l : Limits) : Prop := {
  lk_memory : (6 * 2 ^ 20 <= memory_bytes l <= I64_MAX)%Z;
  lk_pids : (1 <= pids l <= I64_MAX)%Z;
  lk_timeout : (1 <= limit_timeout_secs l <= 604800)%N;
  lk_attempts : (1 <= limit_max_attempts l <= 100)%N;
  lk_tasks : (1 <= max_tasks l <= 100000)%Z;
  lk_services : (max_services l <= Service.MAX_SERVICES)%nat }.

Lemma default_limits_ok : limits_ok default_limits.
Proof. split; cbn; unfold Service.MAX_SERVICES, I64_MAX; lia. Qed.

Lemma count_range key value least most n : count key value least most = Ok n -> (least <= n <= most)%Z.
Proof.
  unfold count. destruct (parse_i64 value) as [z|]; [|done].
  destruct ((least <=? z)%Z && (z <=? most)%Z) eqn:E; [|done]. intros [= <-].
  by rewrite andb_true_iff, !Z.leb_le in E.
Qed.

Lemma memory_range value n : memory value = Ok n -> (6 * 2 ^ 20 <= n <= I64_MAX)%Z.
Proof.
  unfold memory. destruct (size_parts value) as [digits unit].
  destruct (parse_i64 digits) as [z|]; [|done]. cbv zeta. generalize (z * unit)%Z. intros b.
  destruct ((I64_MIN <=? b)%Z && (b <=? I64_MAX)%Z && (6 * 2 ^ 20 <=? b)%Z) eqn:E; [|done]. intros [= <-].
  rewrite !andb_true_iff, !Z.leb_le in E. tauto.
Qed.

Lemma set_limit_ok l key value l' : set_limit l key value = Ok l' -> limits_ok l -> limits_ok l'.
Proof.
  unfold set_limit. intros H [].
  repeat match type of H with
         | (if ?b then _ else _) = _ => destruct b
         | (let? _ := ?r in _) = _ => destruct r eqn:E; [|done]
         end; try done; injection H as <-;
    try apply count_range in E; try apply memory_range in E; split; cbn; unfold const, I64_MAX, Service.MAX_SERVICES in *; lia.
Qed.

Lemma set_limits_ok entries l l' : set_limits l entries = Ok l' -> limits_ok l -> limits_ok l'.
Proof.
  revert l; induction entries as [|e entries IH]; intros l; cbn [set_limits]; [by intros [= <-]|].
  destruct (split_once $"=" e) as [[k v]|]; [|done]. cbn [ok_or].
  destruct (set_limit l (trim k) (trim v)) as [l1|] eqn:E; [|done]. intros H Hl.
  eapply IH; [done|]. by eapply set_limit_ok.
Qed.

(** No limit can be turned off.  Whatever an operator writes is refused or leaves a
    container at least six megabytes and one process, a task between a second and a week,
    one attempt to a hundred, and at most eight services, and a run one task to a hundred
    thousand; and a task held to them runs no longer and no more often than they say, nor
    than it asked itself. *)
Theorem limits_hold (raw : str) (l : Limits) (t : TaskSpec) :
  parse_limits raw = Ok l ->
  limits_ok l
  /\ (exists secs, timeout_secs (spend l t) = Some secs /\ (secs <= limit_timeout_secs l)%N
        /\ forall own, timeout_secs t = Some own -> (secs <= own)%N)
  /\ (1 <= max_attempts (spend l t) <= limit_max_attempts l)%N
  /\ ((1 <= max_attempts t)%N -> (max_attempts (spend l t) <= max_attempts t)%N).
Proof.
  intros H. assert (limits_ok l) as Hl by (by eapply set_limits_ok; [|apply default_limits_ok]).
  split; [done|]. destruct Hl.
  change (max_attempts (spend l t)) with (N.min (N.max 1 (max_attempts t)) (limit_max_attempts l)). split_and!.
  - cbn. destruct (timeout_secs t) as [own|]; eexists; (split; [done|]); split; try done; try lia.
    intros o [= <-]. lia.
  - lia.
  - lia.
  - lia.
Qed.
End facts.

(** ** Witnesses *)

Lemma limits_hold_witness :
  exists l, parse_limits $"memory=6m, timeout=60,attempts=1" = Ok l /\ limits_ok l.
Proof.
  eexists. split; [vm_compute; reflexivity|].
  apply (limits_hold (Num := Z) $"memory=6m, timeout=60,attempts=1" _ (task_named $"build")).
  vm_compute. reflexivity.
Defined.
End ConfineFacts.
