(* ===== verification/Protected.v ===== *)
(** * The gates before protected environments, and the making of a run that is not trusted
    ([dagron-core/src/protected.rs, db/sqlite.rs])

    A task of such a run that uses an environment whose policy names approvers waits on an
    approval of theirs, which is put before it as the run is made.  [create_run] is the whole
    of it: the room on disk, what the run may be ([Confine]), the gates, and the rows
    ([Runs]). *)

From S2P Require Import Prelude Models Spec Graph Envpolicy Confine Tables Runs.
From coqutil Require Import Datatypes.RecordSettersUsingExistingGetters.

Module Protected.

Import Models.

Definition GATE_TIMEOUT_SECS : N := 86400.

Section protected.
Context {W : World} {P : Graph.Petgraph} (enterprise : bool) (is_rfc3339 : str -> bool).

Abbreviation TaskSpec := (Spec.TaskSpec num).
Abbreviation DagSpec := (Spec.DagSpec num).
Abbreviation DagGraph := (Spec.DagGraph num).

(** One task that waits on a gate: its place in the spec, its environment, who may approve. *)
Record Asked := { as_place : nat; as_env : str; as_approvers : list str }.

(** ** Gates *)

(** The loop over names: a name of its own. *)
Fixpoint free_name (fuel : nat) (names : list str) (task : str) (n : nat) : option str :=
  match fuel with
  | O => None
  | S fuel =>
      let name := task ++ $".environment-" ++ show_nat n in
      if bool_decide (name ∈ names) then free_name fuel names task (S n) else Some name
  end.
Definition gate_name (names : list str) (task : str) : option str :=
  let name := task ++ $".environment" in
  if bool_decide (name ∈ names) then free_name (S (length names)) names task 2 else Some name.

Definition gate_message (class : str) (actor : option str) (env task : str) : str :=
  match actor with Some a => a ++ $"'s run" | None => $"A run" end
  ++ $", which is " ++ class ++ $", asks to use the protected environment '" ++ env
  ++ $"' in task '" ++ task ++ $"'. Approve it to let that task run.".

(** The gate before a task. *)
Definition gate (gname : str) (t : TaskSpec) (approvers : list str) (message : str) : TaskSpec :=
  ((((((((Spec.task_named (Num := num) gname)
    <| Spec.task_type := Some $"approval" |>)
    <| Spec.depends_on := Spec.depends_on t |>)
    <| Spec.when := Spec.when t |>)
    <| Spec.trigger_rule := Spec.trigger_rule t |>)
    <| Spec.approvers := approvers |>)
    <| Spec.approval_message := Some message |>)
    <| Spec.approval_timeout_secs := Some GATE_TIMEOUT_SECS |>)
    <| Spec.approval_on_timeout := Some $"reject" |>.

Inductive gated_error :=
| NoFreeName | OutOfRange
| NotMade (e : Graph.graph_error).

(** The loop of [with_gates]: the tasks, the names in use, the gates so far. *)
Fixpoint add_gates (class : str) (actor : option str) (asked : list Asked)
    (acc : list TaskSpec * list str * list TaskSpec) : result gated_error (list TaskSpec * list TaskSpec) :=
  let '(ts, names, gates) := acc in
  match asked with
  | [] => Ok (ts, gates)
  | a :: asked =>
      let? t := ok_or OutOfRange (ts !! as_place a) in
      let? gname := ok_or NoFreeName (gate_name names (Spec.name t)) in
      let g := gate gname t (as_approvers a) (gate_message class actor (as_env a) (Spec.name t)) in
      let t := t <| Spec.depends_on := Spec.depends_on t ++ [gname] |> in
      add_gates class actor asked (<[as_place a := t]> ts, gname :: names, gates ++ [g])
  end.

(** [with_gates] *)
Definition with_gates (g : DagGraph) (asked : list Asked) (class : str) (actor : option str)
    : result gated_error DagGraph :=
  let sp := Spec.spec g in
  let? (ts, gates) := add_gates class actor asked (Spec.tasks sp, map Spec.name (Spec.tasks sp), []) in
  let? g' := map_err NotMade
               (Graph.from_spec enterprise is_rfc3339 (sp <| Spec.tasks := ts ++ gates |>)) in
  Ok (g' <| Spec.graph_parameters := Spec.graph_parameters g |>).

(** ** Who is asked *)

Inductive create_failed :=
| Refused (e : Runs.create_error)
| NotHeld (e : Confine.ConfinedRefused)
| NoPolicy (field : str)
| NotGated (e : gated_error).

(** The loop of [gated] over the tasks; a policy is loaded once. *)
Fixpoint ask (load : str -> result str (option Envpolicy.EnvironmentPolicy)) (class : str)
    (run_env : option str) (policies : gmap str (option Envpolicy.EnvironmentPolicy)) (i : nat)
    (ts : list TaskSpec) : result str (list Asked) :=
  match ts with
  | [] => Ok []
  | t :: ts =>
      if Spec.is_approval t then ask load class run_env policies (S i) ts
      else
        match match Spec.environment t with Some e => Some e | None => run_env end with
        | None => ask load class run_env policies (S i) ts
        | Some env =>
            let? (policy, policies) :=
              match policies !! env with
              | Some p => Ok (p, policies)
              | None => let? p := load env in Ok (p, <[env := p]> policies)
              end in
            let? asked := ask load class run_env policies (S i) ts in
            match Envpolicy.approvers_for policy class with
            | [] => Ok asked
            | approvers => Ok ({| as_place := i; as_env := env; as_approvers := approvers |} :: asked)
            end
        end
  end.

(** [gated] *)
Definition gated (load : str -> result str (option Envpolicy.EnvironmentPolicy)) (g : DagGraph)
    (trigger : option RunTrigger) : result create_failed (option DagGraph) :=
  let class := Envpolicy.class_of trigger in
  if negb (Confine.confined class) then Ok None
  else
    let? asked := map_err NoPolicy
                    (ask load class (Spec.dg_environment (Spec.spec g)) ∅ 0 (Spec.tasks (Spec.spec g))) in
    match asked with
    | [] => Ok None
    | _ =>
        let? g := map_err NotGated (with_gates g asked class (trigger ≫= actor)) in
        Ok (Some g)
    end.

(** ** Making a run *)

(** What a run of the graph is made of. *)
Definition run_graph (load : str -> result str (option Envpolicy.EnvironmentPolicy)) (g : DagGraph)
    (trigger : option RunTrigger) : result create_failed DagGraph :=
  let? h := map_err NotHeld (Confine.held g (Envpolicy.class_of trigger)) in
  let g := default g h in
  let? h := gated load g trigger in
  Ok (default g h).

(** [create_run_full], from its head: [Runs.create_run_full] is the rest of it, and asks for
    the room on disk again, of the same probe. *)
Definition create_run (load : str -> result str (option Envpolicy.EnvironmentPolicy)) (uuid : nat -> str)
    (g : DagGraph) (rq : Runs.request) (floor : N) (free : option N) (now : time) (s : store)
    : result create_failed (store * str) :=
  let? _ := map_err Refused (Runs.check_disk_floor floor free) in
  let? g := run_graph load g (Runs.trigger rq) in
  map_err Refused (Runs.create_run_full uuid g rq floor free now s).
End protected.
End Protected.
