(* ===== verification/ProtectedFacts.v ===== *)
(** * What a protected environment's gate does ([Protected])

    A gate's name is found and is new; every task of a confined run that uses a protected
    environment depends on a gate of its own, which the policy's approvers decide; with
    gates a workflow that was accepted is accepted still; and in the run that is made the
    task does not start before its gate was approved, where it waits for all it depends on. *)

From S2P Require Import Prelude Json Models Spec Graph GraphFacts Envpolicy Confine ConfineFacts Protected.
From S2P Require Import Tables Stops Scheduler Runs Invariant Preserve PreserveRuns Create Reach Life.
From coqutil Require Import Datatypes.RecordSettersUsingExistingGetters.

Module ProtectedFacts.

Import Models Invariant Preserve PreserveRuns Create Protected.

(** ** Names *)

Definition gate_candidate (task : str) (n : nat) : str := task ++ $".environment-" ++ show_nat n.

Lemma gate_candidate_inj task n m : gate_candidate task n = gate_candidate task m -> n = m.
Proof.
  unfold gate_candidate. intros H%(app_inv_head task)%(app_inv_head $".environment-").
  unfold show_nat in H. apply show_N_inj in H. lia.
Qed.

Lemma free_name_spec fuel names task n :
  match free_name fuel names task n with
  | Some x => x ∉ names
  | None => forall k, (n <= k < n + fuel)%nat -> gate_candidate task k ∈ names
  end.
Proof.
  revert n; induction fuel as [|fuel IH]; intros n; cbn [free_name]; [lia|].
  fold (gate_candidate task n). case_bool_decide as Hn; [|done]. specialize (IH (S n)).
  destruct (free_name fuel names task (S n)); [done|]. intros k Hk.
  destruct (decide (k = n)) as [->|]; [done|]. apply IH. lia.
Qed.

(** A free name is found, whatever the names in use. *)
Lemma gate_name_spec names task : exists x, gate_name names task = Some x /\ x ∉ names.
Proof.
  unfold gate_name. case_bool_decide as Hn; [|by eexists].
  pose proof (free_name_spec (S (length names)) names task 2) as H.
  destruct (free_name (S (length names)) names task 2) as [x|]; [by exists x|]. exfalso.
  set (l := map (gate_candidate task) (seq 2 (S (length names)))).
  assert (NoDup l) as Hd.
  { unfold l. apply NoDup_fmap_2_strong; [|apply NoDup_seq]. intros a b _ _. apply gate_candidate_inj. }
  assert (l ⊆ names) as Hs.
  { intros x Hx. apply list_elem_of_fmap in Hx as (k & -> & Hk%elem_of_seq). by apply H. }
  pose proof (submseteq_length _ _ (NoDup_submseteq _ _ Hd Hs)) as Hl.
  unfold l in Hl. rewrite length_map, length_seq in Hl. lia.
Qed.

Section facts.
Context {W : World} {P : Graph.Petgraph} (enterprise : bool) (is_rfc3339 : str -> bool).

Abbreviation TaskSpec := (Spec.TaskSpec num).
Abbreviation DagSpec := (Spec.DagSpec num).
Abbreviation DagGraph := (Spec.DagGraph num).

(** ** The gates *)

(** One gate: what it is for, whose it is, and the task that waits on it. *)
Record gated_task (ts ts' gates : list TaskSpec) (names : list str) (class : str) (actor : option str)
    (a : Asked) : Prop := {
  gt_task : exists t gname,
    ts !! as_place a = Some t /\ gname ∉ names
    /\ ts' !! as_place a = Some (t <| Spec.depends_on := Spec.depends_on t ++ [gname] |>)
    /\ gate gname t (as_approvers a) (gate_message class actor (as_env a) (Spec.name t)) ∈ gates }.

Lemma add_gates_spec class actor asked ts names gates :
  NoDup (map as_place asked) -> (forall a, a ∈ asked -> is_Some (ts !! as_place a)) ->
  exists ts' gates', add_gates class actor asked (ts, names, gates) = Ok (ts', gates')
  /\ length ts' = length ts /\ map Spec.name ts' = map Spec.name ts
  /\ (forall i, i ∉ map as_place asked -> ts' !! i = ts !! i)
  /\ (forall a, a ∈ asked -> gated_task ts ts' gates' names class actor a)
  /\ (exists new, gates' = gates ++ new /\ length new = length asked
        /\ NoDup (map Spec.name new) /\ (forall x, x ∈ map Spec.name new -> x ∉ names)
        /\ forall u, u ∈ new -> exists a t, a ∈ asked /\ ts !! as_place a = Some t
             /\ u = gate (Spec.name u) t (as_approvers a) (gate_message class actor (as_env a) (Spec.name t))).
Proof.
  revert ts names gates; induction asked as [|a asked IH]; intros ts names gates Hd Hin; cbn [add_gates].
  { exists ts, gates. split_and!; [done..| |]; [by intros ? ?%elem_of_nil|].
    exists []. rewrite app_nil_r. split_and!; try done; [constructor|..]; by intros ? ?%elem_of_nil. }
  cbn [map] in Hd. apply NoDup_cons in Hd as [Ha Hd].
  destruct (Hin a ltac:(left)) as [t Ht]. rewrite Ht. cbn [ok_or].
  destruct (gate_name_spec names (Spec.name t)) as (gname & -> & Hg). cbn [ok_or].
  set (t' := t <| Spec.depends_on := Spec.depends_on t ++ [gname] |>).
  set (u := gate gname t _ _).
  assert (forall b, b ∈ asked -> <[as_place a := t']> ts !! as_place b = ts !! as_place b) as Hne.
  { intros b Hb. apply list_lookup_insert_ne. intros E. apply Ha. rewrite E. by apply list_elem_of_fmap_2. }
  destruct (IH (<[as_place a := t']> ts) (gname :: names) (gates ++ [u]) Hd)
    as (ts' & gates' & -> & H1 & H2 & H3 & H4 & new & -> & N1 & N2 & N3 & N4).
  { intros b Hb. rewrite Hne by done. apply Hin. by right. }
  exists ts', ((gates ++ [u]) ++ new). split_and!; [done|by rewrite H1, length_insert| | | |].
  - rewrite H2. change (Spec.name <$> <[as_place a := t']> ts = Spec.name <$> ts).
    rewrite list_fmap_insert. apply list_insert_id. by rewrite list_lookup_fmap, Ht.
  - intros i Hi. cbn [map] in Hi. apply not_elem_of_cons in Hi as [Hi1 Hi2].
    rewrite H3 by done. by apply list_lookup_insert_ne.
  - intros b [->|Hb]%elem_of_cons.
    + split. exists t, gname. split_and!; [done..| |].
      * rewrite H3 by done. apply list_lookup_insert_eq. by eapply lookup_lt_Some.
      * fold u. apply elem_of_app. left. apply elem_of_app. right. by apply list_elem_of_singleton.
    + destruct (H4 b Hb) as [(tb & gb & B1 & B2 & B3 & B4)]. split. exists tb, gb.
      rewrite Hne in B1 by done. split_and!; [done| |done..]. intros Hx. apply B2. by right.
  - exists (u :: new). rewrite <- app_assoc. cbn [map length]. split_and!; [done|by rewrite N1| | |].
    + constructor; [|done]. intros Hx%N3. apply Hx. by left.
    + intros x [->|Hx%N3]%elem_of_cons; [done|]. intros Hn. apply Hx. by right.
    + intros x [->|Hx]%elem_of_cons.
      * exists a, t. split_and!; [by left|done|done].
      * destruct (N4 x Hx) as (b & tb & B1 & B2 & B3). rewrite Hne in B2 by done.
        exists b, tb. split_and!; [by right|done|done].
Qed.

(** ** Who is asked *)

Definition environment_of (g : DagGraph) (t : TaskSpec) : option str :=
  match Spec.environment t with Some e => Some e | None => Spec.dg_environment (Spec.spec g) end.

(** A task that must be asked for, and by whom it is answered. *)
Definition must_ask (load : str -> result str (option Envpolicy.EnvironmentPolicy)) (class : str)
    (env : option str) (t : TaskSpec) (e : str) (approvers : list str) : Prop :=
  Spec.is_approval t = false
  /\ match Spec.environment t with Some e => Some e | None => env end = Some e
  /\ exists p, load e = Ok p /\ Envpolicy.approvers_for p class = approvers /\ approvers <> [].

Lemma ask_spec load class env policies i ts asked :
  (forall e p, policies !! e = Some p -> load e = Ok p) ->
  ask load class env policies i ts = Ok asked ->
  NoDup (map as_place asked)
  /\ (forall a, a ∈ asked -> (i <= as_place a)%nat
        /\ exists t, ts !! (as_place a - i)%nat = Some t /\ must_ask load class env t (as_env a) (as_approvers a))
  /\ (forall k t e l, ts !! k = Some t -> must_ask load class env t e l ->
        exists a, a ∈ asked /\ as_place a = (i + k)%nat /\ as_env a = e /\ as_approvers a = l).
Proof.
  revert policies i asked; induction ts as [|t ts IH]; intros policies i asked Hp; cbn [ask].
  { intros [= <-]. split_and!; [constructor|by intros ? ?%elem_of_nil|by intros []]. }
  assert (forall ps asked', (forall e p, ps !! e = Some p -> load e = Ok p) ->
    ask load class env ps (S i) ts = Ok asked' ->
    NoDup (map as_place asked') /\ (i ∉ map as_place asked')
    /\ (forall a, a ∈ asked' -> (i <= as_place a)%nat
          /\ exists u, (t :: ts) !! (as_place a - i)%nat = Some u /\ must_ask load class env u (as_env a) (as_approvers a))
    /\ (forall k u e l, ts !! k = Some u -> must_ask load class env u e l ->
          exists a, a ∈ asked' /\ as_place a = (i + S k)%nat /\ as_env a = e /\ as_approvers a = l)) as Hrest.
  { intros ps asked' Hps H. destruct (IH _ _ _ Hps H) as (H1 & H2 & H3). split_and!; [done| | |].
    - intros (a & -> & Ha)%list_elem_of_fmap. apply H2 in Ha as [? _]. lia.
    - intros a Ha. destruct (H2 a Ha) as (Hl & u & Hu & Hm). split; [lia|]. exists u. split; [|done].
      by replace (as_place a - i)%nat with (S (as_place a - S i))%nat by lia.
    - intros k u e l Hk Hm. destruct (H3 k u e l Hk Hm) as (a & Ha & Hpl & He & Hl). exists a.
      split_and!; [done|lia|done..]. }
  assert (forall ps asked', (forall e p, ps !! e = Some p -> load e = Ok p) ->
    ask load class env ps (S i) ts = Ok asked' -> (forall e l, ~ must_ask load class env t e l) ->
    NoDup (map as_place asked')
    /\ (forall a, a ∈ asked' -> (i <= as_place a)%nat
          /\ exists u, (t :: ts) !! (as_place a - i)%nat = Some u /\ must_ask load class env u (as_env a) (as_approvers a))
    /\ (forall k u e l, (t :: ts) !! k = Some u -> must_ask load class env u e l ->
          exists a, a ∈ asked' /\ as_place a = (i + k)%nat /\ as_env a = e /\ as_approvers a = l)) as Hskip.
  { intros ps asked' Hps H Hno. destruct (Hrest ps asked' Hps H) as (H1 & _ & H2 & H3). split_and!; [done..|].
    intros [|k] u e l Hk Hm; [injection Hk as <-; by destruct (Hno e l)|by apply (H3 k u)]. }
  unfold must_ask in *.
  destruct (Spec.is_approval t) eqn:Et; [intros H; eapply Hskip; [done..|by intros e l [? _]]|].
  destruct (match Spec.environment t with Some e => Some e | None => env end) as [e|] eqn:Ee;
    [|intros H; eapply Hskip; [done..|by intros e l (_ & ? & _)]].
  destruct (match policies !! e with Some p => Ok (p, policies) | None => _ end) as [[p ps]|] eqn:Ep; [|done].
  assert (load e = Ok p /\ forall e' p', ps !! e' = Some p' -> load e' = Ok p') as [Hl Hps].
  { destruct (policies !! e) as [p0|] eqn:E0; [injection Ep as <- <-; split; [by apply Hp|done]|].
    destruct (load e) as [p0|] eqn:E1; [|done]. injection Ep as <- <-. split; [done|].
    intros e' p'. rewrite lookup_insert_Some. intros [[<- <-]|[_ H]]; [done|by apply Hp]. }
  destruct (ask load class env ps (S i) ts) as [asked'|] eqn:Ea; [|done].
  destruct (Envpolicy.approvers_for p class) as [|x l] eqn:Eappr.
  { intros [= <-]. eapply (Hskip ps); [done..|]. intros e' l (_ & He & p' & Hp' & Hl' & Hne).
    apply Hne. injection He as <-. rewrite Hl in Hp'. injection Hp' as <-. congruence. }
  intros [= <-]. destruct (Hrest ps asked' Hps Ea) as (H1 & H0 & H2 & H3). split_and!.
  - cbn. by constructor.
  - intros a [->|Ha]%elem_of_cons; [|by apply H2]. cbn. split; [lia|]. rewrite Nat.sub_diag.
    exists t. split_and!; [done..|]. by exists p.
  - intros [|k] u e' l' Hk Hm.
    + injection Hk as <-. destruct Hm as (_ & He & p' & Hp' & Hl' & _). assert (e' = e) as -> by congruence.
      eexists. split; [by left|]. cbn. split_and!; [lia|done|congruence].
    + destruct (H3 k u e' l' Hk Hm) as (a & Ha & R). exists a. split; [by right|done].
Qed.

(** ** The graph a run is made of *)

(** A task as [from_spec] keeps it: each dependency once. *)
Definition once (t : TaskSpec) : TaskSpec := t <| Spec.depends_on := Graph.retain_first ∅ (Spec.depends_on t) |>.

Lemma once_waits (t : TaskSpec) d : d ∈ Spec.depends_on (once t) <-> d ∈ Spec.depends_on t.
Proof.
  change (Spec.depends_on (once t)) with (Graph.retain_first ∅ (Spec.depends_on t)).
  rewrite (GraphFacts.retain_first_spec is_rfc3339). pose proof (not_elem_of_empty (C := gset str) d). tauto.
Qed.

Lemma from_spec_tasks (sp : DagSpec) g : Graph.from_spec enterprise is_rfc3339 sp = Ok g ->
  Spec.tasks (Spec.spec g) = map once (Spec.tasks sp).
Proof.
  unfold Graph.from_spec. destruct (Graph.checks _ _ (Graph.one_dependency_each sp)) as [[]|]; [|done].
  by intros [= <-].
Qed.

Lemma with_gates_tasks (g g' : DagGraph) asked class actor ts gates :
  add_gates class actor asked (Spec.tasks (Spec.spec g), map Spec.name (Spec.tasks (Spec.spec g)), []) = Ok (ts, gates) ->
  with_gates enterprise is_rfc3339 g asked class actor = Ok g' ->
  Spec.tasks (Spec.spec g') = map once (ts ++ gates).
Proof.
  intros E. unfold with_gates. rewrite E.
  destruct (Graph.from_spec _ _ _) as [g0|] eqn:Ef; [|done]. apply from_spec_tasks in Ef. cbn [map_err].
  intros [= <-]. exact Ef.
Qed.

(** The task [t] of a run, the task [t'] that is made of it, and the gate [u] before that. *)
Record gate_before (g : DagGraph) (t t' u : TaskSpec) (approvers : list str) : Prop := {
  gb_task : Spec.name t' = Spec.name t /\ Spec.environment t' = Spec.environment t
            /\ Spec.trigger_rule t' = Spec.trigger_rule t;
  gb_waits : Spec.name u ∈ Spec.depends_on t' /\ forall d, d ∈ Spec.depends_on t -> d ∈ Spec.depends_on t';
  gb_gate : Spec.is_approval u = true /\ Spec.approvers u = approvers
            /\ Spec.approval_on_timeout u = Some $"reject" /\ Spec.approval_timeout_secs u = Some GATE_TIMEOUT_SECS;
  gb_when : Spec.when u = Spec.when t /\ Spec.trigger_rule u = Spec.trigger_rule t
            /\ forall d, d ∈ Spec.depends_on u <-> d ∈ Spec.depends_on t;
  gb_own : Spec.name u ∉ map Spec.name (Spec.tasks (Spec.spec g)) }.

(** The gated graph of a held one. *)
Lemma gated_spec load (g g' : DagGraph) trigger :
  Confine.confined (Envpolicy.class_of trigger) = true ->
  (let? h := gated enterprise is_rfc3339 load g trigger in Ok (default g h)) = Ok g' ->
  (forall t e l, t ∈ Spec.tasks (Spec.spec g) ->
     must_ask load (Envpolicy.class_of trigger) (Spec.dg_environment (Spec.spec g)) t e l ->
     exists t' u, t' ∈ Spec.tasks (Spec.spec g') /\ u ∈ Spec.tasks (Spec.spec g') /\ gate_before g t t' u l)
  /\ (forall v, v ∈ Spec.tasks (Spec.spec g') ->
        (exists t, t ∈ Spec.tasks (Spec.spec g) /\ t <| Spec.depends_on := Spec.depends_on v |> = v)
        \/ Spec.is_approval v = true /\ Spec.gang v = None
           /\ Spec.name v ∉ map Spec.name (Spec.tasks (Spec.spec g))).
Proof.
  unfold gated. intros ->. cbn [negb]. set (class := Envpolicy.class_of trigger).
  destruct (ask load class _ ∅ 0 _) as [asked|] eqn:Ea; [|done]. cbn [map_err].
  apply ask_spec in Ea as (Hd & Ha & Hall); [|by intros e p ?%lookup_empty_Some].
  assert (forall a, a ∈ asked -> is_Some (Spec.tasks (Spec.spec g) !! as_place a)) as Hin.
  { intros a Hx. destruct (Ha a Hx) as (_ & t & Ht & _). rewrite Nat.sub_0_r in Ht. by exists t. }
  destruct asked as [|a0 asked0] eqn:Easked.
  { intros [= <-]. cbn [default]. split.
    - intros t e l Ht Hm. apply list_elem_of_lookup_1 in Ht as [k Hk].
      destruct (Hall k t e l Hk Hm) as (a & Hx & _). by apply elem_of_nil in Hx.
    - intros v Hv. left. exists v. split; [done|]. by destruct v. }
  rewrite <- Easked in *. clear Easked a0 asked0.
  destruct (add_gates_spec class (trigger ≫= actor) asked _ (map Spec.name (Spec.tasks (Spec.spec g))) [] Hd Hin)
    as (ts' & gates & Eg & Hlen & Hnames & Hkept & Hgates & new & Hnew & _ & _ & Hfresh & Hmade).
  destruct (with_gates _ _ g asked class _) as [g1|] eqn:Ew; [|done]. cbn [map_err default].
  pose proof (with_gates_tasks _ _ _ _ _ _ _ Eg Ew) as Hts. intros [= <-]. split.
  - intros t e l Ht Hm. apply list_elem_of_lookup_1 in Ht as [k Hk].
    destruct (Hall k t e l Hk Hm) as (a & Hx & Hpl & <- & <-). cbn in Hpl.
    destruct (Hgates a Hx) as [(t0 & gname & G1 & G2 & G3 & G4)]. rewrite Hpl in *.
    assert (t0 = t) as -> by congruence.
    exists (once (t <| Spec.depends_on := Spec.depends_on t ++ [gname] |>)),
      (once (gate gname t (as_approvers a) (gate_message class (trigger ≫= actor) (as_env a) (Spec.name t)))).
    rewrite Hts. split_and!.
    + apply list_elem_of_fmap_2, elem_of_app. left. by eapply list_elem_of_lookup_2.
    + apply list_elem_of_fmap_2, elem_of_app. by right.
    + split; cbn [Spec.name Spec.trigger_rule Spec.environment]; try done.
      * split; [|intros d Hd']; apply once_waits, elem_of_app; [right; by apply list_elem_of_singleton|by left].
      * split_and!; [done..|]. intros d. by rewrite once_waits.
  - intros v. rewrite Hts. intros (w & -> & Hw)%list_elem_of_fmap. apply elem_of_app in Hw as [Hw|Hw].
    + left. apply list_elem_of_lookup_1 in Hw as [k Hk].
      destruct (decide (k ∈ map as_place asked)) as [(a & -> & Hx)%list_elem_of_fmap|Hk'].
      * destruct (Hgates a Hx) as [(t0 & gname & G1 & _ & G3 & _)]. exists t0.
        assert (w = t0 <| Spec.depends_on := Spec.depends_on t0 ++ [gname] |>) as -> by congruence.
        split; [by eapply list_elem_of_lookup_2|]. by destruct t0.
      * exists w. rewrite Hkept in Hk by done. split; [by eapply list_elem_of_lookup_2|]. by destruct w.
    + right. subst gates. destruct (Hmade w Hw) as (a & t & Hx & Ht & ->). split_and!; [done..|].
      apply Hfresh, list_elem_of_fmap. by exists w.
Qed.

(** A held graph's tasks, where they read what a gate asks about. *)
Lemma held_tasks (g h : DagGraph) class : Confine.held g class = Ok (Some h) ->
  Confine.confined class = true
  /\ Spec.dg_environment (Spec.spec h) = Spec.dg_environment (Spec.spec g)
  /\ Spec.tasks (Spec.spec h) = map Confine.withhold (Spec.tasks (Spec.spec g))
  /\ ConfineFacts.harmless class (Spec.spec g).
Proof.
  unfold Confine.held. destruct (Confine.confined class) eqn:Ec; [|done]. cbn [negb].
  destruct (Confine.hold (Spec.spec g) class) as [sp|] eqn:Eh; [|done]. intros [= <-].
  pose proof (ConfineFacts.hold_held _ _ _ Ec Eh) as [Hh Hs]. split_and!; [done| | |done].
  - destruct Hs. cbn in *. by rewrite sh_rest.
  - unfold Confine.hold in Eh. rewrite Ec in Eh. cbn [negb] in Eh. destruct (Confine.refusal _ _); [done|].
    injection Eh as <-. by destruct (Spec.spec g) as [? ? ? ? ? ? ? ? []].
Qed.

(** What a confined run's graph is: each protected task waits on its gate, and no task is a
    gang. *)
Lemma run_graph_gated load (g g' : DagGraph) trigger :
  run_graph enterprise is_rfc3339 load g trigger = Ok g' ->
  Envpolicy.class_of trigger <> Envpolicy.TRUSTED ->
  (forall t e p, t ∈ Spec.tasks (Spec.spec g) -> environment_of g t = Some e -> load e = Ok (Some p) ->
     Envpolicy.approvers p <> [] ->
     exists t' u, t' ∈ Spec.tasks (Spec.spec g') /\ u ∈ Spec.tasks (Spec.spec g')
       /\ gate_before g t t' u (Envpolicy.approvers p))
  /\ forall v, v ∈ Spec.tasks (Spec.spec g') -> Spec.gang v = None.
Proof.
  intros H Hc. pose proof (proj2 (ConfineFacts.confined_spec _) Hc) as Hcon. unfold run_graph in H.
  destruct (Confine.held g (Envpolicy.class_of trigger)) as [[h|]|] eqn:Eh; [| |done]; cbn [map_err default] in H.
  2:{ by apply ConfineFacts.held_none in Eh. }
  change (id h) with h in H.
  apply held_tasks in Eh as (_ & Henv & Hts & [_ _ Hord]).
  apply gated_spec in H as [H1 H2]; [|done]. rewrite Hts in H1, H2. split.
  - intros t e p Ht He Hl Hp. destruct (H1 (Confine.withhold t) e (Envpolicy.approvers p)) as (t' & u & Ht' & Hu & Hb).
    + by apply list_elem_of_fmap_2.
    + split_and!.
      * destruct (Hord t Ht) as [Hty _ _ _ _ _ _ _ _ _ _ _ _]. change (Spec.is_approval t = false).
        unfold Spec.is_approval, Spec.type_is. apply bool_decide_eq_false. by destruct Hty as [-> | ->].
      * rewrite Henv. exact He.
      * exists (Some p). split_and!; [done| |done]. unfold Envpolicy.approvers_for. by rewrite bool_decide_false.
    + exists t', u. split_and!; [done..|]. destruct Hb as [B1 B2 B3 B4 B5]. rewrite Hts, map_map in B5. by split.
  - intros v Hv. destruct (H2 v Hv) as [(w & (t & -> & Ht)%list_elem_of_fmap & <-)|(_ & Hg & _)]; [|done].
    destruct (Hord t Ht) as [_ _ _ _ _ _ _ _ _ _ _ [Hg _] _]. exact Hg.
Qed.

(** No run that is not trusted is made with a protected task that waits on nobody.  However
    its workflow is written, each task that uses an environment whose policy names
    approvers (by its own key or the workflow's) depends, in the graph the run is made of,
    on a gate of a new name that those approvers and no other decide, that is taken as
    refused when a day goes by, and that waits for what the task waited for and asks under
    the task's own condition; what the task waited for, it waits for still. *)
Theorem protected_gated load (g g' : DagGraph) trigger t e p :
  run_graph enterprise is_rfc3339 load g trigger = Ok g' ->
  Envpolicy.class_of trigger <> Envpolicy.TRUSTED ->
  t ∈ Spec.tasks (Spec.spec g) -> environment_of g t = Some e -> load e = Ok (Some p) ->
  Envpolicy.approvers p <> [] ->
  exists t' u, t' ∈ Spec.tasks (Spec.spec g') /\ u ∈ Spec.tasks (Spec.spec g')
    /\ gate_before g t t' u (Envpolicy.approvers p).
Proof. intros H Hc. by apply (run_graph_gated load g g' trigger). Qed.

(** ** Its rows *)

(** The rows of a new run whose tasks are in no gang. *)
Lemma created_rows {AG : Again} uuid dag rq floor free now s s' run_id :
  Inv s -> fresh_run (uuid 1%nat) s ->
  Runs.create_run_full uuid dag rq floor free now s = Ok (s', run_id) ->
  (forall v, v ∈ Spec.tasks (Spec.spec dag) -> Spec.gang v = None) ->
  NoDup (map Spec.name (Spec.tasks (Spec.spec dag)))
  /\ exists held (row : str -> str), forall t, t ∈ Spec.tasks (Spec.spec dag) ->
    task_runs s' !! row (Spec.name t) = Some (Runs.new_row dag run_id now held t None 0)
    /\ (forall id r, task_runs s' !! id = Some r -> T.run_id r = run_id -> T.name r = Spec.name t ->
          id = row (Spec.name t))
    /\ (forall u, u ∈ Spec.tasks (Spec.spec dag) -> Spec.name u ∈ Spec.depends_on t ->
          (row (Spec.name t), row (Spec.name u)) ∈ task_dependencies s').
Proof.
  intros Hi Hf H Hg.
  destruct (create_run_made _ _ _ _ _ _ _ _ _ Hi Hf H)
    as (-> & waits & s1 & s2 & ids & s3 & I1 & Ev1 & Hf1 & _ & Hheld & Hb & Hwire & G1 & G2 & _).
  split; [by eapply bt_names|]. exists (held_of waits), (fun n => default [] (head (rows_of ids n))).
  assert (forall t, t ∈ Spec.tasks (Spec.spec dag) -> exists id, rows_of ids (Spec.name t) = [id]
    /\ task_runs s3 !! id = Some (Runs.new_row dag (uuid 1%nat) now (held_of waits) t None 0)) as Hone.
  { intros t Ht. destruct (bt_done _ _ _ _ _ _ _ _ Hb t Ht) as (l & gid & El & Hl & Hrow).
    unfold members in Hl. rewrite (Hg t Ht) in Hl, Hrow. destruct l as [|id [|? ?]]; [done| |done].
    exists id. split; [unfold rows_of; by rewrite El|].
    rewrite (wired_tasks _ _ _ _ _ _ _ _ Hb Hwire). by apply (Hrow 0%nat). }
  intros t Ht. destruct (Hone t Ht) as (id0 & E0 & Hid0). rewrite E0. cbn [head default]. split_and!.
  - by rewrite G1.
  - intros id r. rewrite G1. intros Hx Hrun Hname.
    destruct (new_or_old _ _ _ _ _ _ _ _ Hb Hwire id r Hx) as [[Hx1 _]|(u & gg & k & Hu & Hin & ->)].
    { by destruct (Hf1 id r Hx1). }
    destruct (Hone u Hu) as (id1 & E1 & Hid1). rewrite E1 in Hin. apply list_elem_of_singleton in Hin as ->.
    rewrite Hid1 in Hx. apply (inj Some) in Hx. rewrite <- Hx in Hname.
    change (Spec.name u = Spec.name t) in Hname. rewrite Hname, E0 in E1. by injection E1.
  - intros u Hu Hdep. destruct (Hone u Hu) as (id1 & E1 & Hid1). rewrite E1, G2. cbn [head default].
    apply (new_edges _ _ _ _ _ _ _ _ Hb Hwire I1 Hf1 Hheld t id0 id1); [done|rewrite E0; by left|].
    exists (Spec.name u). split; [done|]. rewrite E1. by left.
Qed.

(** C22: a protected task waits for its approval, unless its own run has tasks put back.  In
    a run that is not trusted, once it is made and in whatever history of [Life] follows (the
    steps of [Reach], and tasks of other runs put back; no runtime fan-out is expanded), a
    task that uses an environment whose policy names approvers, and that has to have all it
    depends on succeed (the rule of a task that names none), is ready, running, waiting or
    done only after a gate of its own succeeded, and the gate's row was written as an
    approval those approvers decide.  (A retry of the task itself, once the run was cancelled
    before anybody approved, makes it ready at once: [retry_skips_gate].) *)
Theorem protected_waits load uuid (g : DagGraph) rq floor free now A s s' run_id t e p A' s2 id r0 r :
  Life.lived (A, s) -> fresh_run (uuid 1%nat) s ->
  create_run enterprise is_rfc3339 load uuid g rq floor free now s = Ok (s', run_id) ->
  Envpolicy.class_of (Runs.trigger rq) <> Envpolicy.TRUSTED ->
  t ∈ Spec.tasks (Spec.spec g) -> environment_of g t = Some e -> load e = Ok (Some p) ->
  Envpolicy.approvers p <> [] ->
  Spec.trigger_rule t = None \/ Spec.trigger_rule t = Some $"all_success" ->
  task_runs s' !! id = Some r0 -> T.run_id r0 = run_id -> T.name r0 = Spec.name t ->
  Life.lives (A, s') (A', s2) -> run_id ∉ A' -> task_runs s2 !! id = Some r -> started r = true ->
  exists u gid gr0 gr,
    Spec.approvers u = Envpolicy.approvers p
    /\ task_runs s' !! gid = Some gr0 /\ T.run_id gr0 = run_id /\ T.is_approval gr0 = true
    /\ T.approval_on_timeout gr0 = Some $"reject" /\ T.input gr0 = Some (task_to_json u)
    /\ task_runs s2 !! gid = Some gr /\ T.status gr = Succeeded.
Proof.
  intros Hr Hf Hc Hcl Ht He Hl Hp Hrule Hr0 Hrun0 Hname0 Hsteps HA Hr2 Hst. unfold create_run in Hc.
  destruct (Runs.check_disk_floor floor free); [|done]. cbn [map_err] in Hc.
  destruct (run_graph _ _ load g (Runs.trigger rq)) as [g'|] eqn:Eg; [|done].
  destruct (Runs.create_run_full uuid g' rq floor free now s) as [[s1 run1]|] eqn:Ec; [|done].
  cbn [map_err] in Hc. injection Hc as -> ->.
  destruct (run_graph_gated load g g' _ Eg Hcl) as [Hgate Hgang].
  destruct (Hgate t e p Ht He Hl Hp) as (t' & u & Ht' & Hu & [[B1 [_ B1']] [B2 _] (B3 & B4 & B5 & _) _ _]).
  destruct (created_rows _ _ _ _ _ _ _ _ _ (Life.lived_inv _ Hr) Hf Ec Hgang) as (_ & held & row & Hrows).
  destruct (Hrows t' Ht') as (R1 & R2 & R3). destruct (Hrows u Hu) as (U1 & _ & _).
  assert (id = row (Spec.name t')) as -> by (apply (R2 id r0); [done|done|congruence]).
  rewrite R1 in Hr0. apply (inj Some) in Hr0 as <-.
  assert (Life.lived (A, s')) as Hr' by (eapply rtc_r; [exact Hr|by eapply Life.go, Reach.create_run]).
  destruct (Life.lives_elsewhere _ _ run_id Hsteps Hr' HA) as [_ Hev].
  pose proof (Life.lived_inv _ (Life.lived_lives _ _ Hr' Hsteps)) as Hi2.
  destruct (Hev _ _ U1 eq_refl) as (gr & Hgr & _). destruct (Hev _ _ R1 eq_refl) as (r' & Hr'' & Hrev & Hedge).
  assert (r' = r) as -> by (cbn in Hr''; congruence).
  exists u, (row (Spec.name u)), (Runs.new_row g' run_id now held u None 0), gr. split_and!; [done|exact U1|done|exact B3|exact B5|done|done|].
  assert (T.run_id r ∉ A') as HA' by (by rewrite (ev_run _ _ Hrev)).
  destruct (inv_rules _ Hi2 _ r Hr2 Hst HA') as [_ Hh]. cbn in Hh.
  rewrite (ev_rule _ _ Hrev) in Hh.
  assert (T.trigger_rule (Runs.new_row g' run_id now held t' None 0) = $"all_success") as Er
    by (cbn; rewrite B1'; by destruct Hrule as [-> | ->]).
  rewrite Er in Hh.
  assert (T.status gr ∈ dep_statuses s2 (row (Spec.name t'))) as Hin.
  { apply dep_statuses_spec. exists (row (Spec.name u)), gr. split_and!; [|done|done].
    apply Hedge. by apply R3. }
  destruct Hh as [Hnil|Hall]; [rewrite Hnil in Hin; by apply elem_of_nil in Hin|].
  exact (proj1 (Forall_forall (fun x => x = Succeeded) _) Hall _ Hin).
Qed.
End facts. End ProtectedFacts.
