(* ===== verification/GatesAccepted.v ===== *)
(** * An accepted workflow with gates is accepted ([Protected], [Graph])

    The gates of a protected environment leave a workflow one that [from_spec] takes: what
    its checks ask of the tasks, of their order and of what they read holds of the tasks
    with their gates, so long as its budget has room for them. *)

From S2P Require Import Prelude Json Models Spec Cond Service Graph GraphFacts Envpolicy Confine ConfineFacts Tables Runs.
From S2P Require Import Protected ProtectedFacts.
From coqutil Require Import Datatypes.RecordSettersUsingExistingGetters.

Module GatesAccepted.

Import Spec Graph GraphFacts Protected.

(** An order of the names is one without circles. *)
Lemma ranked_acyclic {P : Petgraph} nodes edges (rank : str -> nat) :
  (forall a b, (a, b) ∈ edges -> rank a < rank b) -> is_cyclic_directed nodes edges = false.
Proof.
  intros H. destruct (is_cyclic_directed nodes edges) eqn:E; [|done].
  apply is_cyclic_spec in E as [n Hn]. exfalso.
  assert (forall a b, tc (edge_of edges) a b -> rank a < rank b) as Ht.
  { induction 1 as [a b Hab|a b c Hab _ IH]; [by apply H|]. specialize (H a b Hab). lia. }
  specialize (Ht n n Hn). lia.
Qed.

Section gates.
Context {W : World} {P : Petgraph} (enterprise : bool) (is_rfc3339 : str -> bool).

Abbreviation TaskSpec := (TaskSpec num).
Abbreviation DagSpec := (DagSpec num).
Abbreviation DagGraph := (DagGraph num).
Abbreviation check_task := (Graph.check_task (Num := num) enterprise is_rfc3339).
Abbreviation checks := (Graph.checks (Num := num) enterprise is_rfc3339).

(** ** One task more *)

Definition waiting_too (t : TaskSpec) (x : str) : TaskSpec := t <| depends_on := depends_on t ++ [x] |>.

Lemma env_from_more (t : TaskSpec) x seen l :
  check_env_from_each t seen l = Ok tt -> check_env_from_each (waiting_too t x) seen l = Ok tt.
Proof.
  revert seen; induction l as [|e l IH]; intros seen; cbn [check_env_from_each]; [done|].
  change (env (waiting_too t x)) with (env t).
  change (depends_on (waiting_too t x)) with (depends_on t ++ [x]).
  destruct (negb (Service.is_variable _)); [done|]. destruct (_ || _); [done|].
  case_bool_decide as Hd; cbn [negb]; [|by destruct (List.filter _ _)].
  rewrite bool_decide_true by (apply elem_of_app; by left). apply IH.
Qed.

Lemma reads_more (t : TaskSpec) x : check_reads t = Ok tt -> check_reads (waiting_too t x) = Ok tt.
Proof.
  unfold check_reads. autorewrite with graph. intros (H1 & H2 & _). split_and!; [|exact H2|done].
  intros He. destruct (H1 He) as (Ha & Hb & _). split_and!; [exact Ha| |done].
  revert Hb. unfold check_env_from. change (env_from (waiting_too t x)) with (env_from t).
  destruct (_ <? _)%nat; [done|]. apply env_from_more.
Qed.

Lemma task_more (sp sp' : DagSpec) t x : result_from sp' = result_from sp ->
  check_task sp t = Ok tt -> check_task sp' (waiting_too t x) = Ok tt.
Proof.
  intros Hr. unfold Graph.check_task. rewrite !all_ok_spec, !Forall_cons.
  intros (H1 & H2 & H3 & H4 & H5 & H6 & H7 & H8 & H9 & H10 & H11 & _). split_and!;
    [exact H1|exact H2|exact H3|exact H4|exact H5|by apply reads_more|exact H7| |exact H9|exact H10|exact H11|done].
  unfold check_gang in *. rewrite Hr. exact H8.
Qed.

Lemma task_same (sp sp' : DagSpec) t : result_from sp' = result_from sp ->
  check_task sp t = Ok tt -> check_task sp' t = Ok tt.
Proof. intros Hr. unfold Graph.check_task, check_gang. by rewrite Hr. Qed.

(** Whom a gate may ask, in what words. *)
Record askable (approvers : list str) (message : str) : Prop := {
  aa_many : (length approvers <= APPROVERS_MAX)%nat;
  aa_each : Forall (fun e => validate_approver e = Ok tt) approvers;
  aa_text : (char_count message <= APPROVAL_TEXT_MAX)%nat }.

Lemma gate_checked (sp sp' : DagSpec) t n ap m : check_task sp t = Ok tt -> askable ap m ->
  check_task sp' (gate n t ap m) = Ok tt.
Proof.
  intros H [Hn He Hm]. unfold Graph.check_task in *. rewrite all_ok_spec, !Forall_cons in *.
  destruct H as (Hk & _). unfold check_kind in Hk. autorewrite with graph in Hk. destruct Hk as (_ & _ & Hrule & _).
  split_and!; try done.
  - unfold check_kind. autorewrite with graph. split_and!; try done.
  - unfold check_approval. autorewrite with graph. split_and!; try done; try (by left); try (by right).
    + intros a [= <-]. rewrite refuse_spec. by apply Nat.ltb_ge.
    + by apply Nat.ltb_ge.
    + change (approvers (gate n t ap m)) with ap. apply for_each_ok, (Forall_impl _ _ _ He). by intros e ->.
Qed.

(** ** The tasks together *)

Context (sp : DagSpec) (Hchecks : checks sp = Ok tt).
Context (ts gates : list TaskSpec).

Definition more (t t' : TaskSpec) : Prop :=
  t' = t \/ exists u, u ∈ gates /\ depends_on u = depends_on t /\ t' = waiting_too t (name u).

Hypothesis Hmore : Forall2 more (tasks sp) ts.
Hypothesis Hgates : forall u, u ∈ gates -> exists t ap m, t ∈ tasks sp /\ u = gate (name u) t ap m /\ askable ap m.
Hypothesis Hdistinct : NoDup (map name gates).
Hypothesis Hnew : forall u, u ∈ gates -> name u ∉ names sp.
Hypothesis Hplain : forall t, t ∈ tasks sp -> with_output_of t = None.
Hypothesis Hroom : forall b max, budget sp = Some b -> bg_tasks b = Some max ->
  (planned_rows (tasks sp) + N.of_nat (length gates) <= max)%N.

Definition sp' : DagSpec := sp <| tasks := ts ++ gates |>.

(** What the checks said of the workflow. *)
Lemma checked : NoDup (names sp) /\ (forall t, t ∈ tasks sp -> check_task sp t = Ok tt)
  /\ (forall t d, t ∈ tasks sp -> d ∈ depends_on t -> exists u, u ∈ tasks sp /\ name u = d /\ hook u = None)
  /\ (exists rank : str -> nat, forall t d, t ∈ tasks sp -> d ∈ depends_on t -> rank d < rank (name t))
  /\ (forall t, t ∈ tasks sp -> check_when t = Ok tt) /\ check_result sp = Ok tt.
Proof.
  pose proof Hchecks as H. unfold Graph.checks in H. passed H.
  destruct H as (_ & _ & _ & _ & Ht & Hd & Hc & Hw & _ & Hr & _).
  apply check_tasks_spec in Ht as (Hn & _ & Ht). rewrite Forall_forall in Ht.
  rewrite for_each_ok, Forall_forall in Hw. split_and!; [done|done| | |done|done].
  - intros t d. by apply deps_unhooked.
  - by apply acyclic_order.
Qed.

Lemma more_name t t' : more t t' -> name t' = name t /\ hook t' = hook t /\ when t' = when t
  /\ with_output_of t' = with_output_of t /\ rows t' = rows t /\ tokens t' = tokens t /\ defer t' = defer t.
Proof. by intros [->|(u & _ & _ & ->)]. Qed.

Lemma of_task t' : t' ∈ ts -> exists t, t ∈ tasks sp /\ more t t'.
Proof.
  intros [i Hi]%list_elem_of_lookup_1. destruct (Forall2_lookup_r _ _ _ _ _ Hmore Hi) as (t & Ht & Hm).
  exists t. split; [by eapply list_elem_of_lookup_2|done].
Qed.

Lemma task_kept t : t ∈ tasks sp -> exists t', t' ∈ ts /\ more t t'.
Proof.
  intros [i Hi]%list_elem_of_lookup_1. destruct (Forall2_lookup_l _ _ _ _ _ Hmore Hi) as (t' & Ht & Hm).
  exists t'. split; [by eapply list_elem_of_lookup_2|done].
Qed.

Lemma map_more {A} (f : TaskSpec -> A) : (forall t t', more t t' -> f t' = f t) -> map f ts = map f (tasks sp).
Proof.
  intros H. pose proof Hmore as Hm. revert Hm. generalize (tasks sp) ts. intros l l' Hm.
  induction Hm as [|t t' k k' Hm _ IH]; [done|]. cbn. by rewrite (H t t'), IH.
Qed.

Lemma names_more : names sp' = names sp ++ map name gates.
Proof.
  unfold names, sp'. cbn. unfold const. rewrite map_app. f_equal. apply map_more. intros t t' H. by apply more_name in H as [? _].
Qed.

(** A gate's own lines. *)
Lemma gate_lines u : u ∈ gates -> hook u = None /\ with_output_of u = None /\ rows u = 1%N
  /\ tokens u = None /\ defer u = None
  /\ exists t, t ∈ tasks sp /\ depends_on u = depends_on t /\ when u = when t.
Proof.
  intros Hu. destruct (Hgates u Hu) as (t & ap & m & Ht & E & _). rewrite E. split_and!; try done. by exists t.
Qed.

(** What waits, waits for a task of the workflow that is no hook. *)
Lemma deps_more v d : v ∈ ts ++ gates -> d ∈ depends_on v ->
  exists u, u ∈ ts ++ gates /\ name u = d /\ hook u = None.
Proof.
  destruct checked as (_ & _ & Hd & _).
  assert (forall t, t ∈ tasks sp -> d ∈ depends_on t -> exists u, u ∈ ts ++ gates /\ name u = d /\ hook u = None) as Hold.
  { intros t Ht Hin. destruct (Hd t d Ht Hin) as (u & Hu & <- & Hh). destruct (task_kept u Hu) as (u' & Hu' & Hm).
    apply more_name in Hm as (N1 & N2 & _). exists u'. split_and!; [apply elem_of_app; by left|done|congruence]. }
  intros [Hv|Hv]%elem_of_app Hin.
  - destruct (of_task v Hv) as (t & Ht & [->|(u & Hu & _ & ->)]); [by eapply Hold|].
    change (d ∈ depends_on t ++ [name u]) in Hin. apply elem_of_app in Hin as [Hin|Hin]; [by eapply Hold|].
    apply list_elem_of_singleton in Hin as ->. exists u. split_and!; [apply elem_of_app; by right|done|].
    by apply gate_lines.
  - destruct (gate_lines v Hv) as (_ & _ & _ & _ & _ & t & Ht & E & _). rewrite E in Hin. by eapply Hold.
Qed.

(** *** Their order *)

Definition step_up (rank : str -> nat) (x : str) : nat :=
  match List.find (fun u => bool_decide (name u = x)) gates with
  | Some u => S (max_list (map (fun d => 2 * rank d + 2) (depends_on u)))
  | None => 2 * rank x + 2
  end.

Lemma step_up_old rank x : x ∈ names sp -> step_up rank x = 2 * rank x + 2.
Proof.
  intros Hx. unfold step_up. destruct (List.find _ gates) as [u|] eqn:E; [|done].
  apply find_some in E as [Hu Hn%bool_decide_eq_true]. apply list_elem_of_In in Hu. by destruct (Hnew u Hu); rewrite Hn.
Qed.

Lemma step_up_gate rank u : u ∈ gates ->
  step_up rank (name u) = S (max_list (map (fun d => 2 * rank d + 2) (depends_on u))).
Proof.
  intros Hu. unfold step_up. destruct (List.find _ gates) as [v|] eqn:E.
  - apply find_some in E as [Hv Hn%bool_decide_eq_true]. apply list_elem_of_In in Hv.
    assert (v = u) as ->; [|done]. apply list_elem_of_lookup_1 in Hu as [i Hi], Hv as [j Hj].
    assert (i = j) as ->; [|congruence]. eapply (NoDup_lookup (map name gates)); [done|..];
      rewrite list_lookup_fmap; [by rewrite Hi|by rewrite Hj; cbn; rewrite Hn].
  - apply list_elem_of_In in Hu. apply (find_none _ _ E) in Hu. by rewrite bool_decide_true in Hu.
Qed.

Lemma order_more : is_cyclic_directed (names sp') (graph_edges sp') = false.
Proof.
  destruct checked as (_ & _ & Hd & [rank Hrank] & _).
  assert (forall t d, t ∈ tasks sp -> d ∈ depends_on t -> step_up rank d < step_up rank (name t)
    /\ step_up rank d = 2 * rank d + 2) as Hold.
  { intros t d Ht Hin. specialize (Hrank t d Ht Hin). destruct (Hd t d Ht Hin) as (u & Hu & <- & _).
    rewrite !step_up_old by (apply elem_names; eauto). lia. }
  apply (ranked_acyclic _ _ (step_up rank)). intros a b (v & Hv & <- & Ha)%elem_edges.
  change (tasks sp') with (ts ++ gates) in Hv. apply elem_of_app in Hv as [Hv|Hv].
  - destruct (of_task v Hv) as (t & Ht & [->|(u & Hu & Eu & ->)]); [by apply Hold|].
    change (a ∈ depends_on t ++ [name u]) in Ha. change (name (waiting_too t (name u))) with (name t).
    apply elem_of_app in Ha as [Ha|Ha]; [by apply Hold|]. apply list_elem_of_singleton in Ha as ->.
    rewrite step_up_gate, Eu by done. rewrite step_up_old by (apply elem_names; eauto).
    assert (forall l, (forall d, d ∈ l -> d ∈ depends_on t) ->
      max_list (map (fun d => 2 * rank d + 2) l) < 2 * rank (name t) + 1) as Hmax.
    { induction l as [|d l IH]; intros Hl; [cbn; lia|].
      change (max_list (map ?f (d :: l))) with (Nat.max (f d) (max_list (map f l))). cbv beta.
      pose proof (Hrank t d Ht (Hl d ltac:(left))). specialize (IH ltac:(intros x Hx; apply Hl; by right)). lia. }
    specialize (Hmax (depends_on t) ltac:(done)). lia.
  - rewrite step_up_gate by done. destruct (gate_lines v Hv) as (_ & _ & _ & _ & _ & t & Ht & E & _).
    rewrite E in *. destruct (Hold t a Ht Ha) as [_ ->].
    assert (2 * rank a + 2 <= max_list (map (fun d => 2 * rank d + 2) (depends_on t))); [|lia].
    apply max_list_elem_of_le. apply list_elem_of_fmap. by exists a.
Qed.

(** *** The checks *)

Lemma tasks_more : check_tasks enterprise is_rfc3339 sp' [] (tasks sp') = Ok tt.
Proof.
  destruct checked as (Hn & Ht & _). apply check_tasks_spec. split_and!.
  - change (NoDup (names sp')). rewrite names_more. apply NoDup_app. split_and!; [done| |done].
    intros x Hx (u & -> & Hu)%list_elem_of_fmap. by apply (Hnew u Hu).
  - intros n _. apply not_elem_of_nil.
  - change (tasks sp') with (ts ++ gates). apply Forall_app. split; apply Forall_forall; intros v Hv.
    + destruct (of_task v Hv) as (t & Hin & [->|(u & _ & _ & ->)]);
        [by apply (task_same sp); [|apply Ht]|by apply (task_more sp); [|apply Ht]].
    + destruct (Hgates v Hv) as (t & ap & m & Hin & -> & Ha). apply (gate_checked sp); [by apply Ht|done].
Qed.

Lemma hooks_more n : n ∈ hook_names sp' -> n ∈ hook_names sp.
Proof.
  rewrite !elem_hooks. change (tasks sp') with (ts ++ gates). intros (v & [Hv|Hv]%elem_of_app & <- & Hh).
  - destruct (of_task v Hv) as (t & Ht & Hm). apply more_name in Hm as (E1 & E2 & _). exists t.
    rewrite E1. rewrite E2 in Hh. done.
  - by apply gate_lines in Hv as [? _].
Qed.

Lemma deps_checked : check_deps sp' = Ok tt.
Proof.
  unfold check_deps. apply for_each_ok, Forall_forall. intros v Hv. apply for_each_ok, Forall_forall. intros d Hd.
  destruct (deps_more v d Hv Hd) as (u & Hu & <- & Hh).
  rewrite bool_decide_true by (apply (elem_names is_rfc3339); by exists u). cbn [negb].
  apply refuse_spec, bool_decide_eq_false. intros (w & Hw & En & Hwh)%elem_hooks.
  assert (w = u) as ->; [|done].
  pose proof tasks_more as Ht. apply check_tasks_spec in Ht as (Hn & _).
  apply list_elem_of_lookup_1 in Hu as [i Hi], Hw as [j Hj].
  assert (i = j) as ->; [|change (tasks sp') with (ts ++ gates) in *; congruence].
  eapply (NoDup_lookup _ _ _ (name u) Hn); rewrite list_lookup_fmap; change (tasks sp') with (ts ++ gates) in *.
  - by rewrite Hi.
  - by rewrite Hj; cbn; rewrite En.
Qed.

Lemma when_more v : v ∈ tasks sp' -> check_when v = Ok tt.
Proof.
  destruct checked as (_ & _ & _ & _ & Hw & _).
  assert (forall t : TaskSpec, t ∈ tasks sp -> forall c ref, when t = Some c -> ref ∈ Cond.when_output_refs c -> ref ∈ depends_on t) as Hold.
  { intros t Ht c ref Hc Href. specialize (Hw t Ht). unfold check_when in Hw. rewrite Hc in Hw. cbn [on_some] in Hw.
    rewrite for_each_ok, Forall_forall in Hw. specialize (Hw ref Href). by passed Hw. }
  assert (forall t : TaskSpec, (forall c ref, when t = Some c -> ref ∈ Cond.when_output_refs c -> ref ∈ depends_on t) ->
    check_when t = Ok tt) as Hnewly.
  { intros t H. unfold check_when. apply on_some_spec. intros c Hc. apply for_each_ok, Forall_forall. intros ref Href.
    apply refuse_spec, negb_false_iff, bool_decide_eq_true. by eapply H. }
  change (tasks sp') with (ts ++ gates). intros [Hv|Hv]%elem_of_app; apply Hnewly; intros c ref Hc Href.
  - destruct (of_task v Hv) as (t & Ht & [->|(u & _ & _ & ->)]); [by eapply Hold|].
    change (ref ∈ depends_on t ++ [name u]). apply elem_of_app. left. by eapply Hold.
  - destruct (gate_lines v Hv) as (_ & _ & _ & _ & _ & t & Ht & E1 & E2). rewrite E1. rewrite E2 in Hc. by eapply Hold.
Qed.

Lemma planned_more : planned_rows (ts ++ gates) = (planned_rows (tasks sp) + N.of_nat (length gates))%N.
Proof.
  unfold planned_rows. rewrite map_app, (map_more rows) by (intros t t' H; by apply more_name in H as (_ & _ & _ & _ & ? & _)).
  assert (forall l m, fold_right N.add 0%N (l ++ m) = (fold_right N.add 0 l + fold_right N.add 0 m)%N) as Happ.
  { induction l as [|x l IH]; intros m; cbn; [done|]. rewrite IH. lia. }
  rewrite Happ. f_equal. assert (forall u, u ∈ gates -> rows u = 1%N) as H by (intros u Hu; by apply gate_lines in Hu as (_ & _ & ? & _)).
  clear -H. induction gates as [|u l IH]; [done|]. cbn [map fold_right length].
  rewrite (H u) by (by left). rewrite IH; [lia|]. intros x Hx. apply H. by right.
Qed.

Lemma external_more : external_plan (ts ++ gates) = external_plan (tasks sp).
Proof.
  unfold external_plan. rewrite List.filter_app.
  assert (List.filter (fun t => given (defer t)) gates = []) as ->.
  { assert (forall u, u ∈ gates -> defer u = None) as H by (intros u Hu; by apply gate_lines in Hu as (_ & _ & _ & _ & ? & _)).
    clear -H. induction gates as [|u l IH]; [done|]. cbn [List.filter]. rewrite (H u) by (by left). cbn [given].
    apply IH. intros x Hx. apply H. by right. }
  rewrite app_nil_r. pose proof Hmore as Hm. revert Hm. generalize (tasks sp) ts (0%N, 0%N).
  intros l l' acc Hm. revert acc. induction Hm as [|t t' k k' Ht _ IH]; intros acc; [done|].
  apply more_name in Ht as (_ & _ & _ & _ & Er & _ & Ed). cbn [List.filter]. rewrite Ed.
  destruct (defer t) as [d|] eqn:E; cbn [given]; [|apply IH]. cbn [fold_left].
  destruct acc as [c n]. cbn [fold_left]. cbv beta iota. rewrite Er, Ed, E. apply IH.
Qed.

Lemma tokens_more n : List.find (fun t : TaskSpec => match tokens t with Some k => n <? k | None => false end)%N (tasks sp) = None ->
  List.find (fun t : TaskSpec => match tokens t with Some k => n <? k | None => false end)%N (ts ++ gates) = None.
Proof.
  intros H. destruct (List.find _ (ts ++ gates)) as [v|] eqn:E; [|done]. exfalso.
  apply find_some in E as [Hv%list_elem_of_In Hk]. apply elem_of_app in Hv as [Hv|Hv].
  - destruct (of_task v Hv) as (t & Ht%list_elem_of_In & Hm).
    apply more_name in Hm as (_ & _ & _ & _ & _ & Et & _). pose proof (find_none _ _ H t Ht) as Hf. cbn in Hf.
    rewrite Et in Hk. congruence.
  - apply gate_lines in Hv as (_ & _ & _ & Et & _). by rewrite Et in Hk.
Qed.

Lemma budget_more : check_budget enterprise sp = Ok tt -> check_budget enterprise sp' = Ok tt.
Proof.
  unfold check_budget. change (budget sp') with (budget sp). change (tasks sp') with (ts ++ gates).
  rewrite !on_some_spec. intros H b Hb. specialize (H b Hb). rewrite external_more, planned_more.
  autorewrite with graph in *. destruct H as (H1 & H2 & H3 & H4 & _). split_and!; [|exact H2|exact H3| |done].
  - destruct (bg_tasks b) as [[|m]|] eqn:Em; [done| |done]. apply refuse_spec, N.ltb_ge. by apply (Hroom b).
  - destruct (bg_tokens b) as [[|n]|]; [done| |done]. destruct (_ <? _)%N; [done|]. destruct (negb enterprise); [done|].
    destruct (List.find _ (tasks sp)) as [v|] eqn:E; [done|]. by rewrite (tokens_more _ E).
Qed.

(** The workflow and its gates pass every check. *)
Lemma gates_pass : checks sp' = Ok tt.
Proof.
  pose proof Hchecks as H. destruct checked as (_ & _ & _ & _ & _ & Hres).
  unfold Graph.checks in H |- *. autorewrite with graph in H |- *.
  destruct H as (H1 & H2 & H3 & H4 & _ & _ & _ & _ & _ & _ & _).
  split_and!; [exact H1|by apply budget_more|exact H3|exact H4|apply tasks_more|apply deps_checked
              |apply order_more| | | |done].
  - apply for_each_ok, Forall_forall. intros v. apply when_more.
  - apply for_each_ok, Forall_forall. intros v Hv. unfold check_fanout.
    assert (with_output_of v = None) as ->; [|done].
    change (tasks sp') with (ts ++ gates) in Hv. apply elem_of_app in Hv as [Hv|Hv]; [|by apply gate_lines in Hv as (_ & ? & _)].
    destruct (of_task v Hv) as (t & Ht & Hm). apply more_name in Hm as (_ & _ & _ & E & _). rewrite E. by apply Hplain.
  - revert Hres. unfold check_result. change (result_from sp') with (result_from sp). rewrite !on_some_spec.
    intros Hres rf Hrf. specialize (Hres rf Hrf). autorewrite with graph in *. destruct Hres as (R1 & R2 & _).
    split_and!; [|by intros ?%hooks_more|done]. rewrite names_more. apply elem_of_app. by left.
Qed.
End gates.

(** ** Held workflows *)

Section held.
Context {W : World} {P : Petgraph} (enterprise : bool) (is_rfc3339 : str -> bool).

Abbreviation TaskSpec := (TaskSpec num).
Abbreviation DagSpec := (DagSpec num).
Abbreviation DagGraph := (DagGraph num).
Abbreviation withhold := (Confine.withhold (Num := num)).

Lemma withheld_env_from (t : TaskSpec) seen l : check_env_from_each (withhold t) seen l = check_env_from_each t seen l.
Proof.
  revert seen; induction l as [|e l IH]; intros seen; cbn [check_env_from_each]; [done|].
  change (env (withhold t)) with (env t). change (depends_on (withhold t)) with (depends_on t). by rewrite IH.
Qed.

Lemma withheld_reads (t : TaskSpec) : check_reads (withhold t) = check_reads t.
Proof. unfold check_reads, check_env_from. by rewrite withheld_env_from. Qed.

Lemma withheld_task (sp sp' : DagSpec) t : result_from sp' = result_from sp ->
  Graph.check_task enterprise is_rfc3339 sp t = Ok tt ->
  Graph.check_task enterprise is_rfc3339 sp' (withhold t) = Ok tt.
Proof.
  intros Hr. unfold Graph.check_task. rewrite !all_ok_spec, !Forall_cons.
  intros (H1 & H2 & H3 & H4 & H5 & H6 & H7 & H8 & H9 & H10 & H11 & _). split_and!;
    [|exact H2|exact H3|exact H4|exact H5|by rewrite withheld_reads| | |exact H9|exact H10|exact H11|done].
  - unfold check_kind in *. autorewrite with graph in *. destruct H1 as (_ & R). split; [|exact R].
    change (retry_budgets (withhold t)) with (∅ : gmap str N). done.
  - unfold check_placement in *. autorewrite with graph in *. destruct H7 as (R1 & _ & _ & R4 & R5 & _).
    split_and!; [exact R1| |done|exact R4|exact R5|done].
    change (pool (withhold t)) with (Some Confine.POOL). by intros a [= <-].
  - unfold check_gang in *. rewrite Hr. exact H8.
Qed.

(** What the checks of a workflow read of its tasks, the task itself apart. *)
Lemma withheld_lists (l : list TaskSpec) :
  map name (map withhold l) = map name l
  /\ map name (List.filter is_hook (map withhold l)) = map name (List.filter is_hook l)
  /\ map rows (map withhold l) = map rows l
  /\ flat_map (fun t => map (fun dep => (dep, name t)) (depends_on t)) (map withhold l)
     = flat_map (fun t => map (fun dep => (dep, name t)) (depends_on t)) l
  /\ forall acc, fold_left (fun '(cost_, n) t =>
       let unit := default 1%N (let* d := defer t in cost d) in
       (N.min U64_MAX (cost_ + N.min U64_MAX (unit * rows t)), n + rows t)%N)
       (List.filter (fun t : TaskSpec => given (defer t)) (map withhold l)) acc
     = fold_left (fun '(cost_, n) t =>
       let unit := default 1%N (let* d := defer t in cost d) in
       (N.min U64_MAX (cost_ + N.min U64_MAX (unit * rows t)), n + rows t)%N)
       (List.filter (fun t : TaskSpec => given (defer t)) l) acc.
Proof.
  induction l as [|t l (I1 & I2 & I3 & I4 & I5)]; [done|]. cbn [map List.filter flat_map].
  change (name (withhold t)) with (name t). change (is_hook (withhold t)) with (is_hook t).
  change (rows (withhold t)) with (rows t). change (depends_on (withhold t)) with (depends_on t).
  change (defer (withhold t)) with (defer t). split_and!; [by rewrite I1| |by rewrite I3|by rewrite I4|].
  - destruct (is_hook t); cbn [map]; by rewrite I2.
  - intros [c n]. destruct (given (defer t)); [|apply I5]. exact (I5 _).
Qed.

Lemma withheld_tokens n (l : list TaskSpec) :
  option_map name (List.find (fun t => match tokens t with Some k => n <? k | None => false end)%N (map withhold l))
  = option_map name (List.find (fun t => match tokens t with Some k => n <? k | None => false end)%N l).
Proof.
  induction l as [|t l IH]; [done|]. cbn [map List.find]. change (tokens (withhold t)) with (tokens t).
  by destruct (match tokens t with Some k => _ | None => false end).
Qed.

(** The keys a hold may leave a workflow that its checks do not take: a cap of none, or a key
    that is too long once it is the kind's. *)
Definition cap_fits (sp : DagSpec) : Prop :=
  forall m, max_active_runs sp = Some m -> m <> 0%N
    /\ forall key, concurrency_key sp = Some key -> (length key <= 190)%nat.

(** A byte that is in the encoding of no white space keeps a text from being blank. *)
Lemma trim_with_keeps w2 w3 c s :
  ws1 c = false -> (forall a, w2 c a = false /\ w2 a c = false) ->
  (forall a b, w3 c a b = false /\ w3 a c b = false /\ w3 a b c = false) ->
  c ∈ s -> trim_with w2 w3 s <> [].
Proof.
  intros H1 H2 H3. assert (forall n s, length s <= n -> c ∈ s -> trim_with w2 w3 s <> []) as H; [|by apply (H (length s))].
  clear s. induction n as [|n IH]; intros [|a s] Hn Hc; [by apply elem_of_nil in Hc|cbn in Hn; lia|by apply elem_of_nil in Hc|].
  cbn [length] in Hn. cbn [trim_with]. destruct (ws1 a) eqn:Ea.
  { apply IH; [lia|]. apply elem_of_cons in Hc as [->|Hc]; [congruence|done]. }
  destruct s as [|b s]; [done|]. destruct (w2 a b) eqn:Eb.
  { cbn in Hn. apply IH; [lia|]. rewrite !elem_of_cons in Hc. destruct Hc as [->|[->|Hc]]; [|  |done].
    - destruct (H2 b). congruence.
    - destruct (H2 a). congruence. }
  destruct s as [|d s]; [done|]. destruct (w3 a b d) eqn:Ed; [|done].
  cbn in Hn. apply IH; [lia|]. rewrite !elem_of_cons in Hc. destruct Hc as [->|[->|[->|Hc]]]; [| | |done].
  - destruct (H3 b d) as (? & ? & ?). congruence.
  - destruct (H3 a d) as (? & ? & ?). congruence.
  - destruct (H3 a b) as (? & ? & ?). congruence.
Qed.

Lemma untrusted_not_blank (k : str) : some_of (trim (Confine.POOL ++ $":" ++ k)) = true.
Proof.
  assert (trim (Confine.POOL ++ $":" ++ k) <> []) as H; [|by destruct (trim _)].
  unfold trim. change (trim_start (Confine.POOL ++ $":" ++ k)) with (Confine.POOL ++ $":" ++ k).
  unfold trim_end. intros H. apply (f_equal (@rev ascii)) in H. rewrite rev_involutive in H. revert H.
  apply (trim_with_keeps _ _ ("u"%char)).
  - done.
  - intros a. unfold ws2. cbn. by rewrite andb_false_r.
  - intros a b. unfold ws3. cbn. by rewrite !andb_false_r.
  - apply list_elem_of_In. rewrite <- in_rev. by left.
Qed.

Lemma no_brace_before (p k : str) : contains_char "{" p = false -> contains $"{{" k = false -> contains $"{{" (p ++ k) = false.
Proof.
  intros Hp Hk. induction p as [|c p IH]; [done|]. unfold contains_char in Hp. cbn [existsb] in Hp.
  apply orb_false_iff in Hp as [Hc Hp]. specialize (IH Hp). apply not_true_iff_false. intros (a & r & E)%contains_spec.
  apply not_true_iff_false in IH. apply IH, contains_spec. destruct a as [|x a].
  - cbn in E. injection E as -> _. cbn in Hc. discriminate.
  - cbn in E. injection E as _ E. by exists a, r.
Qed.

Lemma held_cap (sp : DagSpec) key m : check_cap sp = Ok tt -> max_active_runs sp = Some m -> m <> 0%N ->
  (forall k, concurrency_key sp = Some k -> (length k <= 190)%nat) ->
  key = match concurrency_key sp with Some k => Confine.POOL ++ $":" ++ k | None => Confine.POOL end ->
  check_cap (sp <| concurrency_key := Some key |>) = Ok tt.
Proof.
  unfold check_cap. intros H Hm Hne Hlen ->. cbn [run_timeout_secs max_active_runs when_full concurrency_key].
  autorewrite with graph in H |- *. destruct H as (H1 & H2 & H3 & _). split_and!; [exact H1| |exact H3|done].
  rewrite Hm in *. change (default 0%N (Some m)) with m in *. apply N.eqb_neq in Hne. intros k [= <-].
  destruct (concurrency_key sp) as [k|]; cbn [const]; autorewrite with graph; split_and!; try done;
    try (change (max_active_runs (sp <| concurrency_key := ?x |>)) with (max_active_runs sp); rewrite Hm; exact Hne).
  - unfold blank. autorewrite with graph. exact (untrusted_not_blank k).
  - pose proof (H2 k eq_refl) as H. autorewrite with graph in H. destruct H as (_ & Hb & _). exact (no_brace_before (Confine.POOL ++ $":") k eq_refl Hb).
  - apply Nat.ltb_ge. specialize (Hlen k eq_refl). cbn. lia.
Qed.

Lemma withheld_checks (sp : DagSpec) :
  Graph.checks enterprise is_rfc3339 sp = Ok tt ->
  Graph.checks enterprise is_rfc3339 (sp <| tasks := map withhold (tasks sp) |>) = Ok tt.
Proof.
  destruct (withheld_lists (tasks sp)) as (N1 & N2 & N3 & N4 & N5).
  set (h := sp <| tasks := map withhold (tasks sp) |>).
  assert (tasks h = map withhold (tasks sp)) as Et by done.
  assert (names h = names sp) as En by (unfold names; by rewrite Et, N1).
  assert (hook_names h = hook_names sp) as Eh by (unfold hook_names; by rewrite Et, N2).
  assert (graph_edges h = graph_edges sp) as Ee by (unfold graph_edges; by rewrite Et, N4).
  unfold Graph.checks. autorewrite with graph. rewrite En, Ee.
  intros (H1 & H2 & H3 & H4 & H5 & H6 & H7 & H8 & H9 & H10 & _).
  split_and!; [exact H1| |exact H3|exact H4| | |exact H7| | | |done].
  - revert H2. unfold check_budget, external_plan, planned_rows. change (budget h) with (budget sp).
    rewrite Et, !on_some_spec. intros H b Hb. specialize (H b Hb). rewrite N3, N5.
    autorewrite with graph in *. destruct H as (R1 & R2 & R3 & R4 & _). split_and!; [exact R1|exact R2|exact R3| |done].
    destruct (bg_tokens b) as [[|n]|]; [done| |done]. destruct (_ <? _)%N; [done|]. destruct (negb enterprise); [done|].
    pose proof (withheld_tokens (N.pos n) (tasks sp)) as Hf. destruct (List.find _ (tasks sp)); [done|].
    by destruct (List.find _ (map withhold (tasks sp))).
  - apply (check_tasks_spec enterprise is_rfc3339) in H5 as (C1 & C2 & C3). apply (check_tasks_spec enterprise is_rfc3339).
    rewrite Et, N1. split_and!; [done..|]. apply Forall_fmap, (Forall_impl _ _ _ C3). intros t. by apply withheld_task.
  - revert H6. unfold check_deps. rewrite Et, En, Eh, !for_each_ok. intros H. by apply Forall_fmap.
  - rewrite Et. rewrite for_each_ok in *. by apply Forall_fmap.
  - rewrite Et. rewrite for_each_ok in *. apply Forall_fmap, (Forall_impl _ _ _ H9). intros t.
    unfold check_fanout. by rewrite En.
  - revert H10. unfold check_result. change (result_from h) with (result_from sp). by rewrite En, Eh.
Qed.

(** The checks of a workflow whose other keys are the same, its cap apart. *)
Lemma checks_recapped (sp h : DagSpec) :
  h = (sp <| task_defaults := task_defaults h |>) <| concurrency_key := concurrency_key h |> ->
  check_cap h = Ok tt -> Graph.checks enterprise is_rfc3339 sp = Ok tt -> Graph.checks enterprise is_rfc3339 h = Ok tt.
Proof.
  intros -> Hcap. unfold Graph.checks. autorewrite with graph.
  intros (H1 & H2 & H3 & H4 & H5 & H6 & H7 & H8 & H9 & H10 & _).
  split_and!; [exact Hcap|exact H2|exact H3|exact H4| |exact H6|exact H7|exact H8|exact H9|exact H10|done].
  apply (check_tasks_spec enterprise is_rfc3339) in H5 as (C1 & C2 & C3). apply (check_tasks_spec enterprise is_rfc3339).
  split_and!; [exact C1|exact C2|exact C3].
Qed.

Lemma held_checks (g h : DagGraph) class :
  Graph.checks enterprise is_rfc3339 (spec g) = Ok tt -> cap_fits (spec g) ->
  Confine.held g class = Ok (Some h) ->
  Graph.checks enterprise is_rfc3339 (spec h) = Ok tt /\ tasks (spec h) = map withhold (tasks (spec g))
  /\ budget (spec h) = budget (spec g) /\ dg_environment (spec h) = dg_environment (spec g)
  /\ graph_parameters h = graph_parameters g.
Proof.
  intros Hc Hf Hh. unfold Confine.held in Hh. destruct (negb (Confine.confined class)) eqn:Ec; [done|].
  unfold Confine.hold in Hh. rewrite Ec in Hh. destruct (Confine.refusal (spec g) class); [done|]. cbv zeta in Hh.
  set (sp1 := (spec g) <| task_defaults := _ |>) in Hh.
  set (sp2 := match max_active_runs sp1 with Some _ => _ | None => sp1 end) in Hh. injection Hh as <-.
  assert (Graph.checks enterprise is_rfc3339 sp2 = Ok tt /\ tasks sp2 = tasks (spec g)
    /\ budget sp2 = budget (spec g) /\ dg_environment sp2 = dg_environment (spec g)) as (H1 & H2 & H3 & H4).
  { assert (check_cap (spec g) = Ok tt) as Hcap by (unfold Graph.checks in Hc; autorewrite with graph in Hc; tauto).
    unfold sp2. change (max_active_runs sp1) with (max_active_runs (spec g)).
    destruct (max_active_runs (spec g)) as [m|] eqn:Em; (split; [|done]).
    - destruct (Hf m Em) as [Hm Hl]. eapply (checks_recapped (spec g)); [by destruct (spec g)| |done].
      exact (held_cap (spec g) _ m Hcap Em Hm Hl eq_refl).
    - eapply (checks_recapped (spec g)); [by destruct (spec g)|exact Hcap|done]. }
  split_and!; [|by rewrite <- H2|done..]. cbn [spec]. apply withheld_checks in H1. exact H1.
Qed.

(** *** Whose policies can be read *)

(** A policy that a gate can be made of, for a task of a run. *)
Definition policy_fits (load : str -> result str (option Envpolicy.EnvironmentPolicy)) (class : str)
    (actor : option str) (g : DagGraph) : Prop :=
  forall t e, t ∈ tasks (spec g) -> ProtectedFacts.environment_of g t = Some e ->
    exists p, load e = Ok p
    /\ askable (Envpolicy.approvers_for p class) (gate_message class actor e (name t)).

Lemma ask_loads load class env policies i (ts : list TaskSpec) :
  (forall e p, policies !! e = Some p -> load e = Ok p) ->
  (forall t e, t ∈ ts -> match environment t with Some e => Some e | None => env end = Some e -> is_ok (load e) = true) ->
  exists asked, ask load class env policies i ts = Ok asked.
Proof.
  revert policies i; induction ts as [|t ts IH]; intros policies i Hp Hl; cbn [ask]; [by eexists|].
  assert (forall ps j, (forall e p, ps !! e = Some p -> load e = Ok p) -> exists asked, ask load class env ps j ts = Ok asked) as IH'.
  { intros ps j Hps. apply IH; [done|]. intros u e Hu. apply Hl. by right. }
  destruct (is_approval t); [by apply IH'|].
  destruct (match environment t with Some e => Some e | None => env end) as [e|] eqn:Ee; [|by apply IH'].
  assert (exists p ps, match policies !! e with
                       | Some p => Ok (p, policies)
                       | None => let? p := load e in Ok (p, <[e:=p]> policies) end = Ok (p, ps)
                       /\ forall e' p', ps !! e' = Some p' -> load e' = Ok p') as (p & ps & -> & Hps).
  { destruct (policies !! e) as [p|] eqn:E0; [by exists p, policies|].
    pose proof (Hl t e ltac:(left) Ee) as Hx. destruct (load e) as [p|] eqn:E1; [|done]. exists p, (<[e:=p]> policies).
    split; [done|]. intros e' p'. rewrite lookup_insert_Some. intros [[<- <-]|[_ H]]; [done|by apply Hp]. }
  destruct (IH' ps (S i) Hps) as [asked ->]. destruct (Envpolicy.approvers_for p class); by eexists.
Qed.

(** Gates before some of the tasks of a graph that passes the checks. *)
Lemma gates_made (h : DagGraph) (load : str -> result str (option Envpolicy.EnvironmentPolicy)) class actor asked :
  Graph.checks enterprise is_rfc3339 (spec h) = Ok tt -> (forall t, t ∈ tasks (spec h) -> NoDup (depends_on t)) ->
  NoDup (map as_place asked) ->
  (forall t, t ∈ tasks (spec h) -> with_output_of t = None) ->
  (forall a, a ∈ asked -> exists t, tasks (spec h) !! as_place a = Some t
     /\ askable (as_approvers a) (gate_message class actor (as_env a) (name t))) ->
  (forall b max, budget (spec h) = Some b -> bg_tasks b = Some max ->
     (planned_rows (tasks (spec h)) + N.of_nat (length asked) <= max)%N) ->
  exists g', with_gates enterprise is_rfc3339 h asked class actor = Ok g' /\ well_formed (spec g').
Proof.
  intros Hc Hdd Hnd Hplain Hask Hroom.
  destruct (ProtectedFacts.add_gates_spec class actor asked (tasks (spec h)) (map name (tasks (spec h))) [] Hnd)
    as (ts & gates & Eg & Hlen & _ & Hkept & Hgates & new & -> & N1 & N2 & N3 & N4).
  { intros a Ha. destruct (Hask a Ha) as (t & Ht & _). by exists t. }
  assert (Forall2 (more new) (tasks (spec h)) ts) as Hmore.
  { apply Forall2_same_length_lookup_2; [done|]. intros i t t' Ht Ht'.
    destruct (decide (i ∈ map as_place asked)) as [(a & -> & Ha)%list_elem_of_fmap|Hi].
    - destruct (Hgates a Ha) as [(t0 & gname & G1 & _ & G3 & G4)]. right.
      eexists. split; [exact G4|]. assert (t0 = t) as -> by congruence. split; [done|]. unfold waiting_too. cbn. congruence.
    - left. rewrite Hkept in Ht' by done. congruence. }
  assert (forall u, u ∈ new -> exists t ap m, t ∈ tasks (spec h) /\ u = gate (name u) t ap m /\ askable ap m) as Hnew.
  { intros u Hu. destruct (N4 u Hu) as (a & t & Ha & Ht & E). destruct (Hask a Ha) as (t0 & Ht0 & Haa).
    assert (t0 = t) as -> by congruence. eexists _, _, _. split_and!; [by eapply list_elem_of_lookup_2|exact E|done]. }
  assert (forall u, u ∈ new -> name u ∉ names (spec h)) as Hfresh.
  { intros u Hu. apply N3. by apply list_elem_of_fmap_2. }
  pose proof (gates_pass enterprise is_rfc3339 (spec h) Hc ts new Hmore Hnew N2 Hfresh Hplain
    ltac:(intros b max Hb Hmax; rewrite N1; by apply (Hroom b))) as Hpass.
  set (sp' := sp' (spec h) ts new) in *.
  assert (forall v, v ∈ tasks sp' -> NoDup (depends_on v)) as Hddv.
  { change (tasks sp') with (ts ++ new). intros v [Hv|Hv]%elem_of_app.
    - destruct (of_task (spec h) ts new Hmore v Hv) as (t & Ht & [->|(u & Hu & _ & ->)]); [by apply Hdd|].
      change (NoDup (depends_on t ++ [name u])). apply NoDup_app. split_and!; [by apply Hdd| |apply NoDup_singleton].
      intros d Hd ->%list_elem_of_singleton. apply (Hfresh u Hu).
      destruct (checked enterprise is_rfc3339 (spec h) Hc) as (_ & _ & Hdeps & _).
      destruct (Hdeps t _ Ht Hd) as (w & Hw & <- & _). by apply list_elem_of_fmap_2.
    - destruct (Hnew v Hv) as (t & ap & m & Ht & -> & _). by apply (Hdd t). }
  assert (one_dependency_each sp' = sp') as Hone.
  { unfold one_dependency_each. assert (map (fun t => t <| depends_on := retain_first ∅ (depends_on t) |>) (tasks sp') = tasks sp') as ->.
    - rewrite <- (map_id (tasks sp')) at 2. apply map_ext_in. intros t Ht%list_elem_of_In.
      rewrite retain_first_id by (first [by apply Hddv|intros; apply not_elem_of_empty]). by destruct t.
    - by destruct sp'. }
  unfold with_gates. rewrite Eg. cbn [app]. fold sp'. unfold Graph.from_spec.
  change ((spec h) <| tasks := ts ++ new |>) with sp'. rewrite Hone, Hpass. cbn [map_err].
  eexists. split; [done|]. cbn. by apply (checks_well_formed enterprise is_rfc3339).
Qed.

(** C24: a gate never costs a run that keeps inside its bounds.  A confined run of an accepted
    workflow that names nothing refused is made of a graph, and of a well-formed one: where
    its environments' policies can be read and are ones that may be stored, the gates'
    messages are no longer than an approval's, its cap is one and its key leaves room for
    the name of its kind, and its budget of tasks, if it has one, has room for a gate a
    task. *)
Theorem confined_made (sp : DagSpec) (g : DagGraph) load trigger :
  Graph.from_spec enterprise is_rfc3339 sp = Ok g ->
  Envpolicy.class_of trigger <> Envpolicy.TRUSTED ->
  ConfineFacts.harmless (Envpolicy.class_of trigger) (spec g) ->
  cap_fits (spec g) ->
  policy_fits load (Envpolicy.class_of trigger) (trigger ≫= Models.actor) g ->
  (forall b max, budget (spec g) = Some b -> bg_tasks b = Some max ->
     (planned_rows (tasks (spec g)) + N.of_nat (length (tasks (spec g))) <= max)%N) ->
  exists g', run_graph enterprise is_rfc3339 load g trigger = Ok g' /\ well_formed (spec g').
Proof.
  intros Hg Hcl Hharm Hcap Hpol Hroom. set (class := Envpolicy.class_of trigger) in *.
  assert (Graph.checks enterprise is_rfc3339 (spec g) = Ok tt /\ forall t, t ∈ tasks (spec g) -> NoDup (depends_on t)) as [Hc Hdd].
  { unfold Graph.from_spec in Hg. destruct (Graph.checks _ _ (one_dependency_each sp)) as [[]|] eqn:E; [|done].
    injection Hg as <-. split; [done|]. intros t. apply (GraphFacts.once_deps is_rfc3339). }
  pose proof (proj2 (ConfineFacts.confined_spec class) Hcl) as Hcon.
  unfold run_graph. fold class.
  destruct (Confine.held g class) as [[h|]|e] eqn:Eh;
    [|by apply ConfineFacts.held_none in Eh|by apply ConfineFacts.held_err in Eh as (_ & _ & ?)].
  destruct (held_checks g h class Hc Hcap Eh) as (Hch & Hts & Hbud & Henv & _). cbn [map_err]. change (default g (Some h)) with h.
  assert (forall t, t ∈ tasks (spec h) -> NoDup (depends_on t)) as Hddh.
  { rewrite Hts. intros t (u & -> & Hu)%list_elem_of_fmap. by apply (Hdd u). }
  unfold gated. fold class. rewrite Hcon. cbn [negb].
  destruct (ask_loads load class (dg_environment (spec h)) ∅ 0 (tasks (spec h))) as [asked Ea].
  { by intros e p ?%lookup_empty_Some. }
  { rewrite Hts, Henv. intros t e (u & -> & Hu)%list_elem_of_fmap He. destruct (Hpol u e Hu He) as (p & -> & _). done. }
  rewrite Ea. cbn [map_err]. apply ProtectedFacts.ask_spec in Ea as (Hnd & Ha & _); [|by intros e p ?%lookup_empty_Some].
  destruct asked as [|a0 asked0] eqn:Easked.
  { exists h. split; [done|]. by apply (checks_well_formed enterprise is_rfc3339). }
  rewrite <- Easked in *. clear Easked a0 asked0.
  destruct (gates_made h load class (trigger ≫= Models.actor) asked Hch Hddh Hnd) as (g' & -> & Hwf).
  - intros t Ht. rewrite Hts in Ht. apply list_elem_of_fmap in Ht as (u & -> & Hu). by destruct Hharm as [_ _ Ho]; destruct (Ho u Hu).
  - intros a Hx. destruct (Ha a Hx) as (_ & t & Ht & Hm). rewrite Nat.sub_0_r in Ht. exists t. split; [done|].
    destruct Hm as (_ & He & p & Hp & <- & _). apply list_elem_of_lookup_2 in Ht. rewrite Hts in Ht.
    apply list_elem_of_fmap in Ht as (u & -> & Hu). rewrite Henv in He. destruct (Hpol u (as_env a) Hu He) as (p' & Hp' & Hask).
    assert (p' = p) as -> by congruence. exact Hask.
  - intros b max Hb Hmax. rewrite Hbud in Hb. specialize (Hroom b max Hb Hmax).
    destruct (withheld_lists (tasks (spec g))) as (_ & _ & Hrows & _).
    unfold planned_rows in *. rewrite Hts, Hrows.
    assert (length asked <= length (tasks (spec g))); [|lia].
    rewrite <- (length_map as_place asked), <- (length_map withhold (tasks (spec g))), <- Hts, <- (length_seq (length (tasks (spec h))) 0).
    apply submseteq_length, NoDup_submseteq; [done|]. intros k (a & -> & Hx)%list_elem_of_fmap.
    destruct (Ha a Hx) as (_ & t & Ht & _). rewrite Nat.sub_0_r in Ht. apply elem_of_seq. apply lookup_lt_Some in Ht. lia.
  - cbn [map_err]. by exists g'.
Qed.
End held.
End GatesAccepted.
