(* ===== verification/ConfineWitnesses.v ===== *)
(** * Confined runs, on concrete workflows ([Confine], [Protected])

    An agent's run that deploys to a protected environment: its gate, and the wait for it;
    the same with a task that runs whatever became of what it depends on, which a rejection
    does not stop, and with a task retried after a cancel, which no gate stops; and a run
    that is refused for the gates alone. *)

From S2P Require Import Tables Stops Scheduler Parks Runs Ops Invariant Create Reach Life LifeWitnesses Sample Graph GraphFacts GraphRuns.
From S2P Require Import Models Envpolicy Confine ConfineFacts Protected ProtectedFacts GatesAccepted.
From coqutil Require Import Datatypes.RecordSettersUsingExistingGetters.

Module ConfineWitnesses.

Import Models Invariant Sample GraphWitnesses Protected ProtectedFacts.

#[local] Existing Instance GraphFacts.kahn.

(** ** An agent's run *)

Definition agent : RunTrigger :=
  {| kind := $"api"; principal := $"agent:fixer"; actor := Some $"agent:fixer"; trust := Some Envpolicy.AGENT;
     source := None; forge_host := None; repo := None; git_ref := None; sha := None; base_sha := None;
     pr := None; event_id := None |}.
Definition agents : Runs.request :=
  {| Runs.yaml_spec := $"name: flow"; Runs.offset := None; Runs.dead_letter := None;
     Runs.rq_triggered_by := None; Runs.trigger := Some agent; Runs.claim := None; Runs.own := None |}.

Definition prod_policy : Envpolicy.EnvironmentPolicy :=
  {| Envpolicy.allowed_trust := [Envpolicy.TRUSTED; Envpolicy.AGENT]; Envpolicy.allowed_refs := None;
     Envpolicy.allowed_pipelines := None; Envpolicy.allowed_identity := []; Envpolicy.approvers := [$"group:release"] |}.
Definition load (env : str) : result str (option Envpolicy.EnvironmentPolicy) :=
  Ok (if bool_decide (env = $"prod") then Some prod_policy else None).

Definition deploy : Spec.TaskSpec Z :=
  (cmd "deploy" []) <| Spec.environment := Some $"prod" |> <| Spec.cache := Some {| Spec.cache_key := $"k"; Spec.max_age_secs := None |} |>.
Definition flow_of (t : Spec.TaskSpec Z) : Spec.DagGraph Z :=
  {| Spec.spec := flow [t]; Spec.graph_parameters := ∅ |}.

Definition graph_of (t : Spec.TaskSpec Z) : result create_failed (Spec.DagGraph Z) :=
  run_graph false (fun _ => true) load (flow_of t) (Some agent).
Definition made_of (t : Spec.TaskSpec Z) : store :=
  match create_run false (fun _ => true) load uuid (flow_of t) agents 0 None 0%Z empty_store with
  | Ok (s, _) => s
  | Err _ => empty_store
  end.

Lemma fresh_empty run_id : Create.fresh_run run_id empty_store.
Proof. intros id r H. done. Qed.

(** The run of a task that is made, is one step from nothing. *)
Lemma made_of_reachable t :
  is_ok (create_run false (fun _ => true) load uuid (flow_of t) agents 0 None 0%Z empty_store) = true ->
  Reach.reachable (made_of t).
Proof.
  unfold made_of, create_run. destruct (Runs.check_disk_floor 0 None) as [[]|]; [|done]. cbn [map_err].
  destruct (run_graph (W := world) _ _ load (flow_of t) (Runs.trigger agents)) as [g|]; [|done].
  destruct (Runs.create_run_full (W := world) uuid g agents 0 None 0%Z empty_store) as [[s id]|] eqn:E; [|done].
  intros _. eapply rtc_once, Reach.create_run; [apply fresh_empty|exact E].
Qed.

(** What is made of it: the cache is withheld, and the gate is there. *)
Example deploy_gated :
  match graph_of deploy with
  | Ok g => map (fun t => (Spec.name t, Spec.depends_on t, Spec.pool t, Spec.approvers t, bool_decide (Spec.cache t = None)))
              (Spec.tasks (Spec.spec g))
            = [($"deploy", [$"deploy.environment"], Some $"untrusted", [], true);
               ($"deploy.environment", [], None, [$"group:release"], true)]
  | Err _ => False
  end.
Proof. by vm_compute. Qed.

(** ** A rejection that stops nothing *)

(** A task that runs when all it depends on is over, however it ended. *)
Definition always : Spec.TaskSpec Z := deploy <| Spec.trigger_rule := Some $"all_done" |>.

Definition a0 : store := made_of always.
Definition a1 : store := fst (Scheduler.advance_ready_tasks 1%Z a0).
Definition a2 : store := fst (Parks.resolve_approval $"u1" $"u3" false (Some $"lead") None 2%Z a1).
Definition a3 : store := fst (Scheduler.advance_ready_tasks 3%Z a2).
Definition a4 : store := fst (Scheduler.claim_ready_filtered $"w" 10 [] ∅ false 4%Z a3).

Lemma a0_made : create_run false (fun _ => true) load uuid (flow_of always) agents 0 None 0%Z empty_store = Ok (a0, $"u1").
Proof. vm_compute. reflexivity. Qed.

Lemma a4_steps : Reach.steps a0 a4.
Proof.
  unfold a4, a3, a2, a1. eapply rtc_r; [|apply Reach.claim]. eapply rtc_r; [|apply Reach.advance].
  eapply rtc_r; [|apply Reach.approve]. apply rtc_once, Reach.advance.
Qed.

(** A rejected gate does not stop its task.  An agent writes [trigger_rule: all_done] on a
    task that uses a protected environment, which no list refuses it.  Its gate is made and
    asks; an approver rejects it; and the task becomes ready all the same and is claimed by
    a worker, to run in the environment. *)
Theorem rejection_ignored :
  create_run false (fun _ => true) load uuid (flow_of always) agents 0 None 0%Z empty_store = Ok (a0, $"u1")
  /\ Reach.steps a0 a4
  /\ (fun r => (T.name r, T.status r, T.decided_by r)) <$> task_runs a4 !! $"u3"
     = Some ($"deploy.environment", Failed, Some $"lead")
  /\ (fun r => (T.name r, T.status r, T.claimed_by r)) <$> task_runs a4 !! $"u2"
     = Some ($"deploy", Running, Some $"w").
Proof. split; [exact a0_made|]. split; [exact a4_steps|]. split; by vm_compute. Qed.

(** ** The wait for an approval *)

Definition d0 : store := made_of deploy.
Definition d1 : store := fst (Scheduler.advance_ready_tasks 1%Z d0).
Definition d2 : store := fst (Parks.resolve_approval $"u1" $"u3" true (Some $"lead") None 2%Z d1).
Definition d3 : store := fst (Scheduler.advance_ready_tasks 3%Z d2).
Definition d4 : store := fst (Scheduler.claim_ready_filtered $"w" 10 [] ∅ false 4%Z d3).

Lemma d0_made : create_run false (fun _ => true) load uuid (flow_of deploy) agents 0 None 0%Z empty_store = Ok (d0, $"u1").
Proof. vm_compute. reflexivity. Qed.

Lemma d4_steps : Reach.steps d0 d4.
Proof.
  unfold d4, d3, d2, d1. eapply rtc_r; [|apply Reach.claim]. eapply rtc_r; [|apply Reach.advance].
  eapply rtc_r; [|apply Reach.approve]. apply rtc_once, Reach.advance.
Qed.

Lemma d4_lives : Life.lives (∅, d0) (∅, d4).
Proof.
  unfold d4, d3, d2, d1. eapply rtc_r; [|apply Life.go, Reach.claim]. eapply rtc_r; [|apply Life.go, Reach.advance].
  eapply rtc_r; [|apply Life.go, Reach.approve]. apply rtc_once, Life.go, Reach.advance.
Qed.

(** Before the approval nothing of it is claimed. *)
Example unapproved_waits :
  (fun r => T.status r) <$> task_runs (fst (Scheduler.claim_ready_filtered $"w" 10 [] ∅ false 4%Z
     (fst (Scheduler.advance_ready_tasks 3%Z d1)))) !! $"u2" = Some Pending.
Proof. by vm_compute. Qed.

Definition deploys (r : T.task_run) : bool := bool_decide (T.run_id r = $"u1") && bool_decide (T.name r = $"deploy").
Definition runs (r : T.task_run) : bool := started r && is_status Running r.

Lemma deploy_rows : exists r0 r,
  task_runs d0 !! $"u2" = Some r0 /\ T.run_id r0 = $"u1" /\ T.name r0 = $"deploy"
  /\ task_runs d4 !! $"u2" = Some r /\ started r = true /\ T.status r = Running.
Proof.
  destruct (LifeWitnesses.row_at d0 $"u2" deploys
              ltac:(vm_compute; reflexivity)) as (r0 & H0 & [Ha Hb]%andb_true_iff).
  destruct (LifeWitnesses.row_at d4 $"u2" runs
              ltac:(vm_compute; reflexivity)) as (r & H4 & [Hc Hd]%andb_true_iff).
  apply bool_decide_eq_true in Ha, Hb. apply is_status_true in Hd.
  exact (ex_intro _ r0 (ex_intro _ r (conj H0 (conj Ha (conj Hb (conj H4 (conj Hc Hd))))))).
Qed.

Lemma deploy_in : deploy ∈ Spec.tasks (Spec.spec (flow_of deploy)).
Proof. by left. Qed.

Lemma agent_untrusted : Envpolicy.class_of (Some agent) <> Envpolicy.TRUSTED.
Proof. by vm_compute. Qed.

(** The same run, cancelled while its gate asks; then its task is retried, and claimed. *)
Definition d2' : store := fst (Stops.cancel_run $"u1" 2%Z d1).
Definition d3' : store :=
  match Ops.retry_task_from_ui_by $"u2" None 3%Z d2' with Ok (s, _) => s | Err _ => d2' end.
Definition d4' : store := fst (Scheduler.claim_ready_filtered $"w" 10 [] ∅ false 4%Z d3').

(** A retry goes round the gate.  [retry_task_from_ui_by] makes a cancelled task ready,
    whatever its dependencies: a task that uses a protected environment, of a run cancelled
    while its gate was asking, is then claimed by a worker though nobody approved. *)
Theorem retry_skips_gate :
  Reach.steps d0 d2'
  /\ Ops.retry_task_from_ui_by $"u2" None 3%Z d2' = Ok (d3', true)
  /\ (fun r => (T.name r, T.status r, T.decided_by r)) <$> task_runs d4' !! $"u3"
     = Some ($"deploy.environment", Cancelled, None)
  /\ (fun r => (T.name r, T.status r, T.claimed_by r)) <$> task_runs d4' !! $"u2"
     = Some ($"deploy", Running, Some $"w").
Proof.
  split; [|split; [by vm_compute|split; by vm_compute]].
  unfold d2', d1. eapply rtc_r; [|apply Reach.cancel]. apply rtc_once, Reach.advance.
Qed.

(** ** Witnesses *)

Lemma protected_waits_witness : exists gid gr, task_runs d4 !! gid = Some gr /\ T.status gr = Succeeded.
Proof.
  destruct deploy_rows as (r0 & r & H0 & H1 & H2 & H3 & H4 & _).
  destruct (protected_waits (W := world) false (fun _ => true) load uuid (flow_of deploy) agents 0 None 0%Z ∅ empty_store d0 $"u1"
              deploy $"prod" prod_policy ∅ d4 $"u2" r0 r (rtc_refl _ _) (fresh_empty _) d0_made agent_untrusted
              deploy_in eq_refl eq_refl ltac:(discriminate) (or_introl eq_refl) H0 H1 H2
              d4_lives (not_elem_of_empty _) H3 H4)
    as (u & gid & gr0 & gr & _ & _ & _ & _ & _ & _ & H5 & H6).
  exact (ex_intro _ gid (ex_intro _ gr (conj H5 H6))).
Defined.

Definition deployed : Spec.DagGraph Z := match graph_of deploy with Ok g => g | Err _ => flow_of deploy end.

Lemma deploy_graph : graph_of deploy = Ok deployed.
Proof. vm_compute. reflexivity. Qed.

Lemma protected_gated_witness :
  exists t' u, t' ∈ Spec.tasks (Spec.spec deployed) /\ u ∈ Spec.tasks (Spec.spec deployed)
    /\ gate_before (flow_of deploy) deploy t' u [$"group:release"].
Proof.
  exact (protected_gated (W := world) false (fun _ => true) load (flow_of deploy) deployed (Some agent) deploy $"prod" prod_policy
           deploy_graph agent_untrusted deploy_in eq_refl eq_refl ltac:(discriminate)).
Defined.

Lemma deploy_accepted : Graph.from_spec false (fun _ => true) (flow [deploy]) = Ok (flow_of deploy).
Proof. vm_compute. reflexivity. Qed.

Lemma deploy_harmless : ConfineFacts.harmless (Envpolicy.class_of (Some agent)) (flow [deploy]).
Proof. apply ConfineFacts.refusal_none. by vm_compute. Qed.

Lemma deploy_policies :
  GatesAccepted.policy_fits load (Envpolicy.class_of (Some agent)) (Some agent ≫= actor) (flow_of deploy).
Proof.
  intros t e Ht He. apply list_elem_of_singleton in Ht as ->. injection He as <-.
  eexists. split; [reflexivity|]. split; [by vm_compute; lia|by repeat constructor|]. apply Nat.leb_le. by vm_compute.
Qed.

Lemma confined_made_witness : exists g',
  run_graph false (fun _ => true) load (flow_of deploy) (Some agent) = Ok g' /\ GraphFacts.well_formed (Spec.spec g').
Proof.
  exact (GatesAccepted.confined_made (W := world) false (fun _ => true) (flow [deploy]) (flow_of deploy) load (Some agent) deploy_accepted agent_untrusted
           deploy_harmless ltac:(intros m H; discriminate H) deploy_policies ltac:(intros b m H; discriminate H)).
Defined.

(** ** A run that its gates alone refuse *)

(** A key of the length a workflow may give it. *)
Definition long_key : str := repeat "k"%char 195.
Definition keyed (t : Spec.TaskSpec Z) : Spec.DagSpec Z :=
  (flow [t]) <| Spec.max_active_runs := Some 2%N |> <| Spec.concurrency_key := Some long_key |>.
Definition keyed_graph (t : Spec.TaskSpec Z) : Spec.DagGraph Z := {| Spec.spec := keyed t; Spec.graph_parameters := ∅ |}.

(** A key that is accepted is too long once it is a confined run's: where a gate has the graph
    checked again the run is refused for it, and where none does the run is made. *)
Theorem held_key_refused :
  Graph.from_spec false (fun _ => true) (keyed deploy) = Ok (keyed_graph deploy)
  /\ run_graph false (fun _ => true) load (keyed_graph deploy) (Some agent) = Err (NotGated (NotMade Graph.KeyLong))
  /\ is_ok (run_graph false (fun _ => true) load (keyed_graph (cmd "test" [])) (Some agent)) = true.
Proof. split_and!; vm_compute; reflexivity. Qed.
End ConfineWitnesses.
