(* ===== verification/Cron.v ===== *)
(** * The crons of a schedule ([dagron-ci/src/cron.rs])

    Five fields, read into the sets of values they name; the minutes a cron fires at, by the
    civil calendar; and the search for the next of them.  Seconds are [i64] in the code and
    [Z] here: [CronFacts] shows how far from the ends a clock has to be for none of the sums
    to leave the type.  Of a refusal its kind and what it names are kept, not its wording. *)

From S2P Require Import Prelude.

Module Cron.

Local Open Scope Z_scope.

(** The shortest time between two fires. *)
Definition SHORTEST : Z := 5 * 60.

Record Cron := {
  minutes : list bool;
  hours : list bool;
  days : list bool;
  months : list bool;
  weekdays : list bool;
  days_restricted : bool;
  weekdays_restricted : bool;
}.
Add Printing Constructor Cron.

Inductive CronError :=
| HasFields (n : nat)
| EmptyItem (what : str)
| NoStep (what step : str)
| NotANumber (what part : str)
| NotBetween (what : str) (n low high : N)
| Backwards (what range : str).

Definition MONTHS : list str :=
  [$"JAN"; $"FEB"; $"MAR"; $"APR"; $"MAY"; $"JUN"; $"JUL"; $"AUG"; $"SEP"; $"OCT"; $"NOV"; $"DEC"].
Definition WEEKDAYS : list str := [$"SUN"; $"MON"; $"TUE"; $"WED"; $"THU"; $"FRI"; $"SAT"].

(** ** One field *)

Section field.
Variables (low high : N) (names : list str) (what : str).

(** The place of the first name that is [part] in any case. *)
Fixpoint named (i : N) (names : list str) (part : str) : option N :=
  match names with
  | [] => None
  | n :: names => if eq_ignore_case n part then Some i else named (i + 1)%N names part
  end.

Definition value (part : str) : result CronError N :=
  match named 0 names part with
  | Some at' => Ok (at' + (if bool_decide (what = $"month") then 1 else 0))%N
  | None =>
      match parse_u32 part with
      | None => Err (NotANumber what part)
      | Some n => if (n <? low)%N || (high <? n)%N then Err (NotBetween what n low high) else Ok n
      end
  end.

(** The loop that sets every [step]th value from [v] up to [last]. *)
Fixpoint mark (fuel : nat) (v last step : N) (set : list bool) : list bool :=
  match fuel with
  | O => set
  | S fuel =>
      if (v <=? last)%N then
        let set := <[N.to_nat v := true]> set in
        if (v + step <=? U32_MAX)%N then mark fuel (v + step)%N last step set else set
      else set
  end.
Definition marked (v last step : N) (set : list bool) : list bool :=
  mark (S (N.to_nat (last - v))) v last step set.

Definition item_step (item : str) : result CronError (str * N) :=
  match split_once $"/" item with
  | Some (range, step) =>
      match parse_u32 step with
      | Some s => if (0 <? s)%N then Ok (range, s) else Err (NoStep what step)
      | None => Err (NoStep what step)
      end
  | None => Ok (item, 1%N)
  end.
Definition item_range (item range : str) : result CronError (N * N) :=
  if bool_decide (range = $"*") then Ok (low, high)
  else
    match split_once $"-" range with
    | Some (a, b) =>
        let? a := value a in
        let? b := value b in
        if (b <? a)%N then Err (Backwards what range) else Ok (a, b)
    | None =>
        let? a := value range in
        Ok (a, if contains_char "/" item then high else a)
    end.
Definition field_item (item : str) (set : list bool) : result CronError (list bool) :=
  if bool_decide (item = []) then Err (EmptyItem what)
  else
    let? rs := item_step item in
    let? ft := item_range item rs.1 in
    Ok (marked ft.1 ft.2 rs.2 set).
Fixpoint field_items (items : list str) (set : list bool) : result CronError (list bool) :=
  match items with
  | [] => Ok set
  | item :: items => let? set := field_item item set in field_items items set
  end.
Definition field (text : str) (set : list bool) : result CronError (list bool) :=
  field_items (split_char "," text) set.

End field.

(** ** Five of them *)

(** The eight days of a week that may be named, Sunday as 0 and as 7, into the seven. *)
Fixpoint fold_weekdays (d : nat) (eight seven : list bool) : list bool :=
  match eight with
  | [] => seven
  | on :: eight => fold_weekdays (S d) eight (if on then <[(d mod 7)%nat := true]> seven else seven)
  end.

Definition parse (text : str) : result CronError Cron :=
  match split_whitespace text with
  | [minute; hour; day; month; weekday] =>
      let? mi := field 0 59 [] $"minute" minute (replicate 60 false) in
      let? ho := field 0 23 [] $"hour" hour (replicate 24 false) in
      let? da := field 1 31 [] $"day of the month" day (replicate 32 false) in
      let? mo := field 1 12 MONTHS $"month" month (replicate 13 false) in
      let? we := field 0 7 WEEKDAYS $"day of the week" weekday (replicate 8 false) in
      Ok {| minutes := mi; hours := ho; days := da; months := mo;
            weekdays := fold_weekdays 0 we (replicate 7 false);
            days_restricted := negb (starts_with $"*" day);
            weekdays_restricted := negb (starts_with $"*" weekday) |}
  | fields => Err (HasFields (length fields))
  end.

(** ** The calendar *)

(** The year, the month and the day of [days] since 1970-01-01. *)
Definition civil (days : Z) : Z * Z * Z :=
  let z := days + 719468 in
  let era := z / 146097 in
  let doe := z mod 146097 in
  let yoe := (doe - doe / 1460 + doe / 36524 - doe / 146096) / 365 in
  let y := yoe + era * 400 in
  let doy := doe - (365 * yoe + yoe / 4 - yoe / 100) in
  let mp := (5 * doy + 2) / 153 in
  let d := doy - (153 * mp + 2) / 5 + 1 in
  let m := if mp <? 10 then mp + 3 else mp - 9 in
  (if m <=? 2 then y + 1 else y, m, d).

(** [set[i]], of an index in the array. *)
Definition on (set : list bool) (i : Z) : bool := nth (Z.to_nat i) set false.

Definition weekday (days : Z) : Z := (days + 4) mod 7.
Definition day_ok (c : Cron) (d : Z) : bool :=
  let '(_, _, day) := civil d in
  match days_restricted c, weekdays_restricted c with
  | true, true => on (days c) day || on (weekdays c) (weekday d)
  | true, false => on (days c) day
  | false, true => on (weekdays c) (weekday d)
  | false, false => true
  end.
Definition month_ok (c : Cron) (d : Z) : bool :=
  let '(_, month, _) := civil d in on (months c) month.

Definition fires_at (c : Cron) (secs : Z) : bool :=
  let d := secs / 86400 in
  let in_day := secs mod 86400 in
  day_ok c d && month_ok c d
  && on (hours c) (in_day / 3600) && on (minutes c) ((in_day mod 3600) / 60).

(** ** The next minute *)

(** A loop of at most [n] rounds that may end in any of them. *)
Fixpoint rounds {A B} (n : positive) (f : A -> A + B) (x : A + B) : A + B :=
  match x with
  | inr _ => x
  | inl a =>
      match n with
      | xH => f a
      | xO n => rounds n f (rounds n f x)
      | xI n => rounds n f (rounds n f (f a))
      end
  end.

(** One round of [next]'s loop. *)
Definition next_round (c : Cron) (stop t : Z) : Z + option Z :=
  if t <? stop then
    let d := t / 86400 in
    if negb (day_ok c d) || negb (month_ok c d) then inl ((d + 1) * 86400)
    else if fires_at c t then inr (Some t)
    else inl (t + 60)
  else inr None.

Definition FIVE_YEARS : Z := 5 * 366 * 86400.
(** A round passes a minute at least. *)
Definition NEXT_ROUNDS : positive := 2635201.

Definition next_from (after : Z) (last : option Z) : Z :=
  match last with Some last => Z.max after (last + SHORTEST - 1) | None => after end.
Definition next (c : Cron) (after : Z) (last : option Z) : option Z :=
  let t := next_from after last / 60 * 60 + 60 in
  match rounds NEXT_ROUNDS (next_round c (t + FIVE_YEARS)) (inl t) with
  | inr found => found
  | inl _ => None
  end.

End Cron.

(** The code's own tests. *)
Module CronTests.

Import Cron.
Local Open Scope Z_scope.

Definition SAT : Z := 1792195200.
Definition first (text : str) (after : Z) (last : option Z) : option Z :=
  let* c := result_ok (parse text) in next c after last.

Example the_calendar : (civil 0, civil (SAT / 86400), civil 11016)
  = ((1970, 1, 1), (2026, 10, 17), (2000, 2, 29)).
Proof. reflexivity. Qed.

Example every_15 : first $"*/15 * * * *" SAT None = Some (SAT + 15 * 60).
Proof. vm_compute. reflexivity. Qed.
Example weekdays_at_nine : first $"0 9 * * MON-FRI" SAT None = Some (SAT + 2 * 86400 + 9 * 3600).
Proof. vm_compute. reflexivity. Qed.
Example sunday_is_seven : parse $"30 2 * * 7" = parse $"30 2 * * 0".
Proof. vm_compute. reflexivity. Qed.
Example either_day : first $"0 0 1 * 1" SAT None = Some (SAT + 2 * 86400).
Proof. vm_compute. reflexivity. Qed.
Example past_any_number : parse $"5/4294967295 * * * *" = parse $"5 * * * *".
Proof. vm_compute. reflexivity. Qed.
Example new_year : first $"0 0 1 1 *" SAT None = Some 1798761600.
Proof. vm_compute. reflexivity. Qed.
Example five_minutes : first $"* * * * *" (SAT + 60) (Some (SAT + 60)) = Some (SAT + 6 * 60).
Proof. vm_compute. reflexivity. Qed.
Example never : first $"0 0 31 2 *" SAT None = None.
Proof. vm_compute. reflexivity. Qed.
Example why_not : map (fun t => parse t)
    [$"* * * *"; $"60 * * * *"; $"* * * 13 *"; $"*/0 * * * *"; $"5-1 * * * *"; $"x * * * *"; $"1,,2 * * * *"]
  = [Err (HasFields 4); Err (NotBetween $"minute" 60 0 59); Err (NotBetween $"month" 13 1 12);
     Err (NoStep $"minute" $"0"); Err (Backwards $"minute" $"5-1"); Err (NotANumber $"minute" $"x");
     Err (EmptyItem $"minute")].
Proof. vm_compute. reflexivity. Qed.

End CronTests.
