(* ===== verification/CronFacts.v ===== *)
(** * What a cron says

    The calendar its days are told by is the Gregorian one; a field is the values its items
    cover; and the minute the search finds is the first of those it may find.

    ** What a cron's fields say

    A field's text is items, an item one of three shapes; the field is read exactly where
    every piece of it has one, into the values they cover.  The five together: when a cron
    that was read fires. *)

From S2P Require Import Prelude Cron SpecFacts.

Module CronFacts.

Import Cron.

Local Open Scope Z_scope.

(** ** The calendar, as one reads it *)

Definition leap (y : Z) : bool := (y mod 4 =? 0) && (negb (y mod 100 =? 0) || (y mod 400 =? 0)).
Definition month_length (leap : bool) (m : Z) : Z :=
  if m =? 2 then if leap then 29 else 28
  else if (m =? 4) || (m =? 6) || (m =? 9) || (m =? 11) then 30 else 31.
Definition tomorrow (date : Z * Z * Z) : Z * Z * Z :=
  let '(y, m, d) := date in
  if d <? month_length (leap y) m then (y, m, d + 1)
  else if m <? 12 then (y, m + 1, 1) else (y + 1, 1, 1).

(** ** The civil date of a day

    An era is 400 years from the first of March; a year of it is told by where it starts. *)

Definition year_of (doe : Z) : Z := (doe - doe / 1460 + doe / 36524 - doe / 146096) / 365.
Definition year_start (y : Z) : Z := 365 * y + y / 4 - y / 100 + y / 400.
Definition month_of (doy : Z) : Z := let mp := (5 * doy + 2) / 153 in if mp <? 10 then mp + 3 else mp - 9.
Definition day_of (doy : Z) : Z := let mp := (5 * doy + 2) / 153 in doy - (153 * mp + 2) / 5 + 1.

Ltac divide := Z.div_mod_to_equations; lia.

Lemma year_of_within doe : 0 <= doe < 146097 ->
  0 <= year_of doe < 400 /\ year_start (year_of doe) <= doe < year_start (year_of doe + 1).
Proof. intros H. unfold year_of, year_start. split; [divide|]. split; divide. Qed.

Lemma year_of_start y doe :
  0 <= y < 400 -> year_start y <= doe < year_start (y + 1) -> year_of doe = y.
Proof. intros Hy H. unfold year_of, year_start in *. divide. Qed.

Lemma year_length y :
  year_start (y + 1) - year_start y = if leap (y + 1) then 366 else 365.
Proof.
  unfold year_start, leap.
  destruct (Z.eqb_spec ((y + 1) mod 4) 0), (Z.eqb_spec ((y + 1) mod 100) 0),
    (Z.eqb_spec ((y + 1) mod 400) 0); cbn [andb orb negb]; divide.
Qed.

Lemma leap_era y k : leap (y + k * 400) = leap y.
Proof.
  unfold leap. replace (y + k * 400) with (y + (k * 100) * 4) by lia. rewrite Z_mod_plus_full.
  replace (y + k * 100 * 4) with (y + (k * 4) * 100) by lia. rewrite Z_mod_plus_full.
  replace (y + k * 4 * 100) with (y + k * 400) by lia. by rewrite Z_mod_plus_full.
Qed.

(** The date of day [doy] of the year that starts in March of year [y]. *)
Definition in_year (y doy : Z) : Z * Z * Z :=
  let m := month_of doy in (if m <=? 2 then y + 1 else y, m, day_of doy).

Lemma civil_in_year y doy days :
  0 <= doy < year_start (y + 1) - year_start y -> days + 719468 = year_start y + doy ->
  civil days = in_year y doy.
Proof.
  intros Hd Hz. set (k := y / 400). set (r := y mod 400).
  assert (Hy : y = r + k * 400) by (subst k r; divide).
  assert (Hr : 0 <= r < 400) by (subst r; divide).
  assert (Hs : forall i, year_start (i + k * 400) = year_start i + k * 146097)
    by (intros i; unfold year_start; divide).
  assert (Hn : year_start (y + 1) = year_start (r + 1) + k * 146097) by (rewrite <- Hs; f_equal; lia).
  rewrite Hy, Hs, <- Hy, Hn in *.
  assert (Hw : 0 <= year_start r /\ year_start (r + 1) <= 146097) by (unfold year_start; split; divide).
  assert (He : (days + 719468) / 146097 = k) by (rewrite Hz; divide).
  assert (Hm : (days + 719468) mod 146097 = year_start r + doy) by (rewrite Hz; divide).
  unfold civil. rewrite He, Hm. change ((year_start r + doy - (year_start r + doy) / 1460
    + (year_start r + doy) / 36524 - (year_start r + doy) / 146096) / 365) with (year_of (year_start r + doy)).
  rewrite (year_of_start r) by lia.
  replace (year_start r + doy - (365 * r + r / 4 - r / 100)) with doy by (unfold year_start; divide).
  unfold in_year, month_of, day_of. by rewrite Hy.
Qed.

(** Every day is one of a year. *)
Lemma some_year days :
  exists y doy, 0 <= doy < year_start (y + 1) - year_start y /\ days + 719468 = year_start y + doy.
Proof.
  set (z := days + 719468). set (k := z / 146097). set (doe := z mod 146097).
  assert (Hd : 0 <= doe < 146097) by (subst doe; divide).
  destruct (year_of_within doe Hd) as [Hy Hw].
  assert (Hs : forall i, year_start (i + k * 400) = year_start i + k * 146097)
    by (intros i; unfold year_start; divide).
  exists (year_of doe + k * 400), (doe - year_start (year_of doe)).
  replace (year_of doe + k * 400 + 1) with (year_of doe + 1 + k * 400) by lia. rewrite !Hs.
  assert (z = k * 146097 + doe) by (subst k doe; divide). split; lia.
Qed.

(** The days of one year, one after the other: only the last of February asks whether the
    year is a leap year. *)
Definition follows (l : bool) (doy : Z) : bool :=
  let '(y, m, d) := in_year 0 doy in
  bool_decide (in_year 0 (doy + 1) =
    (if d <? month_length l m then (y, m, d + 1) else if m <? 12 then (y, m + 1, 1) else (y + 1, 1, 1))).
Lemma follows_all l : forallb (follows l) (map Z.of_nat (seq 0 (if l then 365%nat else 364%nat))) = true.
Proof. by destruct l; vm_compute. Qed.
Lemma follows_at (l : bool) (doy : Z) : 0 <= doy < (if l then 365 else 364)%Z -> follows l doy = true.
Proof.
  intros H. pose proof (follows_all l) as Ha. rewrite forallb_forall in Ha. apply Ha.
  apply in_map_iff. exists (Z.to_nat doy). split; [lia|]. apply in_seq. destruct l; lia.
Qed.

Lemma in_year_from y doy :
  in_year y doy = let '(o, m, d) := in_year 0 doy in (y + o, m, d).
Proof. unfold in_year. by destruct (month_of doy <=? 2); f_equal; f_equal; lia. Qed.

Lemma in_year_next y doy :
  0 <= doy -> doy + 1 < year_start (y + 1) - year_start y ->
  in_year y (doy + 1) = tomorrow (in_year y doy).
Proof.
  intros H0 H1. rewrite year_length in H1.
  assert (Hf : follows (leap (y + 1)) doy = true)
    by (apply follows_at; destruct (leap (y + 1)); lia).
  unfold follows in Hf. rewrite (in_year_from y (doy + 1)), (in_year_from y doy).
  assert (Hm : forall o m d, in_year 0 doy = (o, m, d) -> m = 2 -> o = 1).
  { unfold in_year. intros o m d [= <- <- <-] ->. done. }
  destruct (in_year 0 doy) as [[o m] d]. apply bool_decide_eq_true in Hf as ->.
  assert (Hl : month_length (leap (y + o)) m = month_length (leap (y + 1)) m).
  { unfold month_length. destruct (Z.eqb_spec m 2) as [E|]; [|done]. by rewrite (Hm _ _ _ eq_refl E). }
  unfold tomorrow. rewrite Hl.
  destruct (d <? month_length (leap (y + 1)) m), (m <? 12); by rewrite ?Z.add_assoc.
Qed.

Lemma in_year_last y :
  in_year (y + 1) 0 = tomorrow (in_year y (year_start (y + 1) - year_start y - 1)).
Proof.
  rewrite year_length, (in_year_from (y + 1)), (in_year_from y).
  change (in_year 0 0) with (0, 3, 1). destruct (leap (y + 1)) eqn:E.
  - change (in_year 0 (366 - 1)) with (1, 2, 29). unfold tomorrow. rewrite E. cbn. f_equal; f_equal; lia.
  - change (in_year 0 (365 - 1)) with (1, 2, 28). unfold tomorrow. rewrite E. cbn. f_equal; f_equal; lia.
Qed.

(** C30: [civil] is the Gregorian calendar: day 0 is the first of January 1970, and the date
    of the day after any day, before the epoch or after it, is the one that follows its date:
    a month has its length, February a day more in a leap year, and January opens the year. *)
Theorem civil_calendar :
  civil 0 = (1970, 1, 1) /\ forall days, civil (days + 1) = tomorrow (civil days).
Proof.
  split; [done|]. intros days. destruct (some_year days) as (y & doy & Hd & Hz).
  rewrite (civil_in_year y doy days) by done.
  destruct (decide (doy + 1 < year_start (y + 1) - year_start y)) as [Hl|Hl].
  - rewrite (civil_in_year y (doy + 1)) by lia. apply in_year_next; lia.
  - rewrite (civil_in_year (y + 1) 0) by (pose proof (year_length (y + 1)); destruct (leap (y + 1 + 1)); lia).
    replace doy with (year_start (y + 1) - year_start y - 1) by lia. apply in_year_last.
Qed.

Lemma civil_in_range days :
  let '(_, m, d) := civil days in 1 <= m <= 12 /\ 1 <= d <= 31.
Proof.
  destruct (some_year days) as (y & doy & Hd & Hz). rewrite (civil_in_year y doy days) by done.
  unfold in_year. rewrite year_length in Hd.
  assert (0 <= doy < 366) by (destruct (leap (y + 1)); lia).
  unfold month_of, day_of. destruct (Z.ltb_spec ((5 * doy + 2) / 153) 10); split; divide.
Qed.

(** ** A loop of so many rounds *)

Definition one_more {A B} (f : A -> A + B) (x : A + B) : A + B :=
  match x with inl a => f a | inr b => inr b end.
Lemma rounds_iter {A B} n (f : A -> A + B) x : rounds n f x = Pos.iter (one_more f) x n.
Proof.
  assert (He : forall n b, Pos.iter (one_more f) (inr b) n = inr b).
  { clear. intros n b. induction n as [|n IH] using Pos.peano_ind; [done|].
    by rewrite Pos.iter_succ, IH. }
  revert x. induction n as [n IH|n IH|]; intros [a|b]; cbn [rounds Pos.iter]; rewrite ?He; try done.
  - rewrite !IH, <- !Pos.iter_swap. done.
  - by rewrite !IH.
Qed.

(** One that spends of [mu] in every round ends, with what its last round says. *)
Lemma rounds_end {A B} (f : A -> A + B) (P : A -> Prop) (Q : B -> Prop) (mu : A -> Z) :
  (forall a, P a -> match f a with inl a' => P a' /\ 0 <= mu a' < mu a | inr b => Q b end) ->
  forall n a, P a -> mu a < Z.pos n -> exists b, rounds n f (inl a) = inr b /\ Q b.
Proof.
  intros Hf. induction n as [|n IH] using Pos.peano_ind; intros a Ha Hn.
  - specialize (Hf a Ha). change (rounds 1 f (inl a)) with (f a). destruct (f a) as [a'|b]; [lia|by eauto].
  - specialize (Hf a Ha). rewrite rounds_iter, Pos.iter_succ_r. cbn [one_more].
    destruct (f a) as [a'|b].
    + rewrite <- rounds_iter. apply IH; [by apply Hf|lia].
    + exists b. split; [|done]. clear. induction n as [|n IH] using Pos.peano_ind; [done|].
      by rewrite Pos.iter_succ, IH.
Qed.

(** ** The next fire *)

(** A minute the cron may fire at after [after], where it last fired at [last]. *)
Definition may_fire (c : Cron) (after : Z) (last : option Z) (t : Z) : Prop :=
  t mod 60 = 0 /\ after < t /\ (forall l, last = Some l -> l + SHORTEST <= t) /\ fires_at c t = true.

Definition next_start (after : Z) (last : option Z) : Z := next_from after last / 60 * 60 + 60.

Lemma may_fire_from c after last t :
  may_fire c after last t <-> t mod 60 = 0 /\ next_start after last <= t /\ fires_at c t = true.
Proof.
  unfold may_fire, next_start, next_from, SHORTEST. split.
  - intros (Hm & Ha & Hl & Hf). split_and!; [done| |done].
    destruct last as [l|]; [specialize (Hl l eq_refl)|]; divide.
  - intros (Hm & Hs & Hf). split_and!; [done| | |done].
    + destruct last as [l|]; divide.
    + intros l ->. divide.
Qed.

Lemma fires_day c t : fires_at c t = true -> day_ok c (t / 86400) = true /\ month_ok c (t / 86400) = true.
Proof. unfold fires_at. rewrite !andb_true_iff. tauto. Qed.

Lemma next_round_spec c start stop t :
  stop mod 60 = 0 ->
  t mod 60 = 0 /\ start <= t /\ (forall u, start <= u < t -> u mod 60 = 0 -> fires_at c u = false) ->
  match next_round c stop t with
  | inl t' => (t' mod 60 = 0 /\ start <= t'
      /\ (forall u, start <= u < t' -> u mod 60 = 0 -> fires_at c u = false))
      /\ 0 <= Z.max 0 (stop - t') / 60 < Z.max 0 (stop - t) / 60 /\ t < t' <= stop + 86400
  | inr (Some t') => t' = t /\ t < stop /\ fires_at c t = true
  | inr None => stop <= t
  end.
Proof.
  intros Hstop (Hm & Hs & Hn). unfold next_round. destruct (Z.ltb_spec t stop) as [Hlt|]; [|done].
  destruct (negb (day_ok c (t / 86400)) || negb (month_ok c (t / 86400))) eqn:E.
  - split_and!; try divide. intros u Hu Hum. destruct (decide (u < t)) as [|Hut]; [apply Hn; lia|].
    apply not_true_is_false. intros Hf. apply fires_day in Hf.
    replace (u / 86400) with (t / 86400) in Hf by divide. destruct Hf as [Hd Hmo].
    by rewrite Hd, Hmo in E.
  - destruct (fires_at c t) eqn:Ef; [done|]. split_and!; try divide.
    intros u Hu Hum. destruct (decide (u < t)) as [|Hut]; [apply Hn; lia|].
    replace u with t by divide. done.
Qed.

(** What the loop comes to. *)
Lemma next_found c after last :
  match next c after last with
  | Some t => may_fire c after last t /\ t < next_start after last + FIVE_YEARS
      /\ forall u, may_fire c after last u -> t <= u
  | None => forall u, may_fire c after last u -> next_start after last + FIVE_YEARS <= u
  end.
Proof.
  set (start := next_start after last).
  destruct (rounds_end (next_round c (start + FIVE_YEARS))
    (fun t => t mod 60 = 0 /\ start <= t /\ forall u, start <= u < t -> u mod 60 = 0 -> fires_at c u = false)
    (fun r => match r with
      | Some t => may_fire c after last t /\ t < start + FIVE_YEARS
          /\ forall u, may_fire c after last u -> t <= u
      | None => forall u, may_fire c after last u -> start + FIVE_YEARS <= u
      end)
    (fun t => Z.max 0 (start + FIVE_YEARS - t) / 60)) with (n := NEXT_ROUNDS) (a := start) as (r & Hr & Hq).
  - intros t Ht. assert (Hstop : (start + FIVE_YEARS) mod 60 = 0)
      by (subst start; unfold next_start, FIVE_YEARS; divide).
    pose proof (next_round_spec c start _ t Hstop Ht) as H. destruct Ht as (Hm & Hs & Hn).
    assert (Hfirst : forall u, may_fire c after last u -> t <= u).
    { intros u (Hum & Hus & Huf)%may_fire_from. fold start in Hus.
      destruct (decide (t <= u)) as [|Hl]; [done|]. by rewrite Hn in Huf by (done || lia). }
    destruct (next_round c (start + FIVE_YEARS) t) as [t'|[t'|]].
    + by destruct H as [H1 [H2 _]].
    + destruct H as (-> & Hl & Hf). split_and!; [|done|done]. by apply may_fire_from.
    + intros u Hu. apply Hfirst in Hu. lia.
  - subst start. unfold next_start. split_and!; [divide|lia|lia].
  - subst start. unfold NEXT_ROUNDS. replace (next_start after last + FIVE_YEARS - next_start after last)
      with FIVE_YEARS by lia. done.
  - unfold next. change (next_from after last / 60 * 60 + 60) with start. by rewrite Hr.
Qed.

(** C28: [next] finds the first minute the cron fires at that is after [after] and no sooner
    than five minutes after [last]: it gives a minute exactly where it is one of those, within
    the five years it looks over, and none of them comes before it.  Its loop always ends. *)
Theorem next_first c after last t :
  next c after last = Some t <->
  may_fire c after last t /\ t < next_start after last + FIVE_YEARS
  /\ forall u, may_fire c after last u -> t <= u.
Proof.
  pose proof (next_found c after last) as H. destruct (next c after last) as [t'|]; split.
  - by intros [= <-].
  - intros (Ht & _ & Hf). f_equal. destruct H as (Ht' & _ & Hf').
    apply Z.le_antisymm; [by apply Hf'|by apply Hf].
  - done.
  - intros (Ht & Hl & _). apply H in Ht. lia.
Qed.

(** The times of the search, from a clock that is not near the ends of an [i64]. *)
Lemma next_in_range c after last t t' :
  - 2 ^ 62 <= next_from after last <= 2 ^ 62 ->
  next_start after last <= t ->
  next_round c (next_start after last + FIVE_YEARS) t = inl t' -> I64_MIN <= t' <= I64_MAX.
Proof.
  unfold next_start, next_round, FIVE_YEARS, I64_MIN, I64_MAX. intros Ha Ht H.
  destruct (Z.ltb_spec t (next_from after last / 60 * 60 + 60 + 5 * 366 * 86400)); [|done].
  destruct (negb _ || negb _); [injection H as <-; divide|].
  destruct (fires_at c t); [done|]. injection H as <-. divide.
Qed.

End CronFacts.

Module CronFieldFacts.

Import Cron CronFacts.

(** ** Items *)

Inductive item :=
| Whole (step : option N)
| From (a : N) (step : option N)
| Range (a b : N) (step : option N).

Section field.
Variables (low high : N) (names : list str) (what : str).

(** A value, by one of the field's names in any case, or as a number within its bounds. *)
Definition denotes (t : str) (n : N) : Prop :=
  (exists i name, names !! i = Some name /\ eq_ignore_case name t = true /\ n = (low + N.of_nat i)%N)
  \/ (parse_u32 t = Some n /\ (low <= n <= high)%N).

Definition step_text (step : option N) (t : str) : Prop :=
  match step with
  | Some s => exists u, t = "/"%char :: u /\ parse_u32 u = Some s /\ (0 < s)%N
  | None => t = []
  end.

Inductive item_text : item -> str -> Prop :=
| whole_text st tail : step_text st tail -> item_text (Whole st) ("*"%char :: tail)
| from_text a t st tail : denotes t a -> step_text st tail -> item_text (From a st) (t ++ tail)
| range_text a t b u st tail :
    denotes t a -> denotes u b -> (a <= b)%N -> step_text st tail ->
    item_text (Range a b st) (t ++ "-"%char :: u ++ tail).

(** The values of an item. *)
Definition steps_to (st : option N) (from v : N) : Prop :=
  exists k, v = (from + k * default 1%N st)%N.
Definition covers (i : item) (v : N) : Prop :=
  match i with
  | Whole st => (low <= v <= high)%N /\ steps_to st low v
  | From a None => v = a
  | From a (Some s) => (a <= v <= high)%N /\ steps_to (Some s) a v
  | Range a b st => (a <= v <= b)%N /\ steps_to st a v
  end.

(** ** One value *)

Hypothesis Hnames : Forall (fun n => n <> [] /\ forallb is_alpha n = true) names.
Hypothesis Hdistinct : NoDup (map to_lower names).
Hypothesis Hbase : names <> [] -> low = if bool_decide (what = $"month") then 1%N else 0%N.
Hypothesis Hroom : (low + N.of_nat (length names) <= high + 1)%N.
Hypothesis Hhigh : (high < U32_MAX)%N.

Lemma named_spec l i t n :
  named i l t = Some n <-> exists j name, l !! j = Some name /\ eq_ignore_case name t = true
    /\ n = (i + N.of_nat j)%N /\ forall j' name', j' < j -> l !! j' = Some name' -> eq_ignore_case name' t = false.
Proof.
  revert i. induction l as [|x l IH]; intros i; cbn [named].
  { split; [done|]. by intros (j & name & H & _). }
  destruct (eq_ignore_case x t) eqn:E.
  - split.
    + intros [= <-]. exists 0, x. split_and!; [done|done|lia|]. lia.
    + intros (j & name & Hj & Hn & -> & Hf). destruct j as [|j]; [f_equal; lia|].
      specialize (Hf 0 x ltac:(lia) eq_refl). congruence.
  - rewrite IH. split.
    + intros (j & name & Hj & Hn & -> & Hf). exists (S j), name. split_and!; [done|done|lia|].
      intros [|j'] name' Hl Hx; [by injection Hx as <-|]. apply (Hf j'); [lia|done].
    + intros ([|j] & name & Hj & Hn & -> & Hf); [injection Hj as <-; congruence|].
      exists j, name. split_and!; [done|done|lia|]. intros j' name' Hl. apply (Hf (S j')). lia.
Qed.

(** The letters of a name, in any case. *)
Lemma lower_alpha c d : lower c = lower d -> is_alpha c = true -> is_alpha d = true.
Proof.
  intros H Hc. destruct (is_alpha d) eqn:E; [done|]. exfalso.
  assert (lower d = d) as Hd by (unfold lower; unfold is_alpha in E; apply orb_false_iff in E; destruct E as [_ Hup]; by rewrite Hup).
  rewrite Hd in H. subst d. revert Hc E. clear.
  destruct c as [[] [] [] [] [] [] [] []]; vm_compute; congruence.
Qed.
Lemma named_text name t :
  eq_ignore_case name t = true -> name ∈ names -> t <> [] /\ Forall (fun c => is_alpha c = true) t.
Proof.
  unfold eq_ignore_case. intros He%bool_decide_eq_true Hn.
  rewrite Forall_forall in Hnames. destruct (Hnames _ Hn) as [H0 Ha]. clear Hn Hnames.
  unfold to_lower in He. split; [by intros ->; destruct name|]. clear H0. revert t He.
  induction name as [|c name IH]; intros [|d t]; cbn; try done. intros [= Hcd He].
  cbn in Ha. apply andb_true_iff in Ha as [Hc Ha]. constructor; [by eapply lower_alpha|by apply IH].
Qed.
Lemma digits_text m t n : parse_unsigned m t = Some n ->
  t <> [] /\ Forall (fun c => is_digit c = true \/ c = "+"%char) t.
Proof.
  unfold parse_unsigned, parse_digits. intros H.
  assert (Hf : forall s, forallb is_digit s = true -> Forall (fun c => is_digit c = true \/ c = "+"%char) s).
  { intros s Hs. rewrite forallb_forall in Hs. apply Forall_forall. intros c Hc. left. apply Hs.
    by apply list_elem_of_In. }
  destruct t as [|c t]; [done|]. split; [done|]. destruct (ch c "+") eqn:E.
  - apply ch_eq in E as ->. constructor; [by right|]. apply Hf. by destruct t as [|x t], (forallb is_digit _).
  - apply Hf. by destruct (forallb is_digit (c :: t)).
Qed.

Definition plain (c : ascii) : Prop := is_alnum c = true \/ c = "+"%char.
Lemma denotes_plain t n : denotes t n -> t <> [] /\ Forall plain t.
Proof.
  intros [(i & name & Hi & He & _)|[Hp _]].
  - apply named_text in He as [H0 H]; [|by eapply list_elem_of_lookup_2]. split; [done|].
    eapply Forall_impl; [exact H|]. intros c Hc. left. unfold is_alnum. by rewrite Hc.
  - apply digits_text in Hp as [H0 H]. split; [done|]. eapply Forall_impl; [exact H|].
    intros c [Hc| ->]; [left; unfold is_alnum; by rewrite Hc, orb_true_r|by right].
Qed.
Lemma not_plain c t : Forall plain t -> ~ plain c -> c ∉ t.
Proof. intros Ht Hc Hin. rewrite Forall_forall in Ht. by apply Hc, Ht. Qed.

Lemma value_denotes t n : value low high names what t = Ok n <-> denotes t n.
Proof.
  unfold value. destruct (named 0 names t) as [i|] eqn:E.
  - apply named_spec in E as (j & name & Hj & He & -> & Hf).
    assert (Hl : low = if bool_decide (what = $"month") then 1%N else 0%N)
      by (apply Hbase; intros E; by rewrite E in Hj).
    rewrite <- Hl. split.
    + intros [= <-]. left. exists j, name. split_and!; [done|done|lia].
    + intros [(i & name' & Hi & He' & ->)|[Hp _]].
      * assert (i = j) as ->; [|f_equal; lia].
        eapply (NoDup_lookup (map to_lower names)); [done| |].
        -- rewrite list_lookup_fmap. by rewrite Hi.
        -- rewrite list_lookup_fmap, Hj. cbn. f_equal. unfold eq_ignore_case in *.
           apply bool_decide_eq_true in He, He'. congruence.
      * exfalso. apply digits_text in Hp as [H0 Hd].
        apply named_text in He as [_ Ha]; [|by eapply list_elem_of_lookup_2].
        destruct t as [|c t]; [done|]. inversion_clear Hd as [|? ? Hc _]. inversion_clear Ha as [|? ? Hc' _].
        revert Hc Hc'. clear. destruct c as [[] [] [] [] [] [] [] []]; vm_compute; intuition congruence.
  - split.
    + destruct (parse_u32 t) as [m|] eqn:Ep; [|done].
      destruct ((m <? low)%N || (high <? m)%N) eqn:Eb; [done|]. intros [= <-]. right. split; [done|].
      apply orb_false_iff in Eb. rewrite !N.ltb_ge in Eb. lia.
    + intros [(i & name & Hi & He & ->)|[Hp Hb]].
      * exfalso. assert (Hs : forall l k, named k l t = None -> forall x, x ∈ l -> eq_ignore_case x t = false).
        { clear. induction l as [|y l IH]; intros k H x Hx; [by apply elem_of_nil in Hx|]. cbn in H.
          destruct (eq_ignore_case y t) eqn:Ey; [done|]. apply elem_of_cons in Hx as [->|Hx]; [done|].
          by eapply IH. }
        rewrite (Hs _ _ E name) in He; [done|]. by eapply list_elem_of_lookup_2.
      * rewrite Hp. destruct ((n <? low)%N || (high <? n)%N) eqn:Eb; [|done].
        rewrite orb_true_iff, !N.ltb_lt in Eb. lia.
Qed.

Lemma denotes_bounds t n : denotes t n -> (low <= n <= high)%N.
Proof.
  intros [(i & name & Hi & _ & ->)|[_ H]]; [|done]. apply lookup_lt_Some in Hi. lia.
Qed.

(** ** One item *)

Lemma split_first c s :
  match split_once [c] s with
  | Some (a, b) => s = a ++ c :: b /\ c ∉ a
  | None => c ∉ s
  end.
Proof.
  destruct (split_once [c] s) as [[a b]|] eqn:E.
  - destruct (split_once_Some _ _ _ _ E) as [Hs Hf]. split; [done|].
    intros (x & y & ->)%list_elem_of_split. specialize (Hf x (y ++ c :: b)).
    rewrite Hs, <- app_assoc in Hf. specialize (Hf eq_refl). rewrite length_app in Hf. cbn in Hf. lia.
  - unfold split_once in E. destruct (find [c] s) eqn:Ef; [done|].
    intros (x & y & ->)%list_elem_of_split. by apply (find_None _ _ Ef x y).
Qed.

Lemma split_at_first c a b : c ∉ a -> split_once [c] (a ++ c :: b) = Some (a, b).
Proof. intros H. apply SpecFacts.split_once_one. by apply contains_char_false. Qed.
Lemma split_nowhere c s : c ∉ s -> split_once [c] s = None.
Proof.
  intros H. pose proof (split_first c s) as Hs. destruct (split_once [c] s) as [[a b]|]; [|done].
  destruct Hs as [-> _]. set_solver.
Qed.

Lemma item_step_reads t range s :
  item_step what t = Ok (range, s) <->
  exists st tail, t = range ++ tail /\ "/"%char ∉ range /\ step_text st tail /\ s = default 1%N st.
Proof.
  unfold item_step. split.
  - pose proof (split_first "/" t) as Hs. change $"/" with ["/"%char].
    destruct (split_once ["/"%char] t) as [[a b]|].
    + destruct Hs as [-> Ha]. destruct (parse_u32 b) as [m|] eqn:Ep; [|done].
      destruct (N.ltb_spec 0 m); [|done]. intros [= <- <-].
      exists (Some m), ("/"%char :: b). split_and!; [done..| |done]. cbn. eauto.
    + intros [= <- <-]. exists None, []. by rewrite app_nil_r.
  - intros (st & tail & -> & Hr & Hst & ->). change $"/" with ["/"%char]. destruct st as [m|]; cbn in Hst.
    + destruct Hst as (u & -> & Hp & Hm). rewrite split_at_first, Hp by done.
      destruct (N.ltb_spec 0 m); [done|lia].
    + subst tail. by rewrite app_nil_r, split_nowhere.
Qed.

(** Where an item's values begin and end, and how far apart they are. *)
Definition item_bounds (i : item) : N * N * N :=
  match i with
  | Whole st => (low, high, default 1%N st)
  | From a None => (a, a, 1%N)
  | From a (Some s) => (a, high, s)
  | Range a b st => (a, b, default 1%N st)
  end.

Lemma star_not_plain : ~ plain "*". Proof. by intros [|]. Qed.
Lemma slash_not_plain : ~ plain "/". Proof. by intros [|]. Qed.
Lemma dash_not_plain : ~ plain "-". Proof. by intros [|]. Qed.

Lemma step_tail st tail : step_text st tail -> (st = None /\ tail = []) \/ (st <> None /\ "/"%char ∈ tail).
Proof. destruct st; cbn; [intros (u & -> & _)|intros ->]; [right|left]; split; try done. by left. Qed.

(** The part before the step, of each of the shapes. *)
Inductive range_reads : item -> str -> Prop :=
| whole_reads st : range_reads (Whole st) $"*"
| from_reads a t st : denotes t a -> range_reads (From a st) t
| range_reads_two a t b u st :
    denotes t a -> denotes u b -> (a <= b)%N -> range_reads (Range a b st) (t ++ "-"%char :: u).
Definition step_of (i : item) : option N :=
  match i with Whole st | From _ st | Range _ _ st => st end.

Lemma range_plain i r : range_reads i r -> r <> [] /\ "/"%char ∉ r.
Proof.
  intros [st|a t st H|a t b u st Ht Hu Hab].
  - split; [done|]. by apply contains_char_false.
  - apply denotes_plain in H as [H0 H]. split; [done|]. apply (not_plain _ _ H slash_not_plain).
  - apply denotes_plain in Ht as [_ Ht], Hu as [_ Hu]. split; [by intros []%app_nil|].
    pose proof (not_plain _ _ Ht slash_not_plain). pose proof (not_plain _ _ Hu slash_not_plain).
    set_solver.
Qed.

Lemma item_text_parts i t :
  item_text i t <-> exists r tail, t = r ++ tail /\ range_reads i r /\ step_text (step_of i) tail.
Proof.
  split.
  - intros [st tail H|a t' st tail Ht H|a t' b u st tail Ht Hu Hab H].
    + exists $"*", tail. split_and!; [done|constructor|done].
    + exists t', tail. split_and!; [done|by constructor|done].
    + exists (t' ++ "-"%char :: u), tail. rewrite <- app_assoc. split_and!; [done|by constructor|done].
  - intros (r & tail & -> & [st|a t' st Ht|a t' b u st Ht Hu Hab] & H).
    + by apply whole_text.
    + by apply from_text.
    + rewrite <- app_assoc. cbn. by apply range_text.
Qed.

Lemma range_reads_inv i r : range_reads i r ->
  match i with
  | Whole _ => r = $"*"
  | From a _ => denotes r a /\ r <> $"*" /\ "-"%char ∉ r
  | Range a b _ => exists t u, r = t ++ "-"%char :: u /\ "-"%char ∉ t /\ r <> $"*"
      /\ denotes t a /\ denotes u b /\ (a <= b)%N
  end.
Proof.
  intros [st|a t st H|a t b u st Ht Hu Hab]; [done| |].
  - split; [done|]. apply denotes_plain in H as [_ H]. split.
    + intros ->. by apply (not_plain "*" _ H star_not_plain), list_elem_of_here.
    + apply (not_plain _ _ H dash_not_plain).
  - exists t, u. pose proof (denotes_plain _ _ Ht) as [_ Hp]. split_and!; try done.
    + apply (not_plain _ _ Hp dash_not_plain).
    + intros E. assert (Hin : "-"%char ∈ $"*") by (rewrite <- E; set_solver).
      revert Hin. by apply contains_char_false.
Qed.

Lemma item_range_reads t r tail st f l :
  t = r ++ tail -> "/"%char ∉ r -> step_text st tail ->
  item_range low high names what t r = Ok (f, l) <->
  exists i, range_reads i r /\ step_of i = st /\ (item_bounds i).1 = (f, l).
Proof.
  intros -> Hr Hst. unfold item_range.
  assert (Hc : contains_char "/" (r ++ tail) = bool_decide (st <> None)).
  { destruct (step_tail _ _ Hst) as [(-> & ->)|(Hs & Ht)].
    - rewrite app_nil_r. by apply contains_char_false.
    - rewrite bool_decide_eq_true_2 by done. apply not_false_is_true. rewrite contains_char_false. set_solver. }
  destruct (decide (r = $"*")) as [Hs|Hs]; [rewrite bool_decide_eq_true_2 by done
    |rewrite bool_decide_eq_false_2 by done; pose proof (split_first "-" r) as Hd; change $"-" with ["-"%char];
    destruct (split_once ["-"%char] r) as [[x y]|]].
  - split; [intros [= <- <-]; exists (Whole st); rewrite Hs; split_and!; [constructor|done|done]|].
    intros (i & Hi%range_reads_inv & <- & H). destruct i as [st'|a st'|a b st']; cbn in *; [congruence|naive_solver..].
  - destruct Hd as [-> Hx]. split.
    + destruct (value _ _ _ _ x) as [a|] eqn:Ea; [|done]. destruct (value _ _ _ _ y) as [b|] eqn:Eb; [|done].
      apply value_denotes in Ea, Eb. destruct (N.ltb_spec b a); [done|]. intros [= <- <-].
      exists (Range a b st). by repeat split; constructor.
    + intros (i & Hi%range_reads_inv & <- & H). destruct i as [st'|a st'|a b st']; cbn in *.
      * done.
      * destruct Hi as (_ & _ & Hi). set_solver.
      * destruct Hi as (t & u & E & Ht & _ & Ha & Hb & Hab). injection H as <- <-.
        assert (split_once ["-"%char] (t ++ "-"%char :: u) = Some (x, y)) as Es
          by (rewrite <- E; by apply split_at_first).
        rewrite split_at_first in Es by done. injection Es as <- <-.
        apply value_denotes in Ha as ->, Hb as ->. by destruct (N.ltb_spec b a); [lia|].
  - split.
    + destruct (value _ _ _ _ r) as [a|] eqn:Ea; [|done]. apply value_denotes in Ea.
      rewrite Hc. intros [= <- <-]. exists (From a st). repeat split; [by constructor|]. by destruct st.
    + intros (i & Hi%range_reads_inv & <- & H). destruct i as [st'|a st'|a b st']; cbn in *; [done| |].
      * destruct Hi as (Ha & _). apply value_denotes in Ha as ->. rewrite Hc. cbn.
        by destruct st'; cbn in *; injection H as <- <-.
      * destruct Hi as (t & u & -> & _). set_solver.
Qed.

Lemma field_item_reads t set set' :
  field_item low high names what t set = Ok set' <->
  exists i, item_text i t
    /\ set' = marked (item_bounds i).1.1 (item_bounds i).1.2 (item_bounds i).2 set.
Proof.
  assert (Hs : forall i, (item_bounds i).2 = default 1%N (step_of i)) by (by intros [|? []|]).
  unfold field_item. split.
  - destruct (decide (t = [])) as [Ht|Ht]; [by rewrite bool_decide_eq_true_2|].
    rewrite bool_decide_eq_false_2 by done. destruct (item_step what t) as [[r s]|] eqn:Es; [|done].
    apply item_step_reads in Es as (st & tail & -> & Hr & Hst & ->).
    cbn [fst snd]. destruct (item_range low high names what (r ++ tail) r) as [[f l]|] eqn:Er; [|done].
    intros [= <-]. apply (item_range_reads _ r tail st) in Er as (i & Hi & <- & Hb); [|done..].
    exists i. rewrite Hs, Hb. split; [|done]. apply item_text_parts. by exists r, tail.
  - intros (i & (r & tail & -> & Hi & Hst)%item_text_parts & ->).
    destruct (range_plain _ _ Hi) as [H0 Hr].
    rewrite bool_decide_eq_false_2 by (by intros []%app_nil).
    assert (item_step what (r ++ tail) = Ok (r, default 1%N (step_of i))) as ->.
    { apply item_step_reads. by exists (step_of i), tail. }
    cbn. destruct (item_bounds i).1 as [f l] eqn:Eb.
    assert (item_range low high names what (r ++ tail) r = Ok (f, l)) as ->.
    { eapply item_range_reads; [done..|]. by exists i. }
    by rewrite Hs.
Qed.

(** A field begins with a star where its first item does. *)
Definition starred (items : list item) : bool :=
  match items with Whole _ :: _ => true | _ => false end.

Lemma item_star i t : item_text i t -> starts_with $"*" t = starred [i] /\ t <> [].
Proof.
  assert (Hp : forall t n r, denotes t n -> starts_with $"*" (t ++ r) = false /\ t ++ r <> []).
  { intros t' n r [H0 H]%denotes_plain. destruct t' as [|c t']; [done|]. split; [|done].
    apply Forall_cons in H as [H _]. apply not_true_is_false. intros (x & E)%starts_with_spec.
    injection E as -> _. by apply star_not_plain. }
  intros [st tail H|a t' st tail Ht H|a t' b u st tail Ht Hu Hab H]; [done|by eapply Hp..].
Qed.

Lemma starred_text t items :
  Forall2 item_text items (split_char "," t) -> starts_with $"*" t = starred items.
Proof.
  intros H. rewrite <- (join_split_char "," t) at 1.
  destruct (split_char "," t) as [|p ps] eqn:E; [by apply split_char_nonempty in E|].
  apply Forall2_cons_inv_r in H as (i & items' & [Hs H0]%item_star & _ & ->).
  assert (starts_with $"*" p = starred (i :: items')) as <- by (by rewrite Hs; destruct i).
  destruct p as [|c p]; [done|]. destruct ps; [done|].
  unfold starts_with. change $"*" with ["*"%char]. cbn [join app strip_prefix].
  by destruct (ch "*" c).
Qed.

(** ** The values marked *)

Lemma mark_spec fuel v last step set (i : nat) :
  (0 < step)%N -> (last < U32_MAX)%N -> N.to_nat last < length set -> (N.to_nat (last + 1 - v) <= fuel)%nat ->
  mark fuel v last step set !! i = Some true <->
  set !! i = Some true \/ exists k, N.of_nat i = (v + k * step)%N /\ (N.of_nat i <= last)%N.
Proof.
  revert v set. induction fuel as [|fuel IH]; intros v set Hs Hl Hlen Hf; cbn [mark].
  { split; [by left|]. intros [|(k & Hk & Hle)]; [done|lia]. }
  destruct (N.leb_spec v last) as [Hv|Hv].
  - assert (Hi : <[N.to_nat v := true]> set !! i = Some true <-> set !! i = Some true \/ i = N.to_nat v).
    { destruct (decide (i = N.to_nat v)) as [->|Hn].
      - rewrite list_lookup_insert_eq by lia. tauto.
      - rewrite list_lookup_insert_ne by done. tauto. }
    assert (Hk : (exists k, N.of_nat i = (v + k * step)%N /\ (N.of_nat i <= last)%N)
      <-> i = N.to_nat v \/ exists k, N.of_nat i = (v + step + k * step)%N /\ (N.of_nat i <= last)%N).
    { split.
      - intros (k & Hk & Hle). destruct (decide (k = 0%N)) as [->|]; [left; lia|].
        right. exists (k - 1)%N. split; [|done]. rewrite Hk. nia.
      - intros [->|(k & Hk & Hle)]; [exists 0%N; lia|]. exists (k + 1)%N. split; [|done]. lia. }
    rewrite Hk. destruct (N.leb_spec (v + step) U32_MAX) as [Hu|Hu].
    + rewrite IH, Hi by (rewrite ?length_insert; lia). tauto.
    + rewrite Hi. split; [tauto|]. intros [|[|(k & Hk' & Hle)]]; [tauto..|]. lia.
  - split; [by left|]. intros [|(k & Hk & Hle)]; [done|lia].
Qed.

Lemma mark_length fuel v last step set : length (mark fuel v last step set) = length set.
Proof.
  revert v set. induction fuel as [|fuel IH]; intros v set; [done|]. cbn.
  destruct (v <=? last)%N; [|done]. destruct (v + step <=? U32_MAX)%N; by rewrite ?IH, length_insert.
Qed.

Lemma item_text_bounds i t : item_text i t ->
  (0 < (item_bounds i).2)%N /\ ((item_bounds i).1.2 <= high)%N
  /\ forall v, covers i v <-> exists k, v = ((item_bounds i).1.1 + k * (item_bounds i).2)%N
      /\ (v <= (item_bounds i).1.2)%N.
Proof.
  assert (Hst : forall st tail, step_text st tail -> (0 < default 1 st)%N)
    by (by intros [s|] tail; [intros (u & _ & _ & ?)|]).
  intros [st tail H|a t' st tail Ht H|a t' b u st tail Ht Hu Hab H].
  - cbn. split_and!; [by eapply Hst|done|]. unfold steps_to. intros v. split.
    + intros (Hv & k & Hk). exists k. split; [done|lia].
    + intros (k & Hk & Hv). split; [lia|by exists k].
  - apply denotes_bounds in Ht. pose proof (Hst _ _ H) as Hp. destruct st as [s|]; cbn in *.
    + split_and!; [done|done|]. unfold steps_to. intros v. split.
      * intros (Hv & k & Hk). exists k. split; [done|lia].
      * intros (k & Hk & Hv). split; [lia|by exists k].
    + split_and!; [done|lia|]. intros v. split; [intros ->; exists 0%N; lia|]. intros (k & Hk & Hv). lia.
  - apply denotes_bounds in Hu. cbn. split_and!; [by eapply Hst|lia|]. unfold steps_to. intros v. split.
    + intros (Hv & k & Hk). exists k. split; [done|lia].
    + intros (k & Hk & Hv). split; [lia|by exists k].
Qed.

Definition mark_item (set : list bool) (i : item) : list bool :=
  marked (item_bounds i).1.1 (item_bounds i).1.2 (item_bounds i).2 set.

Lemma field_reads t set set' :
  field low high names what t set = Ok set' <->
  exists items, Forall2 item_text items (split_char "," t) /\ set' = fold_left mark_item items set.
Proof.
  unfold field. generalize (split_char "," t) as l. intros l. revert set.
  induction l as [|x l IH]; intros set; cbn [field_items].
  - split; [intros [= <-]; exists []; split; [constructor|done]|].
    intros (items & H%Forall2_nil_inv_r & ->). by subst.
  - destruct (field_item low high names what x set) as [set1|] eqn:E.
    + rewrite IH. split.
      * intros (items & H & ->). apply field_item_reads in E as (i & Hi & ->).
        exists (i :: items). split; [by constructor|done].
      * intros (items & H & ->). apply Forall2_cons_inv_r in H as (i & items' & Hi & H & ->).
        exists items'. split; [done|]. cbn. f_equal.
        assert (field_item low high names what x set = Ok (mark_item set i)) as E'
          by (apply field_item_reads; by exists i).
        rewrite E in E'. by injection E'.
    + split; [done|]. intros (items & H & ->). apply Forall2_cons_inv_r in H as (i & items' & Hi & H & ->).
      assert (field_item low high names what x set = Ok (mark_item set i)) as E'
        by (apply field_item_reads; by exists i).
      by rewrite E in E'.
Qed.

(** What a field that was read has: the values of its items, and no other. *)
Lemma marks_cover items texts set :
  Forall2 item_text items texts -> (N.to_nat high < length set)%nat ->
  length (fold_left mark_item items set) = length set
  /\ forall n : nat, fold_left mark_item items set !! n = Some true <->
      set !! n = Some true \/ Exists (fun i => covers i (N.of_nat n)) items.
Proof.
  intros H. revert set. induction H as [|i t items texts Hi H IH]; intros set Hlen; cbn [fold_left].
  - split; [done|]. intros n. rewrite Exists_nil. tauto.
  - destruct (item_text_bounds _ _ Hi) as (Hp & Hb & Hc).
    destruct (IH (mark_item set i)) as [Hl Hm]; [by unfold mark_item, marked; rewrite mark_length|].
    split; [by rewrite Hl; unfold mark_item, marked; rewrite mark_length|].
    intros n. rewrite Hm, Exists_cons, Hc. unfold mark_item, marked. rewrite mark_spec by lia. tauto.
Qed.

End field.

(** ** The five together *)

(** The shape a field's numbers and names have to have, and the five that have it. *)
Record field_shape (low high : N) (names : list str) (what : str) : Prop := {
  fs_names : Forall (fun n => n <> [] /\ forallb is_alpha n = true) names;
  fs_distinct : NoDup (map to_lower names);
  fs_base : names <> [] -> low = if bool_decide (what = $"month") then 1%N else 0%N;
  fs_room : (low + N.of_nat (length names) <= high + 1)%N;
  fs_high : (high < U32_MAX)%N;
}.
Ltac shape := constructor; [by apply (bool_decide_unpack _); vm_compute|by apply (bool_decide_unpack _); vm_compute|done|done|done].
Lemma shape_minute : field_shape 0 59 [] $"minute". Proof. shape. Qed.
Lemma shape_hour : field_shape 0 23 [] $"hour". Proof. shape. Qed.
Lemma shape_day : field_shape 1 31 [] $"day of the month". Proof. shape. Qed.
Lemma shape_month : field_shape 1 12 MONTHS $"month". Proof. shape. Qed.
Lemma shape_weekday : field_shape 0 7 WEEKDAYS $"day of the week". Proof. shape. Qed.

Definition items_text (low high : N) (names : list str) (t : str) (items : list item) : Prop :=
  Forall2 (item_text low high names) items (split_char "," t).
Definition one_of (low high : N) (items : list item) (v : Z) : Prop :=
  Exists (fun i => covers low high i (Z.to_N v)) items.

Lemma shape_items low high names what t n set :
  field_shape low high names what ->
  field low high names what t (replicate n false) = Ok set -> exists items, items_text low high names t items.
Proof. intros [H1 H2 H3 H4 H5] (items & Hi & _)%field_reads; [by exists items|done..]. Qed.

Lemma shape_set low high names what t n items :
  field_shape low high names what -> (N.to_nat high < n)%nat -> items_text low high names t items ->
  exists set, field low high names what t (replicate n false) = Ok set /\ length set = n
    /\ forall v, (0 <= v)%Z -> on set v = true <-> one_of low high items v.
Proof.
  intros [H1 H2 H3 H4 H5] Hn Hi. eexists. split; [apply field_reads; [done..|by exists items]|].
  edestruct (marks_cover low high names) with (set := replicate n false) as [Hl Hm];
    [done..|by rewrite length_replicate|].
  rewrite length_replicate in Hl. split; [done|]. intros v Hv. unfold on, one_of.
  rewrite nth_lookup. specialize (Hm (Z.to_nat v)). rewrite Z_nat_N in Hm.
  assert (replicate n false !! Z.to_nat v <> Some true) as Hr
    by (intros [E _]%lookup_replicate; done).
  destruct (fold_left (mark_item low high) items (replicate n false) !! Z.to_nat v) as [b|] eqn:E; cbn.
  - split; [intros ->; destruct Hm as [Hm _]; by destruct (Hm eq_refl)|].
    intros H. destruct Hm as [_ Hm]. specialize (Hm (or_intror H)). congruence.
  - split; [done|]. intros H. destruct Hm as [_ Hm]. by specialize (Hm (or_intror H)).
Qed.

Lemma shape_star low high names what t items :
  field_shape low high names what -> items_text low high names t items -> starts_with $"*" t = starred items.
Proof. intros [H1 H2 H3 H4 H5] H. by eapply starred_text. Qed.

(** The items of a cron's five fields. *)
Record cron_items := {
  of_minute : list item; of_hour : list item; of_day : list item;
  of_month : list item; of_weekday : list item }.
Definition cron_text (t : str) (f : cron_items) : Prop :=
  exists mi ho da mo we, split_whitespace t = [mi; ho; da; mo; we]
    /\ items_text 0 59 [] mi (of_minute f) /\ items_text 0 23 [] ho (of_hour f)
    /\ items_text 1 31 [] da (of_day f) /\ items_text 1 12 MONTHS mo (of_month f)
    /\ items_text 0 7 WEEKDAYS we (of_weekday f).

(** Sunday is the day 0 and the day 7 of a week. *)
Definition on_weekday (items : list item) (w : Z) : Prop :=
  one_of 0 7 items w \/ (w = 0%Z /\ one_of 0 7 items 7).
(** Cron's own rule of the two day fields: either of them, where neither begins with a star;
    both, where one does. *)
Definition on_day (f : cron_items) (d : Z) : Prop :=
  let '(_, _, day) := civil d in
  let in_month := one_of 1 31 (of_day f) day in
  let in_week := on_weekday (of_weekday f) (weekday d) in
  if starred (of_day f) || starred (of_weekday f) then in_month /\ in_week else in_month \/ in_week.
Definition fires_by (f : cron_items) (t : Z) : Prop :=
  on_day f (t / 86400)
  /\ (let '(_, month, _) := civil (t / 86400) in one_of 1 12 (of_month f) month)
  /\ one_of 0 23 (of_hour f) (t / 3600 mod 24)
  /\ one_of 0 59 (of_minute f) (t / 60 mod 60).

(** A day field that begins with a star leaves no day out: it is [*], or has it among its
    items, or a star's step is one. *)
Definition stars_whole (f : cron_items) : Prop :=
  (starred (of_day f) = true -> forall d, (1 <= d <= 31)%Z -> one_of 1 31 (of_day f) d)
  /\ (starred (of_weekday f) = true -> forall w, (0 <= w < 7)%Z -> on_weekday (of_weekday f) w).

(** Eight days into seven. *)
Lemma seven_days eight w :
  length eight = 8%nat -> (0 <= w < 7)%Z ->
  on (fold_weekdays 0 eight (replicate 7 false)) w = true <->
  on eight w = true \/ (w = 0%Z /\ on eight 7 = true).
Proof.
  intros Hl Hw. do 8 (destruct eight as [|? eight]; [done|]). destruct eight; [|done]. clear Hl.
  assert (w = 0 \/ w = 1 \/ w = 2 \/ w = 3 \/ w = 4 \/ w = 5 \/ w = 6)%Z as Hc by lia.
  repeat match goal with b : bool |- _ => destruct b end;
    destruct Hc as [->|[->|[->|[->|[->|[->| ->]]]]]]; vm_compute; intuition congruence.
Qed.

Lemma parse_five mi ho da mo we (t : str) :
  split_whitespace t = [mi; ho; da; mo; we] ->
  parse t = (let? smi := field 0 59 [] $"minute" mi (replicate 60 false) in
    let? sho := field 0 23 [] $"hour" ho (replicate 24 false) in
    let? sda := field 1 31 [] $"day of the month" da (replicate 32 false) in
    let? smo := field 1 12 MONTHS $"month" mo (replicate 13 false) in
    let? swe := field 0 7 WEEKDAYS $"day of the week" we (replicate 8 false) in
    Ok {| minutes := smi; hours := sho; days := sda; months := smo;
          weekdays := fold_weekdays 0 swe (replicate 7 false);
          days_restricted := negb (starts_with $"*" da);
          weekdays_restricted := negb (starts_with $"*" we) |}).
Proof. intros E. unfold parse. by rewrite E. Qed.

Lemma parse_has_items t c : parse t = Ok c -> exists f, cron_text t f.
Proof.
  intros H. destruct (split_whitespace t) as [|mi [|ho [|da [|mo [|we [|]]]]]] eqn:E;
    try by (unfold parse in H; rewrite E in H).
  rewrite (parse_five _ _ _ _ _ _ E) in H.
  destruct (field 0 59 _ _ mi _) as [smi|] eqn:E1; [|done].
  destruct (field 0 23 _ _ ho _) as [sho|] eqn:E2; [|done].
  destruct (field 1 31 _ _ da _) as [sda|] eqn:E3; [|done].
  destruct (field 1 12 _ _ mo _) as [smo|] eqn:E4; [|done].
  destruct (field 0 7 _ _ we _) as [swe|] eqn:E5; [|done].
  apply shape_items in E1 as (i1 & H1), E2 as (i2 & H2), E3 as (i3 & H3), E4 as (i4 & H4), E5 as (i5 & H5);
    [|apply shape_weekday|apply shape_month|apply shape_day|apply shape_hour|apply shape_minute].
  exists {| of_minute := i1; of_hour := i2; of_day := i3; of_month := i4; of_weekday := i5 |}.
  by exists mi, ho, da, mo, we.
Qed.

(** C29: A text is read as a cron exactly where it is five fields of items, each a star, a
    value or a range that does not run backwards, with a step or without, every value a name
    of the field or a number within its bounds; and where a day field that begins with a star
    leaves no day out, it then fires at exactly the minutes whose minute, hour and month an
    item of the field covers and whose day the day fields allow by cron's rule: either of the
    two where neither begins with a star, both where one does.  (A star with a step, [*/2],
    leaves days out, which the code then fires on all the same: [day_step_ignored].) *)
Theorem cron_fires (t : str) :
  (is_ok (parse t) = true <-> exists f, cron_text t f)
  /\ forall f, cron_text t f -> stars_whole f ->
     exists c, parse t = Ok c /\ forall s, fires_at c s = true <-> fires_by f s.
Proof.
  assert (Hf : forall f, cron_text t f ->
     exists c, parse t = Ok c /\ (stars_whole f -> forall s, fires_at c s = true <-> fires_by f s)).
  { intros f (mi & ho & da & mo & we & E & H1 & H2 & H3 & H4 & H5).
    destruct (shape_set _ _ _ _ _ 60 _ shape_minute ltac:(lia) H1) as (s1 & E1 & _ & C1).
    destruct (shape_set _ _ _ _ _ 24 _ shape_hour ltac:(lia) H2) as (s2 & E2 & _ & C2).
    destruct (shape_set _ _ _ _ _ 32 _ shape_day ltac:(lia) H3) as (s3 & E3 & _ & C3).
    destruct (shape_set _ _ _ _ _ 13 _ shape_month ltac:(lia) H4) as (s4 & E4 & _ & C4).
    destruct (shape_set _ _ _ _ _ 8 _ shape_weekday ltac:(lia) H5) as (s5 & E5 & L5 & C5).
    rewrite (parse_five _ _ _ _ _ _ E), E1, E2, E3, E4, E5. eexists. split; [done|]. intros [Wd Ww] s.
    unfold fires_at, fires_by, day_ok, month_ok, on_day. rewrite !andb_true_iff. cbn [days weekdays months
      hours minutes days_restricted weekdays_restricted].
    pose proof (civil_in_range (s / 86400)) as Hr. destruct (civil (s / 86400)) as [[y m] d].
    rewrite (shape_star _ _ _ _ _ _ shape_day H3), (shape_star _ _ _ _ _ _ shape_weekday H5).
    replace (s mod 86400 / 3600)%Z with (s / 3600 mod 24)%Z by divide.
    replace (s mod 86400 mod 3600 / 60)%Z with (s / 60 mod 60)%Z by divide.
    rewrite C4, C2, C1 by divide.
    assert (Hw : on (fold_weekdays 0 s5 (replicate 7 false)) (weekday (s / 86400)) = true
      <-> on_weekday (of_weekday f) (weekday (s / 86400))).
    { assert (0 <= weekday (s / 86400) < 7)%Z by (unfold weekday; divide).
      rewrite seven_days, !C5 by (done || lia). done. }
    pose proof (fun E => Wd E d ltac:(lia)) as Wd'.
    pose proof (fun E => Ww E (weekday (s / 86400)) ltac:(unfold weekday; divide)) as Ww'.
    destruct (starred (of_day f)), (starred (of_weekday f)); cbn [negb orb];
      rewrite ?orb_true_iff, ?Hw, ?C3 by lia; tauto. }
  split; [|intros f Ht Hs; destruct (Hf f Ht) as (c & Hc & H); exists c; split; [exact Hc|by apply H]]. split.
  - destruct (parse t) as [c|] eqn:E; [|done]. intros _. by eapply parse_has_items.
  - intros (f & H). destruct (Hf f H) as (c & -> & _). done.
Qed.

End CronFieldFacts.
