(* ===== verification/Schedule.v ===== *)
(** * Schedules ([dagron-ci/src/schedule.rs], and what it asks of [dagron-ci/src/db.rs])

    A replica claims a repository, reads what its default branch's head is, its kept
    schedules and, where the head moved, its crons, and writes what fired and what the rows
    are now, fenced on its claim.  Its reads, its clock and its write are steps of their own:
    others' may come between them.  The forge's answers are the steps' arguments.  The
    database's clock is in milliseconds and a replica's own in seconds, as the code has them;
    SQLite's statements are the ones modelled. *)

From S2P Require Import Tables Stops Cron.

Module Schedule.

Local Open Scope Z_scope.

Definition REFRESH : Z := 600.
Definition LEASE : Z := 300.
Definition FAILED_RETRY : Z := 300.
Definition MAX_RATE_LIMIT_WAIT : Z := 3600.
Definition QUIET : Z := 1800.
(** How late a fire may be and still fire. *)
Definition GRACE : Z := 3600.
Definition WORKFLOW_DIR : str := $".github/workflows".

(** [next_at] is [None] for a cron that fires at no time it could find. *)
Record ScheduleRow := {
  workflow : str;
  cron : str;
  next_at : option Z;
  last_at : option Z;
}.
Record Fired := {
  f_workflow : str;
  f_cron : str;
  at_ : Z;
  git_ref : str;
  f_sha : str;
}.

(** ** One look *)

Definition next_of (text : str) (after : Z) (last : option Z) : option Z :=
  match Cron.parse text with Ok c => Cron.next c after last | Err _ => None end.

Definition key (r : ScheduleRow) : str * str := (workflow r, cron r).
Definition row_leb (a b : ScheduleRow) : bool :=
  if bool_decide (workflow a = workflow b) then str_leb (cron a) (cron b)
  else str_leb (workflow a) (workflow b).

(** Of each run of rows with one key, the first. *)
Fixpoint dedup (rows : list ScheduleRow) : list ScheduleRow :=
  match rows with
  | [] => []
  | r :: rest =>
      match dedup rest with
      | s :: rest => if bool_decide (key r = key s) then r :: rest else r :: s :: rest
      | [] => [r]
      end
  end.

(** A map that is collected keeps the last of one key. *)
Definition kept_row (kept : list ScheduleRow) (k : str * str) : option ScheduleRow :=
  List.find (fun r => bool_decide (key r = k)) (rev kept).
Definition carried_row (kept : list ScheduleRow) (now : Z) (wc : str * str) : ScheduleRow :=
  match kept_row kept wc with
  | Some row => row
  | None => {| workflow := wc.1; cron := wc.2; next_at := next_of wc.2 now None; last_at := None |}
  end.
Definition carried (kept : list ScheduleRow) (crons : list (str * str)) (now : Z) : list ScheduleRow :=
  dedup (Stops.sort_by row_leb (map (carried_row kept now) crons)).

(** One row of [fire]'s loop. *)
Definition fire_row (now : Z) (branch sha : str) (row : ScheduleRow) : ScheduleRow * option Fired :=
  match next_at row with
  | Some at' =>
      if at' <=? now then
        if GRACE <? now - at' then (row <| next_at := next_of (cron row) now (last_at row) |>, None)
        else
          ((row <| last_at := Some at' |>) <| next_at := next_of (cron row) now (Some at') |>,
           Some {| f_workflow := workflow row; f_cron := cron row; at_ := at';
                   git_ref := branch; f_sha := sha |})
      else (row, None)
  | None => (row, None)
  end.
Definition fire (rows : list ScheduleRow) (now : Z) (branch sha : str) : list ScheduleRow * list Fired :=
  (map (fun r => (fire_row now branch sha r).1) rows,
   omap (fun r => (fire_row now branch sha r).2) rows).

(** How long until the next look, in seconds. *)
Definition soonest (now : Z) (rows : list ScheduleRow) : option Z :=
  fold_right (fun r acc => match next_at r with
    | Some at' => let d := Z.max (at' - now) 1 in
        Some (match acc with Some a => Z.min d a | None => d end)
    | None => acc end) None rows.
Definition next_look (now : Z) (rows : list ScheduleRow) : Z :=
  match soonest now rows with Some next => Z.min next REFRESH | None => QUIET end.

(** How long a look that failed waits, where the forge said to wait [wait] or nothing. *)
Definition failed_wait (wait : option Z) : Z :=
  match wait with Some w => Z.max (Z.min w MAX_RATE_LIMIT_WAIT) FAILED_RETRY | None => FAILED_RETRY end.

(** What a look writes, where the head is [branch] at [sha]: [due_sha] is the commit the kept
    rows were read at, [crons] what the workflow files at [sha] have, read where it is not
    that one. *)
Record written := { w_sha : option str; w_rows : list ScheduleRow; w_fired : list Fired; w_next : Z }.
Definition look (due_sha : option str) (branch sha : str) (kept : list ScheduleRow)
    (crons : list (str * str)) (now : Z) : written :=
  let rows := if bool_decide (due_sha = Some sha) then kept else carried kept crons now in
  let '(rows, fired) := fire rows now branch sha in
  {| w_sha := Some sha; w_rows := rows; w_fired := fired; w_next := next_look now rows |}.
(** Where there is no default branch. *)
Definition look_nothing : written :=
  {| w_sha := None; w_rows := []; w_fired := []; w_next := QUIET |}.

(** ** The tables *)

Record ci_repo := {
  forge : str;
  mode : str;
  disconnected_at : option time;
  schedule_due_at : option time;
  schedule_claim : option str;
  schedule_sha : option str;
  schedule_error : option str;
}.
Record ci_event := {
  e_repo : str;
  e_fired : Fired;
  commit_key : str;
  inputs : list (str * str);
  e_pipeline : str;
}.
(** [ci_repos] by id; the rows of [ci_schedules] with their repository's id; the events a
    schedule queued, oldest first. *)
Record ci_store := {
  ci_repos : gmap str ci_repo;
  ci_schedules : list (str * ScheduleRow);
  ci_events : list ci_event;
}.

(** [CLAIM_SCHEDULE]: the repository most overdue. *)
Definition schedule_due (now : time) (r : ci_repo) : bool :=
  is_null (disconnected_at r) && bool_decide (forge r = $"github") && bool_decide (mode r = $"compat")
  && (is_null (schedule_due_at r) || sql_le (schedule_due_at r) now).
Definition overdue_order (a b : str * ci_repo) : bool :=
  if bool_decide (schedule_due_at a.2 = schedule_due_at b.2) then str_leb a.1 b.1
  else Stops.null_first (schedule_due_at a.2) (schedule_due_at b.2).
Definition most_overdue (now : time) (s : ci_store) : option (str * ci_repo) :=
  head (Stops.sort_by overdue_order (List.filter (fun kv => schedule_due now kv.2) (map_to_list (ci_repos s)))).
Definition claim_schedule (claim : str) (now : time) (s : ci_store)
    : option (str * option str) * ci_store :=
  match most_overdue now s with
  | Some (id, r) =>
      (Some (id, schedule_sha r),
       s <| ci_repos ::= insert id ((r <| schedule_claim := Some claim |>)
              <| schedule_due_at := Some (now + LEASE * 1000)%Z |>) |>)
  | None => (None, s)
  end.

(** [SCHEDULES] *)
Definition schedules (repo : str) (s : ci_store) : list ScheduleRow :=
  Stops.sort_by row_leb (map snd (List.filter (fun kv => bool_decide (kv.1 = repo)) (ci_schedules s))).

(** The row of [repo] that [claim] holds. *)
Definition held (repo claim : str) (s : ci_store) : option ci_repo :=
  let* r := ci_repos s !! repo in
  if bool_decide (schedule_claim r = Some claim) then Some r else None.

(** [SET_SCHEDULE], of a table whose primary key is the repository, the file and the cron. *)
Fixpoint set_schedules (repo : str) (rows : list ScheduleRow) (t : list (str * ScheduleRow))
    : option (list (str * ScheduleRow)) :=
  match rows with
  | [] => Some t
  | r :: rows =>
      if existsb (fun kv => bool_decide (kv.1 = repo) && bool_decide (key kv.2 = key r)) t then None
      else set_schedules repo rows (t ++ [(repo, r)])
  end.

Section digest.
(** The hexadecimal SHA-256 of a text. *)
Variable sha256_hex : str -> str.

Definition NUL : ascii := "000"%char.
(** What the digest of a fire's key is of. *)
Definition key_text (repo : str) (f : Fired) : str :=
  repo ++ [NUL] ++ f_workflow f ++ [NUL] ++ f_cron f ++ [NUL] ++ show_Z (at_ f).
Definition fired_key (repo : str) (f : Fired) : str := $"schedule:" ++ sha256_hex (key_text repo f).

(** [INSERT_SCHEDULED] *)
Definition scheduled_event (repo : str) (f : Fired) : ci_event :=
  {| e_repo := repo; e_fired := f; commit_key := fired_key repo f;
     inputs := [($"schedule", f_cron f)]; e_pipeline := WORKFLOW_DIR ++ $"/" ++ f_workflow f |}.

(** A write whose claim is lost gives [Ok] of no store, and one that breaks the table's key
    [Err]: either way the transaction leaves nothing. *)
Definition finish_schedule (repo claim : str) (w : written) (now : time) (s : ci_store)
    : result unit (option ci_store) :=
  match held repo claim s with
  | None => Ok None
  | Some r =>
      match set_schedules repo (w_rows w)
              (List.filter (fun kv => negb (bool_decide (kv.1 = repo))) (ci_schedules s)) with
      | None => Err tt
      | Some table =>
          Ok (Some {|
            ci_repos := <[repo := (((r <| schedule_claim := None |>)
                <| schedule_due_at := Some (now + Z.max (w_next w) 1 * 1000)%Z |>)
                <| schedule_sha := w_sha w |>) <| schedule_error := None |>]> (ci_repos s);
            ci_schedules := table;
            ci_events := ci_events s ++ map (scheduled_event repo) (w_fired w) |})
      end
  end.
Definition fail_schedule (repo claim why : str) (next : Z) (now : time) (s : ci_store) : bool * ci_store :=
  match held repo claim s with
  | None => (false, s)
  | Some r =>
      (true, s <| ci_repos ::= insert repo (((r <| schedule_claim := None |>)
         <| schedule_due_at := Some (now + Z.max next 1 * 1000)%Z |>) <| schedule_error := Some why |>) |>)
  end.

(** ** Replicas *)

(** A look a replica is at: the repository it claimed, and what it has read of it. *)
Record looking := {
  l_repo : str;
  l_sha : option str;
  l_now : option Z;
  l_kept : option (list ScheduleRow);
}.
(** The database, the furthest any replica's clock has got, and the looks under way, each
    under its replica's claim. *)
Record system := { db : ci_store; clock : Z; looks : gmap str looking }.

(** One step of one replica.  [listed repo crons] says which crons the files of a repository
    may turn out to have. *)
Inductive sys_step (listed : str -> list (str * str) -> Prop) (y : system) : system -> Prop :=
| step_claim claim dbnow repo sha s :
    looks y !! claim = None -> claim_schedule claim dbnow (db y) = (Some (repo, sha), s) ->
    sys_step listed y ((y <| db := s |>)
      <| looks ::= insert claim {| l_repo := repo; l_sha := sha; l_now := None; l_kept := None |} |>)
| step_now claim l now :
    looks y !! claim = Some l -> l_now l = None -> clock y <= now ->
    sys_step listed y ((y <| clock := now |>) <| looks ::= insert claim (l <| l_now := Some now |>) |>)
| step_read claim l :
    looks y !! claim = Some l -> l_now l <> None -> l_kept l = None ->
    sys_step listed y (y <| looks ::= insert claim (l <| l_kept := Some (schedules (l_repo l) (db y)) |>) |>)
| step_finish claim l now kept branch sha crons dbnow s :
    looks y !! claim = Some l -> l_now l = Some now -> l_kept l = Some kept ->
    listed (l_repo l) crons ->
    finish_schedule (l_repo l) claim (look (l_sha l) branch sha kept crons now) dbnow (db y) = Ok s ->
    sys_step listed y ((y <| db := default (db y) s |>) <| looks ::= delete claim |>)
| step_nothing claim l dbnow s :
    looks y !! claim = Some l -> listed (l_repo l) [] ->
    finish_schedule (l_repo l) claim look_nothing dbnow (db y) = Ok s ->
    sys_step listed y ((y <| db := default (db y) s |>) <| looks ::= delete claim |>)
| step_failed claim l why wait dbnow :
    looks y !! claim = Some l ->
    sys_step listed y ((y <| db := (fail_schedule (l_repo l) claim why (failed_wait wait) dbnow (db y)).2 |>)
      <| looks ::= delete claim |>)
| step_gone claim :
    sys_step listed y (y <| looks ::= delete claim |>).

(** What repositories there are, with no schedule read yet. *)
Definition started (y : system) : Prop :=
  ci_schedules (db y) = [] /\ ci_events (db y) = [] /\ looks y = ∅.
Definition reaches (listed : str -> list (str * str) -> Prop) (y : system) : Prop :=
  exists y0, started y0 /\ rtc (sys_step listed) y0 y.

End digest.

End Schedule.
