(* ===== verification/ScheduleFacts.v ===== *)
(** * What schedules fire, and how often

    First one look, of one repository: its rows have keys of their own, and a row fires or
    moves on as its time and the clock say.  Then the whole system of replicas: an invariant
    of every state it reaches, whatever order their steps come in.

    ** What any number of replicas fire, in whatever order they run

    The invariant of a system of replicas, its parts first: the times one schedule has fired
    at, what one look makes of them, what a write does, and then each step. *)

From Stdlib Require Import Sorted.
From S2P Require Import Tables Stops Cron CronFacts Schedule Preserve Admission.

Module ScheduleFacts.

Import Cron CronFacts Schedule.

Local Open Scope Z_scope.

(** ** Rows in order *)

Definition in_order (a b : ScheduleRow) : Prop := row_leb a b = true.

Lemma in_order_trans a b c : in_order a b -> in_order b c -> in_order a c.
Proof.
  unfold in_order, row_leb. destruct (decide (workflow a = workflow b)) as [E1|N1].
  - rewrite bool_decide_eq_true_2, E1 by done.
    case_bool_decide; [|done]. apply str_le_trans.
  - rewrite bool_decide_eq_false_2 by done. intros H1.
    case_bool_decide as E2; intros H2.
    + rewrite <- E2. by rewrite bool_decide_eq_false_2.
    + rewrite bool_decide_eq_false_2; [by eapply str_le_trans|].
      intros E3. apply N1. apply (anti_symm str_le); [done|]. by rewrite E3.
Qed.
Lemma in_order_total a b : if row_leb a b then in_order a b else in_order b a.
Proof.
  destruct (row_leb a b) eqn:E; [done|]. revert E. unfold in_order, row_leb.
  case_bool_decide as E1.
  - rewrite bool_decide_eq_true_2 by done. intros E.
    destruct (str_le_total (cron a) (cron b)) as [H|H]; [congruence|done].
  - rewrite bool_decide_eq_false_2 by done. intros E.
    destruct (str_le_total (workflow a) (workflow b)) as [H|H]; [congruence|done].
Qed.
Lemma in_order_key a b : in_order a b -> in_order b a -> key a = key b.
Proof.
  unfold in_order, row_leb, key. case_bool_decide as E.
  - rewrite bool_decide_eq_true_2, E by done. intros. f_equal. by apply (anti_symm str_le).
  - rewrite bool_decide_eq_false_2 by done. intros. destruct E. by apply (anti_symm str_le).
Qed.
Lemma in_order_same a b c : key a = key b -> in_order a c <-> in_order b c.
Proof. unfold in_order, row_leb, key. by intros [= -> ->]. Qed.
Lemma in_order_same_r a b c : key a = key b -> in_order c a <-> in_order c b.
Proof. unfold in_order, row_leb, key. by intros [= -> ->]. Qed.

(** ** No key twice *)

Lemma dedup_elem x l : x ∈ dedup l -> x ∈ l.
Proof.
  induction l as [|r l IH]; cbn [dedup]; [done|].
  destruct (dedup l) as [|s rest]; [rewrite list_elem_of_singleton; intros ->; by left|].
  case_bool_decide; rewrite !elem_of_cons in *; naive_solver.
Qed.
Lemma dedup_keys l k : k ∈ map key l <-> k ∈ map key (dedup l).
Proof.
  induction l as [|r l IH]; cbn [dedup map]; [done|]. rewrite elem_of_cons, IH.
  destruct (dedup l) as [|s rest]; [cbn [map]; by rewrite elem_of_cons|].
  case_bool_decide as E; cbn [map]; rewrite !elem_of_cons.
  - rewrite E. tauto.
  - tauto.
Qed.
Lemma dedup_distinct l : StronglySorted in_order l -> NoDup (map key (dedup l)).
Proof.
  induction 1 as [|r l Hl IH Hr]; cbn [dedup map]; [constructor|].
  destruct (dedup l) as [|s rest] eqn:E; [apply NoDup_singleton|]. case_bool_decide as Ek; cbn [map].
  - rewrite Ek. exact IH.
  - constructor; [|exact IH]. cbn [map]. rewrite elem_of_cons. intros [Hk|Hk]; [done|].
    apply list_elem_of_fmap in Hk as (x & Hk & Hx).
    assert (Hs : forall y, y ∈ s :: rest -> in_order r y).
    { intros y Hy. rewrite Forall_forall in Hr. apply Hr, dedup_elem. by rewrite E. }
    assert (Hsx : in_order s x).
    { assert (Hsort : StronglySorted in_order (dedup l)).
      { clear -Hl. induction Hl as [|y l Hl IH Hy]; cbn; [constructor|].
        assert (Hd : Forall (in_order y) (dedup l))
          by (apply Forall_forall; intros z Hz%dedup_elem; rewrite Forall_forall in Hy; by apply Hy).
        destruct (dedup l) as [|z rest]; [by constructor|].
        case_bool_decide as Ek; [|by constructor].
        apply StronglySorted_inv in IH as [IH Hz]. constructor; [done|].
        by apply Forall_cons in Hd as [_ Hd]. }
      rewrite E in Hsort. apply StronglySorted_inv in Hsort as [_ Hf].
      rewrite Forall_forall in Hf. by apply Hf. }
    apply Ek, in_order_key; [apply Hs; by left|]. by apply (in_order_same_r _ _ _ Hk).
Qed.

Lemma sorted_rows l : StronglySorted in_order (Stops.sort_by row_leb l).
Proof. apply Admission.sort_by_sorted; [exact in_order_trans|exact in_order_total]. Qed.
Lemma sort_rows_perm l : Permutation (Stops.sort_by row_leb l) l.
Proof. apply Preserve.sort_by_perm. Qed.

(** ** One look's rows *)

Lemma next_of_found text after last n :
  next_of text after last = Some n ->
  exists c, parse text = Ok c /\ may_fire c after last n.
Proof.
  unfold next_of. destruct (parse text) as [c|]; [|done]. intros H. exists c. split; [done|].
  pose proof (next_found c after last) as Hn. rewrite H in Hn. by destruct Hn.
Qed.

Lemma kept_row_Some kept k r : kept_row kept k = Some r -> r ∈ kept /\ key r = k.
Proof.
  unfold kept_row. intros [Hin Hk%bool_decide_eq_true]%find_some. split; [|done].
  by apply list_elem_of_In, in_rev.
Qed.
Lemma kept_row_None kept k : kept_row kept k = None -> k ∉ map key kept.
Proof.
  unfold kept_row. intros H (r & -> & Hr)%list_elem_of_fmap.
  assert (bool_decide (key r = key r) = false) as Hb; [|by apply bool_decide_eq_false in Hb].
  apply (find_none _ _ H r). by apply (proj1 (in_rev _ _)), list_elem_of_In.
Qed.
Lemma carried_row_key kept now wc : key (carried_row kept now wc) = wc.
Proof.
  unfold carried_row. destruct (kept_row kept wc) as [r|] eqn:E; [by apply kept_row_Some in E as [_ ?]|].
  by destruct wc.
Qed.

Lemma carried_distinct kept crons now : NoDup (map key (carried kept crons now)).
Proof. apply dedup_distinct, sorted_rows. Qed.
Lemma carried_elem kept crons now r :
  r ∈ carried kept crons now -> key r ∈ crons /\ r = carried_row kept now (key r).
Proof.
  intros H%dedup_elem. rewrite sort_rows_perm in H. apply list_elem_of_fmap in H as (wc & -> & H).
  by rewrite carried_row_key.
Qed.
Lemma carried_keys kept crons now wc : wc ∈ crons -> wc ∈ map key (carried kept crons now).
Proof.
  intros H. unfold carried. apply (proj1 (dedup_keys _ _)). rewrite sort_rows_perm, <- (carried_row_key kept now wc).
  by apply list_elem_of_fmap_2, list_elem_of_fmap_2.
Qed.

(** What becomes of a row, and what fires of it. *)
Lemma fire_row_spec now branch sha r r' f :
  fire_row now branch sha r = (r', f) ->
  key r' = key r
  /\ match f with
     | Some f => exists at', next_at r = Some at' /\ at' <= now <= at' + GRACE
         /\ f = {| f_workflow := workflow r; f_cron := cron r; at_ := at'; git_ref := branch; f_sha := sha |}
         /\ last_at r' = Some at' /\ next_at r' = next_of (cron r) now (Some at')
     | None => last_at r' = last_at r
         /\ (r' = r /\ (forall n, next_at r = Some n -> now < n)
            \/ next_at r' = next_of (cron r) now (last_at r)
               /\ exists n, next_at r = Some n /\ n + GRACE < now)
     end.
Proof.
  unfold fire_row. destruct (next_at r) as [n|] eqn:En.
  - destruct (Z.leb_spec n now); [|intros [= <- <-]; split_and!; [done..|left]; split; [done|intros ? [= <-]; lia]].
    destruct (Z.ltb_spec GRACE (now - n)); intros [= <- <-]; (split; [done|]).
    + split; [done|]. right. split; [done|]. exists n. split; [done|lia].
    + exists n. by split_and!; [|lia|lia|..].
  - intros [= <- <-]. split_and!; [done..|left]. by split.
Qed.

End ScheduleFacts.

Module ScheduleSystem.

Import Cron CronFacts Schedule ScheduleFacts.

Local Open Scope Z_scope.

(** When a schedule of a repository fired, oldest first. *)
Definition fired_of (repo : str) (wc : str * str) (e : ci_event) : option Z :=
  if bool_decide (e_repo e = repo) && bool_decide ((f_workflow (e_fired e), f_cron (e_fired e)) = wc)
  then Some (at_ (e_fired e)) else None.
Definition times (repo : str) (wc : str * str) (events : list ci_event) : list Z :=
  omap (fired_of repo wc) events.

Definition apart_by (gap t u : Z) : Prop := t + gap <= u.

(** The event names a minute its cron fires at. *)
Definition cron_fires_at (text : str) (n : Z) : Prop :=
  exists c, parse text = Ok c /\ n mod 60 = 0 /\ fires_at c n = true.

Section system.
Variable sha256_hex : str -> str.

(** Two accounts of the same system: of every schedule, that no two fires are at one time;
    and of those a look never finds gone from the files, that they are five minutes apart. *)
Variable apart : bool.
Variable listed : str -> list (str * str) -> Prop.
Variable kept_listed : str -> str * str -> Prop.
Hypothesis Hlisted : apart = true ->
  forall repo crons wc, listed repo crons -> kept_listed repo wc -> wc ∈ crons.

Definition gap : Z := if apart then SHORTEST else 1.
Lemma gap_bounds : 1 <= gap <= SHORTEST.
Proof. unfold gap, SHORTEST. destruct apart; lia. Qed.

(** ** One schedule *)

Definition row_ok (r : ScheduleRow) : Prop := forall n, next_at r = Some n -> cron_fires_at (cron r) n.
Record spaced (r : ScheduleRow) (ts : list Z) : Prop := {
  sp_next : forall n t, next_at r = Some n -> t ∈ ts -> t + gap <= n;
  sp_last : apart = true -> forall t, t ∈ ts -> exists l, last_at r = Some l /\ t <= l;
}.

Lemma fire_row_ok now branch sha r r' f :
  fire_row now branch sha r = (r', f) -> row_ok r -> row_ok r'.
Proof.
  intros Hf Hok. destruct (fire_row_spec _ _ _ _ _ _ Hf) as [Hk H]. injection Hk as _ Hc.
  assert (Hm : forall last, next_at r' = next_of (cron r) now last -> row_ok r').
  { intros last E n En. rewrite E in En. apply next_of_found in En as (c & Hp & Hm & _ & _ & Hfi).
    exists c. by rewrite Hc. }
  destruct f as [f|]; [|destruct H as [_ [[-> _]|[Ea _]]]; [done|by eapply Hm]].
  destruct H as (n & _ & _ & _ & _ & Ea). by eapply Hm.
Qed.

Lemma sorted_snoc g ts n :
  StronglySorted (apart_by g) ts -> (forall t, t ∈ ts -> t + g <= n) -> StronglySorted (apart_by g) (ts ++ [n]).
Proof.
  induction 1 as [|t ts Hs IH Ht]; intros Hn; cbn; [by repeat constructor|]. constructor.
  - apply IH. intros u Hu. apply Hn. by right.
  - apply Forall_app. split; [done|]. constructor; [|constructor]. apply Hn. by left.
Qed.

Lemma fire_keeps now branch sha r r' f ts :
  fire_row now branch sha r = (r', f) -> row_ok r -> spaced r ts -> (forall t, t ∈ ts -> t <= now) ->
  StronglySorted (apart_by gap) ts ->
  let ts' := ts ++ option_list (at_ <$> f) in
  row_ok r' /\ spaced r' ts' /\ (forall t, t ∈ ts' -> t <= now) /\ StronglySorted (apart_by gap) ts'.
Proof.
  intros Hf Hok [Hn Hl] Hnow Hs. pose proof gap_bounds as Hg.
  destruct (fire_row_spec _ _ _ _ _ _ Hf) as [Hk H]. injection Hk as _ Hc.
  assert (Hm : forall last n, next_at r' = next_of (cron r) now last -> next_at r' = Some n ->
    cron_fires_at (cron r') n /\ now < n /\ forall l, last = Some l -> l + SHORTEST <= n).
  { intros last n E En. rewrite E in En. apply next_of_found in En as (c & Hp & Hm & Ha & Hla & Hfi).
    split; [exists c; by rewrite Hc|done]. }
  destruct f as [f|]; cbn.
  - destruct H as (n & En & Hw & -> & El & Ea). cbn.
    split_and!.
    + intros m Em. by destruct (Hm (Some n) m Ea Em).
    + split.
      * intros m t Em Ht. destruct (Hm (Some n) m Ea Em) as (_ & _ & Hm'). specialize (Hm' n eq_refl).
        apply elem_of_app in Ht as [Ht| ->%list_elem_of_singleton]; [specialize (Hn n t En Ht)|]; lia.
      * intros _ t Ht. exists n. split; [done|].
        apply elem_of_app in Ht as [Ht| ->%list_elem_of_singleton]; [specialize (Hn n t En Ht)|]; lia.
    + intros t [Ht| ->%list_elem_of_singleton]%elem_of_app; [by apply Hnow|lia].
    + apply sorted_snoc; [done|]. intros t Ht. by apply Hn.
  - rewrite app_nil_r. destruct H as (El & H). destruct H as [[-> H]|[Ea (n & En & Hw)]]; [by repeat split|].
    split_and!; [| |done..].
    + intros m Em. by destruct (Hm _ m Ea Em).
    + split.
      * intros m t Em Ht. destruct (Hm _ m Ea Em) as (_ & Ha & Hm'). unfold gap.
        destruct apart eqn:Eap; [|specialize (Hnow t Ht); lia].
        destruct (Hl eq_refl t Ht) as (l & E & Hle). specialize (Hm' l E). lia.
      * intros Ha t Ht. rewrite El. by apply Hl.
Qed.

(** ** What a write does *)

Lemma set_schedules_all repo rows t t' :
  set_schedules repo rows t = Some t' -> t' = t ++ map (pair repo) rows.
Proof.
  revert t. induction rows as [|r rows IH]; intros t; cbn; [intros [= <-]; by rewrite app_nil_r|].
  destruct (existsb _ t); [done|]. intros ->%IH. by rewrite <- app_assoc.
Qed.

Lemma schedules_elem repo s r : r ∈ schedules repo s <-> (repo, r) ∈ ci_schedules s.
Proof.
  unfold schedules. rewrite ScheduleFacts.sort_rows_perm, list_elem_of_fmap. split.
  - intros ([k x] & -> & H%list_elem_of_In). apply filter_In in H as [H Hk%bool_decide_eq_true].
    cbn in *. subst k. by apply list_elem_of_In.
  - intros H. exists (repo, r). split; [done|]. apply list_elem_of_In, filter_In.
    split; [by apply list_elem_of_In|]. by apply bool_decide_eq_true.
Qed.

Lemma of_repo_app (repo : str) (rows : list ScheduleRow) :
  map snd (List.filter (fun kv => bool_decide (kv.1 = repo)) (map (pair repo) rows)) = rows.
Proof.
  induction rows as [|r rows IH]; cbn; [done|]. rewrite bool_decide_eq_true_2 by done. cbn. by rewrite IH.
Qed.
Lemma filter_nothing {A} (f : A -> bool) l : (forall x, x ∈ l -> f x = false) -> List.filter f l = [].
Proof.
  induction l as [|x l IH]; intros H; cbn; [done|]. rewrite H by (by left). apply IH. intros y Hy. apply H. by right.
Qed.
Lemma filter_others {A} (f g : A -> bool) l :
  (forall x, f x = true -> g x = true) -> List.filter f (List.filter g l) = List.filter f l.
Proof.
  intros H. induction l as [|x l IH]; cbn; [done|]. destruct (g x) eqn:E; cbn; rewrite IH; [done|].
  destruct (f x) eqn:Ef; [|done]. rewrite H in E; done.
Qed.

Lemma times_app repo wc l l' : times repo wc (l ++ l') = times repo wc l ++ times repo wc l'.
Proof. apply omap_app. Qed.

(** The times a schedule has of the fires of one write. *)
Definition fired_times (wc : str * str) (fired : list Fired) : list Z :=
  omap (fun f => if bool_decide ((f_workflow f, f_cron f) = wc) then Some (at_ f) else None) fired.
Lemma times_written repo wc repo' fired :
  times repo wc (map (scheduled_event sha256_hex repo') fired)
  = if bool_decide (repo' = repo) then fired_times wc fired else [].
Proof.
  unfold times, fired_times. induction fired as [|f fired IH]; cbn; [by case_bool_decide|].
  rewrite IH. unfold fired_of. cbn. by case_bool_decide; [case_bool_decide|].
Qed.

Record written_by (repo claim : str) (w : written) (s s' : ci_store) : Prop := {
  wb_held : held repo claim s <> None;
  wb_events : ci_events s' = ci_events s ++ map (scheduled_event sha256_hex repo) (w_fired w);
  wb_rows : Permutation (schedules repo s') (w_rows w);
  wb_others : forall repo', repo' <> repo -> schedules repo' s' = schedules repo' s;
  wb_claims : forall repo' claim', held repo' claim' s' <> None -> repo' <> repo /\ held repo' claim' s <> None;
}.

Lemma finish_writes repo claim w dbnow s s' :
  finish_schedule sha256_hex repo claim w dbnow s = Ok (Some s') -> written_by repo claim w s s'.
Proof.
  unfold finish_schedule. destruct (held repo claim s) as [r|] eqn:Eh; [|done].
  destruct (set_schedules repo (w_rows w) _) as [t|] eqn:Et; [|done]. intros [= <-].
  apply set_schedules_all in Et as ->. split; cbn [ci_events ci_repos]; [by rewrite Eh|done| | |].
  - unfold schedules. cbn [ci_schedules]. rewrite ScheduleFacts.sort_rows_perm, List.filter_app, map_app, of_repo_app.
    rewrite (filter_nothing _ (List.filter _ (ci_schedules s))); [done|].
    intros x [_ Hx]%list_elem_of_In%filter_In. by apply negb_true_iff in Hx.
  - intros repo' Hne. unfold schedules. cbn [ci_schedules]. rewrite List.filter_app, map_app.
    rewrite (filter_nothing _ (map (pair repo) (w_rows w))).
    + rewrite app_nil_r, filter_others; [done|]. intros x Hx%bool_decide_eq_true.
      apply negb_true_iff, bool_decide_eq_false. congruence.
    + intros x (y & -> & _)%list_elem_of_fmap. by apply bool_decide_eq_false.
  - intros repo' claim'. unfold held. cbn. destruct (decide (repo' = repo)) as [->|Hne].
    + rewrite lookup_insert_eq. cbn. by rewrite bool_decide_eq_false_2.
    + by rewrite lookup_insert_ne.
Qed.

(** ** A repository's schedules *)

Record repo_ok (repo : str) (rows : list ScheduleRow) (ts : str * str -> list Z) : Prop := {
  ro_keys : NoDup (map key rows);
  ro_rows : forall r, r ∈ rows -> row_ok r;
  ro_spaced : forall r, r ∈ rows -> kept_listed repo (key r) -> spaced r (ts (key r));
  ro_sorted : forall wc, kept_listed repo wc -> StronglySorted (apart_by gap) (ts wc);
  ro_absent : apart = true -> forall wc, kept_listed repo wc -> wc ∉ map key rows -> ts wc = [];
}.

Lemma repo_ok_perm repo rows rows' ts ts' :
  Permutation rows rows' -> (forall wc, ts wc = ts' wc) -> repo_ok repo rows ts -> repo_ok repo rows' ts'.
Proof.
  intros Hp Ht [H1 H2 H3 H4 H5]. split.
  - by rewrite <- Hp.
  - intros r. rewrite <- Hp. apply H2.
  - intros r. rewrite <- Hp, <- Ht. apply H3.
  - intros wc. rewrite <- Ht. apply H4.
  - intros Ha wc. rewrite <- Hp, <- Ht. by apply H5.
Qed.

Lemma carried_ok repo kept crons now ts :
  repo_ok repo kept ts -> listed repo crons -> (forall wc t, t ∈ ts wc -> t <= now) ->
  repo_ok repo (carried kept crons now) ts.
Proof.
  intros [H1 H2 H3 H4 H5] Hcr Hnow.
  assert (Hnew : forall (wc : str * str) n, next_of wc.2 now None = Some n -> cron_fires_at wc.2 n /\ now < n).
  { intros wc n (c & Hp & Hm & Ha & _ & Hf)%next_of_found. split; [by exists c|done]. }
  split; [apply carried_distinct| | |done|].
  - intros r [_ ->]%carried_elem. unfold carried_row. destruct (kept_row kept (key r)) as [x|] eqn:E.
    + apply kept_row_Some in E as [E _]. by apply H2.
    + intros n Hn. by apply Hnew in Hn as [? _].
  - intros r Hr Hk. pose proof (carried_elem _ _ _ _ Hr) as [_ Er]. unfold carried_row in Er.
    destruct (kept_row kept (key r)) as [x|] eqn:E.
    + apply kept_row_Some in E as [E _]. subst x. by apply H3.
    + split.
      * intros n t Hn Ht. rewrite Er in Hn. apply Hnew in Hn as [_ Hn]. pose proof (Hnow _ _ Ht).
        unfold gap. destruct apart eqn:Ea; [|lia]. exfalso.
        rewrite (H5 eq_refl _ Hk) in Ht; [by apply elem_of_nil in Ht|by apply kept_row_None].
      * intros Ha t Ht. exfalso. rewrite (H5 Ha _ Hk) in Ht; [by apply elem_of_nil in Ht|by apply kept_row_None].
  - intros Ha wc Hk Habs. exfalso. apply Habs, carried_keys. by eapply Hlisted.
Qed.

Lemma distinct_keys (rows : list ScheduleRow) a b :
  NoDup (map key rows) -> a ∈ rows -> b ∈ rows -> key a = key b -> a = b.
Proof.
  intros Hd (i & Hi)%list_elem_of_lookup (j & Hj)%list_elem_of_lookup E.
  assert (i = j) as ->; [|congruence].
  apply (NoDup_lookup (map key rows) i j (key b) Hd); rewrite list_lookup_fmap.
  - rewrite Hi. cbn. by rewrite E.
  - by rewrite Hj.
Qed.

Lemma fired_times_app wc l l' : fired_times wc (l ++ l') = fired_times wc l ++ fired_times wc l'.
Proof. apply omap_app. Qed.
Lemma fired_times_one wc f :
  fired_times wc (option_list f)
  = option_list (match f with Some f => if bool_decide ((f_workflow f, f_cron f) = wc) then Some (at_ f) else None
                 | None => None end).
Proof. destruct f as [f|]; [|done]. unfold fired_times. cbn. by case_bool_decide. Qed.
Lemma fire_cons r rows now branch sha :
  (fire (r :: rows) now branch sha).2
  = option_list (fire_row now branch sha r).2 ++ (fire rows now branch sha).2.
Proof. unfold fire. cbn. by destruct (fire_row now branch sha r).2. Qed.
Lemma fired_key_row now branch sha r f :
  (fire_row now branch sha r).2 = Some f -> (f_workflow f, f_cron f) = key r.
Proof.
  destruct (fire_row now branch sha r) as [r' o] eqn:E. cbn. intros ->.
  by destruct (fire_row_spec _ _ _ _ _ _ E) as [_ (n & _ & _ & -> & _)].
Qed.

Lemma fired_times_none wc rows now branch sha :
  wc ∉ map key rows -> fired_times wc (fire rows now branch sha).2 = [].
Proof.
  induction rows as [|r rows IH]; [done|]. cbn [map]. rewrite not_elem_of_cons. intros [Hr Hn].
  rewrite fire_cons, fired_times_app, IH, app_nil_r, fired_times_one by done.
  destruct (fire_row now branch sha r).2 as [f|] eqn:E; [|done].
  rewrite (fired_key_row _ _ _ _ _ E). by rewrite bool_decide_eq_false_2.
Qed.
Lemma fired_times_row now branch sha rows r :
  NoDup (map key rows) -> r ∈ rows ->
  fired_times (key r) (fire rows now branch sha).2 = option_list (at_ <$> (fire_row now branch sha r).2).
Proof.
  induction rows as [|x rows IH]; [by intros _ ?%elem_of_nil|]. cbn [map]. intros [Hn Hd]%NoDup_cons Hr.
  rewrite fire_cons, fired_times_app, fired_times_one.
  apply elem_of_cons in Hr as [<-|Hr].
  - rewrite fired_times_none, app_nil_r by done.
    destruct (fire_row now branch sha r).2 as [f|] eqn:E; [|done].
    rewrite (fired_key_row _ _ _ _ _ E). by rewrite bool_decide_eq_true_2.
  - rewrite IH by done. destruct (fire_row now branch sha x).2 as [f|] eqn:E; [|done].
    rewrite (fired_key_row _ _ _ _ _ E), bool_decide_eq_false_2; [done|].
    intros Ek. apply Hn. rewrite Ek. by apply list_elem_of_fmap_2.
Qed.

Lemma fire_ok repo rows now branch sha ts :
  repo_ok repo rows ts -> (forall wc t, t ∈ ts wc -> t <= now) ->
  let w := fire rows now branch sha in
  let ts' := fun wc => ts wc ++ fired_times wc w.2 in
  repo_ok repo w.1 ts' /\ (forall wc t, t ∈ ts' wc -> t <= now)
  /\ Forall (fun f => cron_fires_at (f_cron f) (at_ f) /\ at_ f <= now) w.2.
Proof.
  intros [H1 H2 H3 H4 H5] Hnow. cbn zeta.
  assert (Hfired : forall f, f ∈ (fire rows now branch sha).2 -> cron_fires_at (f_cron f) (at_ f) /\ at_ f <= now).
  { intros f (r & Hr & E)%list_elem_of_omap. destruct (fire_row now branch sha r) as [r' o] eqn:Ef.
    cbn in E. subst o. destruct (fire_row_spec _ _ _ _ _ _ Ef) as [_ (n & En & Hw & -> & _)].
    cbn. split; [by apply H2|lia]. }
  assert (Hkey : forall r, key (fire_row now branch sha r).1 = key r).
  { intros r. destruct (fire_row now branch sha r) as [r' f] eqn:E.
    by destruct (fire_row_spec _ _ _ _ _ _ E) as [? _]. }
  assert (Hkeys : map key (fire rows now branch sha).1 = map key rows).
  { unfold fire. cbn [fst]. rewrite map_map. by apply map_ext. }
  assert (Hstep : forall r, r ∈ rows -> kept_listed repo (key r) ->
    spaced (fire_row now branch sha r).1 (ts (key r) ++ fired_times (key r) (fire rows now branch sha).2)
    /\ StronglySorted (apart_by gap) (ts (key r) ++ fired_times (key r) (fire rows now branch sha).2)).
  { intros r Hr Hk. rewrite fired_times_row by done.
    destruct (fire_row now branch sha r) as [r' f] eqn:E.
    by destruct (fire_keeps _ _ _ _ _ _ (ts (key r)) E (H2 _ Hr) (H3 _ Hr Hk) (Hnow _) (H4 _ Hk))
      as (_ & Hs & _ & Hso). }
  split_and!.
  - split.
    + by rewrite Hkeys.
    + intros x (r & -> & Hr)%list_elem_of_fmap. destruct (fire_row now branch sha r) as [r' f] eqn:E.
      by eapply (fire_row_ok _ _ _ _ _ _ E), H2.
    + intros x (r & -> & Hr)%list_elem_of_fmap. rewrite Hkey. intros Hk. by apply Hstep.
    + intros wc Hk. destruct (decide (wc ∈ map key rows)) as [(r & -> & Hr)%list_elem_of_fmap|Hn].
      * by apply Hstep.
      * rewrite fired_times_none, app_nil_r by done. by apply H4.
    + intros Ha wc Hk. rewrite Hkeys. intros Hn. rewrite fired_times_none, app_nil_r by done. by apply H5.
  - intros wc t [Ht|Ht]%elem_of_app; [by eapply Hnow|].
    unfold fired_times in Ht. apply list_elem_of_omap in Ht as (f & Hf & E).
    case_bool_decide; [|done]. injection E as <-. by eapply (Hfired f).
  - by apply Forall_forall.
Qed.

(** ** The invariant *)

Record look_ok (y : system) (claim : str) (l : looking) : Prop := {
  lk_clock : forall now, l_now l = Some now -> now <= clock y;
  lk_now : held (l_repo l) claim (db y) <> None -> forall now, l_now l = Some now ->
    forall wc t, t ∈ times (l_repo l) wc (ci_events (db y)) -> t <= now;
  lk_kept : held (l_repo l) claim (db y) <> None -> forall kept, l_kept l = Some kept ->
    kept = schedules (l_repo l) (db y);
}.

Record sys_ok (y : system) : Prop := {
  so_repos : forall repo, repo_ok repo (schedules repo (db y)) (fun wc => times repo wc (ci_events (db y)));
  so_fires : Forall (fun e => cron_fires_at (f_cron (e_fired e)) (at_ (e_fired e))) (ci_events (db y));
  so_clock : forall repo wc t, t ∈ times repo wc (ci_events (db y)) -> t <= clock y;
  so_looks : forall claim l, looks y !! claim = Some l -> look_ok y claim l;
}.

Lemma look_ok_same y y' claim l :
  look_ok y claim l -> clock y <= clock y' ->
  (held (l_repo l) claim (db y') <> None -> held (l_repo l) claim (db y) <> None
     /\ schedules (l_repo l) (db y') = schedules (l_repo l) (db y)
     /\ forall wc, times (l_repo l) wc (ci_events (db y')) = times (l_repo l) wc (ci_events (db y))) ->
  look_ok y' claim l.
Proof.
  intros [H1 H2 H3] Hc Hd. split.
  - intros now Hn. specialize (H1 now Hn). lia.
  - intros (Hh & _ & Ht)%Hd now Hn wc t. rewrite Ht. by apply H2.
  - intros (Hh & Hs & _)%Hd kept Hk. rewrite Hs. by apply H3.
Qed.

(** A step that leaves the schedules and the events as they are. *)
Lemma quiet_step y y' :
  sys_ok y -> ci_schedules (db y') = ci_schedules (db y) -> ci_events (db y') = ci_events (db y) ->
  clock y <= clock y' -> (forall claim l, looks y' !! claim = Some l -> look_ok y' claim l) -> sys_ok y'.
Proof.
  intros [H1 H2 H3 H4] Es Ee Hc Hl. split; [| | |exact Hl].
  - intros repo. unfold schedules. rewrite Es, Ee. apply H1.
  - by rewrite Ee.
  - intros repo wc t. rewrite Ee. intros Ht%H3. lia.
Qed.

Lemma held_same s s' repo claim :
  ci_schedules s' = ci_schedules s -> ci_events s' = ci_events s ->
  (held repo claim s' <> None -> held repo claim s <> None) ->
  held repo claim s' <> None -> held repo claim s <> None /\ schedules repo s' = schedules repo s
     /\ forall wc, times repo wc (ci_events s') = times repo wc (ci_events s).
Proof. intros Es Ee H Hh. split_and!; [by apply H| |by rewrite Ee]. unfold schedules. by rewrite Es. Qed.

Lemma claim_keeps claim dbnow s repo sha s' :
  claim_schedule claim dbnow s = (Some (repo, sha), s') ->
  ci_schedules s' = ci_schedules s /\ ci_events s' = ci_events s
  /\ forall repo' claim', claim' <> claim -> held repo' claim' s' <> None -> held repo' claim' s <> None.
Proof.
  unfold claim_schedule. destruct (most_overdue dbnow s) as [[id r]|]; [|done]. intros [= <- _ <-].
  split_and!; [done..|]. intros repo' claim' Hne. unfold held. cbn.
  destruct (decide (repo' = id)) as [->|].
  - rewrite lookup_insert_eq. cbn. rewrite bool_decide_eq_false_2; [done|]. by intros [=].
  - by rewrite lookup_insert_ne.
Qed.
Lemma fail_keeps repo claim why next dbnow s :
  let s' := (fail_schedule repo claim why next dbnow s).2 in
  ci_schedules s' = ci_schedules s /\ ci_events s' = ci_events s
  /\ forall repo' claim', held repo' claim' s' <> None -> held repo' claim' s <> None.
Proof.
  unfold fail_schedule. destruct (held repo claim s) as [r|]; cbn [snd]; [|done].
  split_and!; [done..|]. intros repo' claim'. unfold held. cbn.
  destruct (decide (repo' = repo)) as [->|].
  - rewrite lookup_insert_eq. cbn. by rewrite bool_decide_eq_false_2.
  - by rewrite lookup_insert_ne.
Qed.

(** Others' looks, where this replica's is over. *)
Lemma looks_left y claim claim' (l : looking) :
  delete claim (looks y) !! claim' = Some l -> claim' <> claim /\ looks y !! claim' = Some l.
Proof. intros H%lookup_delete_Some. naive_solver. Qed.
Lemma looks_set y claim claim' (l l' : looking) :
  <[claim := l]> (looks y) !! claim' = Some l' ->
  (claim' = claim /\ l' = l) \/ (claim' <> claim /\ looks y !! claim' = Some l').
Proof. intros H%lookup_insert_Some. naive_solver. Qed.

(** A write, of rows and fires that keep the repository's schedules as they should be. *)
Lemma write_keeps y y' claim repo w dbnow s :
  sys_ok y -> finish_schedule sha256_hex repo claim w dbnow (db y) = Ok s ->
  db y' = default (db y) s -> clock y' = clock y -> looks y' = delete claim (looks y) ->
  (held repo claim (db y) <> None ->
     repo_ok repo (w_rows w) (fun wc => times repo wc (ci_events (db y)) ++ fired_times wc (w_fired w))
     /\ Forall (fun f => cron_fires_at (f_cron f) (at_ f) /\ at_ f <= clock y) (w_fired w)) ->
  sys_ok y'.
Proof.
  intros Hy Hf Ed Ec El Hw. destruct s as [s|]; cbn in Ed.
  - apply finish_writes in Hf as [Hh He Hr Ho Hc]. destruct (Hw Hh) as [Hok Hfires]. destruct Hy as [H1 H2 H3 H4].
    rewrite <- Ed in *.
    assert (Ht : forall repo' wc, times repo' wc (ci_events (db y')) = times repo' wc (ci_events (db y))
       ++ if bool_decide (repo = repo') then fired_times wc (w_fired w) else []).
    { intros repo' wc. by rewrite He, times_app, times_written. }
    split; rewrite ?Ec.
    + intros repo'. destruct (decide (repo' = repo)) as [->|Hne].
      * eapply repo_ok_perm; [by symmetry| |exact Hok]. intros wc. by rewrite Ht, bool_decide_eq_true_2.
      * rewrite Ho by done. eapply repo_ok_perm; [done| |apply H1]. intros wc.
        by rewrite Ht, bool_decide_eq_false_2, app_nil_r by done.
    + rewrite He. apply Forall_app. split; [done|]. apply Forall_map. eapply Forall_impl; [exact Hfires|].
      by intros f [? _].
    + intros repo' wc t. rewrite Ht. intros [Hin|Hin]%elem_of_app; [by eapply H3|].
      case_bool_decide; [|by apply elem_of_nil in Hin].
      apply list_elem_of_omap in Hin as (f & Hin & E). case_bool_decide; [|done]. injection E as <-.
      rewrite Forall_forall in Hfires. by apply Hfires.
    + intros claim' l. rewrite El. intros [Hne Hl]%looks_left.
      apply (look_ok_same y); [by apply H4|by rewrite Ec|].
      intros [Hr' Hheld]%Hc. split_and!; [done|by apply Ho|]. intros wc.
      by rewrite Ht, bool_decide_eq_false_2, app_nil_r by done.
  - apply (quiet_step y); rewrite ?Ed, ?Ec; [done..|]. intros claim' l. rewrite El. intros [Hne Hl]%looks_left.
    apply (look_ok_same y); [by apply Hy|by rewrite Ec|]. rewrite Ed. by apply held_same.
Qed.

(** What a look writes, where what it read is still so. *)
Lemma look_keeps y claim l now kept branch sha crons :
  sys_ok y -> looks y !! claim = Some l -> l_now l = Some now -> l_kept l = Some kept ->
  listed (l_repo l) crons -> held (l_repo l) claim (db y) <> None ->
  let w := look (l_sha l) branch sha kept crons now in
  repo_ok (l_repo l) (w_rows w)
    (fun wc => times (l_repo l) wc (ci_events (db y)) ++ fired_times wc (w_fired w))
  /\ Forall (fun f => cron_fires_at (f_cron f) (at_ f) /\ at_ f <= clock y) (w_fired w).
Proof.
  intros [H1 H2 H3 H4] El En Ek Hcr Hh. destruct (H4 _ _ El) as [Hl1 Hl2 Hl3].
  specialize (Hl1 _ En). specialize (Hl2 Hh _ En). specialize (Hl3 Hh _ Ek). subst kept.
  unfold look. cbn zeta.
  set (rows := if bool_decide (l_sha l = Some sha) then _ else _).
  assert (Hrows : repo_ok (l_repo l) rows (fun wc => times (l_repo l) wc (ci_events (db y)))).
  { subst rows. case_bool_decide; [apply H1|]. apply carried_ok; [apply H1|done|done]. }
  destruct (fire_ok _ _ now branch sha _ Hrows Hl2) as (Hok & _ & Hf).
  destruct (fire rows now branch sha) as [rows' fired]. cbn in *. split; [done|].
  eapply Forall_impl; [exact Hf|]. cbn. intros f [? ?]. split; [done|lia].
Qed.

Lemma sys_step_keeps y y' : sys_ok y -> sys_step sha256_hex listed y y' -> sys_ok y'.
Proof.
  intros Hy [claim dbnow repo sha s Hn Hc|claim l now Hl Hnone Hle|claim l Hl Hnow Hk
    |claim l now kept branch sha crons dbnow s Hl En Ek Hcr Hf|claim l dbnow s Hl Hcr Hf
    |claim l why wait dbnow Hl|claim].
  - apply claim_keeps in Hc as (Es & Ee & Hh). apply (quiet_step y); [done..|apply Z.le_refl|].
    intros claim' l [[-> ->]|[Hne Hl]]%looks_set; [by split|].
    apply (look_ok_same y); [by apply Hy|apply Z.le_refl|]. apply held_same; [done..|]. by apply Hh.
  - apply (quiet_step y); [done..|]. intros claim' l' [[-> ->]|[Hne Hl']]%looks_set.
    + destruct Hy as [H1 H2 H3 H4]. destruct (H4 _ _ Hl) as [_ _ Hl3]. split; [|  |done].
      * intros n [= <-]. apply Z.le_refl.
      * intros Hh n [= <-] wc t Ht%H3. by etrans.
    + apply (look_ok_same y); [by apply Hy|done|]. by apply held_same.
  - apply (quiet_step y); [done..|apply Z.le_refl|]. intros claim' l' [[-> ->]|[Hne Hl']]%looks_set.
    + destruct Hy as [H1 H2 H3 H4]. destruct (H4 _ _ Hl) as [Hl1 Hl2 _]. split; [done..|].
      by intros _ kept [= <-].
    + apply (look_ok_same y); [by apply Hy|apply Z.le_refl|]. by apply held_same.
  - eapply (write_keeps y); [done..|]. intros Hh. by eapply look_keeps.
  - eapply (write_keeps y); [done..|]. intros Hh. cbn [w_rows w_fired look_nothing].
    destruct Hy as [H1 H2 H3 H4]. split; [|constructor]. apply (repo_ok_perm _ [] [] (fun wc => times (l_repo l) wc (ci_events (db y)))); [done| |].
    { intros wc. cbn. by rewrite app_nil_r. }
    destruct (H1 (l_repo l)) as [K1 K2 K3 K4 K5]. split; [apply NoDup_nil_2| | |exact K4|].
    + by intros r ?%elem_of_nil.
    + by intros r ?%elem_of_nil.
    + intros Ha wc Hk _. exfalso. pose proof (Hlisted Ha _ _ _ Hcr Hk) as Hin. by apply elem_of_nil in Hin.
  - destruct (fail_keeps (l_repo l) claim why (failed_wait wait) dbnow (db y)) as (Es & Ee & Hh).
    apply (quiet_step y); [done..|apply Z.le_refl|]. intros claim' l' [Hne Hl']%looks_left.
    apply (look_ok_same y); [by apply Hy|apply Z.le_refl|]. by apply held_same; [..|apply Hh].
  - apply (quiet_step y); [done..|apply Z.le_refl|]. intros claim' l' [Hne Hl']%looks_left.
    apply (look_ok_same y); [by apply Hy|apply Z.le_refl|]. by apply held_same.
Qed.

Lemma sys_reached y : reaches sha256_hex listed y -> sys_ok y.
Proof.
  intros (y0 & (Es & Ee & El) & H). assert (H0 : sys_ok y0).
  { split.
    - intros repo. unfold schedules. rewrite Es, Ee. split; [apply NoDup_nil_2| | | |done].
      + by intros r ?%elem_of_nil.
      + by intros r ?%elem_of_nil.
      + intros wc _. constructor.
    - by rewrite Ee.
    - rewrite Ee. by intros repo wc t ?%elem_of_nil.
    - intros claim l. by rewrite El, lookup_empty. }
  clear Es Ee El. induction H as [|y y1 y2 Hs _ IH]; [done|]. apply IH. by eapply sys_step_keeps.
Qed.

End system.

(** ** A write of rows with keys of their own is not refused *)

Lemma set_schedules_some repo rows t :
  NoDup (map key rows) -> (forall kv, kv ∈ t -> kv.1 = repo -> key kv.2 ∉ map key rows) ->
  set_schedules repo rows t <> None.
Proof.
  revert t. induction rows as [|r rows IH]; intros t Hd Ht; cbn; [done|].
  apply NoDup_cons in Hd as [Hr Hd]. destruct (existsb _ t) eqn:E.
  - apply existsb_exists in E as (kv & Hkv & [Hk%bool_decide_eq_true Hkey%bool_decide_eq_true]%andb_true_iff).
    destruct (Ht kv); [by apply list_elem_of_In|done|]. rewrite Hkey. by left.
  - apply IH; [done|]. intros kv [Hkv| ->%list_elem_of_singleton]%elem_of_app Hk; [|done].
    intros Hin. apply (Ht kv Hkv Hk). by right.
Qed.
Lemma finish_some sha256_hex repo claim w dbnow s :
  held repo claim s <> None -> NoDup (map key (w_rows w)) ->
  exists s', finish_schedule sha256_hex repo claim w dbnow s = Ok (Some s').
Proof.
  intros Hh Hd. unfold finish_schedule. destruct (held repo claim s) as [r|]; [|done].
  destruct (set_schedules repo (w_rows w) _) as [t|] eqn:E; [by eexists|].
  apply set_schedules_some in E; [done..|]. intros kv [_ Hkv]%list_elem_of_In%filter_In Hk.
  by rewrite Hk, bool_decide_eq_true_2 in Hkv.
Qed.

(** ** Once, and apart *)

Lemma sorted_weaken {A} (R S : relation A) l :
  (forall a b, R a b -> S a b) -> StronglySorted R l -> StronglySorted S l.
Proof.
  intros H. induction 1 as [|a l Hl IH Ha]; constructor; [done|]. eapply Forall_impl; [exact Ha|]. apply H.
Qed.

(** C25: However many replicas look at the repositories, in whatever order their reads and
    writes come, and whenever one stops or loses its claim, where no replica's clock is read
    behind what another has read before: every event of a schedule is at a minute its cron
    fires at, no later than the clock that queued it, and one schedule's events are at times
    that only grow, so that none fires twice. *)
Theorem fires_once sha256_hex listed y :
  reaches sha256_hex listed y ->
  (forall repo wc, StronglySorted Z.lt (times repo wc (ci_events (db y))))
  /\ Forall (fun e => cron_fires_at (f_cron (e_fired e)) (at_ (e_fired e)) /\ at_ (e_fired e) <= clock y)
       (ci_events (db y)).
Proof.
  intros H. destruct (sys_reached sha256_hex false listed (fun _ _ => True) ltac:(done) y H) as [H1 H2 H3 _].
  split.
  - intros repo wc. destruct (H1 repo) as [_ _ _ Hs _]. specialize (Hs wc I).
    eapply sorted_weaken; [|exact Hs]. unfold apart_by, gap. lia.
  - apply Forall_forall. intros e He. rewrite Forall_forall in H2. split; [by apply H2|].
    apply (H3 (e_repo e) (f_workflow (e_fired e), f_cron (e_fired e))).
    apply list_elem_of_omap. exists e. split; [done|]. unfold fired_of. by rewrite !bool_decide_eq_true_2.
Qed.

(** C26: A schedule its repository's files have at every look fires at most every five
    minutes, however many replicas look at them and in whatever order, where no clock is
    read behind another. *)
Theorem fires_apart sha256_hex listed repo wc y :
  reaches sha256_hex listed y -> (forall crons, listed repo crons -> wc ∈ crons) ->
  StronglySorted (apart_by SHORTEST) (times repo wc (ci_events (db y))).
Proof.
  intros H Hl. destruct (sys_reached sha256_hex true listed (fun r k => r = repo /\ k = wc)) with (y := y)
    as [H1 _ _ _]; [|done|].
  - intros _ r crons k Hr [-> ->]. by apply Hl.
  - destruct (H1 repo) as [_ _ _ Hs _]. by apply Hs.
Qed.

(** C27: A replica that still holds its claim writes what its look came to, and a schedule that
    was due when it read its clock, no more than the grace late, and is still in the files has
    then an event at that very time, at the head the look was told of. *)
Theorem due_fires sha256_hex listed y claim l now kept branch sha crons dbnow r n :
  reaches sha256_hex listed y ->
  looks y !! claim = Some l -> l_now l = Some now -> l_kept l = Some kept ->
  held (l_repo l) claim (db y) <> None -> listed (l_repo l) crons ->
  r ∈ kept -> next_at r = Some n -> n <= now <= n + GRACE -> l_sha l = Some sha \/ key r ∈ crons ->
  exists s e, finish_schedule sha256_hex (l_repo l) claim (look (l_sha l) branch sha kept crons now) dbnow (db y)
      = Ok (Some s)
    /\ e ∈ ci_events s /\ e_repo e = l_repo l
    /\ e_fired e = {| f_workflow := workflow r; f_cron := cron r; at_ := n; git_ref := branch; f_sha := sha |}.
Proof.
  intros H Hl En Ek Hh Hcr Hr Hn Hw Hin.
  pose proof (sys_reached sha256_hex false listed (fun _ _ => True) ltac:(done) y H) as Hy.
  destruct (look_keeps false listed (fun _ _ => True) ltac:(done) y claim l now kept branch sha crons Hy Hl En Ek Hcr Hh)
    as [[Hd _ _ _ _] _].
  destruct (finish_some sha256_hex (l_repo l) claim _ dbnow (db y) Hh Hd) as (s & Es).
  pose proof (finish_writes _ _ _ _ _ _ _ Es) as [_ He _ _ _].
  set (f := {| f_workflow := workflow r; f_cron := cron r; at_ := n; git_ref := branch; f_sha := sha |}).
  exists s, (scheduled_event sha256_hex (l_repo l) f). split_and!; [done| |done|done].
  rewrite He. apply elem_of_app. right. apply list_elem_of_fmap_2.
  assert (Hkept : NoDup (map key kept)).
  { destruct Hy as [H1 _ _ H4]. destruct (H4 _ _ Hl) as [_ _ Hk]. rewrite (Hk Hh _ Ek). apply H1. }
  unfold look. set (rows := if bool_decide (l_sha l = Some sha) then _ else _).
  assert (Hrow : r ∈ rows).
  { subst rows. case_bool_decide; [done|]. destruct Hin as [|Hin]; [done|].
    pose proof (carried_keys kept _ now _ Hin) as (x & Ex & Hx)%list_elem_of_fmap.
    destruct (carried_elem _ _ _ _ Hx) as [_ Er]. rewrite <- Ex in Er. unfold carried_row in Er.
    destruct (kept_row kept (key r)) as [x'|] eqn:E; [|by apply kept_row_None in E; destruct E; apply list_elem_of_fmap_2].
    apply kept_row_Some in E as [E Ekx]. subst x'. by rewrite (distinct_keys kept r x Hkept Hr E Ex). }
  destruct (fire rows now branch sha) as [rows' fired] eqn:E. cbn [w_fired].
  assert (fired = (fire rows now branch sha).2) as -> by (by rewrite E).
  unfold fire. cbn [snd]. apply list_elem_of_omap. exists r. split; [done|]. unfold fire_row. rewrite Hn.
  destruct (Z.leb_spec n now); [|lia]. destruct (Z.ltb_spec GRACE (now - n)); [lia|]. done.
Qed.

End ScheduleSystem.
