(* ===== verification/CronWitnesses.v ===== *)
(** * Crons and schedules, at concrete inputs

    The theorems of [CronFieldFacts] and [ScheduleSystem] at a cron and at a history of two
    replicas; and two crons the code reads otherwise than its comments say. *)

From S2P Require Import Tables Cron CronFacts Schedule ScheduleFacts.

Module CronWitnesses.

Import Cron CronFacts CronFieldFacts Schedule ScheduleFacts ScheduleSystem.

Local Open Scope Z_scope.

(** ** A cron *)

Definition december : cron_items := {|
  of_minute := [Range 0 30 (Some 10%N)];
  of_hour := [From 3 None; From 15 None];
  of_day := [Whole None];
  of_month := [From 12 None];
  of_weekday := [Whole None];
|}.
Lemma number low high names (t : str) n :
  parse_u32 t = Some n -> (low <= n <= high)%N -> denotes low high names t n.
Proof. intros Hp Hb. by right. Qed.
Lemma single low high names (t : str) n :
  denotes low high names t n -> item_text low high names (From n None) t.
Proof. intros H. pose proof (from_text low high names n t None [] H eq_refl) as Hi. by rewrite app_nil_r in Hi. Qed.
Lemma a_star low high names : items_text low high names $"*" [Whole None].
Proof.
  unfold items_text. change (split_char "," $"*") with [["*"%char]].
  apply Forall2_cons_2; [|apply Forall2_nil_2]. exact (whole_text low high names None [] eq_refl).
Qed.
Lemma december_text : cron_text $"0-30/10 3,15 * dec *" december.
Proof.
  exists $"0-30/10", $"3,15", $"*", $"dec", $"*". split; [by vm_compute|].
  unfold december. cbn [of_minute of_hour of_day of_month of_weekday].
  split; [|split; [|split; [apply a_star|split; [|apply a_star]]]]; unfold items_text.
  - change (split_char "," $"0-30/10") with [$"0" ++ "-"%char :: $"30" ++ "/"%char :: $"10"].
    apply Forall2_cons_2; [|apply Forall2_nil_2].
    apply range_text; [by apply number|by apply number|done|]. exists $"10". by split.
  - change (split_char "," $"3,15") with [$"3"; $"15"].
    apply Forall2_cons_2; [by apply single, number|].
    apply Forall2_cons_2; [by apply single, number|apply Forall2_nil_2].
  - change (split_char "," $"dec") with [$"dec"].
    apply Forall2_cons_2; [apply single|apply Forall2_nil_2]. left.
    exists 11%nat, $"DEC". split; [done|]. by split; vm_compute.
Qed.

Lemma whole_covers low high v :
  (Z.of_N low <= v <= Z.of_N high)%Z -> one_of low high [Whole None] v.
Proof. intros H. apply Exists_cons_hd. cbn. split; [lia|]. exists (Z.to_N v - low)%N. cbn. lia. Qed.

Lemma december_whole : stars_whole december.
Proof.
  split; intros _ v Hv; [apply whole_covers; cbn; lia|]. left. apply whole_covers. cbn. lia.
Qed.

Lemma cron_fires_witness :
  cron_text $"0-30/10 3,15 * dec *" december
  /\ exists c, parse $"0-30/10 3,15 * dec *" = Ok c /\ forall s, fires_at c s = true <-> fires_by december s.
Proof. split; [exact december_text|exact (proj2 (cron_fires _) _ december_text december_whole)]. Defined.

(** ** A history of two replicas

    The repository's schedule is read, comes due, and is found by the other replica; then
    the first fires it again. *)

Definition digest (t : str) : str := t.
Definition T0 : Z := 1792195200.
Definition every_5 : str * str := ($"w.yml", $"*/5 * * * *").
Definition lists (repo : str) (crons : list (str * str)) : Prop := every_5 ∈ crons.
Definition y0 : system := {|
  db := {| ci_repos := {[ $"r" := {| forge := $"github"; mode := $"compat"; disconnected_at := None;
             schedule_due_at := None; schedule_claim := None; schedule_sha := None; schedule_error := None |} ]};
           ci_schedules := []; ci_events := [] |};
  clock := 0; looks := ∅ |}.

Definition claimed (claim : str) (dbnow : time) (y : system) : system :=
  let s := claim_schedule claim dbnow (db y) in
  (y <| db := s.2 |>)
    <| looks ::= insert claim {| l_repo := $"r"; l_sha := match s.1 with Some rs => rs.2 | None => None end;
                                 l_now := None; l_kept := None |} |>.
Definition clocked (claim : str) (now : Z) (l : looking) (y : system) : system :=
  (y <| clock := now |>) <| looks ::= insert claim (l <| l_now := Some now |>) |>.
Definition read_kept (claim : str) (l : looking) (y : system) : system :=
  y <| looks ::= insert claim (l <| l_kept := Some (schedules (l_repo l) (db y)) |>) |>.
Definition look_of (claim : str) (y : system) : looking :=
  default {| l_repo := []; l_sha := None; l_now := None; l_kept := None |} (looks y !! claim).
Definition finish_of (claim sha : str) (crons : list (str * str)) (dbnow : time) (y : system) :=
  let l := look_of claim y in
  finish_schedule digest (l_repo l) claim
    (look (l_sha l) $"main" sha (default [] (l_kept l)) crons (default 0 (l_now l))) dbnow (db y).
Definition finished (claim sha : str) (crons : list (str * str)) (dbnow : time) (y : system) : system :=
  (y <| db := default (db y) (match finish_of claim sha crons dbnow y with Ok s => s | Err _ => None end) |>)
    <| looks ::= delete claim |>.

Definition read_by (claim : str) (dbnow now : Z) (y : system) : system :=
  let y := claimed claim dbnow y in
  let y := clocked claim now (look_of claim y) y in
  read_kept claim (look_of claim y) y.
Definition y1 : system := finished $"a" $"s1" [every_5] 1000 (read_by $"a" 0 T0 y0).
Definition y2 : system := read_by $"b" 400000 (T0 + 400) y1.
Definition y3 : system := finished $"b" $"s2" [every_5] 401000 y2.
Definition y4 : system := read_by $"a" 900000 (T0 + 700) y3.
Definition y5 : system := finished $"a" $"s2" [every_5] 901000 y4.

Lemma read_steps claim dbnow now y sha :
  looks y !! claim = None -> (claim_schedule claim dbnow (db y)).1 = Some ($"r", sha) -> clock y <= now ->
  rtc (sys_step digest lists) y (read_by claim dbnow now y).
Proof.
  intros Hn Hc Hle. unfold read_by. set (ya := claimed claim dbnow y).
  assert (Ha : looks ya !! claim = Some (look_of claim ya) /\ l_now (look_of claim ya) = None
    /\ l_kept (look_of claim ya) = None).
  { subst ya. unfold look_of, claimed. cbn. by rewrite lookup_insert_eq. }
  destruct Ha as (Hl & Hnow & Hk). set (yb := clocked claim now (look_of claim ya) ya).
  assert (Hb : looks yb !! claim = Some (look_of claim yb) /\ l_now (look_of claim yb) <> None
    /\ l_kept (look_of claim yb) = None).
  { subst yb. unfold clocked, look_of. cbn -[look_of]. by rewrite lookup_insert_eq. }
  destruct Hb as (Hl' & Hnow' & Hk').
  eapply rtc_l; [|eapply rtc_l; [|apply rtc_once]].
  - apply (step_claim _ _ y claim dbnow $"r" sha (claim_schedule claim dbnow (db y)).2); [done|].
    destruct (claim_schedule claim dbnow (db y)) as [c s]. cbn in *. by rewrite Hc.
  - assert (ya = (y <| db := (claim_schedule claim dbnow (db y)).2 |>)
      <| looks ::= insert claim {| l_repo := $"r"; l_sha := sha; l_now := None; l_kept := None |} |>) as <-
      by (subst ya; unfold claimed; by rewrite Hc).
    by apply step_now.
  - by apply step_read.
Qed.
Lemma finish_step claim sha dbnow y s now kept :
  looks y !! claim = Some (look_of claim y) -> l_now (look_of claim y) = Some now ->
  l_kept (look_of claim y) = Some kept -> finish_of claim sha [every_5] dbnow y = Ok s ->
  sys_step digest lists y (finished claim sha [every_5] dbnow y).
Proof.
  intros Hl En Ek Hf. unfold finished. rewrite Hf. unfold finish_of in Hf. rewrite En, Ek in Hf.
  eapply step_finish; [exact Hl|exact En|exact Ek| |exact Hf]. by left.
Qed.

Lemma y2_reached : reaches digest lists y2.
Proof.
  exists y0. split; [done|].
  etrans; [apply (read_steps $"a" 0 T0 y0 None); [done|by vm_compute|done]|].
  eapply rtc_l; [eapply (finish_step $"a" $"s1" 1000); by vm_compute|].
  apply (read_steps $"b" 400000 (T0 + 400) y1 (Some $"s1")); by vm_compute.
Qed.
Lemma y5_reached : reaches digest lists y5.
Proof.
  destruct y2_reached as (y & Hs & H). exists y. split; [done|]. etrans; [exact H|].
  eapply rtc_l; [eapply (finish_step $"b" $"s2" 401000); by vm_compute|].
  etrans; [apply (read_steps $"a" 900000 (T0 + 700) y3 (Some $"s2")); by vm_compute|].
  apply rtc_once. eapply (finish_step $"a" $"s2" 901000); by vm_compute.
Qed.

Lemma y5_times : times $"r" every_5 (ci_events (db y5)) = [T0 + 300; T0 + 600].
Proof. by vm_compute. Qed.

Lemma fires_once_witness :
  reaches digest lists y5
  /\ forall repo wc, Sorted.StronglySorted Z.lt (times repo wc (ci_events (db y5))).
Proof. split; [exact y5_reached|exact (proj1 (fires_once digest lists y5 y5_reached))]. Defined.

Lemma fires_apart_witness :
  reaches digest lists y5
  /\ Sorted.StronglySorted (apart_by SHORTEST) (times $"r" every_5 (ci_events (db y5))).
Proof.
  split; [exact y5_reached|]. apply (fires_apart digest lists $"r" every_5 y5 y5_reached).
  intros crons H. exact H.
Defined.

Definition due_row : ScheduleRow :=
  {| workflow := every_5.1; cron := every_5.2; next_at := Some (T0 + 300); last_at := None |}.
Lemma due_row_kept : due_row ∈ default [] (l_kept (look_of $"b" y2)).
Proof. assert (default [] (l_kept (look_of $"b" y2)) = [due_row]) as -> by (by vm_compute). by left. Qed.
Lemma y2_looks : looks y2 !! $"b" = Some (look_of $"b" y2).
Proof. by vm_compute. Qed.
Lemma y2_now : l_now (look_of $"b" y2) = Some (T0 + 400).
Proof. by vm_compute. Qed.
Lemma y2_kept : l_kept (look_of $"b" y2) = Some (default [] (l_kept (look_of $"b" y2))).
Proof. by vm_compute. Qed.
Lemma y2_held : held (l_repo (look_of $"b" y2)) $"b" (db y2) <> None.
Proof. assert (is_Some (held (l_repo (look_of $"b" y2)) $"b" (db y2))) as [r ->]; [|done].
  eexists. by vm_compute. Qed.
Lemma due_in_time : T0 + 300 <= T0 + 400 <= T0 + 300 + GRACE.
Proof. unfold GRACE. lia. Qed.
Lemma every_5_listed : lists (l_repo (look_of $"b" y2)) [every_5].
Proof. by left. Qed.
Lemma due_listed : l_sha (look_of $"b" y2) = Some $"s2" \/ key due_row ∈ [every_5].
Proof. right. by left. Qed.

Lemma due_fires_witness :
  reaches digest lists y2 /\ due_row ∈ default [] (l_kept (look_of $"b" y2))
  /\ exists s e, finish_of $"b" $"s2" [every_5] 401000 y2 = Ok (Some s)
       /\ e ∈ ci_events s /\ at_ (e_fired e) = T0 + 300.
Proof.
  split; [exact y2_reached|]. split; [exact due_row_kept|].
  destruct (due_fires digest lists y2 $"b" _ (T0 + 400) _ $"main" $"s2" [every_5] 401000 due_row (T0 + 300)
    y2_reached y2_looks y2_now y2_kept y2_held every_5_listed due_row_kept eq_refl due_in_time due_listed)
    as (s & e & Hf & He & _ & Ef).
  exists s, e. split; [|split; [exact He|by rewrite Ef]].
  unfold finish_of. rewrite y2_now. exact Hf.
Defined.

(** ** What is read otherwise than written *)

(** A step from a star in a day field is not looked at: the cron of every second day fires
    every day. *)
Lemma day_step_ignored :
  exists c, parse $"0 0 */2 * *" = Ok c /\ forall d, fires_at c (d * 86400) = true.
Proof.
  eexists. split; [vm_compute; reflexivity|]. intros d. unfold fires_at.
  rewrite Z.div_mul, Z_mod_mult by done. unfold day_ok, month_ok. cbn [days_restricted weekdays_restricted months].
  pose proof (civil_in_range d) as Hr. destruct (civil d) as [[y m] n].
  assert (m = 1 \/ m = 2 \/ m = 3 \/ m = 4 \/ m = 5 \/ m = 6 \/ m = 7 \/ m = 8 \/ m = 9 \/ m = 10
    \/ m = 11 \/ m = 12) as H by lia.
  by repeat (destruct H as [->|H]; [done|]); subst m.
Qed.

(** A cron of leap days, kept from after one that eight years pass to the next of: no time is
    found for it, and none is looked for again. *)
Lemma leap_day_lost :
  next_of $"0 0 29 2 *" (46080 * 86400 + 10) (Some (46080 * 86400)) = None
  /\ (exists c, parse $"0 0 29 2 *" = Ok c /\ fires_at c (49001 * 86400) = true /\ civil 49001 = (2104, 2, 29))
  /\ forall now branch sha,
       let r := {| workflow := $"a.yml"; cron := $"0 0 29 2 *"; next_at := None; last_at := Some (46080 * 86400) |} in
       fire_row now branch sha r = (r, None).
Proof.
  split; [by vm_compute|]. split; [|done]. eexists. split; [vm_compute; reflexivity|]. split; by vm_compute.
Qed.

End CronWitnesses.
