(* ===== verification/Nodelist.v ===== *)
(** * The names of a hostlist ([dagron-autopsy/src/nodelist.rs])

    Slurm writes a job's nodes as terms with bracketed ranges; the names they mean are made
    under a budget.  Text is its UTF-8 bytes: what the code looks for is ASCII.

    ** What a hostlist comes to

    A term under a budget is its names, made without one, where they fit; the names of a term
    with brackets are the product of their ranges; and a list is its terms, each with all its
    names or itself. *)

From S2P Require Import Prelude JsonPred.

Module Nodelist.

Definition MAX_RANGE : N := 1000000.
Definition MAX_NAMES : N := 1000000.
Definition MAX_DEPTH : nat := 32.

Definition OPEN : ascii := "["%char.
Definition CLOSE : ascii := "]"%char.

(** ** The terms of a list *)

(** The text so far as a term, unless it is blank. *)
Definition flush (cur : str) : list str :=
  let t := trim cur in if bool_decide (t = []) then [] else [t].

Fixpoint split_go (depth : nat) (cur s : str) : list str :=
  match s with
  | [] => flush cur
  | c :: s =>
      if ch c OPEN then split_go (S depth) (cur ++ [c]) s
      else if ch c CLOSE then split_go (pred depth) (cur ++ [c]) s
      else if ch c "," && (depth =? 0)%nat then flush cur ++ split_go depth [] s
      else split_go depth (cur ++ [c]) s
  end.
Definition split_top_level (nodes : str) : list str := split_go 0 [] (trim nodes).

(** ** One bracket *)

(** [{n:0width$}] *)
Definition padded (width : nat) (n : N) : str :=
  let d := show_N n in repeat "0"%char (width - length d) ++ d.
(** [a..=b], of [a] no more than [b]. *)
Definition inclusive (a b : N) : list N :=
  map (fun i => a + N.of_nat i)%N (seq 0 (N.to_nat (b - a + 1))).

Definition parse_part (part : str) : list str :=
  let part := trim part in
  if bool_decide (part = []) then []
  else
    match split_once $"-" part with
    | Some (lo, hi) =>
        let lo := trim lo in
        match parse_u64 lo, parse_u64 (trim hi) with
        | Some a, Some b =>
            if (b <? a)%N then [part]
            else if (MAX_RANGE <=? b - a)%N then [part]
            else map (padded (length lo)) (inclusive a b)
        | _, _ => [part]
        end
    | None => [part]
    end.
Definition parse_ranges (body : str) : list str := flat_map parse_part (split_char "," body).

(** ** One term *)

(** What is made so far, and the budget left. *)
Definition state : Type := list str * N.

Definition push (st : state) (name : str) : bool * state :=
  let '(out, remaining) := st in
  if (remaining =? 0)%N then (false, st) else (true, (out ++ [name], (remaining - 1)%N)).

(** The first bracket of a term: what is before it, in it and after it. *)
Definition bracket (term : str) : option (str * str * str) :=
  let* open := find_char OPEN term in
  let* close := find_char CLOSE (drop open term) in
  Some (take open term, take (close - 1) (drop (S open) term), drop (S (open + close)) term).

(** A loop over names that ends where one is refused. *)
Fixpoint each (f : str -> state -> bool * state) (names : list str) (st : state) : bool * state :=
  match names with
  | [] => (true, st)
  | n :: names =>
      match f n st with
      | (true, st) => each f names st
      | (false, st) => (false, st)
      end
  end.

(** [levels] is what [depth] leaves of [MAX_DEPTH]. *)
Fixpoint expand_term (levels : nat) (term : str) (st : state) : bool * state :=
  match levels with
  | O => (false, st)
  | S levels =>
      match bracket term with
      | None => push st term
      | Some (prefix, body, suffix) =>
          match parse_ranges body with
          | [] => push st term
          | names => each (fun n => expand_term levels (prefix ++ n ++ suffix)) names st
          end
      end
  end.

(** ** The whole list *)

Fixpoint expand_terms (terms : list str) (st : state) : list str :=
  match terms with
  | [] => st.1
  | term :: terms =>
      match expand_term MAX_DEPTH term st with
      | (true, st) => expand_terms terms st
      | (false, (_, remaining)) => expand_terms terms (st.1 ++ [term], remaining)
      end
  end.
Definition expand (nodes : str) : list str := expand_terms (split_top_level nodes) ([], MAX_NAMES).

(** ** What a node is known by *)

(** [s.rsplit_once(c)] *)
Definition rsplit_once (c : ascii) (s : str) : option (str * str) :=
  let* i := find_char c (rev s) in
  Some (rev (drop (S i) (rev s)), rev (take i (rev s))).
Definition normalize (host : str) : str :=
  let h := trim_end_char "." (trim host) in
  let h := match rsplit_once ":" h with
           | Some (head, port) =>
               if negb (bool_decide (port = [])) && forallb is_digit port then head else h
           | None => h
           end in
  to_lower (match split_char "." h with short :: _ => short | [] => h end).
Definition expand_normalized (nodes : str) : gset str := list_to_set (map normalize (expand nodes)).

(** The code's own tests. *)
Definition texts (l : list str) : list string := map String.string_of_list_ascii l.
Example sacct_forms : map (fun l => texts (expand l))
    [$"node1"; $"node[1-4]"; $"node-[01-04,07]"; $"gpu[01-02].cluster.local"; $"node[1,2],other"; $"r[1-2]n[1-2]"]
  = [["node1"]; ["node1"; "node2"; "node3"; "node4"];
     ["node-01"; "node-02"; "node-03"; "node-04"; "node-07"];
     ["gpu01.cluster.local"; "gpu02.cluster.local"]; ["node1"; "node2"; "other"];
     ["r1n1"; "r1n2"; "r2n1"; "r2n2"]]%string.
Proof. by vm_compute. Qed.
Example taken_literally : map (fun l => texts (expand l))
    [$"node[1-"; $"node[4-1]"; $"node[abc]"; $""; $"None assigned"; $"n[1-99999999]"; $"n[0-18446744073709551615]"]
  = [["node[1-"]; ["node4-1"]; ["nodeabc"]; []; ["None assigned"]; ["n1-99999999"];
     ["n0-18446744073709551615"]]%string.
Proof. by vm_compute. Qed.
Example one_name : map (fun h => normalize h) [$"node-47:9400"; $"Node-47.hpc.internal."; $"a:b"]
  = [$"node-47"; $"node-47"; $"a:b"].
Proof. by vm_compute. Qed.

End Nodelist.

Module NodelistFacts.

Import Nodelist.

(** ** The names of a term, without a budget

    They are made in order until a bracket is too deep, and the flag says that none was. *)

Fixpoint all (f : str -> list str * bool) (ns : list str) : list str * bool :=
  match ns with
  | [] => ([], true)
  | n :: ns => if (f n).2 then ((f n).1 ++ (all f ns).1, (all f ns).2) else ((f n).1, false)
  end.
Fixpoint names (levels : nat) (term : str) : list str * bool :=
  match levels with
  | O => ([], false)
  | S levels =>
      match bracket term with
      | None => ([term], true)
      | Some (prefix, body, suffix) =>
          match parse_ranges body with
          | [] => ([term], true)
          | ns => all (fun n => names levels (prefix ++ n ++ suffix)) ns
          end
      end
  end.

(** ** The budget *)

Definition spend (made : list str * bool) (st : state) : bool * state :=
  if (N.of_nat (length made.1) <=? st.2)%N
  then (made.2, (st.1 ++ made.1, (st.2 - N.of_nat (length made.1))%N))
  else (false, (st.1 ++ take (N.to_nat st.2) made.1, 0%N)).

Lemma spend_app l l' ok st :
  spend (l ++ l', ok) st =
  match spend (l, true) st with (true, st) => spend (l', ok) st | (false, st) => (false, st) end.
Proof.
  destruct st as [out r]. unfold spend. cbn [fst snd]. rewrite length_app.
  destruct (N.leb_spec (N.of_nat (length l)) r) as [H1|H1]; cbn [fst snd].
  - destruct (N.leb_spec (N.of_nat (length l')) (r - N.of_nat (length l))) as [H2|H2],
      (N.leb_spec (N.of_nat (length l + length l')) r) as [H3|H3]; try lia.
    + rewrite <- app_assoc. do 2 f_equal. lia.
    + rewrite <- app_assoc, take_app, (take_ge l) by lia. do 5 f_equal. lia.
  - destruct (N.leb_spec (N.of_nat (length l + length l')) r) as [H3|H3]; [lia|].
    rewrite take_app_le by lia. done.
Qed.
Lemma spend_nil ok st : spend ([], ok) st = (ok, st).
Proof.
  destruct st as [out r]. unfold spend. cbn [fst snd length].
  destruct (N.leb_spec (N.of_nat 0) r); [|lia]. by rewrite app_nil_r, N.sub_0_r.
Qed.
Lemma spend_over l st : spend (l, false) st = let '(_, st) := spend (l, true) st in (false, st).
Proof. unfold spend. cbn. by destruct (N.of_nat (length l) <=? st.2)%N. Qed.

Lemma each_spends f g ns st :
  (forall n st, f n st = spend (g n) st) -> each f ns st = spend (all g ns) st.
Proof.
  intros H. revert st. induction ns as [|n ns IH]; intros st; cbn [each all].
  - by rewrite spend_nil.
  - rewrite H. destruct (g n) as [l ok]. cbn [fst snd]. destruct ok.
    + rewrite spend_app. destruct (spend (l, true) st) as [[] st']; [|done]. rewrite IH.
      by destruct (all g ns).
    + rewrite spend_over. by destruct (spend (l, true) st).
Qed.

Lemma expand_term_spends levels term st : expand_term levels term st = spend (names levels term) st.
Proof.
  revert term st. induction levels as [|levels IH]; intros term st; cbn [expand_term names].
  - by rewrite spend_nil.
  - assert (Hp : push st term = spend ([term], true) st).
    { destruct st as [out r]. unfold push, spend. cbn [fst snd length].
      destruct (N.eqb_spec r 0) as [->|Hr]; [by cbn; rewrite app_nil_r|].
      destruct (N.leb_spec (N.of_nat 1) r); [done|lia]. }
    destruct (bracket term) as [[[prefix body] suffix]|]; [|done].
    destruct (parse_ranges body) as [|n ns]; [done|]. apply each_spends. intros n' st'. apply IH.
Qed.

(** ** A list *)

(** Each term by all its names where they fit in what is left of the budget, or by itself. *)
Fixpoint parts (terms : list str) (remaining : N) : list (list str) :=
  match terms with
  | [] => []
  | t :: terms =>
      let '(l, ok) := names MAX_DEPTH t in
      (if ok && (N.of_nat (length l) <=? remaining)%N then l else [t])
      :: parts terms (remaining - N.of_nat (length l))
  end.

Lemma expand_terms_parts terms out r :
  expand_terms terms (out, r) = out ++ concat (parts terms r).
Proof.
  revert out r. induction terms as [|t terms IH]; intros out r; [cbn; by rewrite app_nil_r|].
  cbn [expand_terms parts]. rewrite expand_term_spends. destruct (names MAX_DEPTH t) as [l ok].
  unfold spend. cbn [fst snd]. destruct (N.leb_spec (N.of_nat (length l)) r) as [H|H].
  - rewrite andb_true_r. destruct ok; rewrite IH, <- app_assoc; done.
  - rewrite andb_false_r, IH, <- app_assoc. replace (r - N.of_nat (length l))%N with 0%N by lia. done.
Qed.

Lemma parts_within terms r :
  (N.of_nat (length (concat (parts terms r))) <= r + N.of_nat (length terms))%N.
Proof.
  revert r. induction terms as [|t terms IH]; intros r; [cbn; lia|]. cbn [parts].
  destruct (names MAX_DEPTH t) as [l ok]. cbn [concat]. rewrite length_app.
  specialize (IH (r - N.of_nat (length l))%N). cbn [length].
  destruct (ok && (N.of_nat (length l) <=? r)%N) eqn:E; [|cbn [length]; lia].
  apply andb_true_iff in E as [_ E%N.leb_le]. lia.
Qed.
Lemma parts_all terms r :
  Forall2 (fun t p => p = [t] \/ names MAX_DEPTH t = (p, true)) terms (parts terms r).
Proof.
  revert r. induction terms as [|t terms IH]; intros r; cbn [parts]; [constructor|].
  destruct (names MAX_DEPTH t) as [l ok] eqn:E. constructor; [|apply IH].
  destruct ok; [|by left]. cbn [andb]. destruct (N.of_nat (length l) <=? r)%N; [by right|by left].
Qed.

(** A hostlist is never more than a million names and one for each of its terms, whatever
    its brackets, and no term of it is lost or cut short: each is there by all the names it
    means or by its own text. *)
Theorem expand_within (nodes : str) :
  (N.of_nat (length (expand nodes)) <= MAX_NAMES + N.of_nat (length (split_top_level nodes)))%N
  /\ exists ps, expand nodes = concat ps
       /\ Forall2 (fun t p => p = [t] \/ names MAX_DEPTH t = (p, true)) (split_top_level nodes) ps.
Proof.
  unfold expand. rewrite expand_terms_parts. split; [apply parts_within|].
  eexists. split; [done|apply parts_all].
Qed.

(** ** Brackets *)

Definition unbracketed (s : str) : Prop := OPEN ∉ s /\ CLOSE ∉ s.

Lemma unbracketed_app a b : unbracketed (a ++ b) <-> unbracketed a /\ unbracketed b.
Proof. unfold unbracketed. set_solver. Qed.

Lemma find_char_at c a r : c ∉ a -> find_char c (a ++ c :: r) = Some (length a).
Proof.
  induction a as [|d a IH]; cbn [app find_char length]; [by rewrite ch_refl|].
  rewrite not_elem_of_cons. intros [Hd Ha]. destruct (ch c d) eqn:E; [by apply ch_eq in E|]. by rewrite IH.
Qed.
Lemma find_char_nowhere c s : c ∉ s -> find_char c s = None.
Proof.
  induction s as [|d s IH]; cbn [find_char]; [done|]. rewrite not_elem_of_cons. intros [Hd Hs].
  destruct (ch c d) eqn:E; [by apply ch_eq in E|]. by rewrite IH.
Qed.

Lemma bracket_first p b rest :
  unbracketed p -> unbracketed b -> bracket (p ++ OPEN :: b ++ CLOSE :: rest) = Some (p, b, rest).
Proof.
  intros [Hp _] [_ Hb]. unfold bracket. rewrite find_char_at by done.
  rewrite drop_app_length.
  assert (find_char CLOSE (OPEN :: b ++ CLOSE :: rest) = Some (S (length b))) as ->.
  { apply (find_char_at CLOSE (OPEN :: b)). by rewrite not_elem_of_cons. }
  rewrite take_app_length.
  assert (E : forall n, drop (S (length p + n)) (p ++ OPEN :: b ++ CLOSE :: rest) = drop n (b ++ CLOSE :: rest)).
  { intros n. replace (p ++ OPEN :: b ++ CLOSE :: rest) with ((p ++ [OPEN]) ++ b ++ CLOSE :: rest)
      by (by rewrite <- app_assoc).
    rewrite drop_app_ge; rewrite length_app; cbn [length]; [f_equal; lia|lia]. }
  rewrite E. replace (S (length p)) with (S (length p + 0)) by lia. rewrite E, drop_0.
  rewrite Nat.sub_succ, Nat.sub_0_r, take_app_length.
  rewrite drop_app_ge by lia. by replace (S (length b) - length b) with 1 by lia.
Qed.
Lemma bracket_none s : unbracketed s -> bracket s = None.
Proof. intros [Ho _]. unfold bracket. by rewrite find_char_nowhere. Qed.

(** What a bracket's ranges name has no bracket of its own. *)
Lemma split_char_in d s p c : p ∈ split_char d s -> c ∈ p -> c ∈ s.
Proof.
  revert p. induction s as [|x s IH]; intros p; cbn [split_char].
  - intros ->%list_elem_of_singleton. done.
  - destruct (ch d x).
    + intros [->|Hp]%elem_of_cons Hc; [by apply elem_of_nil in Hc|]. right. by eapply IH.
    + destruct (split_char d s) as [|q qs].
      * intros ->%list_elem_of_singleton Hc. apply list_elem_of_singleton in Hc as ->. left.
      * intros [->|Hp]%elem_of_cons Hc; [|right; eapply IH; [by right|done]].
        apply elem_of_cons in Hc as [->|Hc]; [left|]. right. eapply IH; [by left|done].
Qed.
Lemma digits_unbracketed s : forallb is_digit s = true -> unbracketed s.
Proof.
  rewrite forallb_forall. intros H. by split; intros Hin; apply list_elem_of_In, H in Hin.
Qed.
Lemma padded_digits w n : forallb is_digit (padded w n) = true.
Proof.
  unfold padded. rewrite forallb_app. destruct (show_N_spec n) as (_ & -> & _). rewrite andb_true_r.
  apply forallb_forall. intros c Hc. apply repeat_spec in Hc. by subst.
Qed.
Lemma parse_part_unbracketed part :
  unbracketed part -> Forall unbracketed (parse_part part).
Proof.
  intros Hp. assert (Ht : unbracketed (trim part)).
  { destruct Hp as [H1 H2].
    assert (H : Forall (fun c => c <> OPEN /\ c <> CLOSE) (trim part))
      by (apply trim_forall, Forall_forall; intros c Hc; split; intros ->; done).
    rewrite Forall_forall in H. split; intros Hc; by apply H in Hc as [? ?]. }
  unfold parse_part. case_bool_decide; [constructor|].
  destruct (split_once _ _) as [[lo hi]|]; [|by constructor].
  destruct (parse_u64 (trim lo)) as [a|]; [|by constructor].
  destruct (parse_u64 (trim hi)) as [b|]; [|by constructor].
  destruct (b <? a)%N; [by constructor|]. destruct (MAX_RANGE <=? b - a)%N; [by constructor|].
  apply Forall_map, Forall_forall. intros n _. apply digits_unbracketed, padded_digits.
Qed.
Lemma parse_ranges_unbracketed body : unbracketed body -> Forall unbracketed (parse_ranges body).
Proof.
  intros [H1 H2]. unfold parse_ranges. apply Forall_forall. intros n Hn.
  apply list_elem_of_In, in_flat_map in Hn as (p & Hp & Hn). apply list_elem_of_In in Hp, Hn.
  assert (unbracketed p) as Hu by (split; intros Hc; eapply split_char_in in Hc; eauto).
  apply parse_part_unbracketed in Hu. rewrite Forall_forall in Hu. by apply Hu.
Qed.

(** ** The product of a term's brackets *)

(** A term: a text before each bracket, and what is in it; then the text after the last. *)
Definition term : Type := list (str * str) * str.
Fixpoint text_of (gs : list (str * str)) (last : str) : str :=
  match gs with
  | [] => last
  | (p, b) :: gs => p ++ OPEN :: b ++ CLOSE :: text_of gs last
  end.
Fixpoint product (gs : list (str * str)) (last : str) : list str :=
  match gs with
  | [] => [last]
  | (p, b) :: gs => flat_map (fun n => map (fun rest => p ++ n ++ rest) (product gs last)) (parse_ranges b)
  end.

Record well_bracketed (t : term) : Prop := {
  wb_groups : Forall (fun g => unbracketed g.1 /\ ","%char ∉ g.1 /\ unbracketed g.2 /\ parse_ranges g.2 <> []) t.1;
  wb_last : unbracketed t.2 /\ ","%char ∉ t.2;
  wb_depth : length t.1 < MAX_DEPTH;
  wb_text : trim (text_of t.1 t.2) = text_of t.1 t.2 /\ text_of t.1 t.2 <> [];
}.

Lemma all_true f g ns : (forall n, n ∈ ns -> f n = (g n, true)) -> all f ns = (flat_map g ns, true).
Proof.
  induction ns as [|n ns IH]; intros H; cbn [all flat_map]; [done|].
  rewrite (H n), IH; [done| |by left]. intros m Hm. apply H. by right.
Qed.

Lemma names_product gs last pre levels :
  Forall (fun g => unbracketed g.1 /\ ","%char ∉ g.1 /\ unbracketed g.2 /\ parse_ranges g.2 <> []) gs ->
  unbracketed last -> unbracketed pre -> length gs < levels ->
  names levels (pre ++ text_of gs last) = (map (app pre) (product gs last), true).
Proof.
  revert pre levels. induction gs as [|[p b] gs IH]; intros pre levels Hg Hl Hp Hlen;
    (destruct levels as [|levels]; [cbn in Hlen; lia|]); cbn [text_of product names].
  - rewrite bracket_none; [done|]. by apply unbracketed_app.
  - apply Forall_cons in Hg as [(H1 & _ & H2 & H3) Hg]. cbn [fst snd] in *.
    rewrite app_assoc, bracket_first by (rewrite ?unbracketed_app; done).
    pose proof (parse_ranges_unbracketed b H2) as Hu.
    destruct (parse_ranges b) as [|n ns]; [done|].
    rewrite (all_true _ (fun n => map (app ((pre ++ p) ++ n)) (product gs last))).
    + f_equal. rewrite !flat_map_concat_map, concat_map, map_map. f_equal. apply map_ext. intros m.
      rewrite map_map. apply map_ext. intros rest. by rewrite <- !app_assoc.
    + intros m Hm. rewrite app_assoc. apply IH; [done|done| |cbn in Hlen; lia].
      rewrite Forall_forall in Hu. apply unbracketed_app. split; [by apply unbracketed_app|by apply Hu].
Qed.

(** ** The terms of a text *)

Lemma split_go_inside depth cur b s :
  unbracketed b -> split_go (S depth) cur (b ++ s) = split_go (S depth) (cur ++ b) s.
Proof.
  revert cur. induction b as [|c b IH]; intros cur; [by rewrite app_nil_r|]. unfold unbracketed.
  rewrite !not_elem_of_cons. intros [[H1 H1'] [H2 H2']]. cbn [app split_go].
  destruct (ch c OPEN) eqn:E1; [by apply ch_eq in E1|]. destruct (ch c CLOSE) eqn:E2; [by apply ch_eq in E2|].
  rewrite andb_false_r, IH by done. by rewrite <- app_assoc.
Qed.
Lemma split_go_outside cur p s :
  unbracketed p -> ","%char ∉ p -> split_go 0 cur (p ++ s) = split_go 0 (cur ++ p) s.
Proof.
  revert cur. induction p as [|c p IH]; intros cur; [by rewrite app_nil_r|]. unfold unbracketed.
  rewrite !not_elem_of_cons. intros [[H1 H1'] [H2 H2']] [H3 H3']. cbn [app split_go].
  destruct (ch c OPEN) eqn:E1; [by apply ch_eq in E1|]. destruct (ch c CLOSE) eqn:E2; [by apply ch_eq in E2|].
  destruct (ch c ",") eqn:E3; [by apply ch_eq in E3|]. cbn [andb]. rewrite IH by done. by rewrite <- app_assoc.
Qed.
Lemma split_go_term gs last cur s :
  Forall (fun g => unbracketed g.1 /\ ","%char ∉ g.1 /\ unbracketed g.2 /\ parse_ranges g.2 <> []) gs ->
  unbracketed last -> ","%char ∉ last ->
  split_go 0 cur (text_of gs last ++ s) = split_go 0 (cur ++ text_of gs last) s.
Proof.
  intros Hg Hl Hc. revert cur. induction gs as [|[p b] gs IH]; intros cur; cbn [text_of].
  - by apply split_go_outside.
  - apply Forall_cons in Hg as [(H1 & H2 & H3 & _) Hg]. cbn [fst snd] in *.
    rewrite <- app_assoc, split_go_outside by done. cbn [app split_go]. rewrite ch_refl.
    rewrite <- (app_assoc b), (split_go_inside _ _ b) by done. cbn [app split_go].
    change (ch CLOSE OPEN) with false. rewrite ch_refl. cbn [pred].
    rewrite IH by done. by rewrite <- !app_assoc.
Qed.

Definition texts_of (ts : list term) : list str := map (fun t => text_of t.1 t.2) ts.

Lemma flush_term t : trim t = t -> t <> [] -> flush t = [t].
Proof. intros H0 H1. unfold flush. by rewrite H0, bool_decide_eq_false_2. Qed.
Lemma split_terms ts :
  Forall well_bracketed ts -> split_go 0 [] (join $"," (texts_of ts)) = texts_of ts.
Proof.
  induction ts as [|t ts IH]; [done|]. intros [[Hg [Hl Hc] _ [Ht H0]] Hts]%Forall_cons.
  destruct ts as [|t' ts].
  - cbn [texts_of map join]. rewrite <- (app_nil_r (text_of t.1 t.2)) at 1. rewrite split_go_term by done.
    cbn [split_go app]. by rewrite flush_term.
  - change (join $"," (texts_of (t :: t' :: ts)))
      with (text_of t.1 t.2 ++ ","%char :: join $"," (texts_of (t' :: ts))).
    rewrite split_go_term by done. cbn [split_go app].
    change (ch "," OPEN) with false. change (ch "," CLOSE) with false. rewrite ch_refl. cbn [andb Nat.eqb].
    rewrite flush_term, IH by done. done.
Qed.

Lemma parts_fit ts r :
  Forall well_bracketed ts ->
  (N.of_nat (length (flat_map (fun t => product t.1 t.2) ts)) <= r)%N ->
  concat (parts (texts_of ts) r) = flat_map (fun t => product t.1 t.2) ts.
Proof.
  intros H. revert r. induction H as [|t ts Ht Hts IH]; intros r Hr; [done|]. cbn [flat_map] in *.
  rewrite length_app in Hr. cbn [texts_of map parts].
  assert (names MAX_DEPTH (text_of t.1 t.2) = (product t.1 t.2, true)) as ->.
  { destruct Ht as [Hg [Hl _] Hd _]. pose proof (names_product t.1 t.2 [] MAX_DEPTH Hg Hl) as Hn.
    cbn [app] in Hn. rewrite Hn; [|by split; apply not_elem_of_nil|done]. f_equal. apply map_id. }
  assert (true && (N.of_nat (length (product t.1 t.2)) <=? r)%N = true) as ->
    by (apply N.leb_le; lia).
  cbn [concat]. f_equal. apply IH. lia.
Qed.

(** C34: A hostlist as Slurm writes one means the products of its terms: where every term is
    texts and brackets in turn, with fewer than 32 brackets, none in another, every bracket
    with a range or a name in it, and the names are within the budget, [expand] gives each
    term's names in order, the last bracket's fastest. *)
Theorem expand_product (ts : list term) :
  Forall well_bracketed ts -> trim (join $"," (texts_of ts)) = join $"," (texts_of ts) ->
  (N.of_nat (length (flat_map (fun t => product t.1 t.2) ts)) <= MAX_NAMES)%N ->
  expand (join $"," (texts_of ts)) = flat_map (fun t => product t.1 t.2) ts.
Proof.
  intros H Ht Hn. unfold expand, split_top_level. rewrite Ht, split_terms by done.
  rewrite expand_terms_parts. by apply parts_fit.
Qed.

(** ** One range *)

Lemma zeros_val k acc : digits_val acc (repeat "0"%char k) = (acc * 10 ^ N.of_nat k)%N.
Proof.
  revert acc. induction k as [|k IH]; intros acc; [cbn; lia|].
  rewrite Nat2N.inj_succ, N.pow_succ_r'. cbn [repeat]. unfold digits_val. cbn [fold_left].
  change (fold_left _ (repeat "0"%char k) ?x) with (digits_val x (repeat "0"%char k)).
  rewrite IH. change (digit_val "0") with 0%N. lia.
Qed.
Lemma padded_word w n : JsonPred.word (padded w n).
Proof.
  split.
  - unfold padded. intros [_ H]%app_nil. by apply show_N_spec in H.
  - apply Forall_forall. intros c Hc%list_elem_of_In. pose proof (padded_digits w n) as Hd.
    rewrite forallb_forall in Hd. specialize (Hd c Hc). unfold JsonPred.word_char, is_alnum.
    by rewrite Hd, orb_true_r.
Qed.
Lemma parse_padded w n : (n <= U64_MAX)%N -> parse_u64 (padded w n) = Some n.
Proof.
  intros Hn. unfold parse_u64, parse_unsigned. pose proof (padded_digits w n) as Hd.
  pose proof (padded_word w n) as [H0 _].
  assert (Hv : digits_val 0 (padded w n) = n).
  { unfold padded. rewrite digits_val_app, zeros_val. by apply show_N_spec. }
  destruct (padded w n) as [|c s]; [done|].
  assert (ch c "+" = false) as ->.
  { destruct (ch c "+") eqn:E; [|done]. apply ch_eq in E as ->. by cbn in Hd. }
  unfold parse_digits. rewrite Hd, Hv. by destruct (N.leb_spec n U64_MAX); [|lia].
Qed.

(** A range is the numbers from its first to its last, each as wide as the first is written. *)
Lemma range_names w w' a b :
  (a <= b)%N -> (b - a < MAX_RANGE)%N -> (b <= U64_MAX)%N ->
  parse_part (padded w a ++ $"-" ++ padded w' b) = map (padded (length (padded w a))) (inclusive a b).
Proof.
  intros Hab Hr Hb. unfold parse_part.
  assert (trim (padded w a ++ $"-" ++ padded w' b) = padded w a ++ $"-" ++ padded w' b) as ->.
  { apply JsonPred.word_trim. destruct (padded_word w a) as [H0 H1], (padded_word w' b) as [_ H2].
    split; [by intros [? _]%app_nil|]. rewrite !Forall_app. by split_and!; [|repeat constructor|]. }
  rewrite bool_decide_eq_false_2 by (intros [H _]%app_nil; by apply padded_word in H).
  change $"-" with ["-"%char]. rewrite JsonPred.split_once_at.
  - rewrite !JsonPred.word_trim, !parse_padded by (apply padded_word || lia).
    destruct (N.ltb_spec b a); [lia|]. by destruct (N.leb_spec MAX_RANGE (b - a)); [lia|].
  - intros Hin%list_elem_of_In. pose proof (padded_digits w a) as Hd. rewrite forallb_forall in Hd.
    by apply Hd in Hin.
Qed.

(** The cap on a range is on each part of a bracket: the names of a bracket are made, before
    the budget is asked, as many as its parts have. *)
Lemma bracket_uncapped k :
  length (parse_ranges (join $"," (replicate (S k) $"0-9"))) = 10 * S k.
Proof.
  unfold parse_ranges. change $"," with [","%char]. rewrite split_char_join; [|done|by apply Forall_replicate].
  induction k as [|k IH]; [by vm_compute|]. rewrite replicate_S. cbn [flat_map]. rewrite length_app, IH.
  change (length (parse_part $"0-9")) with 10. lia.
Qed.

(** ** At a hostlist *)

Definition rack : list term :=
  [([($"r", $"1-2"); ($"n", $"08-10,12")], $".hpc"); ([], $"login")].
Lemma rack_well : Forall well_bracketed rack.
Proof.
  assert (Hu : forall s, contains_char OPEN s = false -> contains_char CLOSE s = false -> unbracketed s)
    by (intros s H1 H2; split; by apply contains_char_false).
  assert (Hc : forall s, contains_char "," s = false -> ","%char ∉ s) by (intros s; apply contains_char_false).
  repeat constructor; cbn [fst snd]; try (by apply Hu); try (by apply Hc); try (by vm_compute); try lia.
Qed.
Lemma expand_product_witness :
  join $"," (texts_of rack) = $"r[1-2]n[08-10,12].hpc,login"
  /\ expand $"r[1-2]n[08-10,12].hpc,login" = flat_map (fun t => product t.1 t.2) rack.
Proof.
  split; [by vm_compute|].
  exact (expand_product rack rack_well ltac:(by vm_compute) ltac:(by vm_compute)).
Defined.

End NodelistFacts.
