(* ===== verification/Ratelimit.v ===== *)
(** * The limit on logins ([dagron-api/src/ratelimit.rs])

    A count for each client in windows of fixed length, swept of windows that are over when
    there are many.  A check is made under a lock, so that a history is a sequence of checks;
    each has the reading of the clock it took before, in nanoseconds.  Who a request is of is
    the caller's: a request is its key. *)

From S2P Require Import Prelude.
From coqutil Require Import Datatypes.RecordSettersUsingExistingGetters.

Module Ratelimit.

Local Open Scope Z_scope.

Definition DEFAULT_MAX : N := 30.
Definition DEFAULT_WINDOW_SECS : N := 60.
Definition SWEEP_THRESHOLD : nat := 4096.
Definition NANOS : Z := 1000000000.

Record Bucket := { started : Z; count : Z }.
(** The limiter's settings; its buckets are the state of a check. *)
Record RateLimiter := { max : Z; window : Z }.

(** The two settings, each as its variable has it or as its default. *)
Definition from_env (limit secs : option str) : RateLimiter :=
  let m := default DEFAULT_MAX (let* v := limit in parse_u32 v) in
  let w := default DEFAULT_WINDOW_SECS
    (let* v := secs in let* n := parse_u64 v in if (0 <? n)%N then Some n else None) in
  {| max := Z.of_N m; window := Z.of_N w * NANOS |}.

(** [now.duration_since(b.started)]: nothing where the bucket is ahead. *)
Definition since (now : Z) (b : Bucket) : Z := Z.max 0 (now - started b).

Definition U32 : Z := 2 ^ 32.
(** What a request makes of its client's bucket, one that is made where there is none. *)
Definition counted (l : RateLimiter) (now : Z) (b : option Bucket) : Bucket :=
  let b := default {| started := now; count := 0 |} b in
  let b := if window l <=? since now b then {| started := now; count := 0 |} else b in
  b <| count := (count b + 1) mod U32 |>.

Definition swept (l : RateLimiter) (now : Z) (buckets : gmap str Bucket) : gmap str Bucket :=
  if (SWEEP_THRESHOLD <? size buckets)%nat
  then filter (fun kb => since now kb.2 < window l) buckets
  else buckets.
Definition check (l : RateLimiter) (now : Z) (key : str) (buckets : gmap str Bucket)
    : bool * gmap str Bucket :=
  if max l =? 0 then (true, buckets)
  else
    let buckets := swept l now buckets in
    let b := counted l now (buckets !! key) in
    (count b <=? max l, <[key := b]> buckets).

(** What a rejected caller is told to wait, in seconds. *)
Definition retry_after_secs (l : RateLimiter) : Z := Z.max (window l / NANOS) 1.

(** ** Histories *)

(** The answers to a sequence of requests, each with its key. *)
Fixpoint checks (l : RateLimiter) (requests : list (Z * str)) (buckets : gmap str Bucket)
    : list (Z * str * bool) :=
  match requests with
  | [] => []
  | (now, key) :: requests =>
      let '(ok, buckets) := check l now key buckets in (now, key, ok) :: checks l requests buckets
  end.

(** One client, alone, with one bucket that is never swept. *)
Fixpoint alone (l : RateLimiter) (times : list Z) (b : option Bucket) : list (Z * bool) :=
  match times with
  | [] => []
  | now :: times =>
      if max l =? 0 then (now, true) :: alone l times b
      else
        let b := counted l now b in (now, count b <=? max l) :: alone l times (Some b)
  end.

Definition of_key {A} (key : str) (l : list (Z * str * A)) : list (Z * A) :=
  omap (fun x => if bool_decide (x.1.2 = key) then Some (x.1.1, x.2) else None) l.
Definition times_of (key : str) (requests : list (Z * str)) : list Z :=
  omap (fun r => if bool_decide (r.2 = key) then Some r.1 else None) requests.

(** The clock only goes forward from check to check. *)
Fixpoint in_time (from : Z) (times : list Z) : Prop :=
  match times with [] => True | t :: times => from <= t /\ in_time t times end.

(** ** No client is another's *)

(** A bucket a client has, or one that was swept: where it is gone, its window is over. *)
Definition stands_for (l : RateLimiter) (now : Z) (b : option Bucket) (kept : option Bucket) : Prop :=
  kept = b \/ (kept = None /\ exists x, b = Some x /\ window l <= now - started x).

Lemma counted_stands l now b kept :
  0 < window l -> stands_for l now b kept -> counted l now kept = counted l now b.
Proof.
  intros Hw [->|[-> (x & -> & Hx)]]; [done|]. unfold counted. cbn [default].
  assert ((window l <=? since now {| started := now; count := 0 |}) = false) as ->
    by (apply Z.leb_gt; unfold since; cbn; lia).
  assert ((window l <=? since now (id x)) = true) as -> by (apply Z.leb_le; unfold since, id; lia).
  done.
Qed.
Lemma stands_later l now now' b kept :
  now <= now' -> stands_for l now b kept -> stands_for l now' b kept.
Proof. intros Hn [->|[-> (x & -> & Hx)]]; [by left|right]. split; [done|]. exists x. split; [done|lia]. Qed.

Lemma swept_stands l now buckets b key :
  0 < window l -> stands_for l now b (buckets !! key) -> stands_for l now b (swept l now buckets !! key).
Proof.
  intros Hw H. unfold swept. destruct (SWEEP_THRESHOLD <? size buckets)%nat; [|done].
  destruct (filter (fun kb => since now kb.2 < window l) buckets !! key) as [x|] eqn:E.
  - apply map_lookup_filter_Some in E as [E _]. by rewrite E in H.
  - apply map_lookup_filter_None in E as [E|E]; [by rewrite E in H|].
    destruct H as [H|[H' Hx]]; [|by right]. destruct (buckets !! key) as [x|] eqn:Ek; [|by left].
    right. split; [done|]. exists x. split; [done|]. specialize (E x eq_refl). unfold since in E. cbn in E. lia.
Qed.

Lemma of_key_cons {A} key t k (x : A) l :
  of_key key ((t, k, x) :: l) = if bool_decide (k = key) then (t, x) :: of_key key l else of_key key l.
Proof. unfold of_key. cbn. by case_bool_decide. Qed.
Lemma times_of_cons key t k l :
  times_of key ((t, k) :: l) = if bool_decide (k = key) then t :: times_of key l else times_of key l.
Proof. unfold times_of. cbn. by case_bool_decide. Qed.

Lemma checks_alone l key now requests buckets b :
  0 < window l -> in_time now (map fst requests) -> stands_for l now b (buckets !! key) ->
  of_key key (checks l requests buckets) = alone l (times_of key requests) b.
Proof.
  intros Hw. revert now buckets b. induction requests as [|[t k] requests IH]; intros now buckets b Hin Hb; [done|].
  cbn [map fst in_time] in Hin. destruct Hin as [Ht Hin]. apply (stands_later l now t) in Hb; [|done].
  cbn [checks]. unfold check. rewrite times_of_cons.
  destruct (max l =? 0) eqn:E0; rewrite of_key_cons.
  - case_bool_decide; [cbn [alone]; rewrite E0; f_equal|]; by eapply IH.
  - apply swept_stands in Hb; [|done]. case_bool_decide as Ek.
    + subst k. cbn [alone]. rewrite E0, (counted_stands l t b) by done. f_equal.
      apply (IH t); [done|]. left. by rewrite lookup_insert_eq.
    + apply (IH t); [done|]. by rewrite lookup_insert_ne.
Qed.

(** The limit on one client is that client's alone, and the sweep is not seen: where the
    clock only goes forward, the answers a client gets among any others' requests are those
    of one bucket that is never swept, counting its requests only. *)
Theorem limited_alone l key requests :
  0 < window l -> in_time (hd 0 (map fst requests)) (map fst requests) ->
  of_key key (checks l requests ∅) = alone l (times_of key requests) None.
Proof.
  intros Hw Hin. eapply checks_alone; [done|exact Hin|]. left. apply lookup_empty.
Qed.

(** ** How much a client is let in *)

(** Those let in at a time in [[from, from + len)]. *)
Definition let_in (from len : Z) (answers : list (Z * bool)) : Z :=
  Z.of_nat (length (List.filter (fun a => a.2 && (from <=? a.1) && (a.1 <? from + len)) answers)).

Lemma let_in_cons from len t ok l :
  let_in from len ((t, ok) :: l)
  = (if ok && (from <=? t) && (t <? from + len) then 1 else 0) + let_in from len l.
Proof. unfold let_in. cbn [List.filter fst snd]. destruct (ok && _ && _); cbn [length]; lia. Qed.

(** What is left of a bucket's window. *)
Definition left_of (l : RateLimiter) (b : Bucket) : Z := Z.max 0 (max l - count b).

Section bound.
Variable l : RateLimiter.
Hypothesis Hmax : 0 < max l.
Hypothesis Hwin : 0 < window l.

(** A bucket as a step finds it, whose count cannot go round in the requests to come. *)
Definition fits (b : Bucket) (times : list Z) : Prop :=
  0 <= count b /\ count b + Z.of_nat (length times) < U32.

Lemma counted_cases now b times :
  fits b (now :: times) ->
  let b' := counted l now (Some b) in
  fits b' times /\
  ((now - started b < window l /\ started b' = started b /\ count b' = count b + 1)
   \/ (window l <= now - started b /\ started b' = now /\ count b' = 1)).
Proof.
  intros [H0 H1]. cbn zeta. unfold counted. cbn [default length] in *. unfold fits, U32 in *.
  change (2 ^ 32) with 4294967296 in *.
  destruct (Z.leb_spec (window l) (since now (id b))) as [H|H]; unfold since, id in H.
  - set (b' := _ <| count := _ |>). change (count b') with 1. change (started b') with now.
    split; [lia|]. right. split_and!; lia.
  - set (b' := _ <| count := _ |>). change (started b') with (started b).
    change (count b') with ((count b + 1) mod 4294967296).
    rewrite Z.mod_small by lia. split; [lia|]. left. split_and!; lia.
Qed.

Lemma in_time_from from times : in_time from times -> Forall (fun u => from <= u) times.
Proof.
  revert from. induction times as [|t times IH]; intros from; [constructor|]. intros [Ht H]. constructor; [done|].
  eapply Forall_impl; [by apply IH|]. cbn. lia.
Qed.

Lemma let_in_after from times b :
  Forall (fun u => from + window l <= u) times -> let_in from (window l) (alone l times b) = 0.
Proof.
  intros H. revert b. induction H as [|u times Hu H IH]; intros b; [done|]. cbn [alone].
  assert (E : (u <? from + window l) = false) by (apply Z.ltb_ge; done).
  destruct (max l =? 0); rewrite let_in_cons, E, andb_false_r, IH; done.
Qed.

(** A window that began in the interval is the last to begin in it. *)
Lemma let_in_last from b times :
  in_time from times -> fits b times -> from <= started b ->
  let_in from (window l) (alone l times (Some b)) <= left_of l b.
Proof.
  assert (E0 : (max l =? 0) = false) by (apply Z.eqb_neq; lia).
  revert b. induction times as [|t times IH]; intros b Hin Hf Hs; [unfold let_in, left_of; cbn; lia|].
  destruct (counted_cases t b times Hf) as [Hf' [(Hw & Es & Ec)|(Hw & Es & Ec)]].
  - cbn [alone]. rewrite E0, let_in_cons. destruct Hin as [Ht Hin].
    assert (Hin' : in_time from times) by (destruct times; [done|]; destruct Hin; split; [lia|done]).
    specialize (IH _ Hin' Hf' ltac:(lia)). unfold left_of in *. rewrite Ec in *.
    destruct (Z.leb_spec (count b + 1) (max l)); cbn [andb]; [|lia].
    destruct ((from <=? t) && (t <? from + window l)); lia.
  - rewrite let_in_after; [unfold left_of; lia|]. destruct Hin as [Ht Hin].
    constructor; [lia|]. eapply Forall_impl; [by apply in_time_from|]. cbn. lia.
Qed.

(** Two windows meet an interval of a window's length: one that began before it, and one in it. *)
Lemma let_in_two from b times :
  in_time from times -> fits b times ->
  let_in from (window l) (alone l times (Some b)) <= left_of l b + max l.
Proof.
  assert (E0 : (max l =? 0) = false) by (apply Z.eqb_neq; lia).
  revert b. induction times as [|t times IH]; intros b Hin Hf; [unfold let_in, left_of; cbn; lia|].
  destruct (counted_cases t b times Hf) as [Hf' Hc]. cbn [alone]. rewrite E0, let_in_cons.
  destruct Hin as [Ht Hin].
  assert (Hin' : in_time from times) by (destruct times; [done|]; destruct Hin; split; [lia|done]).
  destruct Hc as [(Hw & Es & Ec)|(Hw & Es & Ec)].
  - specialize (IH _ Hin' Hf'). unfold left_of in *. rewrite Ec in *.
    destruct (Z.leb_spec (count b + 1) (max l)); cbn [andb]; [|lia].
    destruct ((from <=? t) && (t <? from + window l)); lia.
  - pose proof (let_in_last from _ times Hin' Hf' ltac:(lia)) as H. unfold left_of in *. rewrite Ec in *.
    destruct (Z.leb_spec 1 (max l)); [|lia]. cbn [andb].
    destruct ((from <=? t) && (t <? from + window l)); lia.
Qed.

Lemma let_in_any from b times :
  in_time (hd 0 times) times -> fits b times ->
  let_in from (window l) (alone l times (Some b)) <= 2 * max l.
Proof.
  assert (E0 : (max l =? 0) = false) by (apply Z.eqb_neq; lia).
  revert b. induction times as [|t times IH]; intros b Hin Hf; [unfold let_in; cbn; lia|].
  destruct Hin as [_ Hin]. destruct (Z.leb_spec from t) as [Ht|Ht].
  - pose proof (let_in_two from b (t :: times)) as H. destruct Hf as [Hf0 Hf1].
    unfold left_of in H. specialize (H (conj Ht Hin) (conj Hf0 Hf1)). lia.
  - destruct (counted_cases t b times Hf) as [Hf' _]. cbn [alone]. rewrite E0, let_in_cons.
    destruct (Z.leb_spec from t); [lia|]. rewrite andb_false_r. cbn [andb].
    assert (Hh : in_time (hd 0 times) times) by (destruct times; [done|]; destruct Hin; by split).
    specialize (IH _ Hh Hf'). lia.
Qed.

End bound.

Lemma times_of_in_time key from requests :
  in_time from (map fst requests) -> in_time from (times_of key requests).
Proof.
  revert from. induction requests as [|[t k] requests IH]; intros from; [done|]. cbn [map fst in_time].
  intros [Ht H]. rewrite times_of_cons. case_bool_decide; [split; [done|by apply IH]|].
  apply IH in H. destruct (times_of key requests); [done|]. destruct H. split; [lia|done].
Qed.
Lemma times_of_length key requests : (length (times_of key requests) <= length requests)%nat.
Proof.
  induction requests as [|[t k] requests IH]; [done|]. rewrite times_of_cons. case_bool_decide; cbn [length]; lia.
Qed.

(** C35: A client is let in at most twice its limit in any time as long as a window, whatever
    else is asked and wherever the time begins: the clock goes forward, and the requests are
    fewer than a 32-bit count holds. *)
Theorem twice_at_most l key from requests :
  0 < max l -> 0 < window l -> in_time (hd 0 (map fst requests)) (map fst requests) ->
  Z.of_nat (length requests) < U32 ->
  let_in from (window l) (of_key key (checks l requests ∅)) <= 2 * max l.
Proof.
  intros Hm Hw Hin Hlen.
  rewrite (checks_alone l key _ requests ∅ None Hw Hin) by (left; apply lookup_empty).
  pose proof (times_of_length key requests) as Hl. apply (times_of_in_time key) in Hin.
  assert (Hh : in_time (hd 0 (times_of key requests)) (times_of key requests))
    by (destruct (times_of key requests); [done|]; destruct Hin; by split).
  destruct (times_of key requests) as [|t times]; [unfold let_in; cbn; lia|].
  assert (alone l (t :: times) None = alone l (t :: times) (Some {| started := t; count := 0 |})) as ->
    by (cbn [alone]; by rewrite (proj2 (Z.eqb_neq (max l) 0)) by lia).
  apply let_in_any; [done|done|done|]. unfold fits. cbn [count length] in *. lia.
Qed.

(** ** At some requests *)

Definition two_a_minute : RateLimiter := {| max := 2; window := 60 * NANOS |}.
Definition asked : list (Z * str) :=
  map (fun r => (r.1 * NANOS, lit r.2))
    [(0, "a"); (50, "a"); (55, "b"); (59, "a"); (60, "a"); (61, "a"); (62, "a")]%string.

(** Four in twelve seconds, of a limit of two a minute. *)
Lemma answers_of_a : map snd (of_key $"a" (checks two_a_minute asked ∅)) = [true; true; false; true; true; false].
Proof. by vm_compute. Qed.

Lemma limited_alone_witness :
  of_key $"a" (checks two_a_minute asked ∅) = alone two_a_minute (times_of $"a" asked) None.
Proof. apply limited_alone; [done|]. by vm_compute. Defined.
Lemma twice_at_most_witness :
  let_in (50 * NANOS) (60 * NANOS) (of_key $"a" (checks two_a_minute asked ∅)) <= 2 * 2.
Proof. apply (twice_at_most two_a_minute); [done|done| |done]. by vm_compute. Defined.

(** A caller refused a second before its window is over is told to wait the whole window. *)
Lemma told_to_wait : retry_after_secs two_a_minute = 60.
Proof. done. Qed.

End Ratelimit.
